(* ===== verification/_CoqProject ===== *)
-Q . S2P
Prelude.v
Numeral.v
Crypto.v
Chain.v
Hash.v
ScriptVM.v
ScriptVMFacts.v
ScriptStandard.v
ScriptStandardFacts.v
ScriptSpend.v
MultisigSpend.v
Block.v
Validation.v
BlockFacts.v
Utxo.v
Fixture.v
UtxoSupply.v
Malleability.v
Mempool.v
MempoolFacts.v
Storage.v
State.v
StateDb.v
StateChain.v
StateInv.v
StateProps.v
StateSubmit.v
StateWitness.v
StateErrors.v
StateTyped.v
Wallet.v
AssetCodec.v
AssetCodecFacts.v
AssetState.v
Settlement.v
Indexer.v
IndexerFacts.v
Store.v
PoolAccounting.v
PoolPayout.v
Json.v
Stratum.v
StratumConn.v
StratumInv.v
StratumProps.v
StratumWitness.v
Node.v
NodeRpc.v
NodeHttp.v
NodeFacts.v
NodeBanFacts.v
NodeServe.v
Relay.v
TxRelay.v
NodeWitness.v
Sync.v
SyncFacts.v
SyncWitness.v
Genesis.v
Cli.v
CliWallet.v
CliCommands.v
CliFacts.v
CliScripts.v
CliMultisig.v
CliSettlement.v
CliNode.v
CliWitness.v
Adapter.v
AdapterRpc.v
AdapterWithdraw.v
AdapterScan.v
AdapterNode.v
AdapterWitness.v
IndexerApi.v
PoolHttp.v
PoolHttpFacts.v
NodeCommands.v
HttpClients.v
