(* ===== verification/Prelude.v ===== *)
(** * Tensorium: a verification development

    Tensorium is a proof-of-work UTXO chain in Rust: a node, a mining pool, an
    asset indexer, a command-line wallet and an exchange adapter over one consensus library. This development
    translates the programs' own logic into Rocq definitions, operation by
    operation, and proves what makes them correct, together with the places where
    they are not. This file is the prelude every other file requires: results and
    early returns, panics, machine integers, byte strings, sums over maps, and the
    shared automation.

    ** The parts and the files that model them

    A file holds a component's definitions and, where it is not too long, the theorems about them;
    the others are in the files named after [with].

    Consensus library ([crates/tensorium-core/src], [crates/tensorium-tensorhash/src]):
    - parameters and emission: [Chain] (chain.rs, emission.rs);
    - hashes and the memory-hard proof of work: [Hash] (hash.rs, tensorhash/lib.rs);
    - scripts: [ScriptVM] (script/mod.rs, vm.rs), [ScriptStandard] (standard.rs), with
      [ScriptVMFacts], [ScriptStandardFacts], [ScriptSpend] and [MultisigSpend];
    - blocks: [Block] (block.rs, pow.rs), [Validation] (difficulty.rs, validation.rs), with
      [BlockFacts] and [Malleability];
    - the UTXO rules: [Utxo] (utxo.rs), with [UtxoSupply];
    - the mempool: [Mempool] (mempool.rs), with [MempoolFacts];
    - the chain state on its database: [Storage] (storage/mod.rs), [State] (state.rs,
      storage/migration.rs), with [StateDb] on the write batches, [StateChain] on the walks over
      stored blocks, [StateInv] on the invariant and its preservation, [StateProps] on the guarantees,
      [StateSubmit] on the retarget and the successful submissions, [StateErrors] on what a submission
      answers and what a refused block leaves, [StateTyped] with lemmas on the widths of stored values that the
      theorems about the wallet and the adapter use;
    - keys: [Wallet] (wallet.rs);
    - the asset overlay: [AssetCodec] (assets/mod.rs, codec.rs) with [AssetCodecFacts], [AssetState]
      (assets/state.rs), [Settlement] (settlement.rs).

    Asset indexer ([crates/tensorium-indexer/src]): [Indexer] (index.rs, sync.rs) with
    [IndexerFacts], [Store] (store.rs), [IndexerApi] (api.rs, rpc.rs).

    Mining pool ([crates/tensorium-pool/src]): [PoolAccounting] (accounting.rs), [PoolPayout]
    (payout.rs), [Stratum] and [StratumConn] (stratum.rs: the shared state, and one connection) with
    [StratumInv] and [StratumProps], [PoolHttp] (main.rs: the template and block proxies, connections,
    the client of the node, the configuration, the command line) with [PoolHttpFacts], where the pool
    and the node also run together.

    Node ([crates/tensorium-node/src/main.rs]): [Node] (ban list, handshake, peer messages) with
    [NodeBanFacts], [NodeRpc] (RPC handlers that change or build something) with [NodeFacts], [NodeHttp]
    (reading and parsing requests, lines of the peer protocol, the bind guard), [NodeServe] (read-only
    endpoints and the dispatch), [Relay] (whole connections, pushing blocks and transactions) with
    [TxRelay] on a payment from pool to chain, [Sync] (block download) with [SyncFacts], [Genesis] (the
    genesis nonce search), [NodeCommands] (the files under the state path, their migration, the
    command line). [HttpClients] has the HTTP clients of the node, the pool and the wallet.

    Command-line wallet ([crates/txmwallet/src/main.rs]): [Cli] (the transaction builders) with
    [CliFacts], [CliWallet] (the encrypted key file), [CliCommands] (the commands of [run]) with
    [CliScripts] on vesting locks and swaps, [CliMultisig] and [CliSettlement]; [CliNode] runs a command
    against the node's own RPC handlers.

    Exchange adapter ([crates/txm-rpc-adapter/src]): [Adapter] (wallet.rs, node.rs: amounts, keystore,
    withdrawals) with [AdapterWithdraw], [AdapterRpc] (scan.rs, main.rs) with [AdapterScan];
    [AdapterNode] runs it against the node's RPC handlers.

    [Crypto] and [Json] are the third-party crates, [Numeral] has decimal numbers as Rust prints and
    parses them. [Fixture] and the files named [...Witness] are concrete wallets, chains, commands and
    connections on which the theorems are applied by evaluation.

    ** How the parts interact

    The node opens the database for every message or request ([open_db]), so its state is the
    database, the mempool file and the ban list ([Node]); [submit_block] of [State] is the one way
    a block enters, from a peer, a miner or a synchronisation. [submit_block] calls [validate_block]
    and [apply_block], which runs scripts through [verify_script]. A template is made of the
    mempool's selection and [candidate]; the pool turns it into jobs, checks shares with the same
    header and hash, sends a found block back to the node and books its reward on the ledger that
    the payout scheduler empties. The indexer reads the canonical blocks and replays asset operations.
    The wallet and the adapter ask the node for outputs ([rpc_getutxos]), sign, and hand the
    transaction back ([rpc_sendrawtransaction]); the theorems about them compose both sides, so what
    the wallet builds is judged by the node's own handler and, once mined, by [verify_script].

    ** How the code is read

    - Every definition keeps the name of the function, type or constant it translates; the comment
      before it quotes the construct where the translation is not literal.
    - A [Result] is [result E A]; a method that mutates and may fail is [stateful S E A], whose state
      survives an error; code that can panic (slices, indexing, [unwrap]) returns [outcome A].
    - The release profile has no overflow checks: [+], [-], [*] on [u64] wrap ([add64], [sub64],
      [mul64]), shifts take their count modulo the width, [as] casts reduce; [saturating_*] and
      [checked_*] are written out. Integers are [Z] with the width where it matters.
    - Bytes are lists of [Z]; strings are [string] holding UTF-8 bytes.
    - A [HashMap] is a [gmap]; where the code iterates over one, the order is the parameter
      [IterOrder], any permutation of its content. [RocksDB] column families are [gmap]s, a write
      batch a list of operations applied at once.
    - Files are what they hold or why they cannot be read ([Files], [LedgerFile]); the failures of the
      disk are arguments ([DiskEnv]).
    - Third-party crates are parameters: [Crypto] (sha2, blake2, k256, bech32, hex) with the laws
      [CryptoLaws], [Json] (serde_json) with [JsonLaws], [WalletCipher] (argon2, chacha20poly1305)
      with [CipherLaws]; serde's parsers of typed bodies are arguments (the record [Bodies]), and so is
      what a socket delivered. Instances ([toy_crypto], [Tree.tree_json]) make every theorem
      applicable to concrete inputs.
    - A command of the wallet returns a value, an error text or panics: the monad [command].
    - Threads: the Stratum server's shared state changes by lock sections ([stratum_step]), between
      which the other connections may do anything of the kind; the genesis search is a step relation
      over its threads' accesses to the shared variables. The clock is read once per line, message or
      synchronisation.

    ** Fuel

    The interpreter runs one step per script byte, which is enough ([run_terminates_within_limits]).
    The walks over stored blocks run two steps more than there are blocks, enough for any ancestry
    ([ancestry_fuel]). [diff_to_bits] runs 64 rounds on 64 bits. [sync_loop] has fuel because it need
    not end: [sync_converges] gives some fuel that is enough against an honest peer that the
    conditions of [can_catch_up] hold of (heavier within one batch above our height, the same epoch
    seeds, a fork at most 1000 blocks below our tip and the rest), [sync_livelock] shows that no fuel is
    enough when the blocks a peer sends are all stored already.

    ** What is proved

    - Chain: the invariant of every reachable state; the UTXO set is the replay of the canonical
      chain; fork choice by work; one linked canonical chain; exact requeueing; difficulty from the
      block's own ancestry; [apply_block] refines declarative rules; no inflation and the supply cap;
      every outcome of a submission has its exact cause.
    - Files: migrating the JSON state of an older version keeps the chain and its UTXO set.
    - Scripts: who can spend a P2PKH or HTLC output, that who may can, termination within limits.
    - Mempool and mining: the pool's invariant; a mined template of the node is accepted.
    - Network: no connection of a peer harms the chain or bans another address; the ban policy;
      a block pushed to a peer on the same chain puts both on the same longer one; a payment relayed to
      another node is in the block mined there and, the block relayed back, confirmed on both;
      synchronisation adopts the chain of an honest peer, healing a fork of up to 1000 blocks, when that
      chain is heavier than ours within one batch (50 blocks) above our height and both sides have the
      same epoch seeds, among other conditions; otherwise it may never end.
    - RPC: a request is read whole however the socket cuts it; whatever a connection sends, the chain
      stays good and the ban list changes only under the admin token; responses are read back.
    - Pool: the connection handler refines a protocol of atomic steps whose invariant bounds the share
      window; verdicts agree with consensus; rewards are split exactly; payouts mark what they paid;
      an HTTP connection adds at most the entry of a block the node accepted.
    - Assets: conservation, settlement, wire and snapshot round trips, the indexer's scan equals a
      rebuild, the node's check of a transfer over the indexer's API is the ledger's own.
    - Wallet: a covered payment is relayed by the node and pays exactly what was asked; vesting, atomic
      swaps and multisig spends complete and are enforced by consensus; a new passphrase keeps the key.
    - Adapter: a covered withdrawal is relayed; a scan leaves the deposits of the canonical chain in
      a ledger that has so far followed a beginning of that same chain; printed amounts are read back to the atom.
    - Clients: each HTTP client reads back what a server answers.
    - Genesis: the search and the node agree, in every interleaving.
    - Defects: outputs outside the signature, coinbase outputs outside the header, rewards booked for
      forged submissions, replayed shares, dropped blocks, a synchronisation that never ends, a sale
      whose price the seller pays, script hashes of large multisigs that cannot be spent, a deposit
      ledger blind to reorganisations, payouts recorded by hand that the pool forgets, an old chain
      shadowed by an empty database, jobs broadcast twice by two pollers.

    ** Not modelled

    Sockets (what they deliver is an argument), the text of JSON answers and the layout of printed
    lines, the values of the database as bincode writes them, threads' start and end, file names, help
    texts and progress, floating-point percentages and amounts shown as floats. The Solidity contracts, the
    CUDA and Stratum miners under [tools] and the web pages are other languages. *)

From stdpp Require Export base tactics list gmap strings numbers option sorting pretty.
From Stdlib Require Export ZArith Lia.

Local Open Scope Z_scope.

(** ** Results and early returns *)

(** Rust's [Result<A, E>]. *)
Inductive result (E A : Type) :=
| Ok (a : A)
| Err (e : E).
Arguments Ok {E A} a.
Arguments Err {E A} e.

#[export] Instance result_ret E : MRet (result E) := λ A a, Ok a.
#[export] Instance result_bind E : MBind (result E) := λ A B f m,
  match m with Ok a => f a | Err e => Err e end.

#[export] Instance result_eq_dec E A `{EqDecision E, EqDecision A} :
  EqDecision (result E A).
Proof. solve_decision. Defined.

(** [opt.ok_or(e)?] *)
Definition ok_or {E A} (o : option A) (e : E) : result E A :=
  match o with Some a => Ok a | None => Err e end.

(** [res.map_err(|_| e)?] *)
Definition map_err {E F A} (r : result E A) (f : E -> F) : result F A :=
  match r with Ok a => Ok a | Err e => Err (f e) end.

(** [if cond { return Err(e) }] *)
Definition reject_if {E} (c : bool) (e : E) : result E () :=
  if c then Err e else Ok ().

(** A computation that Rust may abort with a panic (slice index out of range,
    [unwrap] of [None]). *)
Inductive outcome (A : Type) :=
| Done (a : A)
| Panic.
Arguments Done {A} a.
Arguments Panic {A}.

#[export] Instance outcome_eq_dec A `{EqDecision A} : EqDecision (outcome A).
Proof. solve_decision. Defined.

#[export] Instance outcome_ret : MRet outcome := λ A a, Done a.
#[export] Instance outcome_bind : MBind outcome := λ A B f m,
  match m with Done a => f a | Panic => Panic end.

(** State passing with errors: a [&mut self] method that returns a [Result].
    The state survives an error, as the mutations made before it do. *)
Definition stateful (S E A : Type) : Type := S -> S * result E A.

#[export] Instance stateful_ret S E : MRet (stateful S E) := λ A a s, (s, Ok a).
#[export] Instance stateful_bind S E : MBind (stateful S E) := λ A B f m s,
  match m s with
  | (s', Ok a) => f a s'
  | (s', Err e) => (s', Err e)
  end.

Definition get_state {S E} : stateful S E S := λ s, (s, Ok s).
Definition put_state {S E} (s' : S) : stateful S E () := λ _, (s', Ok ()).
Definition modify {S E} (f : S -> S) : stateful S E () := λ s, (f s, Ok ()).
Definition lift_result {S E A} (r : result E A) : stateful S E A := λ s, (s, r).

Section result_lemmas.
Context {E A B : Type}.

Lemma bind_Ok (m : result E A) (f : A -> result E B) b :
  m ≫= f = Ok b <-> exists a, m = Ok a /\ f a = Ok b.
Proof. destruct m; split; naive_solver. Qed.

Lemma bind_Err (m : result E A) (f : A -> result E B) e :
  m ≫= f = Err e <-> m = Err e \/ exists a, m = Ok a /\ f a = Err e.
Proof. destruct m; split; naive_solver. Qed.

Lemma reject_if_Ok (c : bool) (e : E) u : reject_if c e = Ok u <-> c = false.
Proof. unfold reject_if; destruct c, u; naive_solver. Qed.

Lemma ok_or_Ok (o : option A) (e : E) a : ok_or o e = Ok a <-> o = Some a.
Proof. destruct o; naive_solver. Qed.

Lemma stateful_bind_Ok {S} (m : stateful S E A) (f : A -> stateful S E B) s s' b :
  (m ≫= f) s = (s', Ok b) <-> exists a s1, m s = (s1, Ok a) /\ f a s1 = (s', Ok b).
Proof.
  unfold mbind, stateful_bind. destruct (m s) as [s1 [a|e]]; split; naive_solver.
Qed.
End result_lemmas.

(** Name the state of a computation from its result, without evaluating the state. *)
Lemma pair_with {A B} (p : A * B) b : p.2 = b -> p = (p.1, b).
Proof. destruct p; simpl; congruence. Qed.

(** [ensures P Q m]: [m] returns a value in [P] or an error in [Q]. Compositional
    reasoning about a handler, without enumerating its paths. *)
Definition ensures {E A} (P : A -> Prop) (Q : E -> Prop) (m : result E A) : Prop :=
  match m with Ok a => P a | Err e => Q e end.

Section ensures.
Context {E A B : Type} (Q : E -> Prop).

Lemma ensures_bind (m : result E A) (f : A -> result E B) P :
  ensures (λ a, ensures P Q (f a)) Q m -> ensures P Q (m ≫= f).
Proof. by destruct m. Qed.

Lemma ensures_reject_if (c : bool) (e : E) P :
  (c = false -> P ()) -> (c = true -> Q e) -> ensures P Q (reject_if c e).
Proof. destruct c; simpl; auto. Qed.

Lemma ensures_ok_or (o : option A) (e : E) P :
  (forall a, o = Some a -> P a) -> (o = None -> Q e) -> ensures P Q (ok_or o e).
Proof. destruct o; simpl; auto. Qed.

Lemma ensures_weaken (m : result E A) (P P' : A -> Prop) :
  ensures P Q m -> (forall a, P a -> P' a) -> ensures P' Q m.
Proof. destruct m; simpl; auto. Qed.

Lemma ensures_Ok (m : result E A) (P : A -> Prop) a : ensures P Q m -> m = Ok a -> P a.
Proof. by intros H ->. Qed.

Lemma ensures_Err (m : result E A) (P : A -> Prop) e : ensures P Q m -> m = Err e -> Q e.
Proof. by intros H ->. Qed.
End ensures.

(** Decompose a successful monadic computation into the success of its steps. *)
Ltac inv_ok H :=
  repeat match type of H with
  | (_ ≫= _) = Ok _ =>
      let a := fresh "a" in let Ha := fresh "Hok" in
      apply bind_Ok in H; destruct H as (a & Ha & H);
      first [ apply reject_if_Ok in Ha | apply ok_or_Ok in Ha | idtac ]
  end.

(** ** Machine integers

    A [u64] is a [Z]; [add64] and friends wrap (a release build has no overflow
    checks), the [sat_] operations saturate. *)
Definition U64_MOD : Z := 18446744073709551616.
Definition U64_MAX : Z := 18446744073709551615.
Definition U32_MOD : Z := 4294967296.

Definition is_u64 (x : Z) : Prop := 0 <= x < U64_MOD.
Definition is_u8 (x : Z) : Prop := 0 <= x < 256.

Definition add64 (a b : Z) : Z := (a + b) mod U64_MOD.
Definition sub64 (a b : Z) : Z := (a - b) mod U64_MOD.
Definition mul64 (a b : Z) : Z := (a * b) mod U64_MOD.
(** [a >> n] on [u64]; the hardware (and release Rust) masks the shift count. *)
Definition shr64 (a n : Z) : Z := Z.shiftr a (n mod 64).
Definition shl64 (a n : Z) : Z := Z.shiftl a (n mod 64) mod U64_MOD.

Definition sat_add64 (a b : Z) : Z := Z.min (a + b) U64_MAX.
Definition sat_sub64 (a b : Z) : Z := Z.max (a - b) 0.
Definition sat_mul64 (a b : Z) : Z := Z.min (a * b) U64_MAX.

#[export] Instance is_u64_dec x : Decision (is_u64 x).
Proof. unfold is_u64; apply _. Defined.
#[export] Instance is_u8_dec x : Decision (is_u8 x).
Proof. unfold is_u8; apply _. Defined.

(** Arithmetic solver: unfolds the width operations and calls [lia]. *)
Ltac u64_unfold :=
  unfold is_u64, is_u8, add64, sub64, mul64, sat_add64, sat_sub64, sat_mul64,
    U64_MOD, U64_MAX, U32_MOD in *.
Ltac u64_lia := u64_unfold; Z.div_mod_to_equations; lia.

Lemma add64_small a b : 0 <= a + b < U64_MOD -> add64 a b = a + b.
Proof. apply Z.mod_small. Qed.

Lemma sub64_small a b : 0 <= a - b < U64_MOD -> sub64 a b = a - b.
Proof. apply Z.mod_small. Qed.

Lemma sat_add64_small a b : a + b <= U64_MAX -> sat_add64 a b = a + b.
Proof. unfold sat_add64; lia. Qed.

Lemma sat_add64_range a b : 0 <= a -> 0 <= b -> is_u64 (sat_add64 a b).
Proof. u64_lia. Qed.

(** ** Byte strings *)
Abbreviation bytes := (list Z).

Definition bytes_ok (bs : bytes) : Prop := Forall is_u8 bs.

#[export] Instance bytes_ok_dec bs : Decision (bytes_ok bs).
Proof. unfold bytes_ok; apply _. Defined.

(** [x.to_le_bytes()] for an [n]-byte integer, and its inverse. *)
Fixpoint le_bytes (n : nat) (x : Z) : bytes :=
  match n with
  | O => []
  | S n => x mod 256 :: le_bytes n (x / 256)
  end.

Fixpoint le_val (bs : bytes) : Z :=
  match bs with
  | [] => 0
  | b :: bs => b + 256 * le_val bs
  end.

(** [x.to_be_bytes()] and [from_be_bytes]. *)
Definition be_bytes (n : nat) (x : Z) : bytes := reverse (le_bytes n x).
Definition be_val (bs : bytes) : Z := le_val (reverse bs).

Lemma length_le_bytes n x : length (le_bytes n x) = n.
Proof. revert x; induction n; intros x; simpl; auto. Qed.

Lemma length_be_bytes n x : length (be_bytes n x) = n.
Proof. unfold be_bytes. by rewrite length_reverse, length_le_bytes. Qed.

Lemma le_bytes_ok n x : bytes_ok (le_bytes n x).
Proof.
  revert x; induction n; intros x; simpl; constructor; [|apply IHn].
  apply Z.mod_pos_bound; lia.
Qed.

Lemma be_bytes_ok n x : bytes_ok (be_bytes n x).
Proof. apply Forall_reverse, le_bytes_ok. Qed.

Lemma le_val_le_bytes n x : le_val (le_bytes n x) = x mod 256 ^ Z.of_nat n.
Proof.
  revert x; induction n as [|n IH]; intros x.
  - by rewrite Z.mod_1_r.
  - simpl le_val. rewrite IH, Nat2Z.inj_succ, Z.pow_succ_r by lia.
    rewrite Z.rem_mul_r by lia. done.
Qed.

Lemma le_bytes_le_val bs : bytes_ok bs -> le_bytes (length bs) (le_val bs) = bs.
Proof.
  induction 1 as [|b bs Hb _ IH]; simpl; [done|].
  unfold is_u8 in Hb.
  rewrite (Z.mul_comm 256), Z.mod_add, Z.mod_small, Z.div_add, Z.div_small by lia.
  by rewrite Z.add_0_l, IH.
Qed.

Lemma le_val_range bs : bytes_ok bs -> 0 <= le_val bs < 256 ^ Z.of_nat (length bs).
Proof.
  induction 1 as [|b bs Hb _ IH]; [simpl; lia|].
  simpl le_val. simpl length. rewrite Nat2Z.inj_succ, Z.pow_succ_r by lia.
  unfold is_u8 in Hb. lia.
Qed.

Lemma be_val_be_bytes n x : be_val (be_bytes n x) = x mod 256 ^ Z.of_nat n.
Proof. unfold be_val, be_bytes. by rewrite reverse_involutive, le_val_le_bytes. Qed.

Lemma be_bytes_be_val bs : bytes_ok bs -> be_bytes (length bs) (be_val bs) = bs.
Proof.
  intros H. unfold be_bytes, be_val. rewrite <- length_reverse.
  rewrite le_bytes_le_val by by apply Forall_reverse. apply reverse_involutive.
Qed.

#[global] Arguments le_bytes : simpl never.
#[global] Arguments be_bytes : simpl never.

(** ** Sums *)
Definition sumZ (l : list Z) : Z := foldr Z.add 0 l.

(** [iter.fold(0u64, |s, x| s.saturating_add(x))] *)
Definition sat_sum (l : list Z) : Z := foldl sat_add64 0 l.

Lemma sumZ_app l k : sumZ (l ++ k) = sumZ l + sumZ k.
Proof. induction l; simpl; lia. Qed.

Lemma sumZ_nonneg l : Forall (Z.le 0) l -> 0 <= sumZ l.
Proof. induction 1; simpl; lia. Qed.

#[export] Instance sumZ_perm : Proper (Permutation ==> eq) sumZ.
Proof. induction 1; simpl; lia. Qed.

Lemma foldl_sat_add64 l a :
  Forall (Z.le 0) l -> 0 <= a <= U64_MAX ->
  foldl sat_add64 a l = Z.min (a + sumZ l) U64_MAX.
Proof.
  intros Hl; revert a; induction Hl as [|x l Hx Hl IH]; intros a Ha; simpl.
  - lia.
  - pose proof (sumZ_nonneg l Hl). rewrite IH; unfold sat_add64; lia.
Qed.

Lemma sat_sum_spec l : Forall (Z.le 0) l -> sat_sum l = Z.min (sumZ l) U64_MAX.
Proof. intros. unfold sat_sum. rewrite foldl_sat_add64; unfold U64_MAX; [f_equal; lia|done|lia]. Qed.

Lemma sat_sum_exact l : Forall (Z.le 0) l -> sat_sum l < U64_MAX -> sat_sum l = sumZ l.
Proof. intros Hl. rewrite sat_sum_spec by done. lia. Qed.

(** The sum of a measure over the values of a finite map. *)
Definition map_sum `{Countable K} {A} (f : A -> Z) (m : gmap K A) : Z :=
  sumZ (f <$> (map_to_list m).*2).

Section map_sum.
Context `{Countable K} {A : Type} (f : A -> Z).
Implicit Types (m : gmap K A) (k : K) (l : list K).

Definition value_or_0 m k : Z := from_option f 0 (m !! k).

Lemma map_sum_empty : map_sum f (∅ : gmap K A) = 0.
Proof. unfold map_sum. by rewrite map_to_list_empty. Qed.

Lemma map_sum_insert_new m k v : m !! k = None -> map_sum f (<[k:=v]> m) = f v + map_sum f m.
Proof. intros Hk. unfold map_sum. by rewrite map_to_list_insert by done. Qed.

Lemma map_sum_delete m k : map_sum f (delete k m) = map_sum f m - value_or_0 m k.
Proof.
  unfold value_or_0. destruct (m !! k) as [v|] eqn:Hk; simpl.
  - rewrite <- (insert_delete_id m k v Hk) at 2.
    rewrite map_sum_insert_new by apply lookup_delete_eq. lia.
  - rewrite delete_id by done. lia.
Qed.

Lemma map_sum_insert m k v : map_sum f (<[k:=v]> m) = map_sum f m - value_or_0 m k + f v.
Proof.
  rewrite <- insert_delete_eq, map_sum_insert_new by apply lookup_delete_eq.
  rewrite map_sum_delete. lia.
Qed.

Lemma map_sum_nonneg m : map_Forall (λ _ v, 0 <= f v) m -> 0 <= map_sum f m.
Proof.
  intros Hm. apply sumZ_nonneg, Forall_fmap, Forall_fmap.
  apply map_Forall_to_list in Hm. eapply Forall_impl; [exact Hm|]. by intros [].
Qed.

Lemma value_or_0_nonneg m k : map_Forall (λ _ v, 0 <= f v) m -> 0 <= value_or_0 m k.
Proof. intros Hm. unfold value_or_0. destruct (m !! k) eqn:E; simpl; [by apply (Hm k)|lia]. Qed.

(** Deleting distinct keys subtracts what they hold. *)
Lemma map_sum_delete_list m l :
  NoDup l ->
  map_sum f (foldl (λ m k, delete k m) m l) = map_sum f m - sumZ (value_or_0 m <$> l).
Proof.
  intros Hl. revert m. induction Hl as [|k l Hk _ IH]; intros m; csimpl; [lia|].
  rewrite IH, map_sum_delete. rewrite (list_fmap_ext (value_or_0 (delete k m)) (value_or_0 m)).
  - lia.
  - intros i x Hx. unfold value_or_0. rewrite lookup_delete_ne; [done|].
    intros ->. by apply Hk, list_elem_of_lookup_2 with i.
Qed.

Lemma map_sum_insert_list_le m (kvs : list (K * A)) :
  map_Forall (λ _ v, 0 <= f v) m -> Forall (λ kv, 0 <= f kv.2) kvs ->
  map_sum f (foldl (λ m '(k, v), <[k:=v]> m) m kvs) <= map_sum f m + sumZ ((λ kv, f kv.2) <$> kvs).
Proof.
  intros Hm Hkvs; revert m Hm; induction Hkvs as [|[k v] kvs Hv _ IH]; intros m Hm; csimpl; [lia|].
  etransitivity; [apply IH; by apply map_Forall_insert_2|].
  rewrite map_sum_insert. pose proof (value_or_0_nonneg m k Hm). lia.
Qed.
End map_sum.

(** Lookups after a run of deletions or insertions. *)
Lemma lookup_foldl_delete `{Countable K} {A} (l : list K) (m : gmap K A) k :
  foldl (λ m k, delete k m) m l !! k = if decide (k ∈ l) then None else m !! k.
Proof.
  revert m; induction l as [|x l IH]; intros m; cbn [foldl].
  { by rewrite decide_False by apply not_elem_of_nil. }
  rewrite IH. destruct (decide (k ∈ l)); [by rewrite decide_True by set_solver|].
  destruct (decide (k = x)) as [->|Hne].
  - by rewrite lookup_delete_eq, decide_True by set_solver.
  - by rewrite lookup_delete_ne, decide_False by set_solver.
Qed.

Lemma lookup_foldl_insert_ne `{Countable K} {A} (l : list (K * A)) (m : gmap K A) k :
  k ∉ l.*1 -> foldl (λ m '(k, v), <[k := v]> m) m l !! k = m !! k.
Proof.
  revert m; induction l as [|[x v] l IH]; intros m Hk; csimpl in *; [done|].
  rewrite IH by set_solver. rewrite lookup_insert_ne; set_solver.
Qed.

Lemma foldl_insert_union `{Countable K} {A} (l : list (K * A)) (m : gmap K A) :
  NoDup l.*1 -> foldl (λ m '(k, v), <[k := v]> m) m l = list_to_map l ∪ m.
Proof.
  revert m; induction l as [|[k v] l IH]; intros m; csimpl; [by rewrite (left_id_L ∅ (∪))|].
  intros [Hk Hnd]%NoDup_cons. rewrite IH by done.
  rewrite <- insert_union_l, insert_union_r; [done|]. by apply not_elem_of_list_to_map_1.
Qed.

(** Deleting every key and inserting an enumeration rebuilds the enumerated map. *)
Lemma foldl_rebuild `{Countable K} {A} (ks : list K) (kvs : list (K * A)) (m m' : gmap K A) :
  (forall k, is_Some (m !! k) -> k ∈ ks) -> kvs ≡ₚ map_to_list m' ->
  foldl (λ m '(k, v), <[k := v]> m) (foldl (λ m k, delete k m) m ks) kvs = m'.
Proof.
  intros Hks Hkvs.
  assert (foldl (λ m k, delete k m) m ks = ∅) as ->.
  { apply map_eq. intros k. rewrite lookup_foldl_delete, lookup_empty. case_decide as Hk; [done|].
    destruct (m !! k) eqn:Hm; [|done]. exfalso. apply Hk, Hks. by rewrite Hm. }
  assert (NoDup kvs.*1) as Hnd by (rewrite Hkvs; apply NoDup_fst_map_to_list).
  rewrite foldl_insert_union, (right_id_L ∅ (∪)) by done.
  by rewrite (list_to_map_proper _ _ Hnd Hkvs), list_to_map_to_list.
Qed.

(** The iteration order of a [HashMap] is unspecified; it is a parameter of the
    operations that depend on it. What [HashMap::iter] promises: every entry once, in some order. *)
Class IterOrder (K A : Type) `{Countable K} := {
  iter : gmap K A -> list (K * A);
  iter_perm m : iter m ≡ₚ map_to_list m;
}.

(** One such order, for the concrete examples. *)
Definition trie_order (K A : Type) `{Countable K} : IterOrder K A :=
  {| iter := map_to_list; iter_perm m := Permutation_refl _ |}.

(** ** Strings *)
Definition byte_of_ascii (c : Ascii.ascii) : Z := Z.of_N (Ascii.N_of_ascii c).
Definition ascii_of_byte (b : Z) : Ascii.ascii := Ascii.ascii_of_N (Z.to_N b).

(** [s.as_bytes()] and its inverse on bytes. *)
Definition bytes_of_string (s : string) : bytes :=
  byte_of_ascii <$> String.list_ascii_of_string s.
Definition string_of_bytes (bs : bytes) : string :=
  String.string_of_list_ascii (ascii_of_byte <$> bs).

Lemma byte_of_ascii_range c : is_u8 (byte_of_ascii c).
Proof.
  unfold is_u8, byte_of_ascii. pose proof (Ascii.N_ascii_bounded c). lia.
Qed.

Lemma ascii_of_byte_of_ascii c : ascii_of_byte (byte_of_ascii c) = c.
Proof. unfold ascii_of_byte, byte_of_ascii. by rewrite N2Z.id, Ascii.ascii_N_embedding. Qed.

Lemma byte_of_ascii_of_byte b : is_u8 b -> byte_of_ascii (ascii_of_byte b) = b.
Proof.
  intros Hb. unfold ascii_of_byte, byte_of_ascii, is_u8 in *.
  rewrite Ascii.N_ascii_embedding by lia. lia.
Qed.

Lemma bytes_of_string_ok s : bytes_ok (bytes_of_string s).
Proof.
  unfold bytes_ok, bytes_of_string. apply Forall_fmap, Forall_true.
  intros c. apply byte_of_ascii_range.
Qed.

Lemma string_of_bytes_of_string s : string_of_bytes (bytes_of_string s) = s.
Proof.
  unfold string_of_bytes, bytes_of_string. rewrite <- list_fmap_compose.
  rewrite (list_fmap_ext _ id).
  - by rewrite list_fmap_id, String.string_of_list_ascii_of_string.
  - intros ? c _. apply ascii_of_byte_of_ascii.
Qed.

Lemma bytes_of_string_of_bytes bs : bytes_ok bs -> bytes_of_string (string_of_bytes bs) = bs.
Proof.
  intros H. unfold string_of_bytes, bytes_of_string.
  rewrite String.list_ascii_of_string_of_list_ascii, <- list_fmap_compose.
  rewrite <- (list_fmap_id bs) at 2. apply list_fmap_ext.
  intros i b Hb. apply byte_of_ascii_of_byte.
  by apply (Forall_lookup_1 _ _ _ _ H Hb).
Qed.

Lemma bytes_of_string_app s t : bytes_of_string (s +:+ t) = bytes_of_string s ++ bytes_of_string t.
Proof.
  induction s as [|c s IH]; [done|].
  change (byte_of_ascii c :: bytes_of_string (s +:+ t) = byte_of_ascii c :: bytes_of_string s ++ bytes_of_string t).
  by rewrite IH.
Qed.

#[export] Instance bytes_of_string_inj : Inj (=) (=) bytes_of_string.
Proof. intros s t H. by rewrite <- (string_of_bytes_of_string s), H, string_of_bytes_of_string. Qed.

(** [a.starts_with(b)] on byte slices. *)
Definition starts_with (bs p : bytes) : bool := bool_decide (take (length p) bs = p).

(** [format!("{n}")] for an unsigned integer. *)
Definition dec_string (n : Z) : string := pretty (Z.to_N n).

(** ** Hexadecimal text *)

(** One digit of [{:02x}]. *)
Definition hex_digit (n : Z) : Ascii.ascii :=
  ascii_of_byte (if n <? 10 then 48 + n else 87 + n).

(** [bs.iter().map(|b| format!("{b:02x}")).collect()] *)
Fixpoint hex_lower (bs : bytes) : string :=
  match bs with
  | [] => EmptyString
  | b :: bs => String (hex_digit (b / 16)) (String (hex_digit (b mod 16)) (hex_lower bs))
  end.

(** One character accepted by [from_str_radix(_, 16)]. *)
Definition hex_val (c : Ascii.ascii) : option Z :=
  let n := byte_of_ascii c in
  if (48 <=? n) && (n <=? 57) then Some (n - 48)
  else if (97 <=? n) && (n <=? 102) then Some (n - 87)
  else if (65 <=? n) && (n <=? 70) then Some (n - 55)
  else None.

(** [u8::from_str_radix(s, 16).ok()] on the two characters of [s]. A leading
    [+] is a sign, so ["+f"] is the number 15. *)
Definition hex_pair (c d : Ascii.ascii) : option Z :=
  match hex_val c, hex_val d with
  | Some x, Some y => Some (16 * x + y)
  | None, Some y => if Ascii.eqb c (ascii_of_byte 43) then Some y else None
  | _, None => None
  end.

Lemma hex_val_digit n : 0 <= n < 16 -> hex_val (hex_digit n) = Some n.
Proof.
  intros Hn. unfold hex_val, hex_digit.
  rewrite byte_of_ascii_of_byte by (unfold is_u8; destruct (n <? 10); lia).
  destruct (Z.ltb_spec n 10).
  - rewrite !(proj2 (Z.leb_le _ _)) by lia. simpl. f_equal. lia.
  - rewrite (proj2 (Z.leb_gt (87 + n) 57)) by lia.
    rewrite andb_false_r, !(proj2 (Z.leb_le _ _)) by lia. simpl. f_equal. lia.
Qed.

Lemma hex_pair_digits b : is_u8 b -> hex_pair (hex_digit (b / 16)) (hex_digit (b mod 16)) = Some b.
Proof.
  unfold is_u8. intros Hb. pose proof (Z.div_mod b 16). pose proof (Z.mod_pos_bound b 16).
  assert (0 <= b / 16 < 16) by (split; [by apply Z.div_pos; lia | apply Z.div_lt_upper_bound; lia]).
  unfold hex_pair. rewrite !hex_val_digit by lia. f_equal. lia.
Qed.

Lemma hex_lower_inj bs cs : bytes_ok bs -> bytes_ok cs -> hex_lower bs = hex_lower cs -> bs = cs.
Proof.
  intros Hb; revert cs; induction Hb as [|b bs Hb _ IH]; intros [|c cs] Hc; simpl; try done.
  intros [= H1 H2 H3]. inversion Hc as [|? ? Hc1 Hc2]; subst. f_equal; [|by apply IH].
  apply (inj Some). by rewrite <- !hex_pair_digits, H1, H2 by done.
Qed.

Lemma length_hex_lower bs : String.length (hex_lower bs) = (2 * length bs)%nat.
Proof. induction bs; simpl; lia. Qed.

(** ** The library's automation *)
(** Prove a decidable, closed proposition by evaluating its decision. *)
Ltac by_compute := apply (bool_decide_unpack _); vm_compute; exact I.

Create HintDb txm discriminated.
#[export] Hint Resolve le_bytes_ok be_bytes_ok bytes_of_string_ok byte_of_ascii_range : txm.
