(* ===== verification/Numeral.v ===== *)
(** * Numbers as text

    The parts of Rust's standard library the command line and the exchange
    adapter use on text: [str::parse] for unsigned integers, [str::trim],
    [str::split_once], and zero padding; and what they do on printed numbers. *)

From S2P Require Import Prelude.

Local Open Scope Z_scope.

(** ** Parsing *)

Definition is_digit (b : Z) : bool := (48 <=? b) && (b <=? 57).

(** The loop of [from_str]: [checked_mul] and [checked_add] with the bound [max]. *)
Fixpoint parse_digits (max acc : Z) (bs : bytes) : option Z :=
  match bs with
  | [] => Some acc
  | b :: bs =>
      if is_digit b then
        let acc := 10 * acc + (b - 48) in
        if max <? acc then None else parse_digits max acc bs
      else None
  end.

(** [s.parse::<uN>().ok()] with [max] the maximum of the type. One leading [+] is accepted. *)
Definition parse_uint (max : Z) (s : string) : option Z :=
  match bytes_of_string s with
  | [] => None
  | [b] => if is_digit b then parse_digits max 0 [b] else None
  | b :: bs => if b =? 43 then parse_digits max 0 bs else parse_digits max 0 (b :: bs)
  end.

Definition parse_u64 (s : string) : option Z := parse_uint U64_MAX s.
Definition parse_u16 (s : string) : option Z := parse_uint 65535 s.
Definition parse_u8 (s : string) : option Z := parse_uint 255 s.

(** ** Trimming and splitting *)

(** The UTF-8 encodings of the characters with the property [White_Space]. *)
Definition white_space : list bytes :=
  [[9]; [10]; [11]; [12]; [13]; [32]; [194; 133]; [194; 160]; [225; 154; 128];
   [226; 128; 128]; [226; 128; 129]; [226; 128; 130]; [226; 128; 131]; [226; 128; 132]; [226; 128; 133];
   [226; 128; 134]; [226; 128; 135]; [226; 128; 136]; [226; 128; 137]; [226; 128; 138];
   [226; 128; 168]; [226; 128; 169]; [226; 128; 175]; [226; 129; 159]; [227; 128; 128]].

Fixpoint strip_one (pats : list bytes) (bs : bytes) : option bytes :=
  match pats with
  | [] => None
  | p :: pats => if starts_with bs p then Some (drop (length p) bs) else strip_one pats bs
  end.

(** Patterns removed from the front as long as there are any; one step per byte is enough. *)
Fixpoint strip_front (fuel : nat) (pats : list bytes) (bs : bytes) : bytes :=
  match fuel with
  | O => bs
  | S fuel => match strip_one pats bs with Some bs => strip_front fuel pats bs | None => bs end
  end.

(** [s.trim()] *)
Definition trim_bytes (bs : bytes) : bytes :=
  let bs := strip_front (length bs) white_space bs in
  reverse (strip_front (length bs) (reverse <$> white_space) (reverse bs)).
Definition trim (s : string) : string := string_of_bytes (trim_bytes (bytes_of_string s)).

(** [s.split_once(c)] *)
Fixpoint split_once (c : Ascii.ascii) (s : string) : option (string * string) :=
  match s with
  | EmptyString => None
  | String d s =>
      if Ascii.eqb c d then Some (EmptyString, s)
      else match split_once c s with Some (a, b) => Some (String d a, b) | None => None end
  end.

(** [n] zeros. *)
Fixpoint zeros (n : nat) : string := match n with O => EmptyString | S n => String (ascii_of_byte 48) (zeros n) end.

(** [format!("{n:0width$}")] *)
Definition zero_padded (width : nat) (n : Z) : string :=
  zeros (width - String.length (dec_string n)) +:+ dec_string n.

(** ** What is printed is parsed *)

Lemma length_bytes_of_string s : length (bytes_of_string s) = String.length s.
Proof. unfold bytes_of_string. rewrite length_fmap. induction s; csimpl; lia. Qed.

Lemma bytes_zeros n : bytes_of_string (zeros n) = replicate n 48.
Proof. induction n as [|n IH]; [done|]. cbn [zeros replicate]. rewrite <- IH. reflexivity. Qed.

Definition digits (bs : bytes) : Prop := Forall (λ b, is_digit b = true) bs.

Lemma is_digit_spec b : is_digit b = true <-> 48 <= b <= 57.
Proof. unfold is_digit. rewrite andb_true_iff, !Z.leb_le. lia. Qed.

Lemma digits_zeros n : digits (replicate n 48).
Proof. by apply Forall_replicate. Qed.

(** The value of a list of digits, most significant first. *)
Definition digits_val (acc : Z) (bs : bytes) : Z := foldl (λ acc b, 10 * acc + (b - 48)) acc bs.

Lemma digits_val_ge acc bs : digits bs -> 0 <= acc -> acc <= digits_val acc bs.
Proof.
  intros Hd; revert acc; induction Hd as [|b bs Hb _ IH]; intros acc Ha; [done|]. cbn [digits_val foldl].
  apply is_digit_spec in Hb. etransitivity; [|apply IH]; lia.
Qed.

Lemma digits_val_app acc bs cs : digits_val acc (bs ++ cs) = digits_val (digits_val acc bs) cs.
Proof. apply foldl_app. Qed.

Lemma digits_val_shift acc bs : digits_val acc bs = acc * 10 ^ Z.of_nat (length bs) + digits_val 0 bs.
Proof.
  revert acc; induction bs as [|b bs IH]; intros acc; [cbn; lia|]. cbn [digits_val foldl].
  fold (digits_val (10 * acc + (b - 48)) bs) (digits_val (10 * 0 + (b - 48)) bs).
  rewrite IH, (IH (10 * 0 + _)), length_cons, Nat2Z.inj_succ, Z.pow_succ_r by lia. ring.
Qed.

Lemma digits_val_bound bs : digits bs -> 0 <= digits_val 0 bs < 10 ^ Z.of_nat (length bs).
Proof.
  induction 1 as [|b bs Hb _ IH]; [done|]. cbn [digits_val foldl].
  fold (digits_val (10 * 0 + (b - 48)) bs). apply is_digit_spec in Hb.
  rewrite digits_val_shift, length_cons, Nat2Z.inj_succ, Z.pow_succ_r by lia.
  pose proof (Z.pow_pos_nonneg 10 (Z.of_nat (length bs))). nia.
Qed.

Lemma digits_val_zeros bs n : digits_val 0 (replicate n 48 ++ bs) = digits_val 0 bs.
Proof. induction n as [|n IH]; [done|exact IH]. Qed.

(** The parser computes the value, and fails exactly when it does not fit. *)
Lemma parse_digits_spec max acc bs :
  digits bs -> 0 <= acc <= max ->
  parse_digits max acc bs = if max <? digits_val acc bs then None else Some (digits_val acc bs).
Proof.
  intros Hd; revert acc; induction Hd as [|b bs Hb Hd IH]; intros acc Ha; cbn [parse_digits digits_val foldl].
  { by rewrite (proj2 (Z.ltb_ge _ _)) by lia. }
  rewrite Hb. apply is_digit_spec in Hb.
  destruct (Z.ltb_spec max (10 * acc + (b - 48))) as [Hlt|Hge]; [|apply IH; lia].
  pose proof (digits_val_ge (10 * acc + (b - 48)) bs Hd). unfold digits_val in *.
  by rewrite (proj2 (Z.ltb_lt _ _)) by lia.
Qed.

(** What is parsed fits the type. *)
Lemma parse_digits_range max acc bs n : parse_digits max acc bs = Some n -> 0 <= acc <= max -> 0 <= n <= max.
Proof.
  revert acc; induction bs as [|b bs IH]; intros acc; cbn [parse_digits]; [by intros [= <-]|].
  destruct (is_digit b) eqn:Hb; [|done]. apply is_digit_spec in Hb.
  destruct (Z.ltb_spec max (10 * acc + (b - 48))); [done|]. intros Hp Ha. apply (IH _ Hp). lia.
Qed.

Lemma parse_uint_range max s n : 0 <= max -> parse_uint max s = Some n -> 0 <= n <= max.
Proof.
  intros Hm. unfold parse_uint. destruct (bytes_of_string s) as [|b [|c bs]]; [done| |].
  - destruct (is_digit b); [|done]. intros Hp. apply (parse_digits_range _ _ _ _ Hp). lia.
  - destruct (b =? 43); intros Hp; apply (parse_digits_range _ _ _ _ Hp); lia.
Qed.

Lemma parse_uint_digits max s :
  digits (bytes_of_string s) -> s <> EmptyString -> 0 <= max ->
  parse_uint max s = parse_digits max 0 (bytes_of_string s).
Proof.
  intros Hd Hs Hm. unfold parse_uint. destruct s as [|c s]; [done|].
  change (bytes_of_string (String c s)) with (byte_of_ascii c :: bytes_of_string s) in *.
  destruct (bytes_of_string s) as [|b bs]; inversion_clear Hd as [|? ? Hc _]; [by rewrite Hc|].
  apply is_digit_spec in Hc. by rewrite (proj2 (Z.eqb_neq _ _)) by lia.
Qed.

Lemma pretty_char_byte x : (x < 10)%N -> byte_of_ascii (pretty_N_char x) = 48 + Z.of_N x.
Proof.
  intros Hx. assert (x = 0 \/ x = 1 \/ x = 2 \/ x = 3 \/ x = 4 \/ x = 5 \/ x = 6 \/ x = 7 \/ x = 8 \/ x = 9)%N as Hc by lia.
  by repeat (destruct Hc as [-> | Hc]; [done|]); subst.
Qed.

Lemma pretty_go_spec x s :
  digits (bytes_of_string s) -> digits (bytes_of_string (pretty_N_go x s))
  /\ digits_val 0 (bytes_of_string (pretty_N_go x s)) = digits_val (Z.of_N x) (bytes_of_string s).
Proof.
  revert s. induction (N.lt_wf_0 x) as [x _ IH]; intros s Hs.
  destruct (decide (x = 0%N)) as [->|Hne]; [by rewrite pretty_N_go_0|].
  rewrite pretty_N_go_step by lia. assert (x mod 10 < 10)%N as Hm by (apply N.mod_lt; lia).
  pose proof (pretty_char_byte _ Hm) as Hb.
  destruct (IH (x / 10)%N) with (s := String (pretty_N_char (x mod 10)) s) as [H1 H2].
  - apply N.div_lt; lia.
  - constructor; [|done]. rewrite Hb. apply is_digit_spec. clear -Hm. set (y := (x mod 10)%N) in *. clearbody y. lia.
  - split; [done|]. rewrite H2.
    change (bytes_of_string (String (pretty_N_char (x mod 10)) s)) with (byte_of_ascii (pretty_N_char (x mod 10)) :: bytes_of_string s).
    cbn [digits_val foldl]. unfold digits_val. f_equal. rewrite Hb.
    pose proof (N.div_mod x 10) as Hdm. clear -Hdm Hne. set (y := (x mod 10)%N) in *. set (z := (x / 10)%N) in *.
    clearbody y z. lia.
Qed.

Lemma pretty_go_length x s k :
  Z.of_N x < 10 ^ Z.of_nat k -> (String.length (pretty_N_go x s) <= k + String.length s)%nat.
Proof.
  revert x s; induction k as [|k IH]; intros x s Hx.
  { change (10 ^ Z.of_nat 0) with 1 in Hx. assert (x = 0%N) as -> by lia. by rewrite pretty_N_go_0. }
  destruct (decide (x = 0%N)) as [->|Hne]; [rewrite pretty_N_go_0; simpl; lia|].
  rewrite pretty_N_go_step by lia. rewrite Nat2Z.inj_succ, Z.pow_succ_r in Hx by lia.
  etransitivity; [apply IH|csimpl; lia]. rewrite N2Z.inj_div. apply Z.div_lt_upper_bound; lia.
Qed.

Section Printed.
Context (n : Z) (Hn : 0 <= n).

Lemma dec_string_digits :
  digits (bytes_of_string (dec_string n)) /\ digits_val 0 (bytes_of_string (dec_string n)) = n
  /\ dec_string n <> EmptyString.
Proof using Hn.
  unfold dec_string, pretty, pretty_N. case_decide as Hz.
  - split_and!; [by constructor|transitivity 0; [reflexivity|lia]|done].
  - destruct (pretty_go_spec (Z.to_N n) EmptyString) as [Hd Hv]; [by constructor|].
    rewrite Hv. split_and!; [done|change (Z.of_N (Z.to_N n) = n); lia|].
    intros E. rewrite E in Hv. change (0 = Z.of_N (Z.to_N n)) in Hv. lia.
Qed.

Lemma parse_uint_dec max : n <= max -> parse_uint max (dec_string n) = Some n.
Proof using Hn.
  intros Hm. destruct dec_string_digits as (Hd & Hv & He).
  rewrite parse_uint_digits, parse_digits_spec, Hv by (done || lia). by rewrite (proj2 (Z.ltb_ge _ _)) by lia.
Qed.

Lemma dec_string_length k : (0 < k)%nat -> n < 10 ^ Z.of_nat k -> (String.length (dec_string n) <= k)%nat.
Proof using Hn.
  intros Hk Hlt. unfold dec_string, pretty, pretty_N. case_decide; [simpl; lia|].
  pose proof (pretty_go_length (Z.to_N n) EmptyString k) as Hl.
  rewrite Z2N.id in Hl by done. specialize (Hl Hlt). cbn [String.length] in Hl. lia.
Qed.

(** A padded number: as many digits as asked for, and the same value. *)
Lemma zero_padded_spec k :
  (0 < k)%nat -> n < 10 ^ Z.of_nat k ->
  digits (bytes_of_string (zero_padded k n)) /\ digits_val 0 (bytes_of_string (zero_padded k n)) = n
  /\ String.length (zero_padded k n) = k.
Proof using Hn.
  intros Hk Hlt. destruct dec_string_digits as (Hd & Hv & _). pose proof (dec_string_length k Hk Hlt).
  unfold zero_padded. rewrite bytes_of_string_app, bytes_zeros. split_and!.
  - apply Forall_app. split; [apply digits_zeros|done].
  - by rewrite digits_val_zeros.
  - rewrite <- length_bytes_of_string, bytes_of_string_app, bytes_zeros, length_app, length_replicate, length_bytes_of_string. lia.
Qed.
End Printed.

(** ** Splitting and trimming what has nothing to split or trim *)

Lemma split_once_app c s t :
  Forall (λ b, b <> byte_of_ascii c) (bytes_of_string s) -> split_once c (s +:+ String c t) = Some (s, t).
Proof.
  induction s as [|d s IH]; intros Hs.
  - change (EmptyString +:+ String c t) with (String c t). cbn [split_once]. by rewrite Ascii.eqb_refl.
  - change (bytes_of_string (String d s)) with (byte_of_ascii d :: bytes_of_string s) in Hs.
    apply Forall_cons in Hs as [Hd Hs]. change (String d s +:+ String c t) with (String d (s +:+ String c t)).
    cbn [split_once]. rewrite IH by done. destruct (Ascii.eqb_spec c d) as [->|]; done.
Qed.

Lemma split_once_none c s : Forall (λ b, b <> byte_of_ascii c) (bytes_of_string s) -> split_once c s = None.
Proof.
  induction s as [|d s IH]; [done|]. intros Hs.
  change (bytes_of_string (String d s)) with (byte_of_ascii d :: bytes_of_string s) in Hs.
  apply Forall_cons in Hs as [Hd Hs]. cbn [split_once]. rewrite IH by done.
  destruct (Ascii.eqb_spec c d) as [->|]; done.
Qed.

(** Text whose first and last bytes are visible ASCII is not trimmed. *)
Definition visible (b : Z) : Prop := 33 <= b < 128.

Lemma strip_one_visible pats b bs :
  Forall (λ p, match p with c :: _ => ~ visible c | [] => False end) pats -> visible b ->
  strip_one pats (b :: bs) = None.
Proof.
  intros Hp Hb. induction Hp as [|[|c p] pats Hc _ IH]; [done|done|]. cbn [strip_one].
  unfold starts_with. cbn [length take]. rewrite bool_decide_false; [done|]. intros [= -> _]. done.
Qed.

Lemma strip_front_visible fuel pats b bs :
  Forall (λ p, match p with c :: _ => ~ visible c | [] => False end) pats -> visible b ->
  strip_front fuel pats (b :: bs) = b :: bs.
Proof. intros Hp Hb. destruct fuel; [done|]. cbn [strip_front]. by rewrite strip_one_visible. Qed.

Lemma trim_visible s b bs :
  bytes_of_string s = b :: bs -> visible b -> (exists cs c, b :: bs = cs ++ [c] /\ visible c) -> trim s = s.
Proof.
  intros Hs Hb (cs & c & He & Hc). unfold trim, trim_bytes. rewrite Hs.
  rewrite (strip_front_visible _ white_space), He, reverse_snoc, strip_front_visible; try done.
  - by rewrite reverse_cons, reverse_involutive, <- He, <- Hs, string_of_bytes_of_string.
  - unfold visible. repeat constructor; vm_compute; intros []; congruence.
  - unfold visible. repeat constructor; intros []; lia.
Qed.
