(* ===== verification/Crypto.v ===== *)
(** * Third-party primitives

    The hash functions ([sha2], [blake2]), the secp256k1 ECDSA operations
    ([k256]) and the bech32 codec ([bech32]) are crates the sources call. They
    are the parameters of the model: one class [Crypto] of operations, and one
    class [CryptoLaws] of the documented facts the code relies on. A toy
    instance at the end makes every theorem that uses the laws executable at
    concrete inputs. *)

From S2P Require Import Prelude.

Local Open Scope Z_scope.

(** The operations, with the types the sources use them at. *)
Class Crypto := {
  (** [Sha256::digest] *)
  sha256 : bytes -> bytes;
  (** [Blake2b256], fed with the concatenation of its updates *)
  blake2b256 : bytes -> bytes;
  signing_key : Type;
  verifying_key : Type;
  signature : Type;
  (** [SecretKey::from_slice] *)
  secret_from_slice : bytes -> option signing_key;
  (** [SigningKey::to_bytes] *)
  secret_to_bytes : signing_key -> bytes;
  (** [signing_key.verifying_key()] *)
  verifying_of : signing_key -> verifying_key;
  (** [VerifyingKey::from_sec1_bytes] *)
  vk_from_sec1 : bytes -> option verifying_key;
  (** [vk.to_encoded_point(true).as_bytes()] *)
  vk_to_sec1 : verifying_key -> bytes;
  (** [Signature::from_der], [sig.to_der().as_bytes()] *)
  sig_from_der : bytes -> option signature;
  sig_to_der : signature -> bytes;
  (** [signing_key.sign(msg)], [vk.verify(msg, &sig).is_ok()] *)
  ecdsa_sign : signing_key -> bytes -> signature;
  ecdsa_verify : verifying_key -> bytes -> signature -> bool;
  (** [bech32::encode(hrp, data, Variant::Bech32).ok()], [bech32::decode] with
      the variant dropped, and the [ToBase32]/[FromBase32] conversions. *)
  bech32_encode : string -> bytes -> option string;
  bech32_decode : string -> option (string * bytes);
  to_base32 : bytes -> bytes;
  from_base32 : bytes -> option bytes;
  (** [hex::encode] and [hex::decode] *)
  hex_encode : bytes -> string;
  hex_decode : string -> option bytes;
}.

(** The documented behaviour the theorems rely on. *)
Class CryptoLaws (C : Crypto) : Prop := {
  sha256_length bs : length (sha256 bs) = 32%nat;
  sha256_ok bs : bytes_ok (sha256 bs);
  blake2b256_length bs : length (blake2b256 bs) = 32%nat;
  blake2b256_ok bs : bytes_ok (blake2b256 bs);
  secret_roundtrip sk : secret_from_slice (secret_to_bytes sk) = Some sk;
  secret_bytes_ok sk : bytes_ok (secret_to_bytes sk);
  secret_bytes_length sk : length (secret_to_bytes sk) = 32%nat;
  (** a compressed point has 33 bytes, a DER signature at most 72 *)
  vk_sec1_length vk : length (vk_to_sec1 vk) = 33%nat;
  vk_sec1_ok vk : bytes_ok (vk_to_sec1 vk);
  vk_sec1_roundtrip vk : vk_from_sec1 (vk_to_sec1 vk) = Some vk;
  sig_der_length s : (1 <= length (sig_to_der s) <= 72)%nat;
  sig_der_roundtrip s : sig_from_der (sig_to_der s) = Some s;
  sig_der_ok sk msg : bytes_ok (sig_to_der (ecdsa_sign sk msg));
  ecdsa_sign_verifies sk msg : ecdsa_verify (verifying_of sk) msg (ecdsa_sign sk msg) = true;
  (** the two prefixes the sources use *)
  bech32_roundtrip hrp d s :
    hrp = "txm"%string \/ hrp = "txms"%string ->
    bech32_encode hrp d = Some s -> bech32_decode s = Some (hrp, d);
  bech32_encodes hrp bs :
    hrp = "txm"%string \/ hrp = "txms"%string ->
    length bs = 20%nat -> bytes_ok bs -> is_Some (bech32_encode hrp (to_base32 bs));
  (** the text begins with the prefix and the separator *)
  bech32_prefix hrp d s :
    hrp = "txm"%string \/ hrp = "txms"%string -> bech32_encode hrp d = Some s ->
    starts_with (bytes_of_string s) (bytes_of_string (hrp +:+ "1")) = true;
  base32_roundtrip bs : bytes_ok bs -> from_base32 (to_base32 bs) = Some bs;
  from_base32_bytes d bs : from_base32 d = Some bs -> bytes_ok bs;
  (** lower-case, two digits per byte *)
  hex_encode_lower bs : hex_encode bs = hex_lower bs;
  hex_roundtrip bs : bytes_ok bs -> hex_decode (hex_encode bs) = Some bs;
}.

Create HintDb crypto discriminated.
#[export] Hint Resolve sha256_length sha256_ok blake2b256_length blake2b256_ok : crypto.

(** ** A toy instance

    Not a secure one: a polynomial hash, signatures that repeat the key and the
    message, an address text that spells the payload out. It satisfies the
    laws, so the hypotheses of the theorems are satisfiable. *)
Module Toy.
Definition hash (seed : Z) (bs : bytes) : bytes :=
  le_bytes 8 (foldl (λ acc b, Z.land (acc * 65599 + b + 1) 2305843009213693951) seed bs) ++ replicate 24 0.

(** The mixing function of the proof of work, called far more often: a 16-bit checksum. *)
Definition mix (bs : bytes) : bytes :=
  le_bytes 2 (foldl (λ acc b, Z.land (acc * 31 + b + 1) 65535) 23 bs) ++ replicate 30 0.

Lemma padded_length n m x : length (le_bytes n x ++ replicate m 0) = (n + m)%nat.
Proof. by rewrite length_app, length_le_bytes, length_replicate. Qed.

Lemma padded_ok n m x : bytes_ok (le_bytes n x ++ replicate m 0).
Proof. apply Forall_app. split; [apply le_bytes_ok|]. apply Forall_replicate. unfold is_u8. lia. Qed.

(** A private key is its 32 bytes. *)
Record secret := Secret { secret_bytes : bytes; secret_good : bool_decide (length secret_bytes = 32%nat /\ bytes_ok secret_bytes) }.

Definition mk_secret (bs : bytes) : option secret :=
  match decide (bool_decide (length bs = 32%nat /\ bytes_ok bs)) with
  | left H => Some (Secret bs H)
  | right _ => None
  end.

(** A public key is the secret bytes after a tag, a signature the key bytes
    with the message. *)
Definition mk_vk (bs : bytes) : option secret :=
  match bs with
  | 2 :: bs => mk_secret bs
  | _ => None
  end.

(** A signature is the signer's key and a digest of the message. *)
Definition sign (sk : secret) (msg : bytes) : secret * Z :=
  (sk, foldl (λ acc b, (acc * 257 + b + 1) mod 251) 7 msg).
Definition der (s : secret * Z) : bytes := 48 :: secret_bytes s.1 ++ [s.2].
Definition from_der (bs : bytes) : option (secret * Z) :=
  match bs with
  | 48 :: bs =>
      match mk_secret (take 32 bs), drop 32 bs with
      | Some sk, [z] => Some (sk, z)
      | _, _ => None
      end
  | _ => None
  end.

Fixpoint unhex (s : string) : option bytes :=
  match s with
  | String c (String d s) =>
      match hex_pair c d, unhex s with
      | Some b, Some bs => Some (b :: bs)
      | _, _ => None
      end
  | EmptyString => Some []
  | _ => None
  end.

Lemma unhex_lower bs : bytes_ok bs -> unhex (hex_lower bs) = Some bs.
Proof.
  induction 1 as [|b bs Hb _ IH]; [done|]. cbn [hex_lower unhex].
  by rewrite hex_pair_digits, IH.
Qed.

Definition encode (hrp : string) (d : bytes) : option string :=
  if bool_decide (bytes_ok d)
  then Some (String.append hrp (String.append "1" (string_of_bytes d))) else None.

Fixpoint split1 (s : string) : option (string * bytes) :=
  match s with
  | EmptyString => None
  | String c s =>
      if Ascii.eqb c (ascii_of_byte 49) then Some (EmptyString, bytes_of_string s) else
      match split1 s with
      | Some (hrp, d) => Some (String c hrp, d)
      | None => None
      end
  end.

Lemma mk_secret_bytes sk : mk_secret (secret_bytes sk) = Some sk.
Proof.
  destruct sk as [bs H]. unfold mk_secret. simpl.
  destruct (decide _) as [H'|n]; [|contradiction].
  f_equal. f_equal. apply proof_irrel.
Qed.

Lemma secret_spec sk : length (secret_bytes sk) = 32%nat /\ bytes_ok (secret_bytes sk).
Proof. destruct sk as [bs H]. simpl. exact (bool_decide_unpack _ H). Qed.

Lemma der_ok sk msg : bytes_ok (der (sign sk msg)).
Proof.
  assert (0 <= foldl (λ acc b, (acc * 257 + b + 1) mod 251) 7 msg < 251) as Hz.
  { destruct msg as [|b msg _] using rev_ind; [done|]. rewrite foldl_snoc. cbn. by apply Z.mod_pos_bound. }
  constructor; [unfold is_u8; lia|]. apply Forall_app. split; [apply secret_spec|].
  constructor; [|constructor]. unfold is_u8. cbn [sign snd]. lia.
Qed.

Lemma from_der_der s : from_der (der s) = Some s.
Proof.
  destruct s as [sk z]. destruct (secret_spec sk) as [Hl _].
  unfold from_der, der; simpl.
  rewrite take_app_length', drop_app_length' by done. by rewrite mk_secret_bytes.
Qed.
End Toy.

Definition toy_crypto : Crypto := {|
  sha256 := Toy.hash 17;
  blake2b256 := Toy.mix;
  signing_key := Toy.secret;
  verifying_key := Toy.secret;
  signature := Toy.secret * Z;
  secret_from_slice := Toy.mk_secret;
  secret_to_bytes := Toy.secret_bytes;
  verifying_of := id;
  vk_from_sec1 := Toy.mk_vk;
  vk_to_sec1 := λ vk, 2 :: Toy.secret_bytes vk;
  sig_from_der := Toy.from_der;
  sig_to_der := Toy.der;
  ecdsa_sign := Toy.sign;
  ecdsa_verify := λ vk msg s,
    bool_decide (Toy.secret_bytes s.1 = Toy.secret_bytes vk /\ s.2 = (Toy.sign vk msg).2);
  bech32_encode := Toy.encode;
  bech32_decode := Toy.split1;
  to_base32 := id;
  from_base32 := λ bs, if bool_decide (bytes_ok bs) then Some bs else None;
  hex_encode := hex_lower;
  hex_decode := Toy.unhex;
|}.

Lemma toy_laws : CryptoLaws toy_crypto.
Proof.
  split.
  - intros. apply (Toy.padded_length 8 24).
  - intros. apply Toy.padded_ok.
  - intros. apply (Toy.padded_length 2 30).
  - intros. apply Toy.padded_ok.
  - exact Toy.mk_secret_bytes.
  - intros sk. apply Toy.secret_spec.
  - intros sk. apply Toy.secret_spec.
  - intros vk. simpl. by rewrite (proj1 (Toy.secret_spec vk)).
  - intros vk. constructor; [unfold is_u8; lia | apply Toy.secret_spec].
  - intros vk. apply Toy.mk_secret_bytes.
  - intros [sk z]. simpl. unfold Toy.der. simpl. rewrite length_app, (proj1 (Toy.secret_spec sk)). simpl. lia.
  - apply Toy.from_der_der.
  - apply Toy.der_ok.
  - intros sk msg. simpl. by apply bool_decide_eq_true.
  - intros hrp d s Hh. simpl. unfold Toy.encode. case_bool_decide as Hd; [|done]. intros [= <-].
    destruct Hh as [-> | ->]; lazy -[bytes_of_string string_of_bytes]; by rewrite bytes_of_string_of_bytes.
  - intros hrp bs _ _ Hb. simpl. unfold Toy.encode, id. by rewrite bool_decide_true.
  - intros hrp d s Hh. simpl. unfold Toy.encode. case_bool_decide; [|done]. intros [= <-].
    destruct Hh as [-> | ->]; reflexivity.
  - intros bs Hb. simpl. unfold id. by rewrite bool_decide_true.
  - intros d bs. simpl. case_bool_decide; [by intros [= <-]|done].
  - done.
  - exact Toy.unhex_lower.
Qed.

(** Concrete keys for the witnesses. *)
Definition toy_key : Toy.secret := Toy.Secret (replicate 32 1) I.
Definition toy_key2 : Toy.secret := Toy.Secret (replicate 32 9) I.
