(* ===== verification/Chain.v ===== *)
(** * Consensus parameters and emission ([tensorium-core/src/chain.rs], [emission.rs])

    The networks, the record of consensus constants and the three parameter
    sets the binaries use. *)

From S2P Require Import Prelude.

Local Open Scope Z_scope.

Definition COIN : Z := 100000000.
Definition MAX_HALVING_ERAS : Z := 10.
Definition TOTAL_SUPPLY_COINS : Z := 33000000.
Definition TOTAL_SUPPLY_ATOMS : Z := TOTAL_SUPPLY_COINS * COIN.
Definition MINING_ALLOCATION_COINS : Z := TOTAL_SUPPLY_COINS.
Definition MINING_ALLOCATION_ATOMS : Z := MINING_ALLOCATION_COINS * COIN.

Inductive ChainNetwork := Testnet | Mainnet.

Record ConsensusParams := {
  network : ChainNetwork;
  p_chain_id : string;
  target_block_seconds : Z;
  halving_interval_blocks : Z;
  max_halving_eras : Z;
  total_supply_atoms : Z;
  founder_allocation_atoms : Z;
  mining_allocation_atoms : Z;
  genesis_allocations : list (string * Z);
  founder_address : string;
  initial_reward_atoms : Z;
  initial_leading_zero_bits : Z;
  min_leading_zero_bits : Z;
  max_leading_zero_bits : Z;
  difficulty_adjustment_window : Z;
  difficulty_retarget_activation_height : Z;
  coinbase_maturity_blocks : Z;
  max_future_block_time_seconds : Z;
  max_block_bytes : Z;
}.

Definition blocks_per_year (target_block_seconds : Z) : Z :=
  365 * 24 * 60 * 60 / target_block_seconds.

Definition testnet : ConsensusParams := {|
  network := Testnet;
  p_chain_id := "tensorium-testnet-0";
  target_block_seconds := 60;
  halving_interval_blocks := 1051200;
  max_halving_eras := MAX_HALVING_ERAS;
  total_supply_atoms := 33000000 * COIN;
  founder_allocation_atoms := 1000000 * COIN;
  mining_allocation_atoms := 32000000 * COIN;
  genesis_allocations := [];
  founder_address := "";
  initial_reward_atoms := 1523557865;
  initial_leading_zero_bits := 20;
  min_leading_zero_bits := 8;
  max_leading_zero_bits := 36;
  difficulty_adjustment_window := 60;
  difficulty_retarget_activation_height := U64_MAX;
  coinbase_maturity_blocks := 10;
  max_future_block_time_seconds := 2 * 60 * 60;
  max_block_bytes := 1000000;
|}.

Definition mainnet : ConsensusParams := {|
  network := Mainnet;
  p_chain_id := "tensorium-mainnet";
  target_block_seconds := 60;
  halving_interval_blocks := 2102400;
  max_halving_eras := MAX_HALVING_ERAS;
  total_supply_atoms := TOTAL_SUPPLY_ATOMS;
  founder_allocation_atoms := 0;
  mining_allocation_atoms := MINING_ALLOCATION_ATOMS;
  genesis_allocations := [];
  founder_address := "";
  initial_reward_atoms := 785584523;
  initial_leading_zero_bits := 42;
  min_leading_zero_bits := 34;
  max_leading_zero_bits := 58;
  difficulty_adjustment_window := 60;
  difficulty_retarget_activation_height := 2;
  coinbase_maturity_blocks := 10;
  max_future_block_time_seconds := 2 * 60 * 60;
  max_block_bytes := 1000000;
|}.

Definition TESTNET : ConsensusParams := testnet.
Definition MAINNET : ConsensusParams := mainnet.

(** [ConsensusParams { .., ..ConsensusParams::testnet() }] *)
Definition TEST_PARAMS : ConsensusParams := {|
  network := Testnet;
  p_chain_id := "tensorium-testnet-0";
  target_block_seconds := target_block_seconds testnet;
  halving_interval_blocks := halving_interval_blocks testnet;
  max_halving_eras := max_halving_eras testnet;
  total_supply_atoms := total_supply_atoms testnet;
  founder_allocation_atoms := founder_allocation_atoms testnet;
  mining_allocation_atoms := mining_allocation_atoms testnet;
  genesis_allocations := [];
  founder_address := "";
  initial_reward_atoms := initial_reward_atoms testnet;
  initial_leading_zero_bits := 8;
  min_leading_zero_bits := 4;
  max_leading_zero_bits := 16;
  difficulty_adjustment_window := difficulty_adjustment_window testnet;
  difficulty_retarget_activation_height := difficulty_retarget_activation_height testnet;
  coinbase_maturity_blocks := coinbase_maturity_blocks testnet;
  max_future_block_time_seconds := max_future_block_time_seconds testnet;
  max_block_bytes := max_block_bytes testnet;
|}.

(** * Emission schedule ([tensorium-core/src/emission.rs])

    The block subsidy, and the closed-form supply the sources compute from it.
    The theorems relate the two: the supply function is the sum of the
    subsidies below a height, so it bounds what a chain can create. *)

(** [(height / interval) as u32] *)
Definition emission_era (params : ConsensusParams) (height : Z) : Z :=
  (height / halving_interval_blocks params) mod U32_MOD.

Definition reward_at_height (params : ConsensusParams) (height : Z) : Z :=
  let era := emission_era params height in
  if max_halving_eras params <=? era then 0
  else shr64 (initial_reward_atoms params) era.

(** The loop over eras: [(emitted, remaining)] after the eras of the list, with
    the early [break]. *)
Fixpoint emission_loop (params : ConsensusParams) (eras : list Z) (emitted remaining : Z) : Z :=
  match eras with
  | [] => emitted
  | era :: eras =>
      if remaining =? 0 then emitted
      else
        let blocks := Z.min remaining (halving_interval_blocks params) in
        let reward := shr64 (initial_reward_atoms params) era in
        emission_loop params eras
          (sat_add64 emitted (sat_mul64 blocks reward)) (sub64 remaining blocks)
  end.

Definition emitted_supply_until_height (params : ConsensusParams) (exclusive_height : Z) : Z :=
  let eras := seqZ 0 (max_halving_eras params) in
  Z.min (emission_loop params eras 0 exclusive_height) (mining_allocation_atoms params).

(** ** Specification: the sum of the subsidies of the blocks below a height *)
Definition rewards_below (params : ConsensusParams) (n : nat) : Z :=
  sumZ ((λ k, reward_at_height params (Z.of_nat k)) <$> seq 0 n).

(** Parameters whose schedule fits the machine widths. *)
Record emission_ok (params : ConsensusParams) : Prop := {
  interval_pos : 0 < halving_interval_blocks params;
  eras_range : 0 <= max_halving_eras params <= 64;
  reward_nonneg : 0 <= initial_reward_atoms params;
  schedule_fits :
    halving_interval_blocks params * initial_reward_atoms params * 2 <= U64_MAX;
}.

Lemma MAINNET_emission_ok : emission_ok MAINNET.
Proof. split; vm_compute; intuition congruence. Qed.

Lemma TESTNET_emission_ok : emission_ok TESTNET.
Proof. split; vm_compute; intuition congruence. Qed.

#[export] Hint Resolve MAINNET_emission_ok TESTNET_emission_ok : txm.

Section Emission.
Context (params : ConsensusParams) (Hok : emission_ok params).

Local Abbreviation I := (halving_interval_blocks params).
Local Abbreviation R := (initial_reward_atoms params).
Local Abbreviation M := (max_halving_eras params).

(** The reward of one era, with no width in it. *)
Definition era_reward (era : Z) : Z := R / 2 ^ era.

Lemma shr64_era era : 0 <= era < 64 -> shr64 R era = era_reward era.
Proof.
  intros He. unfold shr64, era_reward. rewrite Z.mod_small by lia.
  by rewrite Z.shiftr_div_pow2 by lia.
Qed.

Lemma era_reward_range era : 0 <= era -> 0 <= era_reward era <= R.
Proof.
  intros. pose proof (reward_nonneg _ Hok). unfold era_reward.
  assert (0 < 2 ^ era) by lia.
  split; [by apply Z.div_pos | apply Z.div_le_upper_bound; nia].
Qed.

(** The subsidy is constant on an era, and zero from era [M] on, below the
    height where the cast to [u32] wraps. *)
Lemma reward_at_era era k :
  0 <= era < U32_MOD -> 0 <= k < I ->
  reward_at_height params (era * I + k) = if M <=? era then 0 else era_reward era.
Proof.
  intros He Hk. pose proof (eras_range _ Hok).
  unfold reward_at_height, emission_era.
  rewrite (Z.add_comm (era * I)), Z.div_add, Z.div_small, Z.add_0_l by lia.
  rewrite Z.mod_small by done.
  destruct (Z.leb_spec M era); [done|]. apply shr64_era. lia.
Qed.

Lemma reward_at_height_range h : 0 <= reward_at_height params h <= R.
Proof.
  pose proof (reward_nonneg _ Hok). pose proof (eras_range _ Hok).
  unfold reward_at_height. destruct (Z.leb_spec M (emission_era params h)); [lia|].
  assert (0 <= emission_era params h) by by apply Z.mod_pos_bound.
  rewrite shr64_era by lia. by apply era_reward_range.
Qed.

(** *** The supply function is a sum over eras *)

(** Blocks of era [e] among the first [h] blocks. *)
Definition era_blocks (e h : Z) : Z := Z.max 0 (Z.min I (h - e * I)).

Definition supply_from (e : Z) (n : nat) (h : Z) : Z :=
  sumZ ((λ k, era_blocks k h * era_reward k) <$> seqZ e (Z.of_nat n)).

Lemma era_reward_succ e : 0 <= e -> 2 * era_reward (e + 1) <= era_reward e.
Proof.
  intros He. unfold era_reward. rewrite Z.pow_add_r, Z.pow_1_r by lia.
  rewrite <- Z.div_div by lia. pose proof (Z.mul_div_le (R / 2 ^ e) 2). lia.
Qed.

Lemma supply_from_bound e n h :
  0 <= e -> 0 <= supply_from e n h <= 2 * I * era_reward e.
Proof.
  pose proof (interval_pos _ Hok).
  revert e; induction n as [|n IH]; intros e He.
  - unfold supply_from. simpl. pose proof (era_reward_range e He). nia.
  - unfold supply_from. rewrite seqZ_cons by lia. rewrite fmap_cons. simpl sumZ.
    replace (Z.pred (Z.of_nat (S n))) with (Z.of_nat n) by lia.
    specialize (IH (Z.succ e) ltac:(lia)). fold (supply_from (Z.succ e) n h).
    pose proof (era_reward_succ e He). pose proof (era_reward_range e He).
    replace (e + 1) with (Z.succ e) in * by lia.
    assert (0 <= era_blocks e h <= I) by (unfold era_blocks; lia). nia.
Qed.

Lemma supply_from_0 e n h : 0 <= e -> h <= e * I -> supply_from e n h = 0.
Proof.
  pose proof (interval_pos _ Hok).
  revert e; induction n as [|n IH]; intros e He Hh; [done|].
  unfold supply_from. rewrite seqZ_cons by lia. rewrite fmap_cons. simpl sumZ.
  replace (Z.pred (Z.of_nat (S n))) with (Z.of_nat n) by lia.
  fold (supply_from (Z.succ e) n h). rewrite IH by nia. unfold era_blocks. nia.
Qed.

Lemma supply_from_S e n h :
  supply_from e (S n) h = era_blocks e h * era_reward e + supply_from (e + 1) n h.
Proof.
  unfold supply_from. rewrite seqZ_cons by lia. rewrite fmap_cons. simpl sumZ.
  by replace (Z.pred (Z.of_nat (S n))) with (Z.of_nat n) by lia.
Qed.

(** The loop computes that sum: no saturation is reached. *)
Lemma emission_loop_spec n e emitted h :
  0 <= e -> e + Z.of_nat n <= M -> is_u64 h -> e * I <= h ->
  0 <= emitted -> emitted + 2 * I * era_reward e <= U64_MAX ->
  emission_loop params (seqZ e (Z.of_nat n)) emitted (h - e * I) =
    emitted + supply_from e n h.
Proof.
  pose proof (interval_pos _ Hok). pose proof (eras_range _ Hok).
  revert e emitted; induction n as [|n IH]; intros e emitted He Hn Hh Heh Hem Hfit.
  - unfold supply_from; simpl. lia.
  - rewrite seqZ_cons, supply_from_S by lia. cbn [emission_loop].
    replace (Z.pred (Z.of_nat (S n))) with (Z.of_nat n) by lia.
    pose proof (era_reward_succ e He). pose proof (era_reward_range e He).
    destruct (Z.eqb_spec (h - e * I) 0) as [Hz|Hnz].
    + rewrite supply_from_0 by nia. unfold era_blocks. nia.
    + replace (Z.succ e) with (e + 1) by lia. rewrite shr64_era by lia.
      assert (Z.min (h - e * I) I = era_blocks e h) as -> by (unfold era_blocks; lia).
      assert (0 <= era_blocks e h <= I) by (unfold era_blocks; lia).
      assert (0 <= era_blocks e h * era_reward e <= I * era_reward e) by nia.
      unfold sat_mul64. rewrite Z.min_l by lia. unfold sat_add64. rewrite Z.min_l by lia.
      unfold sub64. rewrite Z.mod_small by (unfold is_u64, era_blocks in *; nia).
      destruct (decide (h <= (e + 1) * I)) as [Hlast|Hmore].
      * rewrite supply_from_0 by nia.
        destruct n as [|n]; [simpl; lia|]. rewrite seqZ_cons by lia. cbn [emission_loop].
        rewrite (proj2 (Z.eqb_eq _ _)); [lia|]. unfold era_blocks; lia.
      * assert (era_blocks e h = I) as Hfull by (unfold era_blocks; lia).
        rewrite Hfull in *. replace (h - e * I - I) with (h - (e + 1) * I) by lia.
        assert (I * (2 * era_reward (e + 1)) <= I * era_reward e) by nia.
        rewrite IH; [lia|lia|lia|done|lia|lia|lia].
Qed.

(** *** The specification is the same sum *)
Lemma rewards_below_S n :
  rewards_below params (S n) = rewards_below params n + reward_at_height params (Z.of_nat n).
Proof. unfold rewards_below. rewrite seq_S, fmap_app, sumZ_app. simpl. lia. Qed.

Lemma era_blocks_S e h :
  0 <= h -> 0 <= e ->
  era_blocks e (h + 1) = era_blocks e h + (if decide (h / I = e) then 1 else 0).
Proof.
  pose proof (interval_pos _ Hok). intros. unfold era_blocks.
  pose proof (Z.div_mod h I). pose proof (Z.mod_pos_bound h I).
  destruct (decide (h / I = e)) as [<-|Hne]; [lia|].
  destruct (Z.lt_total (h / I) e) as [?|[?|?]]; [nia|done|nia].
Qed.

Lemma supply_from_step e n h :
  0 <= h -> 0 <= e ->
  supply_from e n (h + 1) = supply_from e n h +
    (if decide (e <= h / I < e + Z.of_nat n) then era_reward (h / I) else 0).
Proof.
  intros Hh. revert e; induction n as [|n IH]; intros e He.
  - rewrite decide_False by lia. unfold supply_from. simpl. lia.
  - rewrite !supply_from_S, IH, era_blocks_S by lia.
    destruct (decide (h / I = e)) as [<-|Hne];
      repeat case_decide; try lia; nia.
Qed.

Lemma rewards_below_spec n :
  Z.of_nat n <= I * U32_MOD ->
  rewards_below params n = supply_from 0 (Z.to_nat M) (Z.of_nat n).
Proof.
  pose proof (interval_pos _ Hok). pose proof (eras_range _ Hok).
  induction n as [|n IH]; intros Hn; [by rewrite supply_from_0 by lia|].
  rewrite rewards_below_S, IH by lia.
  replace (Z.of_nat (S n)) with (Z.of_nat n + 1) by lia.
  rewrite supply_from_step by lia. f_equal.
  pose proof (Z.div_mod (Z.of_nat n) I ltac:(lia)).
  pose proof (Z.mod_pos_bound (Z.of_nat n) I ltac:(lia)).
  assert (0 <= Z.of_nat n / I < U32_MOD).
  { split; [by apply Z.div_pos; lia | apply Z.div_lt_upper_bound; lia]. }
  replace (Z.of_nat n) with (Z.of_nat n / I * I + Z.of_nat n mod I) at 1 by lia.
  rewrite reward_at_era by done.
  destruct (Z.leb_spec M (Z.of_nat n / I)); case_decide; lia || done.
Qed.

Lemma emitted_supply_spec n :
  Z.of_nat n <= I * U32_MOD -> Z.of_nat n <= U64_MAX ->
  emitted_supply_until_height params (Z.of_nat n) =
    Z.min (rewards_below params n) (mining_allocation_atoms params).
Proof.
  intros Hn Hu. pose proof (interval_pos _ Hok). pose proof (eras_range _ Hok).
  unfold emitted_supply_until_height. f_equal. rewrite rewards_below_spec by done.
  rewrite <- (Z2Nat.id M) at 1 by lia.
  pose proof (emission_loop_spec (Z.to_nat M) 0 0 (Z.of_nat n)) as Hl.
  rewrite Z.mul_0_l, Z.sub_0_r in Hl. rewrite Hl; [lia|lia|lia| |lia|lia|].
  - u64_lia.
  - pose proof (era_reward_range 0 ltac:(lia)). pose proof (schedule_fits _ Hok). nia.
Qed.

(** The sum never exceeds the geometric bound of the whole schedule. *)
Lemma rewards_below_mono n m : (n <= m)%nat -> rewards_below params n <= rewards_below params m.
Proof.
  induction 1 as [|m _ IH]; [done|]. rewrite rewards_below_S.
  pose proof (reward_at_height_range (Z.of_nat m)). lia.
Qed.

Lemma rewards_below_nonneg n : 0 <= rewards_below params n.
Proof. transitivity (rewards_below params 0); [done|]. apply rewards_below_mono. lia. Qed.

Lemma supply_from_total n h :
  supply_from 0 n h <= sumZ ((λ k, I * era_reward k) <$> seqZ 0 (Z.of_nat n)).
Proof.
  unfold supply_from. pose proof (interval_pos _ Hok).
  assert (Hall : Forall (Z.le 0) (seqZ 0 (Z.of_nat n))).
  { apply Forall_seqZ. lia. }
  induction Hall as [|k l Hk _ IH]; [done|]. rewrite !fmap_cons. simpl.
  pose proof (era_reward_range k Hk). unfold era_blocks at 1. nia.
Qed.
End Emission.

(** The whole mainnet schedule stays below the declared total. *)
Lemma MAINNET_rewards_cap n :
  Z.of_nat n <= halving_interval_blocks MAINNET * U32_MOD ->
  rewards_below MAINNET n <= TOTAL_SUPPLY_ATOMS.
Proof.
  intros Hn. rewrite (rewards_below_spec MAINNET MAINNET_emission_ok) by done.
  etransitivity; [apply (supply_from_total MAINNET MAINNET_emission_ok)|]. vm_compute. discriminate.
Qed.

(** Where the cast of the era to [u32] wraps, the subsidy starts again. *)
Lemma subsidy_restarts :
  reward_at_height MAINNET (halving_interval_blocks MAINNET * max_halving_eras MAINNET) = 0 /\
  reward_at_height MAINNET (halving_interval_blocks MAINNET * U32_MOD) = initial_reward_atoms MAINNET.
Proof. by vm_compute. Qed.
