(* ===== verification/Hash.v ===== *)
(** * Hashes and TensorHash ([tensorium-core/src/hash.rs],
    [tensorium-tensorhash/src/lib.rs])

    The 32-byte hash type with its leading-zero count, and the memory-hard
    proof-of-work function built from Blake2b. *)

From S2P Require Import Prelude Crypto.

Local Open Scope Z_scope.

Record Hash256 := mkHash { hash_bytes : bytes }.

#[export] Instance Hash256_eq_dec : EqDecision Hash256.
Proof. solve_decision. Defined.
#[export] Instance Hash256_countable : Countable Hash256.
Proof. by apply (inj_countable' hash_bytes mkHash); intros []. Defined.

(** Every value of the Rust type [[u8; 32]]. *)
Definition hash_ok (h : Hash256) : Prop := length (hash_bytes h) = 32%nat /\ bytes_ok (hash_bytes h).

Definition ZERO : Hash256 := mkHash (replicate 32 0).

(** [u8::leading_zeros] *)
Definition u8_leading_zeros (b : Z) : Z := if b =? 0 then 8 else 7 - Z.log2 b.

(** [Hash256::leading_zero_bits]: the loop stops at the first non-zero byte. *)
Fixpoint leading_zero_bits_of (bs : bytes) (bits : Z) : Z :=
  match bs with
  | [] => bits
  | b :: bs =>
      if b =? 0 then leading_zero_bits_of bs (bits + 8)
      else bits + u8_leading_zeros b
  end.

Definition leading_zero_bits (h : Hash256) : Z := leading_zero_bits_of (hash_bytes h) 0.

Definition hash_meets_work (hash : Hash256) (leading_zero_bits_target : Z) : bool :=
  leading_zero_bits_target <=? leading_zero_bits hash.

Section Hash.
Context `{Crypto}.

Definition double_sha256 (bs : bytes) : Hash256 := mkHash (sha256 (sha256 bs)).

Definition to_hex (h : Hash256) : string := hex_encode (hash_bytes h).

Lemma double_sha256_ok `{!CryptoLaws _} bs : hash_ok (double_sha256 bs).
Proof. split; simpl; auto with crypto. Qed.

Lemma to_hex_inj `{!CryptoLaws _} g h : hash_ok g -> hash_ok h -> to_hex g = to_hex h -> g = h.
Proof.
  intros [_ Hg] [_ Hh]. unfold to_hex. rewrite !hex_encode_lower.
  destruct g, h; simpl in *. intros E. f_equal. by apply hex_lower_inj.
Qed.
End Hash.

(** ** TensorHash v1 *)
Module TensorHash.
Definition DATASET_N : Z := 600000000.
Definition EPOCH_LENGTH : Z := 8192.
Definition K : Z := 32.

(** [word.rotate_left(n)] *)
Definition rotate_left64 (x n : Z) : Z :=
  Z.lor (Z.shiftl x n mod U64_MOD) (Z.shiftr x (64 - n)).

(** [[u64; 4]] from 32 bytes and back. *)
Definition bytes_to_u64x4 (bs : bytes) : list Z :=
  (λ i, le_val (take 8 (drop (8 * i) bs))) <$> seq 0 4.
Definition u64x4_to_bytes (words : list Z) : bytes :=
  mjoin ((λ w, le_bytes 8 w) <$> words).

Section Pow.
Context `{Crypto}.

Definition dataset_element (epoch_seed : bytes) (index : Z) : bytes :=
  blake2b256 (epoch_seed ++ le_bytes 8 index).

(** One lane of the multiply-rotate-add step. *)
Definition mix_lane (acc elem : list Z) (m : nat) : Z :=
  add64 (mul64 (nth m acc 0) (Z.lor (nth m elem 0) 1))
        (rotate_left64 (nth ((m + 1) mod 4) elem 0) 13).

(** Iteration [j] of the loop over the dataset accesses. *)
Definition mix_step (digest epoch_seed : bytes) (acc : list Z) (j : Z) : list Z :=
  let idx_seed := blake2b256 (digest ++ le_bytes 8 j) in
  let idx := le_val (take 8 idx_seed) mod DATASET_N in
  let elem := bytes_to_u64x4 (dataset_element epoch_seed idx) in
  mix_lane acc elem <$> seq 0 4.

Definition pow_hash (header_bytes : bytes) (nonce : Z) (epoch_seed : bytes) : bytes :=
  let digest := blake2b256 (header_bytes ++ le_bytes 8 nonce) in
  let acc := foldl (mix_step digest epoch_seed) (bytes_to_u64x4 digest) (seqZ 0 K) in
  blake2b256 (header_bytes ++ le_bytes 8 nonce ++ u64x4_to_bytes acc).

(** *** The word packing is a bijection *)
Lemma u64x4_bytes_roundtrip bs :
  length bs = 32%nat -> bytes_ok bs -> u64x4_to_bytes (bytes_to_u64x4 bs) = bs.
Proof.
  intros Hl Hb. unfold u64x4_to_bytes, bytes_to_u64x4. rewrite <- list_fmap_compose.
  rewrite (list_fmap_ext _ (λ i, take 8 (drop (8 * i) bs))).
  - assert (Hglue : forall k, take 8 (drop k bs) ++ drop (k + 8) bs = drop k bs).
    { intros k. rewrite <- drop_drop. apply take_drop. }
    cbn [seq fmap list_fmap mjoin list_join]. rewrite app_nil_r.
    rewrite (take_ge (drop (8 * 3) bs)) by (rewrite length_drop; lia).
    change (8 * 3)%nat with (8 * 2 + 8)%nat. rewrite (Hglue (8 * 2)%nat).
    change (8 * 2)%nat with (8 * 1 + 8)%nat. rewrite (Hglue (8 * 1)%nat). apply (Hglue 0%nat).
  - intros i k Hk. apply lookup_seq in Hk as [-> Hk].
    set (w := take 8 (drop (8 * i) bs)).
    assert (length w = 8%nat) as Hw by (unfold w; rewrite length_take, length_drop; lia).
    change (le_bytes 8 (le_val w) = w). rewrite <- Hw. apply le_bytes_le_val.
    by apply Forall_take, Forall_drop.
Qed.
End Pow.
End TensorHash.
