(* ===== verification/ScriptVM.v ===== *)
(** * Scripts: opcodes, limits and the interpreter ([tensorium-core/src/script/mod.rs], [vm.rs]) *)

From S2P Require Import Prelude.

Local Open Scope Z_scope.

Definition OP_0 : Z := 0x00.
Definition OP_DUP : Z := 0x76.
Definition OP_DROP : Z := 0x75.
Definition OP_2DROP : Z := 0x6f.
Definition OP_SWAP : Z := 0x7c.
Definition OP_SHA256 : Z := 0xa8.
Definition OP_HASH160 : Z := 0xa9.
Definition OP_CHECKSIG : Z := 0xac.
Definition OP_CHECKMULTISIG : Z := 0xae.
Definition OP_CHECKMULTISIGVERIFY : Z := 0xaf.
(** [OP_1] to [OP_16] are [0x51] to [0x60]. *)
Definition OP_1 : Z := 0x51.
Definition OP_16 : Z := 0x60.
Definition OP_EQUAL : Z := 0x87.
Definition OP_EQUALVERIFY : Z := 0x88.
Definition OP_VERIFY : Z := 0x69.
Definition OP_IF : Z := 0x63.
Definition OP_ELSE : Z := 0x67.
Definition OP_ENDIF : Z := 0x68.
Definition OP_RETURN : Z := 0x6a.
Definition OP_CHECKLOCKTIMEVERIFY : Z := 0xb1.

Definition MAX_STACK_DEPTH : Z := 100.
Definition MAX_SCRIPT_SIZE : Z := 10000.
Definition MAX_ELEMENT_SIZE : Z := 520.

Inductive ScriptError :=
| StackOverflow
| StackUnderflow
| ScriptTooLarge
| ElementTooLarge
| InvalidOpcode (op : Z)
| InvalidSignature
| InvalidKey
| InvalidAddress
| CheckSigFailed
| VerifyFailed
| UnexpectedEndOfScript
| ScriptInSigContainsChecksig
| LockTimeNotMet
| P2shHashMismatch.

#[export] Instance ScriptError_eq_dec : EqDecision ScriptError.
Proof. solve_decision. Defined.

(** [list.len()] as an integer *)
Abbreviation len l := (Z.of_nat (length l)).

(** * The script interpreter ([tensorium-core/src/script/vm.rs])

    The stack is a list whose head is the end of the Rust [Vec]; [if_stack] the
    same. The index [i] of the source is the suffix [rest] still to read. *)

From S2P Require Import Crypto Hash.

Record ScriptContext := { sig_hash : Hash256; block_height : Z }.

Definition is_p2sh (spk : bytes) : bool :=
  (len spk =? 23) && (nth 0 spk 0 =? OP_HASH160) && (nth 1 spk 0 =? 0x14)
    && (nth 22 spk 0 =? OP_EQUAL).

Definition is_truthy (item : bytes) : bool := existsb (λ b, negb (b =? 0)) item.

(** [executing!()]: the top of [if_stack] alone decides. *)
Definition executing (if_stack : list bool) : bool :=
  match if_stack with [] => true | b :: _ => b end.

Definition bool_item (b : bool) : bytes := if b then [1] else [].

Definition pop (stack : list bytes) : result ScriptError (bytes * list bytes) :=
  match stack with [] => Err StackUnderflow | x :: stack => Ok (x, stack) end.

(** What one iteration of the interpreter leaves: unread script, stack, conditionals. *)
Definition vm_state : Type := bytes * list bytes * list bool.

(** A push of the next [n] bytes, shared by the direct pushes and [OP_PUSHDATA1]. *)
Definition push_data (n : nat) (rest : bytes) (stack : list bytes) (if_stack : list bool) :
    result ScriptError vm_state :=
  if len rest <? Z.of_nat n then Err UnexpectedEndOfScript
  else if executing if_stack then
    let data := take n rest in
    if MAX_ELEMENT_SIZE <? len data then Err ElementTooLarge
    else if MAX_STACK_DEPTH <=? len stack then Err StackOverflow
    else Ok (drop n rest, data :: stack, if_stack)
  else Ok (drop n rest, stack, if_stack).

Section VM.
Context `{Crypto}.

(** *** Signatures *)

(** The inner [while] of CHECKMULTISIG: the keys after the first one that
    verifies [sig]. *)
Fixpoint match_key (msg : bytes) (sig : signature) (pubkeys : list bytes) : option (list bytes) :=
  match pubkeys with
  | [] => None
  | pk :: pubkeys =>
      match vk_from_sec1 pk with
      | Some vk => if ecdsa_verify vk msg sig then Some pubkeys else match_key msg sig pubkeys
      | None => match_key msg sig pubkeys
      end
  end.

(** The outer loop: each signature must match a key, moving forward. *)
Fixpoint match_sigs (msg : bytes) (sigs pubkeys : list bytes) : bool :=
  match sigs with
  | [] => true
  | sig_bytes :: sigs =>
      match sig_from_der sig_bytes with
      | None => false
      | Some sig =>
          match match_key msg sig pubkeys with
          | None => false
          | Some pubkeys => match_sigs msg sigs pubkeys
          end
      end
  end.

(** [OP_CHECKMULTISIG] and [OP_CHECKMULTISIGVERIFY]. *)
Definition check_multisig (ctx : ScriptContext) (op : Z) (stack : list bytes) :
    result ScriptError (list bytes) :=
  '(n_item, stack) ← pop stack;
  match n_item with
  | [] => Err (InvalidOpcode op)
  | n :: _ =>
      reject_if (16 <? n) (InvalidOpcode op);;
      reject_if (len stack <? n) StackUnderflow;;
      let pubkeys := reverse (take (Z.to_nat n) stack) in
      '(m_item, stack) ← pop (drop (Z.to_nat n) stack);
      match m_item with
      | [] => Err (InvalidOpcode op)
      | m :: _ =>
          reject_if (n <? m) (InvalidOpcode op);;
          reject_if (len stack <? m) StackUnderflow;;
          let sigs := reverse (take (Z.to_nat m) stack) in
          let stack := drop (Z.to_nat m) stack in
          let all_matched := match_sigs (hash_bytes (sig_hash ctx)) sigs pubkeys in
          if op =? OP_CHECKMULTISIGVERIFY then
            reject_if (negb all_matched) VerifyFailed;; Ok stack
          else
            reject_if (MAX_STACK_DEPTH <=? len stack) StackOverflow;;
            Ok (bool_item all_matched :: stack)
      end
  end.

Definition op_checksig (ctx : ScriptContext) (stack : list bytes) :
    result ScriptError (list bytes) :=
  '(pubkey_bytes, stack) ← pop stack;
  '(sig_bytes, stack) ← pop stack;
  vk ← ok_or (vk_from_sec1 pubkey_bytes) InvalidKey;
  sig ← ok_or (sig_from_der sig_bytes) InvalidSignature;
  Ok (bool_item (ecdsa_verify vk (hash_bytes (sig_hash ctx)) sig) :: stack).

Definition op_checklocktimeverify (ctx : ScriptContext) (stack : list bytes) :
    result ScriptError (list bytes) :=
  match stack with
  | [] => Err StackUnderflow
  | top :: _ =>
      reject_if (8 <? len top) LockTimeNotMet;;
      reject_if (block_height ctx <? le_val top) LockTimeNotMet;;
      Ok stack
  end.

(** The second [match] of the loop: opcodes of an executing branch. *)
Definition exec_op (ctx : ScriptContext) (allow_checksig : bool) (op : Z) (stack : list bytes) :
    result ScriptError (list bytes) :=
  if op =? OP_RETURN then Err VerifyFailed
  else if op =? OP_DUP then
    '(top, _) ← pop stack;
    reject_if (MAX_STACK_DEPTH <=? len stack) StackOverflow;;
    Ok (top :: stack)
  else if op =? OP_DROP then '(_, stack) ← pop stack; Ok stack
  else if op =? OP_2DROP then '(_, stack) ← pop stack; '(_, stack) ← pop stack; Ok stack
  else if op =? OP_SWAP then
    match stack with a :: b :: stack => Ok (b :: a :: stack) | _ => Err StackUnderflow end
  else if op =? OP_SHA256 then '(top, stack) ← pop stack; Ok (sha256 top :: stack)
  else if op =? OP_HASH160 then '(top, stack) ← pop stack; Ok (take 20 (sha256 top) :: stack)
  else if op =? OP_CHECKSIG then
    reject_if (negb allow_checksig) ScriptInSigContainsChecksig;; op_checksig ctx stack
  else if op =? OP_EQUAL then
    '(b, stack) ← pop stack; '(a, stack) ← pop stack;
    Ok (bool_item (bool_decide (a = b)) :: stack)
  else if op =? OP_EQUALVERIFY then
    '(b, stack) ← pop stack; '(a, stack) ← pop stack;
    reject_if (negb (bool_decide (a = b))) VerifyFailed;; Ok stack
  else if op =? OP_VERIFY then
    '(top, stack) ← pop stack;
    reject_if (negb (is_truthy top)) VerifyFailed;; Ok stack
  else if (OP_1 <=? op) && (op <=? OP_16) then
    reject_if (MAX_STACK_DEPTH <=? len stack) StackOverflow;; Ok ([op - 0x50] :: stack)
  else if (op =? OP_CHECKMULTISIG) || (op =? OP_CHECKMULTISIGVERIFY) then
    reject_if (negb allow_checksig) ScriptInSigContainsChecksig;; check_multisig ctx op stack
  else if op =? OP_0 then
    reject_if (MAX_STACK_DEPTH <=? len stack) StackOverflow;; Ok ([] :: stack)
  else if op =? OP_CHECKLOCKTIMEVERIFY then op_checklocktimeverify ctx stack
  else Err (InvalidOpcode op).

(** One iteration of the loop, after [op] was read. *)
Definition step (ctx : ScriptContext) (allow_checksig : bool) (op : Z) (rest : bytes)
    (stack : list bytes) (if_stack : list bool) : result ScriptError vm_state :=
  if (0x01 <=? op) && (op <=? 0x4b) then push_data (Z.to_nat op) rest stack if_stack
  else if op =? 0x4c then
    match rest with
    | [] => Err UnexpectedEndOfScript
    | n :: rest => push_data (Z.to_nat n) rest stack if_stack
    end
  else if op =? OP_IF then
    if executing if_stack then
      '(top, stack) ← pop stack; Ok (rest, stack, is_truthy top :: if_stack)
    else Ok (rest, stack, false :: if_stack)
  else if op =? OP_ELSE then
    Ok (rest, stack, match if_stack with [] => [] | b :: bs => negb b :: bs end)
  else if op =? OP_ENDIF then Ok (rest, stack, tail if_stack)
  else if negb (executing if_stack) then Ok (rest, stack, if_stack)
  else stack ← exec_op ctx allow_checksig op stack; Ok (rest, stack, if_stack).

(** The [while] loop with [fuel] iterations; [None] is out of fuel. *)
Fixpoint run_fuel (fuel : nat) (ctx : ScriptContext) (allow_checksig : bool) (rest : bytes)
    (stack : list bytes) (if_stack : list bool) : option (result ScriptError (list bytes)) :=
  match rest with
  | [] => Some (Ok stack)
  | op :: rest =>
      match fuel with
      | O => None
      | S fuel =>
          match step ctx allow_checksig op rest stack if_stack with
          | Err e => Some (Err e)
          | Ok (rest, stack, if_stack) => run_fuel fuel ctx allow_checksig rest stack if_stack
          end
      end
  end.

(** The loop from any state: one unit of fuel per unread byte is enough
    ([run_fuel_enough]), so the [None] branch is never taken. *)
Definition run_from (ctx : ScriptContext) (allow_checksig : bool) (rest : bytes)
    (stack : list bytes) (if_stack : list bool) : result ScriptError (list bytes) :=
  match run_fuel (length rest) ctx allow_checksig rest stack if_stack with
  | Some r => r
  | None => Err UnexpectedEndOfScript
  end.

Definition run (stack : list bytes) (script : bytes) (ctx : ScriptContext)
    (allow_checksig : bool) : result ScriptError (list bytes) :=
  run_from ctx allow_checksig script stack [].

Definition execute (script_sig script_pubkey : bytes) (ctx : ScriptContext) :
    result ScriptError bool :=
  reject_if (MAX_SCRIPT_SIZE <? len script_sig + len script_pubkey) ScriptTooLarge;;
  stack ← run [] script_sig ctx false;
  stack ←
    (if is_p2sh script_pubkey then
       '(redeem_script, stack) ← pop stack;
       let computed := take 20 (sha256 redeem_script) in
       let expected := take 20 (drop 2 script_pubkey) in
       reject_if (negb (bool_decide (computed = expected))) P2shHashMismatch;;
       run stack redeem_script ctx true
     else run stack script_pubkey ctx true);
  Ok (match stack with [] => false | top :: _ => is_truthy top end).
End VM.
