(* ===== verification/ScriptVMFacts.v ===== *)
(** * Facts about the interpreter

    Termination, the resource bounds the limits of [script/mod.rs] promise, and
    the equations the script templates are evaluated with. *)

From S2P Require Import Prelude Crypto Hash ScriptVM.

Local Open Scope Z_scope.

Section Facts.
Context `{Crypto}.
Implicit Types (ctx : ScriptContext) (stack : list bytes) (ifs : list bool).

(** ** Termination *)

Lemma push_data_shrinks n rest stack ifs rest' stack' ifs' :
  push_data n rest stack ifs = Ok (rest', stack', ifs') -> (length rest' <= length rest)%nat.
Proof.
  unfold push_data. intros Hp.
  assert (rest' = drop n rest) as -> by (repeat case_match; simplify_eq; done).
  rewrite length_drop. lia.
Qed.

Lemma step_shrinks ctx a op rest stack ifs rest' stack' ifs' :
  step ctx a op rest stack ifs = Ok (rest', stack', ifs') ->
  (length rest' <= length rest)%nat.
Proof.
  unfold step. intros Hs.
  destruct ((1 <=? op) && (op <=? 75)); [by eapply push_data_shrinks|].
  destruct (op =? 76).
  { destruct rest; [done|]. apply push_data_shrinks in Hs. simpl. lia. }
  enough (rest' = rest) as -> by done.
  repeat (case_match; simplify_eq/=; try done);
    try (apply bind_Ok in Hs as ([] & _ & Hs)); try (apply bind_Ok in Hs as (? & _ & Hs)); naive_solver.
Qed.

Lemma run_fuel_irrel fuel1 fuel2 ctx a rest stack ifs :
  (length rest <= fuel1)%nat -> (length rest <= fuel2)%nat ->
  run_fuel fuel1 ctx a rest stack ifs = run_fuel fuel2 ctx a rest stack ifs.
Proof.
  revert fuel2 rest stack ifs; induction fuel1 as [|f1 IH];
    intros [|f2] [|op rest] stack ifs H1 H2; simpl in *; try lia; try done.
  destruct (step ctx a op rest stack ifs) as [[[r s] i]|] eqn:E; [|done].
  apply step_shrinks in E. apply IH; lia.
Qed.

Lemma run_fuel_some fuel ctx a rest stack ifs :
  (length rest <= fuel)%nat -> is_Some (run_fuel fuel ctx a rest stack ifs).
Proof.
  revert rest stack ifs; induction fuel as [|fuel IH];
    intros [|op rest] stack ifs Hl; simpl in *; try lia; try by eexists.
  destruct (step ctx a op rest stack ifs) as [[[r s] i]|] eqn:E; [|by eexists].
  apply step_shrinks in E. apply IH; lia.
Qed.

Lemma run_fuel_run_from fuel ctx a rest stack ifs :
  (length rest <= fuel)%nat ->
  run_fuel fuel ctx a rest stack ifs = Some (run_from ctx a rest stack ifs).
Proof.
  intros Hl. unfold run_from. rewrite (run_fuel_irrel fuel (length rest)) by lia.
  by destruct (run_fuel_some (length rest) ctx a rest stack ifs) as [r ->].
Qed.

(** The unfolding equations of the loop. *)
Lemma run_from_nil ctx a stack ifs : run_from ctx a [] stack ifs = Ok stack.
Proof. done. Qed.

Lemma run_from_cons ctx a op rest stack ifs :
  run_from ctx a (op :: rest) stack ifs =
    ('(rest, stack, ifs) ← step ctx a op rest stack ifs; run_from ctx a rest stack ifs).
Proof.
  apply (inj Some). rewrite <- (run_fuel_run_from (length (op :: rest))) by done. simpl.
  destruct (step ctx a op rest stack ifs) as [[[r s] i]|] eqn:E; [|done].
  apply step_shrinks in E. by rewrite run_fuel_run_from.
Qed.

(** ** Pushes *)

(** The item pushed by a length byte and that many bytes. *)
Lemma run_push ctx a d rest stack ifs :
  (1 <= length d <= 75)%nat -> executing ifs = true -> len stack < MAX_STACK_DEPTH ->
  run_from ctx a (len d :: d ++ rest) stack ifs = run_from ctx a rest (d :: stack) ifs.
Proof.
  intros Hd Hx Hs. rewrite run_from_cons. unfold step.
  rewrite (proj2 (Z.leb_le _ _)), (proj2 (Z.leb_le _ 75)) by lia. simpl.
  unfold push_data. rewrite Nat2Z.id, Hx, length_app.
  rewrite (proj2 (Z.ltb_ge _ _)) by lia.
  rewrite take_app_length, drop_app_length.
  rewrite (proj2 (Z.ltb_ge _ _)) by (unfold MAX_ELEMENT_SIZE; lia).
  by rewrite (proj2 (Z.leb_gt _ _)).
Qed.

Lemma run_pushdata1 ctx a d rest stack ifs :
  (length d <= 255)%nat -> executing ifs = true -> len stack < MAX_STACK_DEPTH ->
  run_from ctx a (0x4c :: len d :: d ++ rest) stack ifs = run_from ctx a rest (d :: stack) ifs.
Proof.
  intros Hd Hx Hs. rewrite run_from_cons. unfold step. simpl.
  unfold push_data. rewrite Nat2Z.id, Hx, length_app.
  rewrite (proj2 (Z.ltb_ge _ _)) by lia.
  rewrite take_app_length, drop_app_length.
  rewrite (proj2 (Z.ltb_ge _ _)) by (unfold MAX_ELEMENT_SIZE; lia).
  by rewrite (proj2 (Z.leb_gt _ _)).
Qed.

(** In a branch that is not executing, a push is skipped. *)
Lemma run_push_skip ctx a d rest stack ifs :
  (1 <= length d <= 75)%nat -> executing ifs = false ->
  run_from ctx a (len d :: d ++ rest) stack ifs = run_from ctx a rest stack ifs.
Proof.
  intros Hd Hx. rewrite run_from_cons. unfold step.
  rewrite (proj2 (Z.leb_le _ _)), (proj2 (Z.leb_le _ 75)) by lia. simpl.
  unfold push_data. rewrite Nat2Z.id, Hx, length_app.
  rewrite (proj2 (Z.ltb_ge _ _)) by lia. by rewrite drop_app_length.
Qed.

(** ** Resource bounds *)

(** A stack within the depth limit, with items of at most [bound] bytes. *)
Definition stack_within (bound : Z) (stack : list bytes) : Prop :=
  len stack <= MAX_STACK_DEPTH /\ Forall (λ x, len x <= bound) stack.

(** Every stack the interpreter builds is within the limits. *)
Definition stack_ok : list bytes -> Prop := stack_within MAX_ELEMENT_SIZE.

(** A length byte is at most 255, so no item an operation makes is longer. *)
Context `{!CryptoLaws _} (bound : Z) (Hbound : 255 <= bound <= MAX_ELEMENT_SIZE).

(** The postcondition of every operation: limits kept, and never
    [ElementTooLarge]. *)
Abbreviation within := (ensures (stack_within bound) (λ e, e <> ElementTooLarge)).

Lemma stack_within_cons x stack :
  stack_within bound (x :: stack) <->
    len x <= bound /\ len stack < MAX_STACK_DEPTH /\ stack_within bound stack.
Proof. unfold stack_within. rewrite Forall_cons. simpl length. split; intuition lia. Qed.

Lemma stack_within_drop n stack : stack_within bound stack -> stack_within bound (drop n stack).
Proof. intros [H1 H2]. split; [rewrite length_drop; lia | by apply Forall_drop]. Qed.

Lemma len_bool_item b : len (bool_item b) <= bound.
Proof using Hbound. destruct b; simpl; lia. Qed.

Lemma len_short (x : bytes) : (length x <= 1)%nat -> len x <= bound.
Proof using Hbound. lia. Qed.

Lemma len_sha256 b : len (sha256 b) <= bound.
Proof using Hbound CryptoLaws0. rewrite sha256_length. lia. Qed.

Lemma len_take_sha256 n b : len (take n (sha256 b)) <= bound.
Proof using Hbound CryptoLaws0. rewrite length_take, sha256_length. lia. Qed.

Lemma within_pop stack (P : bytes * list bytes -> Prop) :
  stack_within bound stack ->
  (forall x s, stack = x :: s -> len x <= bound -> len s < MAX_STACK_DEPTH -> stack_within bound s ->
    P (x, s)) ->
  ensures P (λ e, e <> ElementTooLarge) (pop stack).
Proof. destruct stack as [|x s]; [done|]. rewrite stack_within_cons. intros (?&?&?) HP. by apply HP. Qed.

(** One step of symbolic execution of an operation. *)
Ltac within_step :=
  match goal with
  | |- ensures _ _ (_ ≫= _) => apply ensures_bind
  | |- ensures _ _ (pop _) => apply within_pop; [done|]; intros ? ? -> ? ? ?
  | |- ensures _ _ (reject_if _ _) => apply ensures_reject_if; [intros ?|done]
  | |- ensures _ _ (ok_or _ _) => apply ensures_ok_or; [intros ? ?|done]
  | |- ensures _ _ (Err _) => done
  | |- ensures _ _ (if ?c then _ else _) => destruct c eqn:?
  | |- ensures _ _ (Ok _) => cbn [ensures]
  | |- ensures _ _ (match ?x with [] => _ | _ :: _ => _ end) => destruct x eqn:?
  | H : (_ <=? _) = false |- _ => apply Z.leb_gt in H
  end.

Hint Resolve len_bool_item len_sha256 len_take_sha256 : core.

Lemma check_multisig_within ctx op stack : stack_within bound stack -> within (check_multisig ctx op stack).
Proof using Hbound CryptoLaws0.
  intros Hs. unfold check_multisig.
  apply ensures_bind, within_pop; [done|]. intros [|n ?] s -> _ _ Hs1; [done|].
  do 4 within_step. apply ensures_bind, within_pop; [by apply stack_within_drop|].
  intros [|m ?] s' _ _ _ Hs2; [done|]. apply (stack_within_drop (Z.to_nat m)) in Hs2.
  repeat within_step; [done|]. by apply stack_within_cons.
Qed.

Lemma exec_op_within ctx a op stack : stack_within bound stack -> within (exec_op ctx a op stack).
Proof using Hbound CryptoLaws0.
  intros Hs. unfold exec_op.
  destruct (op =? OP_RETURN); [done|].
  destruct (op =? OP_DUP); [repeat within_step; rewrite !stack_within_cons in *; tauto|].
  destruct (op =? OP_DROP); [by repeat within_step|].
  destruct (op =? OP_2DROP); [by repeat within_step|].
  destruct (op =? OP_SWAP).
  { destruct stack as [|x [|y s]]; [done|done|]. cbn [ensures]. rewrite !stack_within_cons in *.
    simpl length in *. intuition lia. }
  destruct (op =? OP_SHA256); [repeat within_step; by apply stack_within_cons|].
  destruct (op =? OP_HASH160); [repeat within_step; by apply stack_within_cons|].
  destruct (op =? OP_CHECKSIG).
  { unfold op_checksig. repeat within_step. by apply stack_within_cons. }
  destruct (op =? OP_EQUAL); [repeat within_step; by apply stack_within_cons|].
  destruct (op =? OP_EQUALVERIFY); [by repeat within_step|].
  destruct (op =? OP_VERIFY); [by repeat within_step|].
  destruct (_ && _); [repeat within_step; apply stack_within_cons; split; [by apply len_short|done]|].
  destruct (_ || _); [repeat within_step; by apply check_multisig_within|].
  destruct (op =? OP_0); [repeat within_step; apply stack_within_cons; split; [apply len_short; simpl; lia|done]|].
  destruct (op =? OP_CHECKLOCKTIMEVERIFY); [|done].
  unfold op_checklocktimeverify. destruct stack; [done|]. by repeat within_step.
Qed.

(** What an iteration leaves is within the limits, and the unread script is
    still a byte string. *)
Definition vm_ok (st : vm_state) : Prop :=
  let '(rest, stack, _) := st in bytes_ok rest /\ stack_within bound stack.

Lemma push_data_within n rest stack ifs :
  (n <= 255)%nat -> bytes_ok rest -> stack_within bound stack ->
  ensures vm_ok (λ e, e <> ElementTooLarge) (push_data n rest stack ifs).
Proof using Hbound CryptoLaws0.
  intros Hn Hb Hs. unfold push_data. cbv zeta.
  assert (len (take n rest) <= bound) by (rewrite length_take; lia).
  rewrite (proj2 (Z.ltb_ge MAX_ELEMENT_SIZE _)) by lia.
  repeat within_step; split; try (by apply Forall_drop); [|done].
  by apply stack_within_cons.
Qed.

Lemma step_within ctx a op rest stack ifs :
  is_u8 op -> bytes_ok rest -> stack_within bound stack ->
  ensures vm_ok (λ e, e <> ElementTooLarge) (step ctx a op rest stack ifs).
Proof using Hbound CryptoLaws0.
  intros Hop Hb Hs. unfold is_u8 in Hop. unfold step.
  destruct (_ && _); [apply push_data_within; [lia|done|done]|].
  destruct (op =? 76).
  { destruct rest as [|n rest]; [done|]. apply Forall_cons in Hb as [Hn Hb].
    unfold is_u8 in Hn. apply push_data_within; [lia|done|done]. }
  destruct (op =? OP_IF); [by repeat within_step|].
  destruct (op =? OP_ELSE); [done|].
  destruct (op =? OP_ENDIF); [done|].
  within_step; [done|]. apply ensures_bind.
  eapply ensures_weaken; [by apply exec_op_within|]. done.
Qed.

Lemma run_from_within ctx a rest stack ifs :
  bytes_ok rest -> stack_within bound stack -> within (run_from ctx a rest stack ifs).
Proof using Hbound CryptoLaws0.
  remember (length rest) as n eqn:Hn. revert rest stack ifs Hn.
  induction n as [n IH] using lt_wf_ind. intros [|op rest] stack ifs -> Hb Hs; [done|].
  apply Forall_cons in Hb as [Hop Hb]. rewrite run_from_cons. apply ensures_bind.
  pose proof (step_within ctx a op rest stack ifs Hop Hb Hs) as Hw.
  destruct (step ctx a op rest stack ifs) as [[[r s] i]|] eqn:E; [|done].
  destruct Hw as [Hr Hs']. apply step_shrinks in E.
  eapply (IH (length r)); simpl; [lia|done|done|done].
Qed.
End Facts.

(** ** Properties *)

(** The interpreter always terminates, within one iteration per script
    byte: with that much fuel it returns the result [run_from] is defined by;
    and it keeps the limits it states: no run that starts within them leaves a
    stack deeper than 100 items or an item over 520 bytes, and the check on the
    size of a pushed item never fires. *)
Theorem run_terminates_within_limits `{Crypto} `{!CryptoLaws _} (fuel : nat) (ctx : ScriptContext)
    (allow : bool) (script : bytes) (stack : list bytes) :
  (length script <= fuel)%nat -> bytes_ok script -> stack_ok stack ->
  exists r, run_fuel fuel ctx allow script stack [] = Some r /\
    r = run stack script ctx allow /\
    match r with Ok stack' => stack_ok stack' | Err e => e <> ElementTooLarge end.
Proof.
  intros Hf Hb Hs. exists (run stack script ctx allow).
  split; [exact (run_fuel_run_from _ _ _ _ _ _ Hf)|].
  split; [reflexivity|]. exact (run_from_within MAX_ELEMENT_SIZE ltac:(done) ctx allow script stack [] Hb Hs).
Qed.

Lemma run_terminates_within_limits_witness :
  exists r, run_fuel (H := toy_crypto) 4 {| sig_hash := ZERO; block_height := 0 |} true
      [OP_1; OP_DUP; OP_EQUAL] [] [] = Some r /\
    r = run (H := toy_crypto) [] [OP_1; OP_DUP; OP_EQUAL] {| sig_hash := ZERO; block_height := 0 |} true /\
    match r with Ok stack' => stack_ok stack' | Err e => e <> ElementTooLarge end.
Proof.
  refine (@run_terminates_within_limits toy_crypto toy_laws 4 _ true [OP_1; OP_DUP; OP_EQUAL] [] _ _ _).
  - simpl; lia.
  - by_compute.
  - split; [by vm_compute | constructor].
Defined.

(** A conditional inside a branch that is not executing is executed by its
    [OP_ELSE]: only the innermost condition is looked at, and the inner [OP_IF]
    of a dead branch pushes [false], which [OP_ELSE] turns to [true]. Here the
    outer condition is false (the script begins with [OP_0 OP_IF]) and the body
    runs all the same. *)
Theorem nested_else_runs_dead_branch `{Crypto} (ctx : ScriptContext) (allow : bool) (body : bytes)
    (stack : list bytes) :
  run_from ctx allow (OP_IF :: OP_IF :: OP_ELSE :: body) ([] :: stack) [] =
  run_from ctx allow body stack [true; false].
Proof. by rewrite !run_from_cons. Qed.
