(* ===== verification/ScriptStandard.v ===== *)
(** * Standard scripts ([tensorium-core/src/script/standard.rs])

    Builders and parsers of the locking and unlocking scripts: P2PKH, P2SH,
    bare multisig, hash-time-locked contracts and time-locked P2PKH. A builder
    that asserts returns an [outcome]. *)

From S2P Require Import Prelude Crypto Hash ScriptVM.

Local Open Scope Z_scope.

Definition ADDRESS_HRP : string := "txm".
Definition P2SH_HRP : string := "txms".

(** [&l[i..j]] *)
Definition slice (i j : nat) (l : bytes) : bytes := take (j - i) (drop i l).

(** [l[i]] where the source has checked the length. *)
Definition at_ (l : bytes) (i : nat) : Z := nth i l 0.

(** The bytes of [p2pkh_script] after its assertion. *)
Definition p2pkh_bytes (hash20 : bytes) : bytes :=
  OP_DUP :: OP_HASH160 :: 0x14 :: hash20 ++ [OP_EQUALVERIFY; OP_CHECKSIG].

Definition p2pkh_script (hash20 : bytes) : outcome bytes :=
  if len hash20 =? 20 then Done (p2pkh_bytes hash20) else Panic.

(** Lengths are written as one byte, [len as u8]. *)
Definition len_u8 (l : bytes) : Z := len l mod 256.

Definition p2pkh_script_sig (der_sig pubkey : bytes) : bytes :=
  len_u8 der_sig :: der_sig ++ len_u8 pubkey :: pubkey.

Definition p2sh_bytes (hash20 : bytes) : bytes := OP_HASH160 :: 0x14 :: hash20 ++ [OP_EQUAL].

Definition p2sh_script (hash20 : bytes) : outcome bytes :=
  if len hash20 =? 20 then Done (p2sh_bytes hash20) else Panic.

Definition extract_p2sh_hash (spk : bytes) : option bytes :=
  if negb (len spk =? 23) || negb (at_ spk 0 =? OP_HASH160) || negb (at_ spk 1 =? 0x14)
     || negb (at_ spk 22 =? OP_EQUAL)
  then None else Some (slice 2 22 spk).

Section Addresses.
Context `{Crypto}.

Definition p2pkh_from_address (addr : string) : result ScriptError bytes :=
  '(hrp, data) ← ok_or (bech32_decode addr) InvalidAddress;
  reject_if (negb (bool_decide (hrp = ADDRESS_HRP))) InvalidAddress;;
  hash20 ← ok_or (from_base32 data) InvalidAddress;
  reject_if (negb (len hash20 =? 20)) InvalidAddress;;
  Ok (p2pkh_bytes hash20).

Definition p2pkh_from_pubkey (pubkey_bytes : bytes) : bytes :=
  p2pkh_bytes (take 20 (sha256 pubkey_bytes)).

Definition p2sh_script_from_redeem (redeem_script : bytes) : bytes :=
  p2sh_bytes (take 20 (sha256 redeem_script)).

(** The [expect] of an encoder error is a panic. *)
Definition p2sh_address_from_hash (hash20 : bytes) : outcome string :=
  match bech32_encode P2SH_HRP (to_base32 hash20) with Some s => Done s | None => Panic end.

Definition p2sh_address_from_redeem (redeem_script : bytes) : outcome string :=
  p2sh_address_from_hash (take 20 (sha256 redeem_script)).

Definition p2sh_hash_from_address (addr : string) : result ScriptError bytes :=
  '(hrp, data) ← ok_or (bech32_decode addr) InvalidAddress;
  reject_if (negb (bool_decide (hrp = P2SH_HRP))) InvalidAddress;;
  hash20 ← ok_or (from_base32 data) InvalidAddress;
  reject_if (negb (len hash20 =? 20)) InvalidAddress;;
  Ok hash20.

(** The address of a P2SH or P2PKH output. The P2SH case calls
    [p2sh_address_from_hash] on 20 bytes, where the encoder never fails. *)
Definition extract_address (script_pubkey : bytes) : option string :=
  match extract_p2sh_hash script_pubkey with
  | Some hash20 => bech32_encode P2SH_HRP (to_base32 hash20)
  | None =>
      if (len script_pubkey =? 25) && (at_ script_pubkey 0 =? OP_DUP)
         && (at_ script_pubkey 1 =? OP_HASH160) && (at_ script_pubkey 2 =? 0x14)
         && (at_ script_pubkey 23 =? OP_EQUALVERIFY) && (at_ script_pubkey 24 =? OP_CHECKSIG)
      then bech32_encode ADDRESS_HRP (to_base32 (slice 3 23 script_pubkey))
      else None
  end.
End Addresses.

(** ** Multisig *)

Definition multisig_script_sig (sigs : list bytes) : bytes :=
  mjoin ((λ sig, len_u8 sig :: sig) <$> sigs).

Definition p2sh_multisig_script_sig (sigs : list bytes) (redeem_script : bytes) : outcome bytes :=
  let s := multisig_script_sig sigs in
  let rlen := len redeem_script in
  if rlen <=? 0x4b then Done (s ++ rlen :: redeem_script)
  else if rlen <=? 0xff then Done (s ++ 0x4c :: rlen :: redeem_script)
  else Panic.

Definition multisig_script (m : Z) (pubkeys : list bytes) : result ScriptError bytes :=
  let n := len pubkeys in
  reject_if ((m =? 0) || (n =? 0) || (n <? m) || (16 <? n)) InvalidKey;;
  reject_if (existsb (λ pk, negb (len pk =? 33)) pubkeys) InvalidKey;;
  Ok ((OP_1 - 1 + m) :: mjoin ((λ pk, 0x21 :: pk) <$> pubkeys)
        ++ [OP_1 - 1 + n; OP_CHECKMULTISIG]).

(** The loop over the keys: the keys read and the index after them, or [None]
    for the early returns. One unit of fuel per byte is enough: [i] grows. *)
Fixpoint multisig_keys (fuel : nat) (spk : bytes) (i : nat) (pubkeys : list bytes) :
    option (nat * list bytes) :=
  match fuel with
  | O => Some (i, pubkeys)
  | S fuel =>
      if (i <? length spk - 2)%nat then
        if negb (at_ spk i =? 0x21) then None
        else
          let end_ := (i + 1 + 33)%nat in
          if (length spk <? end_)%nat then None
          else multisig_keys fuel spk end_ (pubkeys ++ [slice (i + 1) end_ spk])
      else Some (i, pubkeys)
  end.

Definition extract_multisig (spk : bytes) : option (Z * list bytes) :=
  if len spk <? 37 then None else
  first ← head spk;
  last_ ← last spk;
  if negb (last_ =? OP_CHECKMULTISIG) then None else
  if (first <? 0x51) || (0x60 <? first) then None else
  let m := first - 0x50 in
  '(i, pubkeys) ← multisig_keys (length spk) spk 1 [];
  n_byte ← spk !! i;
  if (n_byte <? 0x51) || (0x60 <? n_byte) then None else
  let n := n_byte - 0x50 in
  if negb (len pubkeys =? n) || (n <? m) then None else Some (m, pubkeys).

(** ** Time locks *)

(** [while len > 1 && bytes[len - 1] == 0 { len -= 1 }] *)
Fixpoint locktime_len (bs : bytes) (n : nat) : nat :=
  match n with
  | S (S _ as n1) => if at_ bs n1 =? 0 then locktime_len bs n1 else n
  | _ => n
  end.

Definition encode_locktime (locktime : Z) : bytes :=
  let bs := le_bytes 8 locktime in take (locktime_len bs 8) bs.

(** The P2PKH check that ends every time-locked script. *)
Definition htlc_script (hash recipient_hash refund_hash : bytes) (locktime : Z) : bytes :=
  let lt := encode_locktime locktime in
  OP_IF :: OP_SHA256 :: 0x20 :: hash ++ OP_EQUALVERIFY ::
  OP_DUP :: OP_HASH160 :: 0x14 :: recipient_hash ++ OP_EQUALVERIFY :: OP_CHECKSIG ::
  OP_ELSE :: len_u8 lt :: lt ++ OP_CHECKLOCKTIMEVERIFY :: OP_DROP ::
  OP_DUP :: OP_HASH160 :: 0x14 :: refund_hash ++ OP_EQUALVERIFY :: OP_CHECKSIG ::
  [OP_ENDIF].

Definition htlc_claim_script_sig (der_sig pubkey preimage : bytes) : outcome bytes :=
  if len preimage <=? 75 then
    Done (len_u8 der_sig :: der_sig ++ len_u8 pubkey :: pubkey
            ++ len_u8 preimage :: preimage ++ [OP_1])
  else Panic.

Definition htlc_refund_script_sig (der_sig pubkey : bytes) : bytes :=
  len_u8 der_sig :: der_sig ++ len_u8 pubkey :: pubkey ++ [OP_0].

(** [from_le_bytes] of a buffer of eight zeroes overwritten with [lt]. *)
Definition locktime_of (lt : bytes) : Z := le_val (lt ++ replicate (8 - length lt) 0).

(** The parser. [spk[62]] is read after a check that only [62] bytes are there. *)
Definition extract_htlc (spk : bytes) : outcome (option (bytes * bytes * bytes * Z)) :=
  if len spk <? 62 then Done None else
  if negb (at_ spk 0 =? OP_IF) || negb (at_ spk 1 =? OP_SHA256) || negb (at_ spk 2 =? 0x20)
  then Done None else
  let hash := slice 3 35 spk in
  if negb (at_ spk 35 =? OP_EQUALVERIFY) || negb (at_ spk 36 =? OP_DUP)
     || negb (at_ spk 37 =? OP_HASH160) || negb (at_ spk 38 =? 0x14)
  then Done None else
  let recipient_hash := slice 39 59 spk in
  if negb (at_ spk 59 =? OP_EQUALVERIFY) || negb (at_ spk 60 =? OP_CHECKSIG)
     || negb (at_ spk 61 =? OP_ELSE)
  then Done None else
  match spk !! 62%nat with
  | None => Panic
  | Some lt_len =>
      if (lt_len =? 0) || (8 <? lt_len) then Done None else
      let lt_end := (63 + Z.to_nat lt_len)%nat in
      if negb (length spk =? lt_end + 28)%nat then Done None else
      let locktime := locktime_of (slice 63 lt_end spk) in
      let i := lt_end in
      if negb (at_ spk i =? OP_CHECKLOCKTIMEVERIFY) || negb (at_ spk (i + 1) =? OP_DROP)
         || negb (at_ spk (i + 2) =? OP_DUP) || negb (at_ spk (i + 3) =? OP_HASH160)
         || negb (at_ spk (i + 4) =? 0x14)
      then Done None else
      let r_start := (i + 5)%nat in
      let r_end := (r_start + 20)%nat in
      let refund_hash := slice r_start r_end spk in
      if negb (at_ spk r_end =? OP_EQUALVERIFY) || negb (at_ spk (r_end + 1) =? OP_CHECKSIG)
         || negb (at_ spk (r_end + 2) =? OP_ENDIF)
      then Done None else Done (Some (hash, recipient_hash, refund_hash, locktime))
  end.

Definition cltv_p2pkh_script (locktime : Z) (hash20 : bytes) : bytes :=
  let lt := encode_locktime locktime in
  len_u8 lt :: lt ++ OP_CHECKLOCKTIMEVERIFY :: OP_DROP ::
  OP_DUP :: OP_HASH160 :: 0x14 :: hash20 ++ [OP_EQUALVERIFY; OP_CHECKSIG].

Definition extract_cltv_p2pkh (spk : bytes) : option (Z * bytes) :=
  match spk with
  | [] => None
  | b :: _ =>
      if (b =? 0) || (8 <? b) then None else
      let lt_len := Z.to_nat b in
      if negb (length spk =? 1 + lt_len + 5 + 20 + 2)%nat then None else
      let lt := slice 1 (1 + lt_len) spk in
      let i := (1 + lt_len)%nat in
      if negb (at_ spk i =? OP_CHECKLOCKTIMEVERIFY) || negb (at_ spk (i + 1) =? OP_DROP)
         || negb (at_ spk (i + 2) =? OP_DUP) || negb (at_ spk (i + 3) =? OP_HASH160)
         || negb (at_ spk (i + 4) =? 0x14)
      then None else
      let h_start := (i + 5)%nat in
      let hash20 := slice h_start (h_start + 20) spk in
      if negb (at_ spk (h_start + 20) =? OP_EQUALVERIFY)
         || negb (at_ spk (h_start + 21) =? OP_CHECKSIG)
      then None else Some (locktime_of lt, hash20)
  end.
