(* ===== verification/ScriptStandardFacts.v ===== *)
(** * Correctness of the standard scripts

    The parsers invert the builders, and running a template under the
    interpreter accepts exactly the spends it is meant to accept. *)

From S2P Require Import Prelude Crypto Hash ScriptVM ScriptVMFacts ScriptStandard.

Local Open Scope Z_scope.

(** Replace a list of known length by that many elements. *)
Ltac explode l :=
  lazymatch goal with
  | H : length l = O |- _ => apply nil_length_inv in H; subst l
  | H : length l = S _ |- _ =>
      let x := fresh "x" in let l' := fresh "l" in
      destruct l as [|x l']; [discriminate H|];
      simpl in H; apply eq_add_S in H; explode l'
  end.

(** ** Locktimes *)

Lemma locktime_len_SS bs n :
  locktime_len bs (S (S n)) = if at_ bs (S n) =? 0 then locktime_len bs (S n) else S (S n).
Proof. done. Qed.

Lemma locktime_len_range bs n : (1 <= n)%nat -> (1 <= locktime_len bs n <= n)%nat.
Proof.
  induction n as [|[|n] IH]; intros Hn; [lia|simpl; lia|].
  specialize (IH ltac:(lia)). rewrite locktime_len_SS. destruct (at_ bs (S n) =? 0); lia.
Qed.

(** Only zero bytes are dropped, so the value is unchanged. *)
Lemma le_val_app a b : le_val (a ++ b) = le_val a + 256 ^ len a * le_val b.
Proof.
  induction a as [|x a IH]; simpl app; simpl le_val; [simpl; lia|].
  rewrite IH. simpl length. rewrite Nat2Z.inj_succ, Z.pow_succ_r by lia. lia.
Qed.

Lemma le_val_zeros n : le_val (replicate n 0) = 0.
Proof. induction n; simpl; lia. Qed.

Lemma locktime_len_val bs n :
  (n <= length bs)%nat -> le_val (take (locktime_len bs n) bs) = le_val (take n bs).
Proof.
  induction n as [|[|n] IH]; intros Hn; [done|done|].
  rewrite locktime_len_SS. destruct (Z.eqb_spec (at_ bs (S n)) 0) as [E|]; [|done].
  rewrite IH by lia. unfold at_ in E.
  rewrite (take_S_r bs (S n) 0).
  - rewrite le_val_app. simpl. lia.
  - rewrite nth_lookup in E. destruct (lookup_lt_is_Some_2 bs (S n)) as [y Hy]; [lia|].
    rewrite Hy in *. simpl in E. by subst.
Qed.

Lemma encode_locktime_length lt : (1 <= length (encode_locktime lt) <= 8)%nat.
Proof.
  unfold encode_locktime. rewrite length_take, length_le_bytes.
  pose proof (locktime_len_range (le_bytes 8 lt) 8). lia.
Qed.

Lemma encode_locktime_ok lt : bytes_ok (encode_locktime lt).
Proof. apply Forall_take, le_bytes_ok. Qed.

Lemma encode_locktime_val lt : is_u64 lt -> le_val (encode_locktime lt) = lt.
Proof.
  intros Hlt. unfold encode_locktime. rewrite locktime_len_val by (rewrite length_le_bytes; lia).
  rewrite take_ge by (rewrite length_le_bytes; lia). rewrite le_val_le_bytes.
  by apply Z.mod_small.
Qed.

Lemma locktime_of_encode lt : is_u64 lt -> locktime_of (encode_locktime lt) = lt.
Proof.
  intros Hlt. unfold locktime_of. rewrite le_val_app, le_val_zeros, encode_locktime_val by done. lia.
Qed.

(** ** Parsing what was built *)

Lemma extract_p2sh_hash_p2sh h : length h = 20%nat -> extract_p2sh_hash (p2sh_bytes h) = Some h.
Proof. intros Hh. explode h. reflexivity. Qed.

Lemma extract_p2sh_hash_p2pkh h : length h = 20%nat -> extract_p2sh_hash (p2pkh_bytes h) = None.
Proof. intros Hh. explode h. reflexivity. Qed.

(** A list of one to eight elements, by cases on its length. *)
Ltac explode_upto n l :=
  let x := fresh "x" in let l' := fresh "l" in
  destruct l as [|x l'];
  [|lazymatch n with S ?m => explode_upto m l' | O => exfalso; simpl in *; lia end].

Lemma extract_htlc_bytes hash r f lt :
  length hash = 32%nat -> length r = 20%nat -> length f = 20%nat -> (1 <= length lt <= 8)%nat ->
  extract_htlc (OP_IF :: OP_SHA256 :: 0x20 :: hash ++ OP_EQUALVERIFY ::
    OP_DUP :: OP_HASH160 :: 0x14 :: r ++ OP_EQUALVERIFY :: OP_CHECKSIG ::
    OP_ELSE :: len_u8 lt :: lt ++ OP_CHECKLOCKTIMEVERIFY :: OP_DROP ::
    OP_DUP :: OP_HASH160 :: 0x14 :: f ++ OP_EQUALVERIFY :: OP_CHECKSIG :: [OP_ENDIF])
  = Done (Some (hash, r, f, locktime_of lt)).
Proof.
  intros Hh Hr Hf Hl. explode hash. explode r. explode f.
  explode_upto 8%nat lt; [simpl in Hl; lia|..]; reflexivity.
Qed.

Lemma extract_cltv_bytes h lt :
  length h = 20%nat -> (1 <= length lt <= 8)%nat ->
  extract_cltv_p2pkh (len_u8 lt :: lt ++ OP_CHECKLOCKTIMEVERIFY :: OP_DROP ::
    OP_DUP :: OP_HASH160 :: 0x14 :: h ++ [OP_EQUALVERIFY; OP_CHECKSIG])
  = Some (locktime_of lt, h).
Proof. intros Hh Hl. explode h. explode_upto 8%nat lt; [simpl in Hl; lia|..]; reflexivity. Qed.

Lemma at_app_r (a b : bytes) i : at_ (a ++ b) (length a + i) = at_ b i.
Proof. unfold at_. rewrite app_nth2 by lia. f_equal. lia. Qed.

Lemma slice_app_r a b i j : slice (length a + i) (length a + j) (a ++ b) = slice i j b.
Proof.
  unfold slice. rewrite drop_app, (drop_ge a) by lia. simpl.
  replace (length a + j - (length a + i))%nat with (j - i)%nat by lia.
  by replace (length a + i - length a)%nat with i by lia.
Qed.

(** The bytes that push the keys of a multisig script. *)
Definition key_pushes (pks : list bytes) : bytes := mjoin ((λ pk, 0x21 :: pk) <$> pks).

Lemma key_pushes_cons pk pks : key_pushes (pk :: pks) = 0x21 :: pk ++ key_pushes pks.
Proof. done. Qed.

Lemma length_key_pushes pks :
  Forall (λ pk, length pk = 33%nat) pks -> length (key_pushes pks) = (34 * length pks)%nat.
Proof.
  induction 1 as [|pk pks Hpk _ IH]; [done|].
  rewrite key_pushes_cons. simpl length. rewrite length_app, IH. lia.
Qed.

Lemma multisig_keys_spec pks fuel pre x y acc :
  Forall (λ pk, length pk = 33%nat) pks -> (length pks < fuel)%nat ->
  multisig_keys fuel (pre ++ key_pushes pks ++ [x; y]) (length pre) acc
  = Some ((length pre + 34 * length pks)%nat, acc ++ pks).
Proof.
  intros Hpks; revert fuel pre acc; induction Hpks as [|pk pks Hpk Hpks IH];
    intros [|fuel] pre acc Hf; simpl length in Hf; try lia; cbn [multisig_keys].
  - rewrite (proj2 (Nat.ltb_ge _ _)) by (rewrite !length_app; simpl; lia).
    rewrite app_nil_r. do 2 f_equal. simpl. lia.
  - rewrite key_pushes_cons.
    set (tl := key_pushes pks ++ [x; y]).
    assert (Htl : length tl = (34 * length pks + 2)%nat).
    { unfold tl. rewrite length_app, length_key_pushes by done. done. }
    change ((0x21 :: pk ++ key_pushes pks) ++ [x; y]) with (0x21 :: (pk ++ key_pushes pks) ++ [x; y]).
    rewrite <- (app_assoc pk). fold tl.
    assert (Hall : length (pre ++ 0x21 :: pk ++ tl) = (length pre + 36 + 34 * length pks)%nat).
    { rewrite length_app. simpl length. rewrite length_app. lia. }
    rewrite Hall, (proj2 (Nat.ltb_lt _ _)) by lia.
    assert (at_ (pre ++ 0x21 :: pk ++ tl) (length pre) = 0x21) as ->.
    { rewrite <- (Nat.add_0_r (length pre)). apply at_app_r. }
    cbn [negb Z.eqb Pos.eqb]. rewrite (proj2 (Nat.ltb_ge _ _)) by lia.
    assert (slice (length pre + 1) (length pre + 1 + 33) (pre ++ 0x21 :: pk ++ tl) = pk) as ->.
    { rewrite <- Nat.add_assoc, slice_app_r. change (take 33 (pk ++ tl) = pk). by apply take_app_length'. }
    replace (length pre + 1 + 33)%nat with (length (pre ++ 0x21 :: pk))
      by (rewrite length_app; simpl; lia).
    replace (pre ++ 0x21 :: pk ++ tl) with ((pre ++ 0x21 :: pk) ++ tl) by by rewrite <- app_assoc.
    unfold tl. rewrite IH by lia. rewrite <- app_assoc, length_app. simpl. do 2 f_equal. lia.
Qed.

Lemma extract_multisig_bytes m pks :
  Forall (λ pk, length pk = 33%nat) pks -> (1 <= length pks <= 16)%nat -> 1 <= m <= len pks ->
  extract_multisig ((OP_1 - 1 + m) :: key_pushes pks ++ [OP_1 - 1 + len pks; OP_CHECKMULTISIG])
  = Some (m, pks).
Proof.
  intros Hpks Hn Hm. unfold extract_multisig.
  assert (Hlen : length ((OP_1 - 1 + m) :: key_pushes pks ++ [OP_1 - 1 + len pks; OP_CHECKMULTISIG])
    = (34 * length pks + 3)%nat).
  { simpl. rewrite length_app, length_key_pushes by done. simpl. lia. }
  rewrite Hlen. rewrite (proj2 (Z.ltb_ge _ _)) by lia. cbn [head].
  assert (last ((OP_1 - 1 + m) :: key_pushes pks ++ [OP_1 - 1 + len pks; OP_CHECKMULTISIG])
    = Some OP_CHECKMULTISIG) as ->.
  { rewrite app_comm_cons. change [?a; ?b] with ([a] ++ [b]). by rewrite app_assoc, last_snoc. }
  cbn [mbind option_bind]. rewrite Z.eqb_refl. cbn [negb]. unfold OP_1 in *.
  rewrite (proj2 (Z.ltb_ge _ _)), (proj2 (Z.ltb_ge 0x60 _)) by lia. cbn [orb].
  pose proof (multisig_keys_spec pks (34 * length pks + 3) [0x51 - 1 + m] (0x51 - 1 + len pks)
    OP_CHECKMULTISIG [] Hpks ltac:(lia)) as Hk.
  cbn [length app] in Hk. rewrite Hk. clear Hk. cbn [mbind option_bind].
  rewrite lookup_cons_ne_0 by lia. rewrite lookup_app_r by (rewrite length_key_pushes by done; lia).
  rewrite length_key_pushes by done. replace (pred (1 + 34 * length pks) - 34 * length pks)%nat with 0%nat by lia.
  cbn. rewrite (proj2 (Z.ltb_ge _ _)), (proj2 (Z.ltb_ge 96 _)) by lia. cbn [orb].
  rewrite (proj2 (Z.eqb_eq _ _)) by lia. rewrite (proj2 (Z.ltb_ge _ _)) by lia. cbn. do 2 f_equal. lia.
Qed.

(** ** Properties *)

(** [extract_multisig] inverts [multisig_script], for every threshold and
    key list the builder accepts. *)
Theorem multisig_roundtrip (m : Z) (pubkeys : list bytes) (spk : bytes) :
  0 <= m -> multisig_script m pubkeys = Ok spk -> extract_multisig spk = Some (m, pubkeys).
Proof.
  intros Hm Hb. unfold multisig_script in Hb. inv_ok Hb. simplify_eq.
  rewrite !orb_false_iff in Hok. destruct Hok as (((H1 & H2) & H3) & H4).
  apply Z.eqb_neq in H1, H2. apply Z.ltb_ge in H3, H4.
  apply extract_multisig_bytes; [|lia|lia].
  apply Forall_forall. intros pk Hpk%list_elem_of_In.
  destruct (Z.eqb_spec (len pk) 33) as [|Hne]; [lia|].
  assert (existsb (λ pk, negb (len pk =? 33)) pubkeys = true) as He; [|congruence].
  apply existsb_exists. exists pk. split; [done|]. by rewrite (proj2 (Z.eqb_neq _ _)).
Qed.

Lemma multisig_roundtrip_witness :
  extract_multisig (OP_1 :: 0x21 :: replicate 33 2 ++ [OP_1; OP_CHECKMULTISIG]) =
    Some (1, [replicate 33 2]).
Proof. refine (multisig_roundtrip 1 [replicate 33 2] _ _ _); [lia | reflexivity]. Defined.

(** [extract_htlc] inverts [htlc_script] for every hash, key hashes and
    lock height. *)
Theorem htlc_roundtrip (hash r f : bytes) (lt : Z) :
  length hash = 32%nat -> length r = 20%nat -> length f = 20%nat -> is_u64 lt ->
  extract_htlc (htlc_script hash r f lt) = Done (Some (hash, r, f, lt)).
Proof.
  intros Hh Hr Hf Hlt. rewrite <- (locktime_of_encode lt) at 2 by done.
  apply extract_htlc_bytes; [done..|apply encode_locktime_length].
Qed.

Lemma htlc_roundtrip_witness :
  extract_htlc (htlc_script (replicate 32 1) (replicate 20 2) (replicate 20 3) 500) =
    Done (Some (replicate 32 1, replicate 20 2, replicate 20 3, 500)).
Proof. by apply (htlc_roundtrip (replicate 32 1) (replicate 20 2) (replicate 20 3) 500). Defined.

(** [extract_cltv_p2pkh] inverts [cltv_p2pkh_script]. *)
Theorem cltv_roundtrip (lt : Z) (hash20 : bytes) :
  length hash20 = 20%nat -> is_u64 lt ->
  extract_cltv_p2pkh (cltv_p2pkh_script lt hash20) = Some (lt, hash20).
Proof.
  intros Hh Hlt. rewrite <- (locktime_of_encode lt) at 2 by done.
  apply extract_cltv_bytes; [done|apply encode_locktime_length].
Qed.

Lemma cltv_roundtrip_witness :
  extract_cltv_p2pkh (cltv_p2pkh_script 300 (replicate 20 3)) = Some (300, replicate 20 3).
Proof. by apply (cltv_roundtrip 300 (replicate 20 3)). Defined.

(** [extract_htlc] panics on a 62-byte script that begins like an HTLC: the
    length is checked against 62, then the byte at index 62 is read. *)
Theorem extract_htlc_panics (hash recipient : bytes) :
  length hash = 32%nat -> length recipient = 20%nat ->
  extract_htlc (take 62 (htlc_script hash recipient recipient 0)) = Panic.
Proof. intros Hh Hr. explode hash. explode recipient. reflexivity. Qed.

Lemma extract_htlc_panics_witness :
  extract_htlc (take 62 (htlc_script (replicate 32 0) (replicate 20 0) (replicate 20 0) 0)) = Panic.
Proof. by apply (extract_htlc_panics (replicate 32 0) (replicate 20 0)). Defined.

(** The address printed for a P2PKH output parses back to its script. *)
Theorem p2pkh_address_roundtrip `{Crypto} `{!CryptoLaws _} (hash20 : bytes) :
  length hash20 = 20%nat -> bytes_ok hash20 ->
  exists addr, extract_address (p2pkh_bytes hash20) = Some addr /\
    p2pkh_from_address addr = Ok (p2pkh_bytes hash20).
Proof.
  intros Hl Hb. destruct (bech32_encodes ADDRESS_HRP hash20) as [addr Ha]; [by left|done|done|].
  exists addr. unfold extract_address, p2pkh_from_address.
  rewrite extract_p2sh_hash_p2pkh by done. split.
  - rewrite <- Ha. by explode hash20.
  - rewrite (bech32_roundtrip _ _ _ (or_introl eq_refl) Ha). cbn.
    rewrite base32_roundtrip by done. cbn. by rewrite Hl.
Qed.

Lemma p2pkh_address_roundtrip_witness :
  exists addr, extract_address (H := toy_crypto) (p2pkh_bytes (replicate 20 65)) = Some addr /\
    p2pkh_from_address (H := toy_crypto) addr = Ok (p2pkh_bytes (replicate 20 65)).
Proof.
  apply (@p2pkh_address_roundtrip toy_crypto toy_laws (replicate 20 65)); [done|].
  by_compute.
Defined.
