(* ===== verification/ScriptSpend.v ===== *)
(** * Who can spend a standard output

    The templates of [script/standard.rs] run under the interpreter of
    [script/vm.rs]: what a spend must exhibit, and that the unlocking scripts
    the builders make exhibit it. *)

From S2P Require Import Prelude Crypto Hash ScriptVM ScriptVMFacts ScriptStandard ScriptStandardFacts.

Local Open Scope Z_scope.

Section Spend.
Context `{Crypto}.
Implicit Types (ctx : ScriptContext) (stack : list bytes) (ifs : list bool).

(** The specification: [sig] is a signature of the context's hash by the key
    whose encoding is [pk]. *)
Definition sig_ok ctx (sig pk : bytes) : bool :=
  match vk_from_sec1 pk, sig_from_der sig with
  | Some vk, Some s => ecdsa_verify vk (hash_bytes (sig_hash ctx)) s
  | _, _ => false
  end.

(** [pk] is the key an output is locked to, and [sig] signs for it. *)
Definition unlocks ctx (hash20 sig pk : bytes) : Prop :=
  take 20 (sha256 pk) = hash20 /\ sig_ok ctx sig pk = true.

(** Opcodes handled by [exec_op]. *)
Definition plain_op (op : Z) : bool :=
  negb ((0x01 <=? op) && (op <=? 0x4b)) && negb (op =? 0x4c) && negb (op =? OP_IF)
    && negb (op =? OP_ELSE) && negb (op =? OP_ENDIF).

Lemma run_plain ctx a op rest stack ifs :
  plain_op op = true -> executing ifs = true ->
  run_from ctx a (op :: rest) stack ifs =
    (s ← exec_op ctx a op stack; run_from ctx a rest s ifs).
Proof.
  unfold plain_op. rewrite !andb_true_iff, !negb_true_iff. intros ((((H1 & H2) & H3) & H4) & H5) Hx.
  rewrite run_from_cons. unfold step. rewrite H1, H2, H3, H4, H5, Hx. simpl.
  by destruct (exec_op ctx a op stack).
Qed.

(** The dispatch of [exec_op] on the opcodes of the templates. *)
Lemma exec_dup ctx a top stack :
  exec_op ctx a OP_DUP (top :: stack) =
    (reject_if (MAX_STACK_DEPTH <=? len (top :: stack)) StackOverflow;; Ok (top :: top :: stack)).
Proof. done. Qed.
Lemma exec_hash160 ctx a top stack :
  exec_op ctx a OP_HASH160 (top :: stack) = Ok (take 20 (sha256 top) :: stack).
Proof. done. Qed.
Lemma exec_sha256 ctx a top stack :
  exec_op ctx a OP_SHA256 (top :: stack) = Ok (sha256 top :: stack).
Proof. done. Qed.
Lemma exec_equalverify ctx a x y stack :
  exec_op ctx a OP_EQUALVERIFY (y :: x :: stack) =
    (reject_if (negb (bool_decide (x = y))) VerifyFailed;; Ok stack).
Proof. done. Qed.
Lemma exec_checksig ctx stack : exec_op ctx true OP_CHECKSIG stack = op_checksig ctx stack.
Proof. done. Qed.
Lemma exec_drop ctx a top stack : exec_op ctx a OP_DROP (top :: stack) = Ok stack.
Proof. done. Qed.
Lemma exec_cltv ctx a stack :
  exec_op ctx a OP_CHECKLOCKTIMEVERIFY stack = op_checklocktimeverify ctx stack.
Proof. done. Qed.

(** A successful run of a push pushed the bytes. *)
Lemma run_push_inv ctx a d rest stack ifs st' :
  (1 <= length d <= 75)%nat -> executing ifs = true ->
  run_from ctx a (len d :: d ++ rest) stack ifs = Ok st' ->
  run_from ctx a rest (d :: stack) ifs = Ok st'.
Proof.
  intros Hd Hx Hr. destruct (Z.lt_ge_cases (len stack) MAX_STACK_DEPTH) as [Hs|Hs].
  - by rewrite run_push in Hr.
  - rewrite run_from_cons in Hr. unfold step, push_data in Hr.
    rewrite (proj2 (Z.leb_le _ _)), (proj2 (Z.leb_le _ 75)) in Hr by lia. simpl in Hr.
    rewrite Hx in Hr. rewrite (proj2 (Z.leb_le MAX_STACK_DEPTH _)) in Hr by done.
    by repeat case_match.
Qed.

(** The check that ends P2PKH, HTLC and CLTV scripts. *)
Definition keyhash_check (hash20 : bytes) : bytes :=
  OP_DUP :: OP_HASH160 :: 0x14 :: hash20 ++ [OP_EQUALVERIFY; OP_CHECKSIG].

Lemma keyhash_inv ctx hash20 rest stack ifs st' :
  length hash20 = 20%nat -> executing ifs = true ->
  run_from ctx true (keyhash_check hash20 ++ rest) stack ifs = Ok st' ->
  exists pk sig st, stack = pk :: sig :: st /\ take 20 (sha256 pk) = hash20 /\
    run_from ctx true rest (bool_item (sig_ok ctx sig pk) :: st) ifs = Ok st'.
Proof.
  intros Hh Hx Hr. unfold keyhash_check in Hr. simpl app in Hr. rewrite <- app_assoc in Hr.
  rewrite run_plain in Hr by done. apply bind_Ok in Hr as (s1 & Hdup & Hr).
  destruct stack as [|pk stack]; [done|]. rewrite exec_dup in Hdup. inv_ok Hdup. simplify_eq.
  rewrite run_plain, exec_hash160 in Hr by done. cbn [mbind result_bind] in Hr.
  replace 0x14 with (len hash20) in Hr by lia.
  apply run_push_inv in Hr; [|lia|done].
  simpl app in Hr. rewrite run_plain, exec_equalverify in Hr by done.
  apply bind_Ok in Hr as (s1 & Heq & Hr). inv_ok Heq. simplify_eq.
  apply negb_false_iff, bool_decide_eq_true in Hok0.
  rewrite run_plain, exec_checksig in Hr by done. apply bind_Ok in Hr as (s1 & Hsig & Hr).
  unfold op_checksig in Hsig. destruct stack as [|sig st]; [done|].
  cbn [pop mbind result_bind] in Hsig. inv_ok Hsig. simplify_eq.
  exists pk, sig, st. split_and!; [done|done|]. unfold sig_ok. by rewrite Hok1, Hok2.
Qed.

(** With room on the stack the check runs to its verdict. *)
Lemma keyhash_run ctx hash20 rest pk sig st ifs :
  length hash20 = 20%nat -> executing ifs = true -> len st + 4 <= MAX_STACK_DEPTH ->
  unlocks ctx hash20 sig pk ->
  run_from ctx true (keyhash_check hash20 ++ rest) (pk :: sig :: st) ifs =
    run_from ctx true rest ([1] :: st) ifs.
Proof.
  intros Hh Hx Hs [Hpk Hsig]. unfold keyhash_check. simpl app. rewrite <- app_assoc.
  rewrite run_plain, exec_dup by done.
  rewrite (proj2 (Z.leb_gt _ _)) by (simpl; lia). cbn [reject_if mbind result_bind].
  rewrite run_plain, exec_hash160 by done.
  cbn [mbind result_bind]. replace 0x14 with (len hash20) by lia.
  rewrite run_push by (done || simpl; lia). simpl app.
  rewrite run_plain, exec_equalverify, bool_decide_true by done.
  cbn [negb reject_if mbind result_bind].
  rewrite run_plain, exec_checksig by done. unfold op_checksig. cbn [pop mbind result_bind].
  unfold sig_ok in Hsig. destruct (vk_from_sec1 pk), (sig_from_der sig); try done.
  cbn. by rewrite Hsig.
Qed.

(** ** Branches that are not executing *)

Lemma run_skip ctx a op rest stack ifs :
  plain_op op = true -> executing ifs = false ->
  run_from ctx a (op :: rest) stack ifs = run_from ctx a rest stack ifs.
Proof.
  unfold plain_op. rewrite !andb_true_iff, !negb_true_iff. intros ((((H1 & H2) & H3) & H4) & H5) Hx.
  rewrite run_from_cons. unfold step. by rewrite H1, H2, H3, H4, H5, Hx.
Qed.

Lemma keyhash_skip ctx a hash20 rest stack ifs :
  length hash20 = 20%nat -> executing ifs = false ->
  run_from ctx a (keyhash_check hash20 ++ rest) stack ifs = run_from ctx a rest stack ifs.
Proof.
  intros Hh Hx. unfold keyhash_check. simpl app. rewrite <- app_assoc.
  rewrite !run_skip by done. replace 0x14 with (len hash20) by lia.
  rewrite run_push_skip by (done || lia). simpl app. by rewrite !run_skip by done.
Qed.

Lemma run_else ctx a rest stack b ifs :
  run_from ctx a (OP_ELSE :: rest) stack (b :: ifs) = run_from ctx a rest stack (negb b :: ifs).
Proof. by rewrite run_from_cons. Qed.

Lemma run_endif ctx a rest stack b ifs :
  run_from ctx a (OP_ENDIF :: rest) stack (b :: ifs) = run_from ctx a rest stack ifs.
Proof. by rewrite run_from_cons. Qed.

Lemma run_if ctx a rest top stack ifs :
  executing ifs = true ->
  run_from ctx a (OP_IF :: rest) (top :: stack) ifs =
    run_from ctx a rest stack (is_truthy top :: ifs).
Proof. intros Hx. rewrite run_from_cons. unfold step. simpl. by rewrite Hx. Qed.

(** ** Whole scripts *)

Lemma is_truthy_bool_item b : is_truthy (bool_item b) = b.
Proof. by destruct b. Qed.

Lemma execute_bare script_sig spk ctx :
  is_p2sh spk = false ->
  execute script_sig spk ctx = Ok true <->
    len script_sig + len spk <= MAX_SCRIPT_SIZE /\
    exists st top st', run [] script_sig ctx false = Ok st /\
      run st spk ctx true = Ok (top :: st') /\ is_truthy top = true.
Proof.
  intros Hp. unfold execute. rewrite Hp. split.
  - intros He. inv_ok He. apply Z.ltb_ge in Hok. split; [done|].
    destruct a1 as [|top st']; [done|]. naive_solver.
  - intros (Hlen & st & top & st' & -> & Hr & Ht).
    rewrite (proj2 (Z.ltb_ge _ _)) by done. cbn [reject_if mbind result_bind].
    rewrite Hr. cbn [mbind result_bind]. by rewrite Ht.
Qed.

Lemma p2pkh_not_p2sh h : length h = 20%nat -> is_p2sh (p2pkh_bytes h) = false.
Proof. intros Hh. by explode h. Qed.

Lemma p2pkh_keyhash h : p2pkh_bytes h = keyhash_check h ++ [].
Proof. by rewrite app_nil_r. Qed.

Lemma len_u8_small l : (length l < 256)%nat -> len_u8 l = len l.
Proof. intros. apply Z.mod_small. lia. Qed.

(** *** Unlocking scripts leave what they push *)
Lemma run_sig_pk ctx sig pk rest :
  (1 <= length sig <= 75)%nat -> (1 <= length pk <= 75)%nat ->
  run [] (len_u8 sig :: sig ++ len_u8 pk :: pk ++ rest) ctx false
    = run_from ctx false rest [pk; sig] [].
Proof.
  intros Hs Hp. unfold run. rewrite !len_u8_small by lia.
  rewrite run_push by (done || lia). by rewrite run_push by (done || lia).
Qed.

(** A push of up to 75 bytes; of none, it is [OP_0]. *)
Lemma run_push_upto75 ctx a d rest stack ifs :
  (length d <= 75)%nat -> executing ifs = true -> len stack < MAX_STACK_DEPTH ->
  run_from ctx a (len_u8 d :: d ++ rest) stack ifs = run_from ctx a rest (d :: stack) ifs.
Proof.
  intros Hd Hx Hs. rewrite len_u8_small by lia. destruct d as [|b d].
  - change (len ([] : bytes)) with OP_0. simpl app. rewrite run_plain by done.
    change (exec_op ctx a OP_0 stack) with
      (reject_if (MAX_STACK_DEPTH <=? len stack) StackOverflow;; Ok ([] :: stack)
        : result ScriptError (list bytes)).
    by rewrite (proj2 (Z.leb_gt _ _)).
  - apply run_push; simpl in *; [lia|done|done].
Qed.

(** ** Hash-time-locked contracts *)

Lemma encode_locktime_u8 lt : len_u8 (encode_locktime lt) = len (encode_locktime lt).
Proof. apply len_u8_small. pose proof (encode_locktime_length lt). lia. Qed.

Lemma htlc_shape hash r f lt :
  htlc_script hash r f lt =
    OP_IF :: OP_SHA256 :: 0x20 :: hash ++ OP_EQUALVERIFY :: keyhash_check r ++
    OP_ELSE :: len (encode_locktime lt) :: encode_locktime lt ++
    OP_CHECKLOCKTIMEVERIFY :: OP_DROP :: keyhash_check f ++ [OP_ENDIF].
Proof.
  unfold htlc_script, keyhash_check. rewrite encode_locktime_u8. simpl. by rewrite <- !app_assoc.
Qed.

Lemma htlc_not_p2sh hash r f lt :
  length hash = 32%nat -> is_p2sh (htlc_script hash r f lt) = false.
Proof.
  intros Hh. unfold is_p2sh. rewrite (proj2 (Z.eqb_neq _ _)); [done|].
  unfold htlc_script. rewrite !length_cons, length_app. lia.
Qed.

(** The refund branch, entered with [ifs = [true]]. *)
Definition refund_branch (f : bytes) (lt : Z) : bytes :=
  len (encode_locktime lt) :: encode_locktime lt ++
    OP_CHECKLOCKTIMEVERIFY :: OP_DROP :: keyhash_check f ++ [OP_ENDIF].

Lemma refund_skip ctx f lt stack ifs :
  length f = 20%nat ->
  run_from ctx true (refund_branch f lt) stack (false :: ifs) = Ok stack.
Proof.
  intros Hf. unfold refund_branch. rewrite run_push_skip by (done || apply encode_locktime_length || (pose proof (encode_locktime_length lt); lia)).
  rewrite !run_skip, keyhash_skip, run_endif by done. apply run_from_nil.
Qed.

Lemma op_cltv_Ok ctx top stack s :
  op_checklocktimeverify ctx (top :: stack) = Ok s ->
  s = top :: stack /\ le_val top <= block_height ctx.
Proof.
  unfold op_checklocktimeverify. intros Hc. inv_ok Hc. apply Z.ltb_ge in Hok0. by simplify_eq.
Qed.

Lemma op_cltv_run ctx lt stack :
  is_u64 lt -> lt <= block_height ctx ->
  op_checklocktimeverify ctx (encode_locktime lt :: stack) = Ok (encode_locktime lt :: stack).
Proof.
  intros Hlt Hb. unfold op_checklocktimeverify.
  pose proof (encode_locktime_length lt). rewrite encode_locktime_val by done.
  rewrite (proj2 (Z.ltb_ge _ _)) by lia. by rewrite (proj2 (Z.ltb_ge _ _)) by lia.
Qed.

Lemma lock_push_inv ctx lt rest stack ifs st' :
  is_u64 lt -> executing ifs = true ->
  run_from ctx true (len (encode_locktime lt) :: encode_locktime lt ++
    OP_CHECKLOCKTIMEVERIFY :: OP_DROP :: rest) stack ifs = Ok st' ->
  lt <= block_height ctx /\ run_from ctx true rest stack ifs = Ok st'.
Proof.
  intros Hlt Hx Hr. pose proof (encode_locktime_length lt).
  apply run_push_inv in Hr; [|lia|done].
  rewrite run_plain, exec_cltv in Hr by done. apply bind_Ok in Hr as (s & Hc & Hr).
  apply op_cltv_Ok in Hc as [-> Hc]. rewrite encode_locktime_val in Hc by done.
  by rewrite run_plain, exec_drop in Hr.
Qed.

Lemma lock_push_run ctx lt rest stack ifs :
  is_u64 lt -> executing ifs = true -> lt <= block_height ctx -> len stack < MAX_STACK_DEPTH ->
  run_from ctx true (len (encode_locktime lt) :: encode_locktime lt ++
    OP_CHECKLOCKTIMEVERIFY :: OP_DROP :: rest) stack ifs = run_from ctx true rest stack ifs.
Proof.
  intros Hlt Hx Hb Hs. pose proof (encode_locktime_length lt).
  rewrite run_push by (done || lia). rewrite run_plain, exec_cltv, op_cltv_run by done.
  cbn [mbind result_bind]. by rewrite run_plain, exec_drop.
Qed.

Lemma htlc_inv ctx hash r f lt stack top st' :
  length hash = 32%nat -> length r = 20%nat -> length f = 20%nat -> is_u64 lt ->
  run stack (htlc_script hash r f lt) ctx true = Ok (top :: st') -> is_truthy top = true ->
  (exists preimage sig pk, sha256 preimage = hash /\ unlocks ctx r sig pk) \/
  (lt <= block_height ctx /\ exists sig pk, unlocks ctx f sig pk).
Proof.
  intros Hh Hr Hf Hlt Hrun Ht. unfold run in Hrun. rewrite htlc_shape in Hrun.
  destruct stack as [|c stack]; [done|]. rewrite run_if in Hrun by done.
  destruct (is_truthy c).
  - left. destruct stack as [|pre stack]; [done|].
    rewrite run_plain, exec_sha256 in Hrun by done. cbn [mbind result_bind] in Hrun.
    replace 0x20 with (len hash) in Hrun by lia. apply run_push_inv in Hrun; [|lia|done].
    rewrite run_plain, exec_equalverify in Hrun by done.
    apply bind_Ok in Hrun as (s & Heq & Hrun). inv_ok Heq. simplify_eq.
    apply negb_false_iff, bool_decide_eq_true in Hok.
    apply keyhash_inv in Hrun as (pk & sig & st & -> & Hpk & Hrun); [|done|done].
    rewrite run_else in Hrun. fold (refund_branch f lt) in Hrun.
    change (negb true) with false in Hrun. rewrite refund_skip in Hrun by done. simplify_eq.
    rewrite is_truthy_bool_item in Ht. by exists pre, sig, pk.
  - right. rewrite run_skip in Hrun by done.
    replace 0x20 with (len hash) in Hrun by lia. rewrite run_push_skip in Hrun by (done || lia).
    rewrite run_skip, keyhash_skip, run_else in Hrun by done.
    apply lock_push_inv in Hrun as [Hb Hrun]; [|done|done].
    apply keyhash_inv in Hrun as (pk & sig & st & -> & Hpk & Hrun); [|done|done].
    rewrite run_endif, run_from_nil in Hrun. simplify_eq.
    rewrite is_truthy_bool_item in Ht. split; [done|]. by exists sig, pk.
Qed.
(** A spend of a key hash exhibits the key and a signature. *)
Lemma p2pkh_inv ctx hash20 script_sig :
  length hash20 = 20%nat -> execute script_sig (p2pkh_bytes hash20) ctx = Ok true ->
  exists sig pk, unlocks ctx hash20 sig pk.
Proof.
  intros Hh He. apply execute_bare in He as (_ & st & top & st' & _ & Hr & Ht); [|by apply p2pkh_not_p2sh].
  unfold run in Hr. rewrite p2pkh_keyhash in Hr.
  apply keyhash_inv in Hr as (pk & sig & s & -> & Hpk & Hr); [|done|done].
  rewrite run_from_nil in Hr. simplify_eq. rewrite is_truthy_bool_item in Ht. by exists sig, pk.
Qed.

(** The time-locked key script: a lock, then the check of the key. *)
Lemma cltv_shape hash20 lt :
  cltv_p2pkh_script lt hash20 =
    len (encode_locktime lt) :: encode_locktime lt ++
    OP_CHECKLOCKTIMEVERIFY :: OP_DROP :: keyhash_check hash20 ++ [].
Proof. unfold cltv_p2pkh_script. by rewrite encode_locktime_u8, app_nil_r. Qed.

Lemma cltv_not_p2sh hash20 lt : is_p2sh (cltv_p2pkh_script lt hash20) = false.
Proof.
  pose proof (encode_locktime_length lt). unfold is_p2sh. rewrite cltv_shape. cbn [nth].
  rewrite (proj2 (Z.eqb_neq (len (encode_locktime lt)) OP_HASH160)) by (unfold OP_HASH160; lia).
  by rewrite andb_false_r.
Qed.

(** From the lock height on, the beneficiary's signature spends it. *)
Lemma cltv_runs ctx hash20 lt sig pk :
  length hash20 = 20%nat -> is_u64 lt -> lt <= block_height ctx ->
  (1 <= length sig <= 75)%nat -> (1 <= length pk <= 75)%nat -> unlocks ctx hash20 sig pk ->
  execute (p2pkh_script_sig sig pk) (cltv_p2pkh_script lt hash20) ctx = Ok true.
Proof.
  intros Hh Hlt Hb Hs Hp Hu. pose proof (encode_locktime_length lt) as Hlen.
  apply execute_bare; [apply cltv_not_p2sh|]. split.
  { rewrite cltv_shape. unfold p2pkh_script_sig, keyhash_check, MAX_SCRIPT_SIZE.
    repeat (rewrite ?length_cons, ?length_app; simpl app). simpl length. lia. }
  exists [pk; sig], [1], []. split_and!; [| |done].
  - unfold p2pkh_script_sig. rewrite <- (app_nil_r pk) at 2. rewrite run_sig_pk by done. apply run_from_nil.
  - unfold run. rewrite cltv_shape, lock_push_run by done. rewrite keyhash_run by done. apply run_from_nil.
Qed.
End Spend.

(** ** Properties *)

(** C7: a P2PKH output is spent only with a signature of the transaction hash
    by a key whose hash is the one in the script, whatever the unlocking script
    does. *)
Theorem p2pkh_security `{Crypto} (ctx : ScriptContext) (hash20 script_sig : bytes) :
  length hash20 = 20%nat ->
  execute script_sig (p2pkh_bytes hash20) ctx = Ok true ->
  exists sig pk, unlocks ctx hash20 sig pk.
Proof. exact (p2pkh_inv ctx hash20 script_sig). Qed.

(** C8: a hash-time-locked output is spent only by revealing a preimage of the
    hash with the recipient's signature, or, from the lock height on, with the
    refund key's signature. *)
Theorem htlc_security `{Crypto} (ctx : ScriptContext) (hash r f script_sig : bytes) (lt : Z) :
  length hash = 32%nat -> length r = 20%nat -> length f = 20%nat -> is_u64 lt ->
  execute script_sig (htlc_script hash r f lt) ctx = Ok true ->
  (exists preimage sig pk, sha256 preimage = hash /\ unlocks ctx r sig pk) \/
  (lt <= block_height ctx /\ exists sig pk, unlocks ctx f sig pk).
Proof.
  intros Hh Hr Hf Hlt He.
  apply execute_bare in He as (_ & st & top & st' & _ & Hrun & Ht); [|by apply htlc_not_p2sh].
  by apply (htlc_inv _ hash r f lt st top st').
Qed.

(** The unlocking scripts the builders make do spend a hash-time-locked
    output: the claim at any height with the preimage, the refund from the lock
    height on. *)
Theorem htlc_spendable `{Crypto} (ctx : ScriptContext) (hash r f sig pk preimage : bytes) (lt : Z) :
  length hash = 32%nat -> length r = 20%nat -> length f = 20%nat -> is_u64 lt ->
  (1 <= length sig <= 75)%nat -> (1 <= length pk <= 75)%nat -> (length preimage <= 75)%nat ->
  (sha256 preimage = hash -> unlocks ctx r sig pk ->
    exists s, htlc_claim_script_sig sig pk preimage = Done s /\
      execute s (htlc_script hash r f lt) ctx = Ok true) /\
  (lt <= block_height ctx -> unlocks ctx f sig pk ->
    execute (htlc_refund_script_sig sig pk) (htlc_script hash r f lt) ctx = Ok true).
Proof.
  intros Hh Hr Hf Hlt Hs Hp Hpre.
  assert (Hlen : forall s : bytes, len s <= 300 -> len s + len (htlc_script hash r f lt) <= MAX_SCRIPT_SIZE).
  { intros s Hsl. pose proof (encode_locktime_length lt) as Hlen. rewrite htlc_shape. unfold keyhash_check, MAX_SCRIPT_SIZE.
    repeat (rewrite ?length_cons, ?length_app; simpl app). simpl length. lia. }
  split.
  - intros Hsha Hu. unfold htlc_claim_script_sig. rewrite (proj2 (Z.leb_le _ _)) by lia.
    eexists; split; [done|]. apply execute_bare; [by apply htlc_not_p2sh|]. split.
    { apply Hlen. repeat (rewrite ?length_cons, ?length_app). simpl. lia. }
    exists [[1]; preimage; pk; sig], [1], []. split_and!; [| |done].
    + rewrite run_sig_pk, run_push_upto75 by done. by rewrite run_plain.
    + unfold run. rewrite htlc_shape, run_if by done.
      rewrite run_plain, exec_sha256 by done. cbn [mbind result_bind].
      replace 0x20 with (len hash) by lia. rewrite run_push by (done || lia).
      rewrite run_plain, exec_equalverify, bool_decide_true by done. cbn [negb reject_if mbind result_bind].
      rewrite keyhash_run, run_else by done. by apply refund_skip.
  - intros Hb Hu. apply execute_bare; [by apply htlc_not_p2sh|]. split.
    { apply Hlen. unfold htlc_refund_script_sig. repeat (rewrite ?length_cons, ?length_app). simpl. lia. }
    exists [[]; pk; sig], [1], []. split_and!; [| |done].
    + unfold htlc_refund_script_sig. rewrite run_sig_pk by done. by rewrite run_plain.
    + unfold run. rewrite htlc_shape, run_if by done. rewrite run_skip by done.
      replace 0x20 with (len hash) by lia. rewrite run_push_skip by (done || lia).
      rewrite run_skip, keyhash_skip, run_else by done.
      rewrite lock_push_run, keyhash_run by done. by rewrite run_endif.
Qed.

(** A vesting output is spent only from its lock height on, with a
    signature by the beneficiary's key. *)
Theorem cltv_security `{Crypto} (ctx : ScriptContext) (hash20 script_sig : bytes) (lt : Z) :
  length hash20 = 20%nat -> is_u64 lt ->
  execute script_sig (cltv_p2pkh_script lt hash20) ctx = Ok true ->
  lt <= block_height ctx /\ exists sig pk, unlocks ctx hash20 sig pk.
Proof.
  intros Hh Hlt He. apply execute_bare in He as (_ & st & top & st' & _ & Hr & Ht); [|apply cltv_not_p2sh].
  unfold run in Hr. rewrite cltv_shape in Hr. apply lock_push_inv in Hr as [Hb Hr]; [|done|done].
  apply keyhash_inv in Hr as (pk & sig & s & -> & Hpk & Hr); [|done|done].
  rewrite run_from_nil in Hr. simplify_eq. rewrite is_truthy_bool_item in Ht.
  split; [done|]. by exists sig, pk.
Qed.

(** ** Witnesses *)
Module SpendWitness.
#[local] Existing Instance toy_crypto.

Definition ctx : ScriptContext := {| sig_hash := ZERO; block_height := 500 |}.
Definition sk : Toy.secret := toy_key.
Definition pk : bytes := vk_to_sec1 (Crypto := toy_crypto) sk.
Definition sig : bytes := sig_to_der (Crypto := toy_crypto) (Toy.sign sk (hash_bytes ZERO)).
Definition key_hash : bytes := take 20 (sha256 pk).
Definition preimage : bytes := [1; 2; 3].
Definition hash_lock : bytes := sha256 preimage.
Definition other : bytes := replicate 20 7.
End SpendWitness.

Lemma p2pkh_security_witness :
  exists sig pk, unlocks (H := toy_crypto) SpendWitness.ctx SpendWitness.key_hash sig pk.
Proof.
  apply (@p2pkh_security toy_crypto SpendWitness.ctx SpendWitness.key_hash
    (p2pkh_script_sig SpendWitness.sig SpendWitness.pk)); vm_compute; reflexivity.
Defined.

Lemma htlc_security_witness :
  (exists preimage sig pk, sha256 (Crypto := toy_crypto) preimage = SpendWitness.hash_lock /\
    unlocks (H := toy_crypto) SpendWitness.ctx SpendWitness.key_hash sig pk) \/
  (500 <= 500 /\ exists sig pk, unlocks (H := toy_crypto) SpendWitness.ctx SpendWitness.other sig pk).
Proof.
  refine (@htlc_security toy_crypto SpendWitness.ctx SpendWitness.hash_lock SpendWitness.key_hash
    SpendWitness.other
    (len_u8 SpendWitness.sig :: SpendWitness.sig ++ len_u8 SpendWitness.pk :: SpendWitness.pk
       ++ len_u8 SpendWitness.preimage :: SpendWitness.preimage ++ [OP_1]) 500 _ _ _ _ _).
  - vm_compute; reflexivity.
  - vm_compute; reflexivity.
  - vm_compute; reflexivity.
  - by vm_compute.
  - vm_compute; reflexivity.
Defined.

Lemma htlc_spendable_witness :
  execute (H := toy_crypto) (htlc_refund_script_sig SpendWitness.sig SpendWitness.pk)
    (htlc_script SpendWitness.hash_lock SpendWitness.other SpendWitness.key_hash 500)
    SpendWitness.ctx = Ok true.
Proof.
  refine (proj2 (@htlc_spendable toy_crypto SpendWitness.ctx SpendWitness.hash_lock SpendWitness.other
    SpendWitness.key_hash SpendWitness.sig SpendWitness.pk SpendWitness.preimage 500
    _ _ _ _ _ _ _) _ _).
  - vm_compute; reflexivity.
  - vm_compute; reflexivity.
  - vm_compute; reflexivity.
  - by vm_compute.
  - vm_compute; lia.
  - vm_compute; lia.
  - vm_compute; lia.
  - simpl; lia.
  - split; vm_compute; reflexivity.
Defined.

Lemma cltv_security_witness :
  500 <= 500 /\ exists sig pk, unlocks (H := toy_crypto) SpendWitness.ctx SpendWitness.key_hash sig pk.
Proof.
  refine (@cltv_security toy_crypto SpendWitness.ctx SpendWitness.key_hash
    (p2pkh_script_sig SpendWitness.sig SpendWitness.pk) 500 _ _ _).
  - vm_compute; reflexivity.
  - by vm_compute.
  - vm_compute; reflexivity.
Defined.
