(* ===== verification/MultisigSpend.v ===== *)
(** * Who can spend a multisig output

    [OP_CHECKMULTISIG] against its specification: the signatures are those of some of the
    keys, in the keys' order. From it, what a spend of a multisig output must exhibit, bare or
    behind a script hash, and that the unlocking scripts the builders make exhibit it. *)

From S2P Require Import Prelude Crypto Hash ScriptVM ScriptVMFacts ScriptStandard ScriptStandardFacts ScriptSpend.

Local Open Scope Z_scope.

Section Multisig.
Context `{Crypto}.
Implicit Types (ctx : ScriptContext) (stack : list bytes) (ifs : list bool).

(** The specification: each signature verifies under its own key, and the keys come in
    the order of the script. *)
Definition co_signed ctx (sigs pubkeys : list bytes) : Prop :=
  exists keys, keys `sublist_of` pubkeys /\ Forall2 (λ sig pk, sig_ok ctx sig pk = true) sigs keys.

(** ** The matching loop meets the specification *)

Lemma match_key_Some msg sig pubkeys rest :
  match_key msg sig pubkeys = Some rest ->
  exists pre pk vk, pubkeys = pre ++ pk :: rest /\ vk_from_sec1 pk = Some vk /\ ecdsa_verify vk msg sig = true.
Proof.
  induction pubkeys as [|pk pubkeys IH]; [done|]. cbn [match_key]. intros Hm.
  assert (match_key msg sig pubkeys = Some rest -> exists pre pk' vk, pk :: pubkeys = pre ++ pk' :: rest
    /\ vk_from_sec1 pk' = Some vk /\ ecdsa_verify vk msg sig = true) as Hlater.
  { intros (pre & pk' & vk & -> & Hv)%IH. by exists (pk :: pre), pk', vk. }
  destruct (vk_from_sec1 pk) as [vk|] eqn:Hvk; [|by apply Hlater].
  destruct (ecdsa_verify vk msg sig) eqn:He; [|by apply Hlater].
  injection Hm as <-. by exists [], pk, vk.
Qed.

(** The loop stops at the first key that verifies, so it leaves every key after any that does. *)
Lemma match_key_first msg sig pk vk keys pubkeys :
  (pk :: keys) `sublist_of` pubkeys -> vk_from_sec1 pk = Some vk -> ecdsa_verify vk msg sig = true ->
  exists rest, match_key msg sig pubkeys = Some rest /\ keys `sublist_of` rest.
Proof.
  intros Hsub Hvk Hv. induction pubkeys as [|pk' pubkeys IH]; [by apply sublist_nil_r in Hsub|]. cbn [match_key].
  apply sublist_cons_r in Hsub as [Hsub|(l & [= <- <-] & Hsub)].
  { assert (keys `sublist_of` pubkeys) as Hk by (etrans; [apply sublist_cons, (reflexivity keys)|exact Hsub]).
    destruct (vk_from_sec1 pk') as [vk'|]; [|by apply IH].
    destruct (ecdsa_verify vk' msg sig); [by exists pubkeys|by apply IH]. }
  rewrite Hvk, Hv. by exists pubkeys.
Qed.

Lemma match_sigs_spec ctx sigs pubkeys :
  match_sigs (hash_bytes (sig_hash ctx)) sigs pubkeys = true <-> co_signed ctx sigs pubkeys.
Proof.
  revert pubkeys; induction sigs as [|sig sigs IH]; intros pubkeys; cbn [match_sigs].
  { split; [|done]. intros _. exists []. split; [apply sublist_nil_l|constructor]. }
  split.
  - destruct (sig_from_der sig) as [s|] eqn:Hs; [|done]. destruct (match_key _ s pubkeys) as [rest|] eqn:Hm; [|done].
    intros (keys & Hsub & Hall)%IH. apply match_key_Some in Hm as (pre & pk & vk & -> & Hvk & Hv).
    exists (pk :: keys). split; [by apply sublist_inserts_l, sublist_skip|]. constructor; [|done].
    unfold sig_ok. by rewrite Hvk, Hs.
  - intros (keys & Hsub & Hall). apply Forall2_cons_inv_l in Hall as (pk & keys' & Hpk & Hall & ->).
    unfold sig_ok in Hpk. destruct (vk_from_sec1 pk) as [vk|] eqn:Hvk; [|done]. destruct (sig_from_der sig) as [s|]; [|done].
    destruct (match_key_first _ s pk vk keys' pubkeys Hsub Hvk Hpk) as (rest & -> & Hrest).
    apply IH. by exists keys'.
Qed.

(** ** The script *)

Definition multisig_bytes (m : Z) (pubkeys : list bytes) : bytes :=
  (OP_1 - 1 + m) :: key_pushes pubkeys ++ [OP_1 - 1 + len pubkeys; OP_CHECKMULTISIG].

(** What the builder checks. *)
Definition multisig_params (m : Z) (pubkeys : list bytes) : Prop :=
  1 <= m <= len pubkeys /\ (length pubkeys <= 16)%nat /\ Forall (λ pk, length pk = 33%nat) pubkeys.

Lemma multisig_script_Ok m pubkeys spk :
  0 <= m -> multisig_script m pubkeys = Ok spk -> multisig_params m pubkeys /\ spk = multisig_bytes m pubkeys.
Proof.
  intros Hm Hb. unfold multisig_script in Hb. inv_ok Hb. split; [|by injection Hb].
  rewrite !orb_false_iff in Hok. destruct Hok as (((H1 & H2) & H3) & H4).
  apply Z.eqb_neq in H1, H2. apply Z.ltb_ge in H3, H4. split; [lia|split; [lia|]]. clear -Hok0.
  induction pubkeys as [|pk pubkeys IH]; [constructor|]. cbn [existsb] in Hok0.
  apply orb_false_iff in Hok0 as [Hpk Hok0]. apply negb_false_iff, Z.eqb_eq in Hpk. constructor; [lia|by apply IH].
Qed.

Lemma multisig_length m pubkeys : multisig_params m pubkeys -> len (multisig_bytes m pubkeys) = 34 * len pubkeys + 3.
Proof.
  intros (_ & _ & Hk). unfold multisig_bytes. rewrite length_cons, length_app, length_key_pushes by done. simpl length. lia.
Qed.

Lemma multisig_bytes_ok m pubkeys :
  multisig_params m pubkeys -> Forall bytes_ok pubkeys -> bytes_ok (multisig_bytes m pubkeys).
Proof.
  intros (Hm & Hn & _) Hk. unfold multisig_bytes, OP_1, OP_CHECKMULTISIG.
  apply Forall_cons; split; [unfold is_u8; lia|]. apply Forall_app; split; [|repeat constructor; unfold is_u8; lia].
  clear Hm Hn. induction Hk as [|pk pubkeys Hpk _ IH]; [constructor|]. rewrite key_pushes_cons.
  apply Forall_cons; split; [unfold is_u8; lia|]. by apply Forall_app.
Qed.

Lemma multisig_not_p2sh m pubkeys : multisig_params m pubkeys -> is_p2sh (multisig_bytes m pubkeys) = false.
Proof.
  intros Hp. unfold is_p2sh. rewrite multisig_length by done. rewrite (proj2 (Z.eqb_neq _ _)); [done|].
  destruct Hp as ([??] & _). lia.
Qed.

(** The opcodes that push small numbers. *)
Lemma small_number_run ctx a k rest stack ifs :
  1 <= k <= 16 -> executing ifs = true ->
  run_from ctx a ((OP_1 - 1 + k) :: rest) stack ifs =
    (reject_if (MAX_STACK_DEPTH <=? len stack) StackOverflow;; run_from ctx a rest ([k] :: stack) ifs).
Proof.
  intros Hk Hx.
  assert (exec_op ctx a (OP_1 - 1 + k) stack
    = (reject_if (MAX_STACK_DEPTH <=? len stack) StackOverflow;; Ok ([k] :: stack)) /\ plain_op (OP_1 - 1 + k) = true) as [He Hp].
  { assert (exists n, (n < 16)%nat /\ k = Z.of_nat (S n)) as (n & Hn & ->) by (exists (Z.to_nat (k - 1)); lia).
    do 16 (destruct n as [|n]; [done|]). lia. }
  rewrite run_plain, He by done. by destruct (reject_if _ _).
Qed.

Lemma key_pushes_run ctx a pubkeys rest stack ifs :
  Forall (λ pk, length pk = 33%nat) pubkeys -> executing ifs = true -> len stack + len pubkeys <= MAX_STACK_DEPTH ->
  run_from ctx a (key_pushes pubkeys ++ rest) stack ifs = run_from ctx a rest (reverse pubkeys ++ stack) ifs.
Proof.
  intros Hk Hx; revert stack; induction Hk as [|pk pubkeys Hpk _ IH]; intros stack Hd; [done|].
  rewrite key_pushes_cons. simpl app. rewrite <- app_assoc. simpl length in Hd.
  replace 0x21 with (len pk) by lia. rewrite run_push by (done || lia). rewrite IH by (simpl length; lia).
  by rewrite reverse_cons, <- app_assoc.
Qed.

Lemma key_pushes_inv ctx a pubkeys rest stack ifs st :
  Forall (λ pk, length pk = 33%nat) pubkeys -> executing ifs = true ->
  run_from ctx a (key_pushes pubkeys ++ rest) stack ifs = Ok st ->
  run_from ctx a rest (reverse pubkeys ++ stack) ifs = Ok st.
Proof.
  intros Hk Hx; revert stack; induction Hk as [|pk pubkeys Hpk _ IH]; intros stack Hr; [done|].
  rewrite key_pushes_cons in Hr. simpl app in Hr. rewrite <- app_assoc in Hr.
  replace 0x21 with (len pk) in Hr by lia. apply run_push_inv in Hr; [|lia|done].
  apply IH in Hr. by rewrite reverse_cons, <- app_assoc.
Qed.

(** The check on the stack the script has built. *)
Lemma check_multisig_run ctx m pubkeys stack :
  multisig_params m pubkeys -> len stack < MAX_STACK_DEPTH ->
  check_multisig ctx OP_CHECKMULTISIG ([len pubkeys] :: reverse pubkeys ++ [m] :: stack) =
    (reject_if (len stack <? m) StackUnderflow;;
     Ok (bool_item (match_sigs (hash_bytes (sig_hash ctx)) (reverse (take (Z.to_nat m) stack)) pubkeys)
           :: drop (Z.to_nat m) stack)).
Proof.
  intros (Hm & Hn & _) Hd. unfold check_multisig. cbn [pop mbind result_bind].
  rewrite (proj2 (Z.ltb_ge 16 _)) by lia. cbn [reject_if mbind result_bind].
  assert (length (reverse pubkeys) = Z.to_nat (len pubkeys)) as Hl by (rewrite length_reverse; lia).
  rewrite (proj2 (Z.ltb_ge _ (len pubkeys))) by (rewrite length_app, length_reverse; lia). cbn [reject_if mbind result_bind].
  rewrite take_app_length', drop_app_length', reverse_involutive by done.
  cbn [pop mbind result_bind]. rewrite (proj2 (Z.ltb_ge (len pubkeys) m)) by lia. cbn [reject_if mbind result_bind].
  destruct (len stack <? m); [done|]. cbn [reject_if mbind result_bind].
  change (OP_CHECKMULTISIG =? OP_CHECKMULTISIGVERIFY) with false. cbn iota.
  rewrite (proj2 (Z.leb_gt MAX_STACK_DEPTH _)) by (rewrite length_drop; lia). done.
Qed.

Lemma exec_checkmultisig ctx stack : exec_op ctx true OP_CHECKMULTISIG stack = check_multisig ctx OP_CHECKMULTISIG stack.
Proof. done. Qed.

Lemma multisig_run ctx m pubkeys stack :
  multisig_params m pubkeys -> len stack + len pubkeys + 2 <= MAX_STACK_DEPTH -> m <= len stack ->
  run stack (multisig_bytes m pubkeys) ctx true =
    Ok (bool_item (match_sigs (hash_bytes (sig_hash ctx)) (reverse (take (Z.to_nat m) stack)) pubkeys)
          :: drop (Z.to_nat m) stack).
Proof.
  intros Hp Hd Hs. pose proof Hp as (Hm & Hn & Hk). unfold run, multisig_bytes.
  rewrite small_number_run by (done || lia). rewrite (proj2 (Z.leb_gt MAX_STACK_DEPTH _)) by lia. cbn [reject_if mbind result_bind].
  rewrite key_pushes_run by (done || simpl length; lia). rewrite small_number_run by (done || lia).
  rewrite (proj2 (Z.leb_gt MAX_STACK_DEPTH _)) by (rewrite length_app, length_reverse; simpl length; lia).
  cbn [reject_if mbind result_bind]. rewrite run_plain, exec_checkmultisig by done. rewrite check_multisig_run by (done || lia).
  rewrite (proj2 (Z.ltb_ge _ m)) by lia. done.
Qed.

(** A run that succeeds found [m] signatures on the stack and gives their verdict. *)
Lemma multisig_run_inv ctx m pubkeys stack st :
  multisig_params m pubkeys -> run stack (multisig_bytes m pubkeys) ctx true = Ok st ->
  exists sigs rest, stack = sigs ++ rest /\ len sigs = m
    /\ st = bool_item (match_sigs (hash_bytes (sig_hash ctx)) (reverse sigs) pubkeys) :: rest.
Proof.
  intros Hp Hr. pose proof Hp as (Hm & Hn & Hk). unfold run, multisig_bytes in Hr.
  rewrite small_number_run in Hr by (done || lia). apply bind_Ok in Hr as (? & Hd & Hr).
  unfold reject_if in Hd. destruct (Z.leb_spec MAX_STACK_DEPTH (len stack)) as [|Hlt]; [done|].
  apply key_pushes_inv in Hr; [|done|done]. rewrite small_number_run in Hr by (done || lia).
  apply bind_Ok in Hr as (? & _ & Hr). rewrite run_plain, exec_checkmultisig in Hr by done. rewrite check_multisig_run in Hr by done.
  destruct (Z.ltb_spec (len stack) m) as [|Hge]; [done|]. cbn [reject_if mbind result_bind] in Hr.
  rewrite run_from_nil in Hr. injection Hr as <-.
  exists (take (Z.to_nat m) stack), (drop (Z.to_nat m) stack). rewrite take_drop, length_take. split_and!; [done|lia|done].
Qed.

(** ** Unlocking scripts *)

Lemma sig_pushes_run ctx sigs rest stack :
  Forall (λ sig, (1 <= length sig <= 75)%nat) sigs -> len stack + len sigs <= MAX_STACK_DEPTH ->
  run_from ctx false (multisig_script_sig sigs ++ rest) stack [] = run_from ctx false rest (reverse sigs ++ stack) [].
Proof.
  intros Hs; revert stack; induction Hs as [|sig sigs Hsig _ IH]; intros stack Hd; [done|].
  change (multisig_script_sig (sig :: sigs)) with ((len_u8 sig :: sig) ++ multisig_script_sig sigs).
  simpl app. rewrite <- app_assoc, len_u8_small by lia. simpl length in Hd. rewrite run_push by (done || lia).
  rewrite IH by (simpl length; lia). by rewrite reverse_cons, <- app_assoc.
Qed.

Lemma sig_pushes_length sigs :
  Forall (λ sig, (1 <= length sig <= 75)%nat) sigs -> len (multisig_script_sig sigs) <= 76 * len sigs.
Proof.
  induction 1 as [|sig sigs Hsig _ IH]; [done|].
  change (multisig_script_sig (sig :: sigs)) with ((len_u8 sig :: sig) ++ multisig_script_sig sigs).
  rewrite length_app. simpl length. lia.
Qed.

(** The push of a redeem script. *)
Lemma redeem_push_run ctx sigs redeem s :
  p2sh_multisig_script_sig sigs redeem = Done s -> (1 <= length redeem)%nat -> (length sigs <= 16)%nat ->
  Forall (λ sig, (1 <= length sig <= 75)%nat) sigs ->
  run [] s ctx false = Ok (redeem :: reverse sigs) /\ len s <= 76 * len sigs + len redeem + 2.
Proof.
  intros Hs Hr Hl Hsigs. pose proof (sig_pushes_length sigs Hsigs) as Hsl.
  assert (len (reverse sigs ++ []) < MAX_STACK_DEPTH) as Hd
    by (rewrite app_nil_r, length_reverse; unfold MAX_STACK_DEPTH; lia).
  assert (forall push, s = multisig_script_sig sigs ++ push ->
    run_from ctx false push (reverse sigs ++ []) [] = Ok (redeem :: reverse sigs ++ []) ->
    run [] s ctx false = Ok (redeem :: reverse sigs)) as Hrun.
  { intros push -> Hp. unfold run. rewrite sig_pushes_run by (done || unfold MAX_STACK_DEPTH; simpl length; lia).
    rewrite Hp. by rewrite app_nil_r. }
  unfold p2sh_multisig_script_sig in Hs. destruct (Z.leb_spec (len redeem) 75); [|destruct (Z.leb_spec (len redeem) 255); [|done]];
    injection Hs as Hs; rewrite <- (app_nil_r redeem) in Hs at 2.
  - split; [|rewrite <- Hs, app_nil_r, length_app, length_cons; lia]. eapply Hrun; [symmetry; exact Hs|]. by rewrite run_push by (done || lia).
  - split; [|rewrite <- Hs, app_nil_r, length_app, !length_cons; lia]. eapply Hrun; [symmetry; exact Hs|]. by rewrite run_pushdata1 by (done || lia).
Qed.

(** ** Behind a script hash *)

Lemma p2sh_is_p2sh h : length h = 20%nat -> is_p2sh (p2sh_bytes h) = true.
Proof. intros Hh. by explode h. Qed.
Lemma p2sh_hash h : length h = 20%nat -> take 20 (drop 2 (p2sh_bytes h)) = h.
Proof. intros Hh. by explode h. Qed.

Context `{!CryptoLaws _}.

(** A redeem script's hash, as the output commits to it. *)
Definition redeem_hash (redeem : bytes) : bytes := take 20 (sha256 redeem).
Lemma redeem_hash_length redeem : length (redeem_hash redeem) = 20%nat.
Proof. unfold redeem_hash. by rewrite length_take, sha256_length. Qed.

Lemma p2sh_script_ok redeem : bytes_ok (p2sh_script_from_redeem redeem).
Proof.
  unfold p2sh_script_from_redeem, p2sh_bytes, OP_HASH160, OP_EQUAL.
  do 2 (apply Forall_cons; split; [unfold is_u8; lia|]). apply Forall_app; split; [apply Forall_take, sha256_ok|].
  repeat constructor; unfold is_u8; lia.
Qed.

Lemma execute_p2sh script_sig redeem ctx :
  execute script_sig (p2sh_script_from_redeem redeem) ctx = Ok true <->
    len script_sig + 23 <= MAX_SCRIPT_SIZE /\
    exists r st top st', run [] script_sig ctx false = Ok (r :: st) /\ redeem_hash r = redeem_hash redeem
      /\ run st r ctx true = Ok (top :: st') /\ is_truthy top = true.
Proof.
  pose proof (redeem_hash_length redeem) as Hl. unfold p2sh_script_from_redeem. fold (redeem_hash redeem).
  assert (len (p2sh_bytes (redeem_hash redeem)) = 23) as H23 by (unfold p2sh_bytes; rewrite !length_cons, length_app, Hl; done).
  unfold execute. rewrite p2sh_is_p2sh, p2sh_hash, H23 by done. split.
  - intros He. inv_ok He. apply Z.ltb_ge in Hok. split; [done|].
    destruct a0 as [|r st]; [done|]. cbn [pop mbind result_bind] in Hok1. inv_ok Hok1.
    apply negb_false_iff, bool_decide_eq_true in Hok2. destruct a1 as [|top st']; [done|].
    injection He as He. by exists r, st, top, st'.
  - intros (Hsz & r & st & top & st' & -> & Hh & Hr & Ht). rewrite (proj2 (Z.ltb_ge _ _)) by done.
    cbn [reject_if mbind result_bind pop]. fold (redeem_hash r). rewrite bool_decide_true by done. cbn [negb reject_if mbind result_bind].
    rewrite Hr. cbn [mbind result_bind]. by rewrite Ht.
Qed.

(** No script puts an item of more than 255 bytes on the stack. *)
Lemma run_items_255 script_sig ctx st :
  bytes_ok script_sig -> run [] script_sig ctx false = Ok st -> Forall (λ x, len x <= 255) st.
Proof.
  intros Hb Hr. pose proof (run_from_within 255 ltac:(done) ctx false script_sig [] [] Hb) as Hw.
  unfold run in Hr. rewrite Hr in Hw. apply Hw. split; [done|constructor].
Qed.

(** ** Both kinds of output *)

(** The signatures of [m] of the keys. *)
Definition threshold_met ctx (m : Z) (pubkeys : list bytes) : Prop :=
  exists sigs, len sigs = m /\ co_signed ctx sigs pubkeys.

Lemma multisig_verdict ctx m pubkeys stack top st :
  multisig_params m pubkeys -> run stack (multisig_bytes m pubkeys) ctx true = Ok (top :: st) -> is_truthy top = true ->
  threshold_met ctx m pubkeys.
Proof using.
  intros Hp Hr Ht. apply multisig_run_inv in Hr as (sigs & rest & -> & Hl & [= -> ->]); [|done].
  rewrite is_truthy_bool_item in Ht. exists (reverse sigs). split; [by rewrite length_reverse|]. by apply match_sigs_spec.
Qed.

(** Signatures of the right keys unlock the output: alone, or followed by the redeem script. *)
Section Unlock.
Context (ctx : ScriptContext) (m : Z) (pubkeys sigs : list bytes) (Hp : multisig_params m pubkeys) (Hl : len sigs = m).
Context (Hs : Forall (λ sig, (1 <= length sig <= 75)%nat) sigs) (Hco : co_signed ctx sigs pubkeys).

Lemma multisig_accepts : run (reverse sigs) (multisig_bytes m pubkeys) ctx true = Ok [[1]].
Proof using Hp Hl Hco.
  destruct Hp as (Hm & Hn & _). rewrite multisig_run; [|done|rewrite length_reverse; unfold MAX_STACK_DEPTH; lia|rewrite length_reverse; lia].
  rewrite take_ge, drop_ge by (rewrite length_reverse; lia). rewrite reverse_involutive.
  by rewrite (proj2 (match_sigs_spec ctx sigs pubkeys) Hco).
Qed.

Lemma multisig_unlocks : execute (multisig_script_sig sigs) (multisig_bytes m pubkeys) ctx = Ok true.
Proof using Hp Hl Hs Hco.
  pose proof Hp as (Hm & Hn & _). apply execute_bare; [by apply multisig_not_p2sh|]. split.
  { rewrite multisig_length by done. pose proof (sig_pushes_length sigs Hs). unfold MAX_SCRIPT_SIZE. lia. }
  exists (reverse sigs), [1], []. split_and!; [|apply multisig_accepts|done].
  unfold run. rewrite <- (app_nil_r (multisig_script_sig sigs)).
  rewrite sig_pushes_run by (done || unfold MAX_STACK_DEPTH; simpl length; lia). by rewrite run_from_nil, app_nil_r.
Qed.

Lemma p2sh_multisig_unlocks :
  (length pubkeys <= 7)%nat ->
  exists s, p2sh_multisig_script_sig sigs (multisig_bytes m pubkeys) = Done s
    /\ execute s (p2sh_script_from_redeem (multisig_bytes m pubkeys)) ctx = Ok true.
Proof using Hp Hl Hs Hco CryptoLaws0.
  intros H7. pose proof Hp as (Hm & Hn & _). pose proof (multisig_length m pubkeys Hp) as Hlen.
  assert (exists s, p2sh_multisig_script_sig sigs (multisig_bytes m pubkeys) = Done s) as [s Hd].
  { unfold p2sh_multisig_script_sig. destruct (len _ <=? 0x4b); [by eexists|]. rewrite (proj2 (Z.leb_le _ 0xff)) by lia. by eexists. }
  exists s. split; [done|]. destruct (redeem_push_run ctx sigs _ s Hd) as [Hr Hsz]; [lia|lia|done|].
  apply execute_p2sh. split; [unfold MAX_SCRIPT_SIZE; lia|].
  exists (multisig_bytes m pubkeys), (reverse sigs), [1], []. split_and!; [done|done|apply multisig_accepts|done].
Qed.
End Unlock.

(** The redeem script of eight keys or more is too long to be pushed. *)
Lemma large_redeem_stuck m pubkeys sigs script_sig ctx :
  multisig_params m pubkeys -> (8 <= length pubkeys)%nat ->
  p2sh_multisig_script_sig sigs (multisig_bytes m pubkeys) = Panic
  /\ (bytes_ok script_sig -> execute script_sig (p2sh_script_from_redeem (multisig_bytes m pubkeys)) ctx = Ok true ->
      exists r, r <> multisig_bytes m pubkeys /\ redeem_hash r = redeem_hash (multisig_bytes m pubkeys)).
Proof.
  intros Hp H8. pose proof (multisig_length m pubkeys Hp) as Hlen. split.
  - unfold p2sh_multisig_script_sig. by rewrite !(proj2 (Z.leb_gt _ _)) by lia.
  - intros Hb He. apply execute_p2sh in He as (_ & r & st & top & st' & Hr & Hh & _).
    exists r. split; [|done]. intros ->. apply run_items_255 in Hr; [|done]. apply Forall_cons in Hr as [Hr _]. lia.
Qed.
End Multisig.

(** C9: A multisig output is spent only with the signatures of [m] of its keys, in the keys'
    order; behind the hash of its script, the only other way is another script with the same
    hash. *)
Theorem multisig_security `{Crypto} `{!CryptoLaws _} (ctx : ScriptContext) (m : Z) (pubkeys : list bytes)
    (script script_sig : bytes) :
  0 <= m -> multisig_script m pubkeys = Ok script ->
  (execute script_sig script ctx = Ok true -> threshold_met ctx m pubkeys)
  /\ (execute script_sig (p2sh_script_from_redeem script) ctx = Ok true ->
      threshold_met ctx m pubkeys \/ exists r, r <> script /\ redeem_hash r = redeem_hash script).
Proof.
  intros Hm Hb. apply multisig_script_Ok in Hb as [Hp ->]; [|done]. split; intros He.
  - apply execute_bare in He as (_ & st & top & st' & _ & Hr & Ht); [|by apply multisig_not_p2sh].
    by eapply multisig_verdict.
  - apply execute_p2sh in He as (_ & r & st & top & st' & _ & Hh & Hr & Ht).
    destruct (decide (r = multisig_bytes m pubkeys)) as [->|Hne]; [left; by eapply multisig_verdict|right; by exists r].
Qed.

Module MultisigWitness.
#[local] Existing Instance toy_crypto.
Definition pubkeys : list bytes := [vk_to_sec1 toy_key; replicate 33 2; vk_to_sec1 toy_key2].
Definition script : bytes := match multisig_script 2 pubkeys with Ok s => s | Err _ => [] end.
Definition sigs : list bytes := (λ sk, sig_to_der (Toy.sign sk (hash_bytes ZERO))) <$> [toy_key; toy_key2].
Lemma script_built : multisig_script 2 pubkeys = Ok script.
Proof. vm_compute. reflexivity. Qed.
Lemma spends : execute (multisig_script_sig sigs) script SpendWitness.ctx = Ok true.
Proof. vm_compute. reflexivity. Qed.
End MultisigWitness.

Lemma multisig_security_witness : threshold_met (H := toy_crypto) SpendWitness.ctx 2 MultisigWitness.pubkeys.
Proof.
  refine (proj1 (@multisig_security toy_crypto toy_laws SpendWitness.ctx 2 MultisigWitness.pubkeys MultisigWitness.script
    (multisig_script_sig MultisigWitness.sigs) _ MultisigWitness.script_built) MultisigWitness.spends).
  lia.
Defined.
