(* ===== verification/Block.v ===== *)
(** * Transactions and blocks ([tensorium-core/src/block.rs], [pow.rs])

    The data every other component works on, the identifiers computed from it
    and the proof-of-work search. *)

From S2P Require Import Prelude Crypto Hash ScriptVM ScriptStandard.

Local Open Scope Z_scope.

Record OutPoint := { txid : Hash256; output_index : Z }.
Record TxInput := { previous_output : OutPoint; signature_script : bytes }.
Record TxOutput := { value_atoms : Z; script_pubkey : bytes }.
Record Transaction := {
  tx_id : Hash256;
  inputs : list TxInput;
  outputs : list TxOutput;
  payload : bytes;
}.

Record BlockHeader := {
  version : Z;
  chain_id : string;
  height : Z;
  previous_hash : Hash256;
  merkle_root_field : Hash256;
  timestamp_seconds : Z;
  leading_zero_bits_field : Z;
  nonce : Z;
}.

Record Block := { header : BlockHeader; transactions : list Transaction }.

#[export] Instance OutPoint_eq_dec : EqDecision OutPoint.
Proof. solve_decision. Defined.
#[export] Instance OutPoint_countable : Countable OutPoint.
Proof.
  by apply (inj_countable' (λ o, (txid o, output_index o)) (λ p, {| txid := p.1; output_index := p.2 |}));
    intros [].
Defined.
#[export] Instance TxInput_eq_dec : EqDecision TxInput.
Proof. solve_decision. Defined.
#[export] Instance TxOutput_eq_dec : EqDecision TxOutput.
Proof. solve_decision. Defined.
#[export] Instance Transaction_eq_dec : EqDecision Transaction.
Proof. solve_decision. Defined.
#[export] Instance BlockHeader_eq_dec : EqDecision BlockHeader.
Proof. solve_decision. Defined.
#[export] Instance Block_eq_dec : EqDecision Block.
Proof. solve_decision. Defined.

(** [header.leading_zero_bits = bits] and [header.nonce = nonce] on a mutable header. *)
Definition with_bits (bits : Z) (h : BlockHeader) : BlockHeader := {|
  version := version h; chain_id := chain_id h; height := height h;
  previous_hash := previous_hash h; merkle_root_field := merkle_root_field h;
  timestamp_seconds := timestamp_seconds h; leading_zero_bits_field := bits; nonce := nonce h |}.
Definition with_nonce (n : Z) (h : BlockHeader) : BlockHeader := {|
  version := version h; chain_id := chain_id h; height := height h;
  previous_hash := previous_hash h; merkle_root_field := merkle_root_field h;
  timestamp_seconds := timestamp_seconds h;
  leading_zero_bits_field := leading_zero_bits_field h; nonce := n |}.

(** Values the Rust types allow. *)
Definition output_ok (o : TxOutput) : Prop := is_u64 (value_atoms o) /\ bytes_ok (script_pubkey o).
Definition tx_ok (tx : Transaction) : Prop := Forall output_ok (outputs tx).

#[export] Instance output_ok_dec o : Decision (output_ok o).
Proof. unfold output_ok; apply _. Defined.
#[export] Instance tx_ok_dec tx : Decision (tx_ok tx).
Proof. unfold tx_ok; apply _. Defined.

(** [tx.is_coinbase()] *)
Definition is_coinbase (tx : Transaction) : bool :=
  bool_decide (inputs tx = []) && starts_with (payload tx) (bytes_of_string "coinbase:").

(** [fold(0u64, saturating_add)] over the output values. *)
Definition total_output_atoms (tx : Transaction) : Z := sat_sum (value_atoms <$> outputs tx).

Section Block.
Context `{Crypto}.

Definition transaction_id (ins : list TxInput) (outs : list TxOutput) (payload : bytes) : Hash256 :=
  double_sha256
    (mjoin ((λ i, hash_bytes (txid (previous_output i))
                    ++ le_bytes 4 (output_index (previous_output i))
                    ++ signature_script i) <$> ins)
     ++ mjoin ((λ o, le_bytes 8 (value_atoms o) ++ script_pubkey o) <$> outs)
     ++ payload).

(** [p2pkh_from_address(addr).unwrap_or_default()] *)
Definition script_or_default (addr : string) : bytes :=
  match p2pkh_from_address addr with Ok s => s | Err _ => [] end.

(** [format!("coinbase:{height}:{reward_atoms}:{miner}").into_bytes()] *)
Definition coinbase_payload (height reward_atoms : Z) (miner : string) : bytes :=
  bytes_of_string ("coinbase:" +:+ dec_string height +:+ ":" +:+ dec_string reward_atoms
                     +:+ ":" +:+ miner).

(** [Self { id: transaction_id(..), inputs, outputs, payload }] *)
Definition make_tx (ins : list TxInput) (outs : list TxOutput) (payload : bytes) : Transaction := {|
  tx_id := transaction_id ins outs payload; inputs := ins; outputs := outs; payload := payload |}.

Definition coinbase (height reward_atoms : Z) (miner : string) : Transaction :=
  let outs :=
    if reward_atoms =? 0 then []
    else [ {| value_atoms := reward_atoms; script_pubkey := script_or_default miner |} ] in
  make_tx [] outs (coinbase_payload height reward_atoms miner).

Definition genesis_coinbase (reward_atoms : Z) (miner : string) (founder_atoms : Z)
    (founder_addr : string) (genesis_allocations : list (string * Z)) : Transaction :=
  let pay '(addr, atoms) := {| value_atoms := atoms; script_pubkey := script_or_default addr |} in
  let reward := if 0 <? reward_atoms then [pay (miner, reward_atoms)] else [] in
  let premint :=
    if negb (bool_decide (genesis_allocations = []))
    then pay <$> filter (λ a, 0 < a.2) genesis_allocations
    else if (0 <? founder_atoms) && negb (bool_decide (founder_addr = EmptyString))
    then [pay (founder_addr, founder_atoms)]
    else [] in
  make_tx [] (reward ++ premint) (coinbase_payload 0 reward_atoms miner).

Definition payment (ins : list TxInput) (outs : list TxOutput) : Transaction :=
  make_tx ins outs (bytes_of_string "payment:v1").

(** [tx.refresh_id()]: the new value of the mutated transaction. *)
Definition refresh_id (tx : Transaction) : Transaction :=
  make_tx (inputs tx) (outputs tx) (payload tx).

(** The hash a signature commits to: the identifier with empty input scripts. *)
Definition strip_input (i : TxInput) : TxInput :=
  {| previous_output := previous_output i; signature_script := [] |}.
Definition signature_hash (tx : Transaction) : Hash256 :=
  transaction_id (strip_input <$> inputs tx) (outputs tx) (payload tx).

(** [header.pow_prefix_bytes()] and [header.hash()] *)
Definition pow_prefix_bytes (h : BlockHeader) : bytes :=
  le_bytes 4 (version h) ++ bytes_of_string (chain_id h) ++ le_bytes 8 (height h)
    ++ hash_bytes (previous_hash h) ++ hash_bytes (merkle_root_field h)
    ++ le_bytes 8 (timestamp_seconds h) ++ [leading_zero_bits_field h].
Definition header_hash (h : BlockHeader) : Hash256 :=
  double_sha256
    (le_bytes 4 (version h) ++ bytes_of_string (chain_id h) ++ le_bytes 8 (height h)
      ++ hash_bytes (previous_hash h) ++ hash_bytes (merkle_root_field h)
      ++ le_bytes 8 (timestamp_seconds h) ++ [leading_zero_bits_field h] ++ le_bytes 8 (nonce h)).
Definition block_hash (b : Block) : Hash256 := header_hash (header b).

Definition pow_hash (h : BlockHeader) (epoch_seed : Hash256) : Hash256 :=
  mkHash (TensorHash.pow_hash (pow_prefix_bytes h) (nonce h) (hash_bytes epoch_seed)).

(** *** The merkle root *)

(** One layer up: [layer.chunks(2)], an odd last hash paired with itself. *)
Definition hash_pair (l r : Hash256) : Hash256 :=
  double_sha256 (hash_bytes l ++ hash_bytes r).
Fixpoint merkle_pairs (layer : list Hash256) : list Hash256 :=
  match layer with
  | [] => []
  | [l] => [hash_pair l l]
  | l :: r :: rest => hash_pair l r :: merkle_pairs rest
  end.

(** [while layer.len() > 1]: the last layer, [None] when out of fuel. *)
Fixpoint merkle_loop (fuel : nat) (layer : list Hash256) : option (list Hash256) :=
  if decide (length layer <= 1)%nat then Some layer
  else match fuel with
       | O => None
       | S fuel => merkle_loop fuel (merkle_pairs layer)
       end.

(** One unit of fuel per identifier is enough ([merkle_loop_terminates]). *)
Definition merkle_ids (ids : list Hash256) : Hash256 :=
  match merkle_loop (length ids) ids with
  | Some (root :: _) => root
  | _ => ZERO
  end.

Definition merkle_root (txs : list Transaction) : Hash256 :=
  if decide (txs = []) then ZERO else merkle_ids (tx_id <$> txs).

(** [Block::genesis] *)
Definition genesis (chain_id : string) (timestamp_seconds leading_zero_bits : Z) : Block :=
  let tx := coinbase 0 0 "genesis" in {|
  header := {|
    version := 1; chain_id := chain_id; height := 0; previous_hash := ZERO;
    merkle_root_field := merkle_root [tx]; timestamp_seconds := timestamp_seconds;
    leading_zero_bits_field := leading_zero_bits; nonce := 0 |};
  transactions := [tx] |}.

(** *** Proof of work ([pow.rs]) *)
Definition header_meets_work (h : BlockHeader) (epoch_seed : Hash256) : bool :=
  hash_meets_work (pow_hash h epoch_seed) (leading_zero_bits_field h).

(** [for nonce in 0..=max_nonce]: the loop from [n], [steps] iterations to go. *)
Fixpoint mine_from (steps : nat) (n : Z) (h : BlockHeader) (epoch_seed : Hash256) :
    option BlockHeader :=
  match steps with
  | O => None
  | S steps =>
      let h := with_nonce n h in
      if header_meets_work h epoch_seed then Some h else mine_from steps (n + 1) h epoch_seed
  end.

Definition mine_header (h : BlockHeader) (epoch_seed : Hash256) (max_nonce : Z) :
    option BlockHeader :=
  mine_from (Z.to_nat (max_nonce + 1)) 0 h epoch_seed.
End Block.
