(* ===== verification/Validation.v ===== *)
(** * Difficulty retargeting and block validation ([tensorium-core/src/difficulty.rs], [validation.rs])

    The pure retarget rule: the number of leading zero bits a block has to
    declare, from the timing of an adjustment window. *)

From S2P Require Import Prelude Chain.

Local Open Scope Z_scope.

Record DifficultySample := {
  first_timestamp_seconds : Z;
  last_timestamp_seconds : Z;
  current_leading_zero_bits : Z;
  block_count : Z;
}.

(** [x.clamp(lo, hi)]. Rust asserts [lo <= hi], which holds of every parameter
    set ([bits_range]). *)
Definition clamp (x lo hi : Z) : Z := if x <? lo then lo else if hi <? x then hi else x.

Definition next_leading_zero_bits (params : ConsensusParams) (sample : DifficultySample) : Z :=
  let expected := sat_mul64 (target_block_seconds params) (Z.max (block_count sample) 1) in
  let actual :=
    Z.max (sat_sub64 (last_timestamp_seconds sample) (first_timestamp_seconds sample)) 1 in
  let current := current_leading_zero_bits sample in
  let next :=
    if actual <? expected / 2 then Z.min (current + 1) 255
    else if mul64 expected 2 <? actual then Z.max (current - 1) 0
    else current in
  clamp next (min_leading_zero_bits params) (max_leading_zero_bits params).

Definition expected_leading_zero_bits (params : ConsensusParams) (height : Z)
    (sample : option DifficultySample) : Z :=
  if height <? difficulty_retarget_activation_height params
  then initial_leading_zero_bits params
  else
    match sample with
    | Some sample => next_leading_zero_bits params sample
    | None => initial_leading_zero_bits params
    end.

(** The difficulty constants of a parameter set are ordered and fit [u8]. *)
Record bits_range (params : ConsensusParams) : Prop := {
  min_bits : 0 <= min_leading_zero_bits params <= initial_leading_zero_bits params;
  max_bits : initial_leading_zero_bits params <= max_leading_zero_bits params <= 255;
}.

Lemma MAINNET_bits_range : bits_range MAINNET.
Proof. split; vm_compute; intuition congruence. Qed.

Lemma TESTNET_bits_range : bits_range TESTNET.
Proof. split; vm_compute; intuition congruence. Qed.

Lemma TEST_PARAMS_bits_range : bits_range TEST_PARAMS.
Proof. split; vm_compute; intuition congruence. Qed.

#[export] Hint Resolve MAINNET_bits_range TESTNET_bits_range TEST_PARAMS_bits_range : txm.

Lemma clamp_range x lo hi : lo <= hi -> lo <= clamp x lo hi <= hi.
Proof. intros. unfold clamp. repeat case_match; lia. Qed.

Lemma clamp_id x lo hi : lo <= x <= hi -> clamp x lo hi = x.
Proof. intros. unfold clamp. repeat case_match; lia. Qed.

Lemma expected_leading_zero_bits_range params height sample :
  bits_range params ->
  min_leading_zero_bits params <= expected_leading_zero_bits params height sample
    <= max_leading_zero_bits params.
Proof.
  intros [Hmin Hmax]. unfold expected_leading_zero_bits, next_leading_zero_bits.
  repeat case_match; first [lia | apply clamp_range; lia].
Qed.

(** The retarget rule keeps the declared difficulty inside the network's
    bounds and moves it by at most one bit: up when the window took less than
    half the expected time, down when it took more than twice, and not at all
    otherwise. The hypotheses say the expected time fits the machine width. *)
Theorem retarget_rule params sample :
  bits_range params ->
  0 < target_block_seconds params -> 1 <= block_count sample ->
  2 * (target_block_seconds params * block_count sample) <= U64_MAX ->
  0 <= first_timestamp_seconds sample < last_timestamp_seconds sample ->
  min_leading_zero_bits params <= current_leading_zero_bits sample
    <= max_leading_zero_bits params ->
  let expected := target_block_seconds params * block_count sample in
  let actual := last_timestamp_seconds sample - first_timestamp_seconds sample in
  let current := current_leading_zero_bits sample in
  next_leading_zero_bits params sample =
    if decide (2 * actual + 1 < expected) then Z.min (current + 1) (max_leading_zero_bits params)
    else if decide (2 * expected < actual)
    then Z.max (current - 1) (min_leading_zero_bits params)
    else current.
Proof.
  intros [Hmin Hmax] Ht Hb Hfit Hts Hcur. cbv zeta. unfold next_leading_zero_bits.
  rewrite (Z.max_l (block_count _)), (Z.max_l (sat_sub64 _ _)) by u64_lia.
  unfold sat_mul64, sat_sub64, mul64. rewrite Z.min_l, Z.max_l, Z.mod_small by u64_lia.
  set (e := target_block_seconds params * block_count sample) in *.
  set (a := last_timestamp_seconds sample - first_timestamp_seconds sample) in *.
  assert ((a <? e / 2) = bool_decide (2 * a + 1 < e)) as ->.
  { case_bool_decide; [apply Z.ltb_lt | apply Z.ltb_ge]; Z.div_mod_to_equations; lia. }
  unfold clamp. repeat case_decide; repeat case_bool_decide; try lia; repeat case_match; lia.
Qed.

Lemma retarget_rule_witness :
  next_leading_zero_bits MAINNET
    {| first_timestamp_seconds := 1000; last_timestamp_seconds := 2000;
       current_leading_zero_bits := 42; block_count := 60 |} = 43.
Proof.
  refine (retarget_rule MAINNET
    {| first_timestamp_seconds := 1000; last_timestamp_seconds := 2000;
       current_leading_zero_bits := 42; block_count := 60 |} _ _ _ _ _ _).
  1: exact MAINNET_bits_range.
  all: vm_compute; intuition congruence.
Defined.

(** * Block validation ([tensorium-core/src/validation.rs])

    The context-free checks on a block: network, position, time, merkle root,
    difficulty and proof of work. *)

From S2P Require Import Crypto Hash Block.

Inductive ValidationError :=
| WrongChainId
| WrongHeight
| WrongPreviousHash
| FutureTimestamp
| InvalidMerkleRoot
| InvalidProofOfWork
| UnexpectedDifficulty
| V_MissingCoinbase
| FirstTransactionNotCoinbase.

#[export] Instance ValidationError_eq_dec : EqDecision ValidationError.
Proof. solve_decision. Defined.

(** The block's parameters argument is unused there as well. *)
Definition validate_coinbase (block : Block) : result ValidationError () :=
  coinbase ← ok_or (head (transactions block)) V_MissingCoinbase;
  reject_if (negb (is_coinbase coinbase)) FirstTransactionNotCoinbase;;
  Ok ().

(** [parent.map_or(0, |parent| parent.header.height + 1)] *)
Definition next_height (parent : option Block) : Z :=
  match parent with None => 0 | Some p => add64 (height (header p)) 1 end.

Section Validation.
Context `{Crypto}.

Definition validate_block (params : ConsensusParams) (parent : option Block) (block : Block)
    (now_seconds expected_leading_zero_bits : Z) (epoch_seed : Hash256) :
    result ValidationError () :=
  let h := header block in
  reject_if (negb (bool_decide (chain_id h = p_chain_id params))) WrongChainId;;
  reject_if (negb (height h =? next_height parent)) WrongHeight;;
  match parent with
  | Some p => reject_if (negb (bool_decide (previous_hash h = block_hash p))) WrongPreviousHash
  | None => Ok ()
  end;;
  reject_if (add64 now_seconds (max_future_block_time_seconds params) <? timestamp_seconds h)
    FutureTimestamp;;
  reject_if (negb (bool_decide (merkle_root_field h = merkle_root (transactions block))))
    InvalidMerkleRoot;;
  reject_if (negb (leading_zero_bits_field h =? expected_leading_zero_bits)) UnexpectedDifficulty;;
  reject_if (negb (header_meets_work h epoch_seed)) InvalidProofOfWork;;
  validate_coinbase block;;
  Ok ().
End Validation.
