(* ===== verification/BlockFacts.v ===== *)
(** * What identifiers, roots and headers commit to *)

From S2P Require Import Prelude Crypto Hash Chain ScriptVM ScriptStandard Block.

Local Open Scope Z_scope.

(** Induction two elements at a time, the recursion of [chunks(2)]. *)
Lemma pairs_ind {A} (P : list A -> Prop) :
  P [] -> (forall x, P [x]) -> (forall x y l, P l -> P (x :: y :: l)) -> forall l, P l.
Proof.
  intros H0 H1 H2 l. enough (P l /\ forall x, P (x :: l)) by tauto.
  induction l as [|y l [IH1 IH2]]; [by split|]. split; [apply IH2|]. intros x. by apply H2.
Qed.

(** Two lists with the same images are equal, or show a collision. *)
Lemma fmap_collision {A B} `{EqDecision A} (f : A -> B) (l k : list A) :
  f <$> l = f <$> k -> l = k \/ exists x y, x ∈ l /\ y ∈ k /\ x <> y /\ f x = f y.
Proof.
  revert k; induction l as [|x l IH]; intros [|y k]; csimpl; try done; [by left|].
  intros [= Hf Hl]. destruct (decide (x = y)) as [->|Hne]; [|right; exists x, y; set_solver].
  destruct (IH k Hl) as [->|(x' & y' & ?)]; [by left|right; exists x', y'; set_solver].
Qed.

Section Merkle.
Context `{Crypto}.

(** What one layer hashes. *)
Fixpoint pair_bytes (layer : list Hash256) : list bytes :=
  match layer with
  | [] => []
  | [l] => [hash_bytes l ++ hash_bytes l]
  | l :: r :: rest => (hash_bytes l ++ hash_bytes r) :: pair_bytes rest
  end.

(** All the messages hashed on the way to the root. *)
Fixpoint merkle_preimages (fuel : nat) (layer : list Hash256) : list bytes :=
  if decide (length layer <= 1)%nat then []
  else match fuel with
       | O => []
       | S fuel => pair_bytes layer ++ merkle_preimages fuel (merkle_pairs layer)
       end.

Lemma merkle_pairs_bytes layer : merkle_pairs layer = double_sha256 <$> pair_bytes layer.
Proof.
  induction layer as [| |x y l IH] using pairs_ind; [done|done|]. cbn [merkle_pairs pair_bytes].
  by rewrite IH.
Qed.

Lemma length_merkle_pairs layer : (2 * length (merkle_pairs layer) <= length layer + 1)%nat.
Proof.
  induction layer as [| |x y l IH] using pairs_ind; cbn [merkle_pairs length]; lia.
Qed.

Lemma merkle_pairs_nonempty layer : layer <> [] -> merkle_pairs layer <> [].
Proof. by destruct layer as [|x [|y l]]. Qed.

Lemma merkle_loop_terminates fuel layer :
  (length layer <= fuel)%nat -> layer <> [] -> exists root, merkle_loop fuel layer = Some [root].
Proof.
  revert layer; induction fuel as [|fuel IH]; intros layer Hf Hne; simpl; case_decide as Hd.
  1,3: destruct layer as [|r [|? ?]]; simpl in *; [done|by exists r|lia].
  - destruct layer; simpl in *; [done|lia].
  - apply IH; [|by apply merkle_pairs_nonempty]. pose proof (length_merkle_pairs layer). lia.
Qed.

Lemma pair_bytes_inj a b :
  Forall hash_ok a -> Forall hash_ok b -> length a = length b -> pair_bytes a = pair_bytes b -> a = b.
Proof.
  assert (Hcut : forall x y x' y', hash_ok x -> hash_ok x' ->
    hash_bytes x ++ hash_bytes y = hash_bytes x' ++ hash_bytes y' -> x = x' /\ y = y').
  { intros [x] [y] [x'] [y'] [Hx _] [Hx' _]; simpl in *. intros E.
    apply app_inj_1 in E as [-> ->]; [done|congruence]. }
  intros Ha. revert b; induction a as [|x|x y l IH] using pairs_ind; intros [|x' [|y' b]] Hb Hl;
    cbn [pair_bytes]; try done.
  - intros [= E]. apply Forall_cons in Ha as [? _], Hb as [? _].
    by destruct (Hcut x _ x' _ ltac:(done) ltac:(done) E) as [-> _].
  - intros [= E1 E2]. rewrite !Forall_cons in Ha, Hb. destruct Ha as (? & ? & ?), Hb as (? & ? & ?).
    destruct (Hcut x _ x' _ ltac:(done) ltac:(done) E1) as [-> ->]. f_equal. f_equal.
    apply IH; try done. simpl in Hl. lia.
Qed.

(** [collides ps]: two different messages of [ps] with the same double hash. *)
Definition collides (ps : list bytes) : Prop :=
  exists x y, x ∈ ps /\ y ∈ ps /\ x <> y /\ double_sha256 x = double_sha256 y.

Lemma merkle_loop_binding `{!CryptoLaws _} fuel a b r :
  length a = length b -> Forall hash_ok a -> Forall hash_ok b ->
  merkle_loop fuel a = Some r -> merkle_loop fuel b = Some r ->
  a = b \/ collides (merkle_preimages fuel a ++ merkle_preimages fuel b).
Proof.
  revert a b; induction fuel as [|fuel IH]; intros a b Hl Ha Hb; simpl; rewrite Hl; case_decide.
  1,3: intros; left; congruence.
  - done.
  - intros Hra Hrb. rewrite !merkle_pairs_bytes in *.
    destruct (IH (double_sha256 <$> pair_bytes a) (double_sha256 <$> pair_bytes b)) as [E|Hc].
    + rewrite <- !merkle_pairs_bytes. clear -Hl. revert b Hl.
      induction a as [|x|x y l IH] using pairs_ind; intros [|x' [|y' b]] Hl; simpl in *; try done.
      f_equal. apply IH. lia.
    + apply Forall_fmap, Forall_true. intros. apply double_sha256_ok.
    + apply Forall_fmap, Forall_true. intros. apply double_sha256_ok.
    + done.
    + done.
    + destruct (fmap_collision _ _ _ E) as [Heq|(x & y & Hx & Hy & Hne & Hh)].
      * left. by apply pair_bytes_inj.
      * right. exists x, y. rewrite !elem_of_app. auto.
    + right. destruct Hc as (x & y & Hx & Hy & ?). exists x, y. rewrite !elem_of_app in *. tauto.
Qed.

(** The merkle root commits to the list of identifiers among lists of the
    same length: two different lists with one root exhibit two of the messages
    hashed on the way to it that collide under double SHA-256. *)
Theorem merkle_root_binding `{!CryptoLaws _} (txs txs' : list Transaction) :
  Forall hash_ok (tx_id <$> txs) -> Forall hash_ok (tx_id <$> txs') -> length txs = length txs' ->
  merkle_root txs = merkle_root txs' ->
  tx_id <$> txs = tx_id <$> txs' \/
  collides (merkle_preimages (length txs) (tx_id <$> txs)
            ++ merkle_preimages (length txs) (tx_id <$> txs')).
Proof.
  intros Ha Hb Hl. unfold merkle_root. case_decide as Hd.
  { destruct txs'; [|simplify_eq; by destruct txs]. intros _. left. by rewrite Hd. }
  rewrite decide_False by (intros ->; destruct txs; simpl in *; congruence).
  unfold merkle_ids. rewrite !length_fmap, <- Hl.
  destruct (merkle_loop_terminates (length txs) (tx_id <$> txs)) as [r Hr];
    [by rewrite length_fmap|by destruct txs|].
  destruct (merkle_loop_terminates (length txs) (tx_id <$> txs')) as [r' Hr'];
    [by rewrite length_fmap; lia|by destruct txs', txs|].
  rewrite Hr, Hr'. intros ->. eapply merkle_loop_binding; try done. by rewrite !length_fmap.
Qed.

Lemma merkle_loop_more fuel layer r :
  merkle_loop fuel layer = Some r -> merkle_loop (S fuel) layer = Some r.
Proof.
  revert layer; induction fuel as [|fuel IH]; intros layer; cbn [merkle_loop]; case_decide; try done.
  apply IH.
Qed.

Lemma merkle_loop_step fuel layer :
  (1 < length layer)%nat -> merkle_loop (S fuel) layer = merkle_loop fuel (merkle_pairs layer).
Proof. intros. cbn [merkle_loop]. by rewrite decide_False by lia. Qed.

Lemma merkle_pairs_dup l x :
  Nat.Even (length l) -> merkle_pairs (l ++ [x]) = merkle_pairs (l ++ [x; x]).
Proof.
  induction l as [|y|y z l IH] using pairs_ind; intros He; [done| |].
  - by destruct He as [[|k] He]; simpl in He; lia.
  - cbn [app merkle_pairs]. rewrite IH; [done|]. destruct He as [k He]. exists (k - 1)%nat. simpl in He. lia.
Qed.

(** The root does not commit to the number of transactions: repeating the
    last transaction of a block with an odd number of them (at least three)
    leaves the root, and so the header and the block hash, unchanged. *)
Theorem merkle_root_duplicate_last (txs : list Transaction) (tx : Transaction) :
  Nat.Even (length txs) -> txs <> [] -> merkle_root (txs ++ [tx; tx]) = merkle_root (txs ++ [tx]).
Proof.
  intros He Hne. unfold merkle_root. rewrite !decide_False by (intros [_ ?]%app_nil; done).
  unfold merkle_ids. rewrite !fmap_app. set (ids := tx_id <$> txs). csimpl.
  assert (length ids = length txs) as Hl by apply length_fmap.
  assert (ids <> []) as Hids by (intros E; apply (f_equal length) in E; rewrite Hl in E; by destruct txs).
  destruct (merkle_loop_terminates (length ids) (merkle_pairs (ids ++ [tx_id tx]))) as [r Hr].
  { pose proof (length_merkle_pairs (ids ++ [tx_id tx])) as Hp. rewrite length_app in Hp. simpl in Hp.
    destruct ids as [|i [|j ids]]; [done| |simpl in *; lia].
    exfalso. rewrite <- Hl in He. destruct He as [k He]. simpl in He. lia. }
  { apply merkle_pairs_nonempty. by destruct ids. }
  rewrite !length_app. cbn [length]. rewrite !Nat.add_succ_r, Nat.add_0_r.
  assert (0 < length ids)%nat by (destruct ids; simpl; [done|lia]).
  rewrite (merkle_loop_step _ (ids ++ [_; _])), (merkle_loop_step _ (ids ++ [_]))
    by (rewrite length_app; simpl; lia).
  rewrite <- merkle_pairs_dup by by rewrite Hl.
  by rewrite Hr, (merkle_loop_more _ _ _ Hr).
Qed.
End Merkle.


Lemma merkle_root_duplicate_last_witness :
  let tx n := {| tx_id := mkHash (replicate 32 n); inputs := []; outputs := []; payload := [] |} in
  @merkle_root toy_crypto [tx 1; tx 2; tx 3; tx 3] = @merkle_root toy_crypto [tx 1; tx 2; tx 3].
Proof.
  intros tx. refine (@merkle_root_duplicate_last toy_crypto [tx 1; tx 2] (tx 3) _ _).
  - exists 1%nat. reflexivity.
  - discriminate.
Defined.

Lemma merkle_root_binding_witness :
  let tx n := {| tx_id := mkHash (replicate 32 n); inputs := []; outputs := []; payload := [] |} in
  tx_id <$> [tx 1; tx 2; tx 3] = tx_id <$> [tx 1; tx 2; tx 3] \/
  @collides toy_crypto (@merkle_preimages toy_crypto 3 (tx_id <$> [tx 1; tx 2; tx 3])
            ++ @merkle_preimages toy_crypto 3 (tx_id <$> [tx 1; tx 2; tx 3])).
Proof.
  intros tx.
  refine (@merkle_root_binding toy_crypto toy_laws [tx 1; tx 2; tx 3] [tx 1; tx 2; tx 3] _ _ _ _).
  1,2: repeat constructor; unfold is_u8; lia.
  all: reflexivity.
Defined.

(** ** Headers *)

Record header_ok (h : BlockHeader) : Prop := {
  version_ok : 0 <= version h < U32_MOD;
  height_ok : is_u64 (height h);
  timestamp_ok : is_u64 (timestamp_seconds h);
  nonce_ok : is_u64 (nonce h);
  previous_ok : hash_ok (previous_hash h);
  merkle_ok : hash_ok (merkle_root_field h);
}.

Lemma le_bytes_inj n x y :
  0 <= x < 256 ^ Z.of_nat n -> 0 <= y < 256 ^ Z.of_nat n -> le_bytes n x = le_bytes n y -> x = y.
Proof.
  intros Hx Hy E. apply (f_equal le_val) in E. by rewrite !le_val_le_bytes, !Z.mod_small in E by done.
Qed.

Lemma le_bytes8_inj x y : is_u64 x -> is_u64 y -> le_bytes 8 x = le_bytes 8 y -> x = y.
Proof. intros Hx Hy. apply le_bytes_inj; [exact Hx|exact Hy]. Qed.
Lemma le_bytes4_inj x y :
  0 <= x < U32_MOD -> 0 <= y < U32_MOD -> le_bytes 4 x = le_bytes 4 y -> x = y.
Proof. intros Hx Hy. apply le_bytes_inj; [exact Hx|exact Hy]. Qed.

Lemma mkHash_inj g h : hash_bytes g = hash_bytes h -> g = h.
Proof. destruct g, h; simpl; congruence. Qed.

Section Header.
Context `{Crypto}.

(** The serialized header is read back from its two ends: the only field of
    variable length is the chain id. *)
Lemma header_bytes_inj h h' :
  header_ok h -> header_ok h' ->
  pow_prefix_bytes h ++ le_bytes 8 (nonce h) = pow_prefix_bytes h' ++ le_bytes 8 (nonce h') -> h = h'.
Proof.
  intros [Hv Hh Ht Hn [Hp _] [Hm _]] [Hv' Hh' Ht' Hn' [Hp' _] [Hm' _]].
  unfold pow_prefix_bytes. rewrite <- !(assoc_L app).
  intros E. apply app_inj_1 in E as [E1 E]; [|by rewrite !length_le_bytes].
  apply app_inj_2 in E as [E2 E].
  2: { rewrite !length_app, !length_le_bytes, Hp, Hp', Hm, Hm'. done. }
  apply app_inj_1 in E as [E3 E]; [|by rewrite !length_le_bytes].
  apply app_inj_1 in E as [E4 E]; [|congruence].
  apply app_inj_1 in E as [E5 E]; [|congruence].
  apply app_inj_1 in E as [E6 E]; [|by rewrite !length_le_bytes].
  apply app_inj_1 in E as [[= E7] E8]; [|done].
  apply le_bytes4_inj in E1; [|assumption..]. apply le_bytes8_inj in E3, E6, E8; [|assumption..].
  apply (inj bytes_of_string) in E2. apply mkHash_inj in E4, E5.
  destruct h, h'; simpl in *; congruence.
Qed.
End Header.

Section HeaderHash.
Context `{Crypto}.

(** The block hash commits to every field of the header: two headers with
    one hash are equal, or their two serializations collide under double
    SHA-256. *)
Theorem header_hash_binding h h' :
  header_ok h -> header_ok h' -> header_hash h = header_hash h' ->
  h = h' \/
  collides [pow_prefix_bytes h ++ le_bytes 8 (nonce h); pow_prefix_bytes h' ++ le_bytes 8 (nonce h')].
Proof.
  intros Hh Hh' E.
  destruct (decide (pow_prefix_bytes h ++ le_bytes 8 (nonce h)
                    = pow_prefix_bytes h' ++ le_bytes 8 (nonce h'))) as [Heq|Hne].
  - left. by apply header_bytes_inj.
  - right. do 2 eexists. split_and!; [apply list_elem_of_here|apply list_elem_of_further, list_elem_of_here|exact Hne|].
    unfold header_hash, pow_prefix_bytes in *. rewrite <- !(assoc_L app). exact E.
Qed.

(** ** The nonce search *)

Lemma mine_from_spec steps n h seed :
  match mine_from steps n h seed with
  | Some h' => exists k, n <= k < n + Z.of_nat steps /\ h' = with_nonce k h /\
      header_meets_work h' seed = true /\
      forall j, n <= j < k -> header_meets_work (with_nonce j h) seed = false
  | None => forall j, n <= j < n + Z.of_nat steps -> header_meets_work (with_nonce j h) seed = false
  end.
Proof.
  revert n h; induction steps as [|steps IH]; intros n h; cbn [mine_from]; [lia|].
  destruct (header_meets_work (with_nonce n h) seed) eqn:Hw.
  - exists n. split_and!; [lia|lia|done|done|lia].
  - specialize (IH (n + 1) (with_nonce n h)). destruct (mine_from _ _ _ _).
    + destruct IH as (k & Hk & -> & Hm & Hj). exists k. split_and!; [lia|lia|done|done|].
      intros j Hj'. destruct (decide (j = n)) as [->|?]; [done|]. apply (Hj j). lia.
    + intros j Hj. destruct (decide (j = n)) as [->|?]; [done|]. apply (IH j). lia.
Qed.

(** The nonce search returns the header with the least nonce up to the
    limit that meets its declared work, changing nothing else, and fails only
    when no nonce up to the limit does. *)
Theorem mine_header_spec h seed max_nonce :
  match mine_header h seed max_nonce with
  | Some h' => exists k, 0 <= k <= max_nonce /\ h' = with_nonce k h /\
      header_meets_work h' seed = true /\
      forall j, 0 <= j < k -> header_meets_work (with_nonce j h) seed = false
  | None => forall j, 0 <= j <= max_nonce -> header_meets_work (with_nonce j h) seed = false
  end.
Proof.
  unfold mine_header. pose proof (mine_from_spec (Z.to_nat (max_nonce + 1)) 0 h seed) as Hm.
  destruct (mine_from _ _ _ _).
  - destruct Hm as (k & Hk & Hm). exists k. split; [lia|done].
  - intros j Hj. apply Hm. lia.
Qed.
End HeaderHash.

Lemma header_hash_binding_witness :
  let h := {| version := 1; chain_id := "tensorium-mainnet"; height := 3; previous_hash := ZERO;
              merkle_root_field := ZERO; timestamp_seconds := 100; leading_zero_bits_field := 42;
              nonce := 7 |} in
  h = h \/ @collides toy_crypto [pow_prefix_bytes h ++ le_bytes 8 (nonce h);
                                 pow_prefix_bytes h ++ le_bytes 8 (nonce h)].
Proof.
  intros h. assert (hash_ok ZERO) by (split; [reflexivity|repeat constructor; unfold is_u8; lia]).
  assert (header_ok h) by (constructor; unfold is_u64, U64_MOD, U32_MOD; simpl; [lia..|done|done]).
  refine (@header_hash_binding toy_crypto h h _ _ _); [assumption..|reflexivity].
Defined.
