(* ===== verification/Utxo.v ===== *)
(** * The UTXO set ([tensorium-core/src/utxo.rs])

    Unspent outputs by outpoint, the check of one transaction and the
    application of a block. [apply_block] is a [&mut self] method, so it runs in
    the [stateful] monad: an error keeps the changes made before it. *)

From S2P Require Import Prelude Crypto Hash Chain ScriptVM Block.

Local Open Scope Z_scope.

Record UtxoEntry := { output : TxOutput; created_height : Z; coinbase_output : bool }.

#[export] Instance UtxoEntry_eq_dec : EqDecision UtxoEntry.
Proof. solve_decision. Defined.

(** [UtxoSet { entries }]; [UtxoSet::new()] is [∅]. *)
Abbreviation UtxoSet := (gmap OutPoint UtxoEntry).

Inductive UtxoError :=
| MissingInput
| DuplicateInput
| MissingCoinbase
| CoinbaseOutputTooHigh
| InvalidTxSignature
| ImmatureCoinbaseSpend
| OutputExceedsInput.

#[export] Instance UtxoError_eq_dec : EqDecision UtxoError.
Proof. solve_decision. Defined.

Definition entry_value (e : UtxoEntry) : Z := value_atoms (output e).

(** The sum does not depend on the iteration order of the [HashMap]. *)
Definition total_atoms (self : UtxoSet) : Z := sat_sum (entry_value <$> (map_to_list self).*2).

(** A coinbase output not old enough at [h]. *)
Definition immature (params : ConsensusParams) (h : Z) (entry : UtxoEntry) : bool :=
  coinbase_output entry
  && (h <? sat_add64 (created_height entry) (coinbase_maturity_blocks params)).

(** [OP_RETURN] outputs are skipped. *)
Definition unspendable (o : TxOutput) : bool := bool_decide (head (script_pubkey o) = Some OP_RETURN).

(** Sum of the genesis allocations: [iter().map(|(_, a)| a).sum()] wraps. *)
Definition premint_atoms (params : ConsensusParams) : Z :=
  if negb (bool_decide (genesis_allocations params = []))
  then foldl add64 0 (genesis_allocations params).*2
  else founder_allocation_atoms params.

Definition has_genesis_premint (params : ConsensusParams) (h : Z) : bool :=
  (h =? 0) && (negb (bool_decide (genesis_allocations params = []))
               || negb (bool_decide (founder_address params = EmptyString))).

Definition max_coinbase_atoms (params : ConsensusParams) (h total_fees : Z) : Z :=
  if has_genesis_premint params h
  then sat_add64 (sat_add64 (reward_at_height params 0) (premint_atoms params)) total_fees
  else sat_add64 (reward_at_height params h) total_fees.

(** Phase 3 of [apply_block]: remove the inputs of [txs], add the outputs of [txs]. *)
Definition spend_inputs (txs : list Transaction) (self : UtxoSet) : UtxoSet :=
  foldl (λ s tx, foldl (λ s i, delete (previous_output i) s) s (inputs tx)) self txs.

(** The entries the outputs of a transaction create, in order; the index is cast
    to [u32]. *)
Definition created_outputs (h : Z) (tx : Transaction) : list (OutPoint * UtxoEntry) :=
  omap (λ '(index, o),
      if unspendable o then None
      else Some ({| txid := tx_id tx; output_index := Z.of_nat index mod U32_MOD |},
                 {| output := o; created_height := h; coinbase_output := is_coinbase tx |}))
    (zip (seq 0 (length (outputs tx))) (outputs tx)).

Definition create_outputs (h : Z) (txs : list Transaction) (self : UtxoSet) : UtxoSet :=
  foldl (λ s tx, foldl (λ s '(op, e), <[op := e]> s) s (created_outputs h tx)) self txs.

Section Utxo.
Context `{Crypto}.

(** The loop over the inputs, the same code in [validate_transaction] and
    [apply_block]: the outpoints seen and the value so far. *)
Fixpoint check_inputs (self : UtxoSet) (params : ConsensusParams) (h : Z) (tx : Transaction)
    (ins : list TxInput) (seen : gset OutPoint) (input_sum : Z) :
    result UtxoError (gset OutPoint * Z) :=
  match ins with
  | [] => Ok (seen, input_sum)
  | input :: ins =>
      reject_if (bool_decide (previous_output input ∈ seen)) DuplicateInput;;
      let seen := {[ previous_output input ]} ∪ seen in
      entry ← ok_or (self !! previous_output input) MissingInput;
      reject_if (immature params h entry) ImmatureCoinbaseSpend;;
      let ctx := {| sig_hash := signature_hash tx; block_height := h |} in
      ok ← map_err (execute (signature_script input) (script_pubkey (output entry)) ctx)
             (λ _, InvalidTxSignature);
      reject_if (negb ok) InvalidTxSignature;;
      check_inputs self params h tx ins seen (sat_add64 input_sum (entry_value entry))
  end.

Definition validate_transaction (self : UtxoSet) (tx : Transaction) (tip_height : Z)
    (params : ConsensusParams) : result UtxoError Z :=
  '(_, input_sum) ← check_inputs self params tip_height tx (inputs tx) ∅ 0;
  let output_sum := total_output_atoms tx in
  reject_if (input_sum <? output_sum) OutputExceedsInput;;
  Ok (sat_sub64 input_sum output_sum).

(** Phase 1 of [apply_block]: the loop over the transactions after the coinbase.
    [seen] spans the block. *)
Fixpoint check_txs (self : UtxoSet) (params : ConsensusParams) (h : Z) (txs : list Transaction)
    (seen : gset OutPoint) (total_fees : Z) : result UtxoError Z :=
  match txs with
  | [] => Ok total_fees
  | tx :: txs =>
      '(seen, input_sum) ← check_inputs self params h tx (inputs tx) seen 0;
      let output_sum := total_output_atoms tx in
      reject_if (input_sum <? output_sum) OutputExceedsInput;;
      check_txs self params h txs seen (sat_add64 total_fees (sat_sub64 input_sum output_sum))
  end.

Definition apply_block (params : ConsensusParams) (block : Block) :
    stateful UtxoSet UtxoError () :=
  let h := height (header block) in
  coinbase ← lift_result (ok_or (head (transactions block)) MissingCoinbase);
  self ← get_state;
  total_fees ← lift_result (check_txs self params h (tail (transactions block)) ∅ 0);
  lift_result (reject_if (max_coinbase_atoms params h total_fees <? total_output_atoms coinbase)
                 CoinbaseOutputTooHigh);;
  modify (spend_inputs (tail (transactions block)));;
  modify (create_outputs h (transactions block)).
End Utxo.

(** * UTXO rules: the declarative specification and its refinement

    [block_applies] says, without loops or early returns, when a block spends
    from a set and what it leaves. [apply_block] implements it; conservation of
    value and protection against double spends follow from the specification. *)

(** The outpoints a list of transactions spends, in order. *)
Definition spent_outpoints (txs : list Transaction) : list OutPoint :=
  txs ≫= λ tx, previous_output <$> inputs tx.

(** The entries a block's transactions create, in order. *)
Definition created (h : Z) (txs : list Transaction) : list (OutPoint * UtxoEntry) :=
  txs ≫= created_outputs h.

(** The value of the outputs a transaction refers to, with the saturation of the code. *)
Definition input_value (self : UtxoSet) (tx : Transaction) : Z :=
  sat_sum (value_or_0 entry_value self ∘ previous_output <$> inputs tx).

Definition tx_fee (self : UtxoSet) (tx : Transaction) : Z :=
  sat_sub64 (input_value self tx) (total_output_atoms tx).

Section Utxo.
Context `{Crypto}.

(** An input is entitled to its output: it exists, is mature, and the unlocking
    script executes to [true]. *)
Definition input_unlocks (self : UtxoSet) (params : ConsensusParams) (h : Z) (tx : Transaction)
    (i : TxInput) : Prop :=
  exists e, self !! previous_output i = Some e /\ immature params h e = false /\
    execute (signature_script i) (script_pubkey (output e))
      {| sig_hash := signature_hash tx; block_height := h |} = Ok true.

Record tx_valid (self : UtxoSet) (params : ConsensusParams) (h : Z) (tx : Transaction) : Prop := {
  tx_unlocks : Forall (input_unlocks self params h tx) (inputs tx);
  tx_no_inflation : total_output_atoms tx <= input_value self tx;
}.

Record block_applies (params : ConsensusParams) (b : Block) (self self' : UtxoSet) : Prop := {
  applies_no_double_spend : NoDup (spent_outpoints (tail (transactions b)));
  applies_txs : Forall (tx_valid self params (height (header b))) (tail (transactions b));
  applies_coinbase : exists cb, head (transactions b) = Some cb /\
    total_output_atoms cb <= max_coinbase_atoms params (height (header b))
      (sat_sum (tx_fee self <$> tail (transactions b)));
  applies_result : self' =
    foldl (λ s '(op, e), <[op := e]> s)
      (foldl (λ s op, delete op s) self (spent_outpoints (tail (transactions b))))
      (created (height (header b)) (transactions b));
}.

(** *** The loops compute the declarative conditions *)

Lemma check_inputs_Ok self params h tx ins seen acc seen' acc' :
  check_inputs self params h tx ins seen acc = Ok (seen', acc') <->
  NoDup (previous_output <$> ins) /\ Forall (λ i, previous_output i ∉ seen) ins /\
  Forall (input_unlocks self params h tx) ins /\
  seen' = list_to_set (previous_output <$> ins) ∪ seen /\
  acc' = foldl sat_add64 acc (value_or_0 entry_value self ∘ previous_output <$> ins).
Proof.
  revert seen acc; induction ins as [|i ins IH]; intros seen acc; cbn [check_inputs].
  { csimpl. rewrite (left_id_L ∅ (∪)). split; [intros [= <- <-]|intros (_ & _ & _ & -> & ->)]; auto using NoDup_nil_2. }
  rewrite bind_Ok. setoid_rewrite reject_if_Ok. csimpl. rewrite NoDup_cons, !Forall_cons.
  split.
  - intros (_ & Hseen & Hr). apply bool_decide_eq_false in Hseen.
    inv_ok Hr. rename a into e. apply negb_false_iff in Hok2 as ->.
    assert (value_or_0 entry_value self (previous_output i) = entry_value e) as Hv
      by (unfold value_or_0; by rewrite Hok).
    rewrite Hv. apply IH in Hr as (Hnd & Hns & Hun & -> & ->).
    split_and!; auto.
    + intros Hin. apply list_elem_of_fmap in Hin as (j & Hj & Hin).
      rewrite Forall_forall in Hns. apply (Hns j Hin). rewrite <- Hj. set_solver.
    + eapply Forall_impl; [exact Hns|]. set_solver.
    + exists e. split_and!; [done|done|].
      destruct (execute _ _ _) as [[]|]; simpl in Hok1; congruence.
    + set_solver.
  - intros ([Hin Hnd] & [Hns Hnss] & [(e & He & Him & Hex) Hun] & -> & ->).
    exists (). split; [by apply bool_decide_eq_false|].
    rewrite He. simpl. rewrite Him. simpl. rewrite Hex. simpl.
    apply IH. split_and!; auto.
    + rewrite Forall_forall in Hnss |- *. intros j Hj. specialize (Hnss j Hj).
      rewrite not_elem_of_union, not_elem_of_singleton. split; [|done].
      intros Heq. apply Hin. rewrite <- Heq. by apply list_elem_of_fmap_2.
    + set_solver.
    + assert (value_or_0 entry_value self (previous_output i) = entry_value e) as ->
        by (unfold value_or_0; by rewrite He). done.
Qed.

Lemma spent_outpoints_cons tx txs :
  spent_outpoints (tx :: txs) = (previous_output <$> inputs tx) ++ spent_outpoints txs.
Proof. done. Qed.

Lemma tx_checked self params h tx seen seen' s :
  check_inputs self params h tx (inputs tx) seen 0 = Ok (seen', s) /\ (s <? total_output_atoms tx) = false
  <-> NoDup (previous_output <$> inputs tx) /\ Forall (λ op, op ∉ seen) (previous_output <$> inputs tx) /\
      tx_valid self params h tx /\
      seen' = list_to_set (previous_output <$> inputs tx) ∪ seen /\ s = input_value self tx.
Proof.
  rewrite check_inputs_Ok, Forall_fmap, Z.ltb_ge. unfold input_value, sat_sum. split.
  - intros [(? & ? & ? & -> & ->) ?]. split_and!; try done; by split.
  - intros (? & ? & [] & -> & ->). by split_and!.
Qed.

Lemma check_txs_Ok self params h txs seen acc fees :
  check_txs self params h txs seen acc = Ok fees <->
  NoDup (spent_outpoints txs) /\ Forall (λ op, op ∉ seen) (spent_outpoints txs) /\
  Forall (tx_valid self params h) txs /\ fees = foldl sat_add64 acc (tx_fee self <$> txs).
Proof.
  revert seen acc; induction txs as [|tx txs IH]; intros seen acc; cbn [check_txs].
  { split; [intros [= <-]; split_and!; auto using NoDup_nil_2|by intros (_ & _ & _ & ->)]. }
  rewrite spent_outpoints_cons, NoDup_app, Forall_app, Forall_cons. csimpl. split.
  - intros Hr. apply bind_Ok in Hr as ([seen' s] & Hin & Hr). inv_ok Hr.
    destruct (proj1 (tx_checked _ _ _ _ _ _ _) (conj Hin Hok)) as (Hnd & Hns & Hv & -> & ->).
    apply IH in Hr as (Hnd2 & Hns2 & Hv2 & ->). rewrite Forall_forall in Hns2.
    split_and!; try done.
    + intros op Hop Hop2. apply (Hns2 op Hop2). set_solver.
    + rewrite Forall_forall. intros op Hop. specialize (Hns2 op Hop). set_solver.
  - intros ((Hnd & Hdis & Hnd2) & [Hns Hns2] & [Hv Hv2] & ->).
    destruct (proj2 (tx_checked self params h tx seen _ _)
                (conj Hnd (conj Hns (conj Hv (conj eq_refl eq_refl))))) as [Hin Hle].
    rewrite Hin. cbn [mbind result_bind]. rewrite Hle. cbn [reject_if mbind result_bind].
    apply IH. split_and!; try done.
    rewrite Forall_forall in Hns2 |- *. intros op Hop. specialize (Hns2 op Hop).
    specialize (Hdis op). set_solver.
Qed.

Lemma spend_inputs_outpoints txs self :
  spend_inputs txs self = foldl (λ s op, delete op s) self (spent_outpoints txs).
Proof.
  unfold spend_inputs. revert self; induction txs as [|tx txs IH]; intros self; [done|].
  rewrite spent_outpoints_cons, foldl_app. simpl. rewrite IH. f_equal.
  generalize (inputs tx). intros ins. revert self; induction ins; intros self; csimpl; auto.
Qed.

Lemma create_outputs_created h txs self :
  create_outputs h txs self = foldl (λ s '(op, e), <[op := e]> s) self (created h txs).
Proof.
  unfold create_outputs, created. revert self; induction txs as [|tx txs IH]; intros self; [done|].
  csimpl. by rewrite foldl_app, <- IH.
Qed.

(** The whole method, on its success path. *)
Lemma apply_block_spec params b self self' :
  apply_block params b self = (self', Ok ()) <-> block_applies params b self self'.
Proof.
  unfold apply_block. rewrite stateful_bind_Ok. split.
  - intros (cb & s1 & Hcb & Hr). unfold lift_result in Hcb.
    injection Hcb as <- Hcb%ok_or_Ok.
    apply stateful_bind_Ok in Hr as (self1 & s1 & Hs & Hr). injection Hs as <- <-.
    apply stateful_bind_Ok in Hr as (fees & s2 & Hf & Hr). injection Hf as <- Hf.
    apply stateful_bind_Ok in Hr as ([] & s2 & Hmax & Hr). injection Hmax as <- Hmax%reject_if_Ok.
    injection Hr as <-. apply check_txs_Ok in Hf as (Hnd & _ & Hv & ->). apply Z.ltb_ge in Hmax.
    split; [done|done|by exists cb|]. by rewrite create_outputs_created, spend_inputs_outpoints.
  - intros [Hnd Hv (cb & Hcb & Hmax) ->].
    exists cb, self. split; [unfold lift_result; by rewrite Hcb|].
    apply stateful_bind_Ok. exists self, self. split; [done|].
    apply stateful_bind_Ok. exists (sat_sum (tx_fee self <$> tail (transactions b))), self. split.
    { unfold lift_result. f_equal. apply check_txs_Ok. split_and!; try done.
      apply Forall_forall. set_solver. }
    apply stateful_bind_Ok. exists (), self. split.
    { unfold lift_result. f_equal. by apply reject_if_Ok, Z.ltb_ge. }
    apply stateful_bind_Ok. eexists (), _. split; [reflexivity|]. unfold modify.
    by rewrite create_outputs_created, spend_inputs_outpoints.
Qed.

(** An error comes before the first change. *)
Lemma apply_block_Err params b self self' e : apply_block params b self = (self', Err e) -> self' = self.
Proof.
  unfold apply_block, lift_result, get_state, modify, mbind, stateful_bind.
  destruct (ok_or _ _) as [cb|]; [|by intros [=]].
  destruct (check_txs _ _ _ _ _ _) as [fees|]; [|by intros [=]].
  by destruct (reject_if _ _) as [[]|]; intros [=].
Qed.

Lemma validate_transaction_Ok self params h tx fee :
  validate_transaction self tx h params = Ok fee <->
  NoDup (previous_output <$> inputs tx) /\ tx_valid self params h tx /\ fee = tx_fee self tx.
Proof.
  unfold validate_transaction. split.
  - intros Hv. apply bind_Ok in Hv as ([seen s] & Hin & Hv). inv_ok Hv. injection Hv as <-.
    by destruct (proj1 (tx_checked _ _ _ _ _ _ _) (conj Hin Hok)) as (? & _ & ? & _ & ->).
  - intros (Hnd & Hv & ->).
    destruct (proj2 (tx_checked self params h tx ∅ _ _)
      (conj Hnd (conj (proj2 (Forall_forall _ _) (λ op _, not_elem_of_empty op))
         (conj Hv (conj eq_refl eq_refl))))) as [Hin Hle].
    rewrite Hin. cbn [mbind result_bind]. by rewrite Hle.
Qed.

(** Only the entries the transaction refers to matter. *)
Lemma tx_valid_frame self self' params h tx :
  (forall i, i ∈ inputs tx -> self !! previous_output i = self' !! previous_output i) ->
  tx_valid self params h tx -> tx_valid self' params h tx /\ tx_fee self' tx = tx_fee self tx.
Proof.
  intros Heq [Hun Hle].
  assert (input_value self' tx = input_value self tx) as Hval.
  { unfold input_value. f_equal. apply list_fmap_ext. intros n i Hi. unfold compose, value_or_0.
    by rewrite Heq by by apply list_elem_of_lookup_2 with n. }
  split; [split|].
  - rewrite Forall_forall in Hun |- *. intros i Hi. destruct (Hun i Hi) as (e & He & ?).
    exists e. by rewrite <- Heq.
  - by rewrite Hval.
  - unfold tx_fee. by rewrite Hval.
Qed.

(** C3: Refinement: [apply_block] succeeds exactly when the block satisfies the
    declarative rules (no outpoint spent twice, every input exists, is mature
    and unlocked, no transaction creates value, the coinbase takes at most
    subsidy and fees) and then leaves exactly the specified set; on every
    error path the set is left unchanged. *)
Theorem apply_block_refines params b self :
  match apply_block params b self with
  | (self', Ok _) => block_applies params b self self'
  | (self', Err _) => self' = self /\ forall s, ~ block_applies params b self s
  end.
Proof.
  destruct (apply_block params b self) as [self' [[]|e]] eqn:Hap.
  - by apply apply_block_spec.
  - split; [by eapply apply_block_Err|]. intros s Hs%apply_block_spec. congruence.
Qed.
End Utxo.
