(* ===== verification/Fixture.v ===== *)
(** * A concrete wallet and block

    A key of the toy instance, an output it owns, a signed payment and a block
    that confirms it: the inputs at which the theorems on transactions are
    instantiated. *)

From S2P Require Import Prelude Crypto Hash Chain ScriptVM ScriptStandard Block Utxo.

Local Open Scope Z_scope.

Module Fixture.
#[local] Existing Instance toy_crypto.

Definition pk : bytes := vk_to_sec1 toy_key.
Definition script : bytes := p2pkh_from_pubkey pk.
Definition coin : OutPoint := {| txid := mkHash (replicate 32 7); output_index := 0 |}.
Definition entry : UtxoEntry := {|
  output := {| value_atoms := 1000000; script_pubkey := script |};
  created_height := 0; coinbase_output := false |}.
Definition utxos : UtxoSet := {[ coin := entry ]}.

Definition paid : list TxOutput := [ {| value_atoms := 900000; script_pubkey := script |} ].
Definition unsigned : Transaction :=
  payment [ {| previous_output := coin; signature_script := [] |} ] paid.
Definition unlock : bytes :=
  p2pkh_script_sig (sig_to_der (ecdsa_sign toy_key (hash_bytes (signature_hash unsigned)))) pk.
Definition tx : Transaction := payment [ {| previous_output := coin; signature_script := unlock |} ] paid.

Definition fee : Z := 100000.
Definition confirming : Block := {|
  header := {| version := 1; chain_id := "tensorium-mainnet"; height := 5; previous_hash := ZERO;
               merkle_root_field := ZERO; timestamp_seconds := 1000;
               leading_zero_bits_field := 0; nonce := 0 |};
  transactions := [coinbase 5 (reward_at_height MAINNET 5 + fee) "miner"; tx] |}.

(** Mainnet without proof of work, and a genesis block for it. *)
Definition easy : ConsensusParams := {|
  network := Mainnet; p_chain_id := "tensorium-mainnet"; target_block_seconds := 60;
  halving_interval_blocks := 2102400; max_halving_eras := 10;
  total_supply_atoms := TOTAL_SUPPLY_ATOMS; founder_allocation_atoms := 0;
  mining_allocation_atoms := MINING_ALLOCATION_ATOMS; genesis_allocations := [];
  founder_address := ""; initial_reward_atoms := 785584523;
  initial_leading_zero_bits := 0; min_leading_zero_bits := 0; max_leading_zero_bits := 58;
  difficulty_adjustment_window := 60; difficulty_retarget_activation_height := U64_MAX;
  coinbase_maturity_blocks := 10; max_future_block_time_seconds := 7200;
  max_block_bytes := 1000000 |}.

Definition reward_tx : Transaction := coinbase 0 (reward_at_height easy 0) "miner".
Definition first_block : Block := {|
  header := {| version := 1; chain_id := "tensorium-mainnet"; height := 0; previous_hash := ZERO;
               merkle_root_field := merkle_root [reward_tx]; timestamp_seconds := 1000;
               leading_zero_bits_field := 0; nonce := 0 |};
  transactions := [reward_tx] |}.

Lemma tx_spends : validate_transaction utxos tx 5 MAINNET = Ok fee.
Proof. vm_compute. reflexivity. Qed.

Lemma confirming_applies : (apply_block MAINNET confirming utxos).2 = Ok ().
Proof. vm_compute. reflexivity. Qed.
End Fixture.
