(* ===== verification/UtxoSupply.v ===== *)
(** * Conservation of value

    A block adds to the value of the UTXO set at most its subsidy (and the
    premint, at genesis), whatever its transactions are. *)

From S2P Require Import Prelude Crypto Hash Chain ScriptVM Block Utxo Fixture.

Local Open Scope Z_scope.

(** The value of a set, with no width. *)
Definition utxo_total (s : UtxoSet) : Z := map_sum entry_value s.

(** Entries a Rust value can hold. *)
Definition set_ok (s : UtxoSet) : Prop := map_Forall (λ _ e, 0 <= entry_value e) s.

Definition exact_outputs (tx : Transaction) : Z := sumZ (value_atoms <$> outputs tx).

(** What a block at height [h] may create. *)
Definition block_subsidy (params : ConsensusParams) (h : Z) : Z :=
  reward_at_height params h + if has_genesis_premint params h then premint_atoms params else 0.

Lemma premint_atoms_nonneg params :
  0 <= founder_allocation_atoms params -> 0 <= premint_atoms params.
Proof.
  intros. unfold premint_atoms. case_match; [|done].
  assert (forall l a, 0 <= a -> 0 <= foldl add64 a l) as Hl.
  { induction l as [|x l IH]; intros a Ha; simpl; [done|]. apply IH. u64_lia. }
  by apply Hl.
Qed.

Lemma values_nonneg tx : tx_ok tx -> Forall (Z.le 0) (value_atoms <$> outputs tx).
Proof. intros Htx. apply Forall_fmap. eapply Forall_impl; [exact Htx|]. intros o [Ho _]. apply Ho. Qed.

Lemma exact_outputs_nonneg tx : tx_ok tx -> 0 <= exact_outputs tx.
Proof. intros. by apply sumZ_nonneg, values_nonneg. Qed.

Lemma total_output_exact tx :
  tx_ok tx -> total_output_atoms tx < U64_MAX -> total_output_atoms tx = exact_outputs tx.
Proof. intros. apply sat_sum_exact; [by apply values_nonneg|done]. Qed.

Lemma created_outputs_values h tx :
  tx_ok tx ->
  Forall (λ kv, 0 <= entry_value kv.2) (created_outputs h tx) /\
  sumZ ((λ kv, entry_value kv.2) <$> created_outputs h tx) <= exact_outputs tx.
Proof.
  unfold tx_ok, created_outputs, exact_outputs. generalize (is_coinbase tx) as cb. generalize 0%nat.
  intros n cb. induction (outputs tx) as [|o os IH] in n |- *; intros Hok; [by split|].
  apply Forall_cons in Hok as [[[Ho _] _] Hos]. specialize (IH (S n) Hos) as [IH1 IH2].
  cbn [length seq zip zip_with omap list_omap]. case_match; simplify_option_eq.
  - case_match; simplify_eq. split; [by constructor|]. csimpl. unfold entry_value at 1. simpl. lia.
  - split; [done|]. csimpl. lia.
Qed.

Lemma created_values h txs :
  Forall tx_ok txs ->
  Forall (λ kv, 0 <= entry_value kv.2) (created h txs) /\
  sumZ ((λ kv, entry_value kv.2) <$> created h txs) <= sumZ (exact_outputs <$> txs).
Proof.
  induction 1 as [|tx txs Htx _ [IH1 IH2]]; [by split|].
  destruct (created_outputs_values h tx Htx). unfold created in *. csimpl. split; [by apply Forall_app|].
  rewrite fmap_app, sumZ_app. lia.
Qed.

Lemma set_ok_foldl_insert (kvs : list (OutPoint * UtxoEntry)) s :
  set_ok s -> Forall (λ kv, 0 <= entry_value kv.2) kvs ->
  set_ok (foldl (λ s '(op, e), <[op := e]> s) s kvs).
Proof.
  intros Hs Hk; revert s Hs; induction Hk as [|[k e] kvs He _ IH]; intros s Hs; [done|].
  simpl. by apply IH, map_Forall_insert_2.
Qed.

Lemma set_ok_foldl_delete (ops : list OutPoint) s :
  set_ok s -> set_ok (foldl (λ s op, delete op s) s ops).
Proof. revert s; induction ops as [|op ops IH]; intros s Hs; [done|]. by apply IH, map_Forall_delete. Qed.

Definition exact_inputs (s : UtxoSet) (tx : Transaction) : Z :=
  sumZ (value_or_0 entry_value s ∘ previous_output <$> inputs tx).

Lemma spent_values s txs :
  sumZ (value_or_0 entry_value s <$> spent_outpoints txs) = sumZ (exact_inputs s <$> txs).
Proof.
  induction txs as [|tx txs IH]; [done|]. rewrite spent_outpoints_cons, fmap_app, sumZ_app. csimpl.
  rewrite IH. unfold exact_inputs at 2. by rewrite list_fmap_compose.
Qed.

Lemma exact_inputs_nonneg s tx : set_ok s -> 0 <= exact_inputs s tx.
Proof.
  intros. apply sumZ_nonneg, Forall_fmap, Forall_true. intros i. by apply value_or_0_nonneg.
Qed.

Lemma sumZ_elem_le {A} (f : A -> Z) l x :
  Forall (λ x, 0 <= f x) l -> x ∈ l -> f x <= sumZ (f <$> l).
Proof.
  intros Hl. induction Hl as [|y l Hy Hl IH]; [set_solver|]. csimpl.
  pose proof (sumZ_nonneg (f <$> l) ltac:(by apply Forall_fmap)).
  intros [->|Hx]%elem_of_cons; [lia|]. specialize (IH Hx). lia.
Qed.

Section Conservation.
Context `{Crypto} (params : ConsensusParams).

(** Below the width no sum saturates, so the fees are the value the
    transactions leave. *)
Lemma fees_exact s h txs :
  set_ok s -> utxo_total s < U64_MAX -> NoDup (spent_outpoints txs) ->
  Forall tx_ok txs -> Forall (tx_valid s params h) txs ->
  sumZ (exact_inputs s <$> txs) <= utxo_total s /\
  sat_sum (tx_fee s <$> txs) = sumZ (exact_inputs s <$> txs) - sumZ (exact_outputs <$> txs).
Proof.
  intros Hs Htot Hnd Hok Hv.
  assert (sumZ (exact_inputs s <$> txs) <= utxo_total s) as Hin.
  { pose proof (map_sum_delete_list entry_value s _ Hnd) as Hd. rewrite spent_values in Hd.
    pose proof (map_sum_nonneg entry_value _ (set_ok_foldl_delete (spent_outpoints txs) s Hs)).
    unfold utxo_total. lia. }
  split; [done|].
  assert (Hfee : Forall (λ tx, tx_fee s tx = exact_inputs s tx - exact_outputs tx /\
                               0 <= tx_fee s tx) txs).
  { rewrite !Forall_forall in *. intros tx Htx. specialize (Hok tx Htx). destruct (Hv tx Htx) as [_ Hle].
    assert (exact_inputs s tx <= sumZ (exact_inputs s <$> txs)).
    { apply sumZ_elem_le; [|done]. apply Forall_true. intros. by apply exact_inputs_nonneg. }
    assert (input_value s tx = exact_inputs s tx) as Hi.
    { unfold input_value. rewrite sat_sum_spec, Z.min_l; [done|..].
      - fold (exact_inputs s tx). lia.
      - apply Forall_fmap, Forall_true. intros i. by apply value_or_0_nonneg. }
    unfold tx_fee. rewrite Hi in *. rewrite total_output_exact in * by (done || lia). u64_lia. }
  assert (sumZ (tx_fee s <$> txs) = sumZ (exact_inputs s <$> txs) - sumZ (exact_outputs <$> txs)) as <-.
  { clear -Hfee. induction Hfee as [|tx txs [Htx _] _ IH]; [done|]. csimpl. lia. }
  assert (sumZ (tx_fee s <$> txs) <= sumZ (exact_inputs s <$> txs)).
  { clear -Hfee Hok. induction Hfee as [|tx txs [Htx _] _ IH]; [done|]. apply Forall_cons in Hok as [? ?].
    csimpl. pose proof (exact_outputs_nonneg tx ltac:(done)). specialize (IH ltac:(done)). lia. }
  rewrite sat_sum_spec, Z.min_l; [done|lia|].
  apply Forall_fmap. eapply Forall_impl; [exact Hfee|]. by intros ? [].
Qed.

Lemma block_conserves b s s' :
  emission_ok params -> 0 <= premint_atoms params ->
  set_ok s -> Forall tx_ok (transactions b) ->
  utxo_total s + block_subsidy params (height (header b)) < U64_MAX ->
  block_applies params b s s' ->
  utxo_total s' <= utxo_total s + block_subsidy params (height (header b)) /\ set_ok s'.
Proof.
  intros He Hpre Hs Hok Hfit [Hnd Hv (cb & Hcb & Hmax) ->].
  destruct (transactions b) as [|cb' txs] eqn:Htxs; [done|]. simpl in *. simplify_eq.
  apply Forall_cons in Hok as [Hcbok Htxok].
  pose proof (reward_at_height_range params He (height (header b))) as Hr.
  assert (0 <= block_subsidy params (height (header b)))
    by (unfold block_subsidy; case_match; lia).
  destruct (fees_exact s (height (header b)) txs) as [Hin Hfees]; [done|lia|done..|].
  rewrite Hfees in Hmax.
  assert (0 <= sumZ (exact_outputs <$> txs)).
  { apply sumZ_nonneg, Forall_fmap. eapply Forall_impl; [exact Htxok|]. apply exact_outputs_nonneg. }
  assert (exact_outputs cb <= block_subsidy params (height (header b))
            + (sumZ (exact_inputs s <$> txs) - sumZ (exact_outputs <$> txs))) as Hcbout.
  { rewrite <- total_output_exact; [|done|];
      unfold max_coinbase_atoms, block_subsidy in *; case_match;
      try (assert (height (header b) = 0) as Hh by (unfold has_genesis_premint in *; lia); rewrite Hh in *);
      unfold sat_add64 in *; lia. }
  pose proof (set_ok_foldl_delete (spent_outpoints txs) s Hs) as Hdel.
  destruct (created_values (height (header b)) (cb :: txs)) as [Hc1 Hc2]; [by constructor|].
  split; [|by apply set_ok_foldl_insert].
  unfold utxo_total in *. etransitivity; [by apply map_sum_insert_list_le|].
  rewrite map_sum_delete_list, spent_values by done. csimpl in Hc2. lia.
Qed.

(** C6: No inflation: a block the rules accept raises the value of the UTXO
    set by at most the block's subsidy, and the premint at genesis. It holds
    whatever the block's transactions are, with the saturating sums of the
    code, as long as the resulting supply fits a [u64]. *)
Theorem apply_block_no_inflation b s s' :
  emission_ok params -> 0 <= founder_allocation_atoms params ->
  set_ok s -> Forall tx_ok (transactions b) ->
  utxo_total s + block_subsidy params (height (header b)) < U64_MAX ->
  apply_block params b s = (s', Ok ()) ->
  utxo_total s' <= utxo_total s + block_subsidy params (height (header b)).
Proof.
  intros He Hf Hs Hok Hfit Hap%apply_block_spec.
  eapply block_conserves; try done. by apply premint_atoms_nonneg.
Qed.
End Conservation.

Lemma apply_block_no_inflation_witness :
  let r := @apply_block toy_crypto MAINNET Fixture.confirming Fixture.utxos in
  r.2 = Ok () /\ utxo_total r.1 <= utxo_total Fixture.utxos + block_subsidy MAINNET 5.
Proof.
  cbv zeta. split; [vm_compute; reflexivity|].
  refine (@apply_block_no_inflation toy_crypto MAINNET Fixture.confirming Fixture.utxos _
            MAINNET_emission_ok _ _ _ _ _).
  - vm_compute. discriminate.
  - apply (bool_decide_unpack _). vm_compute. exact I.
  - apply (bool_decide_unpack _). vm_compute. exact I.
  - vm_compute. reflexivity.
  - apply pair_with. vm_compute. reflexivity.
Defined.
