(* ===== verification/Malleability.v ===== *)
(** * What validation does not commit to

    [validate_block] checks the declared identifiers of the transactions, never
    that an identifier is the hash of its transaction; and the hash a signature
    covers has no length prefixes. *)

From S2P Require Import Prelude Crypto Hash Chain ScriptVM Block BlockFacts Validation.
From S2P Require Import Utxo UtxoSupply Fixture.

Local Open Scope Z_scope.

(** The outputs of a transaction moved into its payload. *)
Definition serialize_output (o : TxOutput) : bytes := le_bytes 8 (value_atoms o) ++ script_pubkey o.
Definition hide_outputs (tx : Transaction) : Transaction := {|
  tx_id := tx_id tx; inputs := inputs tx; outputs := [];
  payload := mjoin (serialize_output <$> outputs tx) ++ payload tx |}.

(** Other outputs under the same identifier. *)
Definition with_outputs (outs : list TxOutput) (tx : Transaction) : Transaction := {|
  tx_id := tx_id tx; inputs := inputs tx; outputs := outs; payload := payload tx |}.
Definition redirect_coinbase (outs : list TxOutput) (b : Block) : Block := {|
  header := header b;
  transactions := match transactions b with [] => [] | cb :: txs => with_outputs outs cb :: txs end |}.

Section Malleability.
Context `{Crypto}.

Lemma check_inputs_signature_hash self params h tx tx' ins seen acc :
  signature_hash tx = signature_hash tx' ->
  check_inputs self params h tx ins seen acc = check_inputs self params h tx' ins seen acc.
Proof.
  intros E. revert seen acc; induction ins as [|i ins IH]; intros seen acc; [done|].
  cbn [check_inputs]. rewrite E.
  destruct (reject_if _ _) as [[]|]; [|done]. cbn [mbind result_bind].
  destruct (ok_or _ _) as [e|]; [|done]. cbn [mbind result_bind].
  destruct (reject_if _ _) as [[]|]; [|reflexivity]. cbn [mbind result_bind].
  destruct (map_err _ _) as [ok|]; [|reflexivity]. cbn [mbind result_bind].
  destruct (reject_if _ _) as [[]|]; [|reflexivity]. apply IH.
Qed.

Lemma hide_outputs_id ins tx :
  transaction_id ins [] (payload (hide_outputs tx)) = transaction_id ins (outputs tx) (payload tx).
Proof. reflexivity. Qed.

(** C18: A signature does not fix the outputs. Whatever payment a good UTXO set accepts under the
    identifier of its content, the transaction whose outputs are moved into the payload has the same
    identifier and the same signature hash, is accepted with the same unlocking
    scripts, and leaves the whole input value as the fee. *)
Theorem outputs_not_signed self params h tx fee :
  set_ok self -> tx_id tx = transaction_id (inputs tx) (outputs tx) (payload tx) ->
  validate_transaction self tx h params = Ok fee ->
  let tx' := hide_outputs tx in
  tx_id tx = transaction_id (inputs tx') (outputs tx') (payload tx') /\
  signature_hash tx' = signature_hash tx /\
  validate_transaction self tx' h params = Ok (input_value self tx).
Proof.
  intros Hs Hid Hv. cbv zeta.
  assert (signature_hash (hide_outputs tx) = signature_hash tx) as Hsig by apply hide_outputs_id.
  split; [by rewrite Hid, <- hide_outputs_id|]. split; [done|].
  unfold validate_transaction in *. apply bind_Ok in Hv as ([seen s] & Hin & _).
  rewrite (check_inputs_signature_hash _ _ _ _ tx) by done.
  change (inputs (hide_outputs tx)) with (inputs tx). rewrite Hin.
  apply check_inputs_Ok in Hin as (_ & _ & _ & _ & ->). fold (input_value self tx).
  change (foldl sat_add64 0 _) with (input_value self tx).
  assert (0 <= input_value self tx).
  { unfold input_value. rewrite sat_sum_spec; [apply Z.min_glb; [by apply exact_inputs_nonneg|done]|].
    apply Forall_fmap, Forall_true. intros i. by apply value_or_0_nonneg. }
  cbn [mbind result_bind]. change (total_output_atoms (hide_outputs tx)) with 0.
  rewrite (proj2 (Z.ltb_ge _ _)) by done. cbn. f_equal. u64_lia.
Qed.

Lemma redirect_validates params parent b now bits seed outs :
  validate_block params parent (redirect_coinbase outs b) now bits seed
    = validate_block params parent b now bits seed.
Proof.
  by destruct b as [h [|cb txs]].
Qed.

(** A block's hash and proof of work do not commit to where its reward
    goes: the coinbase outputs of an accepted block can be replaced by any
    others of no greater total, under the same header and block hash, and the
    block is still accepted by the header and the UTXO rules. *)
Theorem coinbase_outputs_not_committed params parent b now bits seed self self' cb outs :
  validate_block params parent b now bits seed = Ok () ->
  apply_block params b self = (self', Ok ()) ->
  head (transactions b) = Some cb ->
  sat_sum (value_atoms <$> outs) <= total_output_atoms cb ->
  let b' := redirect_coinbase outs b in
  block_hash b' = block_hash b /\
  validate_block params parent b' now bits seed = Ok () /\
  (apply_block params b' self).2 = Ok ().
Proof.
  intros Hval Hap%apply_block_spec Hcb Hle. cbv zeta. split; [done|].
  split; [by rewrite redirect_validates|].
  destruct b as [h [|cb' txs]]; simplify_eq/=. destruct Hap as [Hnd Hv (? & [= <-] & Hmax) _].
  erewrite (proj2 (apply_block_spec _ _ _ _)); [reflexivity|].
  split; simpl; [done|done| |reflexivity]. exists (with_outputs outs cb). split; [done|].
  etransitivity; [exact Hle|exact Hmax].
Qed.
End Malleability.

Lemma outputs_not_signed_witness :
  @validate_transaction toy_crypto Fixture.utxos Fixture.tx 5 MAINNET = Ok Fixture.fee /\
  @validate_transaction toy_crypto Fixture.utxos (hide_outputs Fixture.tx) 5 MAINNET = Ok 1000000.
Proof.
  split; [exact Fixture.tx_spends|].
  refine (proj2 (proj2 (@outputs_not_signed toy_crypto Fixture.utxos MAINNET 5 Fixture.tx
            Fixture.fee _ _ Fixture.tx_spends))).
  - apply (bool_decide_unpack _). vm_compute. exact I.
  - reflexivity.
Defined.

Lemma coinbase_outputs_not_committed_witness :
  let thief := [ {| value_atoms := 785584523; script_pubkey := Fixture.script |} ] in
  let b' := redirect_coinbase thief Fixture.first_block in
  @block_hash toy_crypto b' = @block_hash toy_crypto Fixture.first_block /\
  @validate_block toy_crypto Fixture.easy None b' 1000 0 ZERO = Ok () /\
  (@apply_block toy_crypto Fixture.easy b' ∅).2 = Ok ().
Proof.
  intros thief b'.
  refine (@coinbase_outputs_not_committed toy_crypto Fixture.easy None Fixture.first_block 1000 0 ZERO ∅ _
            Fixture.reward_tx thief _ _ _ _).
  - vm_compute. reflexivity.
  - apply pair_with. vm_compute. reflexivity.
  - reflexivity.
  - vm_compute. discriminate.
Defined.
