(* ===== verification/Mempool.v ===== *)
(** * The mempool ([tensorium-core/src/mempool.rs])

    Unconfirmed transactions by the hexadecimal text of their identifier. The
    iteration order of the [HashMap] is a parameter: any enumeration of the
    entries. *)

From S2P Require Import Prelude Crypto Hash Chain ScriptVM Block Utxo.

Local Open Scope Z_scope.

Definition MIN_RELAY_FEE_ATOMS : Z := 10000.
Definition PRIORITY_FEE_ATOMS : Z := 100000.
Definition MAX_MEMPOOL_TXS : Z := 5000.

Record MempoolEntry := { entry_tx : Transaction; fee_atoms : Z }.

Inductive MempoolError :=
| CoinbaseNotAllowed
| M_AlreadyKnown
| PendingConflict
| FeeTooLow (fee min : Z)
| MempoolFull (fee max : Z)
| InvalidTransaction (e : UtxoError).

(** [Mempool { pending }]; [Mempool::new()] is [∅]. *)
Abbreviation Mempool := (gmap string MempoolEntry).

(** [a.len()] *)
Definition pool_len (self : Mempool) : Z := Z.of_nat (size self).

(** [iter().min_by_key(|(_, e)| e.fee_atoms)]: the first entry with the least fee. *)
Definition min_by_fee (l : list (string * MempoolEntry)) : option (string * MempoolEntry) :=
  foldl (λ best ke,
      match best with
      | None => Some ke
      | Some b => if fee_atoms ke.2 <? fee_atoms b.2 then Some ke else Some b
      end) None l.

(** [entries.sort_by(|a, b| b.fee_atoms.cmp(&a.fee_atoms))], a stable sort. *)
Fixpoint insert_by_fee (e : MempoolEntry) (l : list MempoolEntry) : list MempoolEntry :=
  match l with
  | [] => [e]
  | x :: l => if fee_atoms x <=? fee_atoms e then e :: x :: l else x :: insert_by_fee e l
  end.
Definition sort_by_fee (l : list MempoolEntry) : list MempoolEntry := foldr insert_by_fee [] l.

Definition input_outpoints (tx : Transaction) : list OutPoint := previous_output <$> inputs tx.

Definition spends_any (s : gset OutPoint) (tx : Transaction) : bool :=
  existsb (λ i, bool_decide (previous_output i ∈ s)) (inputs tx).

(** The loop of [select_for_block]. *)
Fixpoint select_loop (entries : list MempoolEntry) (spent : gset OutPoint)
    (selected : list Transaction) (total_fees : Z) : list Transaction * Z :=
  match entries with
  | [] => (selected, total_fees)
  | entry :: entries =>
      if spends_any spent (entry_tx entry) then select_loop entries spent selected total_fees
      else
        select_loop entries (list_to_set (input_outpoints (entry_tx entry)) ∪ spent)
          (selected ++ [entry_tx entry]) (sat_add64 total_fees (fee_atoms entry))
  end.

Record FeeStats := {
  fs_count : Z; total_fee_atoms : Z; min_fee_atoms : Z; max_fee_atoms : Z;
  median_fee_atoms : Z; min_relay_fee_atoms : Z; priority_fee_atoms : Z;
}.

Inductive CongestionLevel := Low | Medium | High.

Record FeeTiers := {
  slow_atoms : Z; normal_atoms : Z; fast_atoms : Z;
  congestion_level : CongestionLevel; mempool_count : Z;
}.

(** [fees.sort_unstable()] on integers. *)
Definition sorted_fees (fees : list Z) : list Z := merge_sort Z.le fees.

Section Mempool.
Context `{Crypto} `{!IterOrder string MempoolEntry}.

Definition conflicts_with_pending (self : Mempool) (tx : Transaction) : bool :=
  let new_inputs := list_to_set (input_outpoints tx) in
  existsb (λ ke, spends_any new_inputs (entry_tx ke.2)) (iter self).

(** [Mempool::add]: a [&mut self] method. *)
Definition add (utxos : UtxoSet) (params : ConsensusParams) (tx : Transaction) (tip_height : Z) :
    stateful Mempool MempoolError () :=
  lift_result (reject_if (is_coinbase tx) CoinbaseNotAllowed);;
  let key := to_hex (tx_id tx) in
  self ← get_state;
  lift_result (reject_if (bool_decide (is_Some (self !! key))) M_AlreadyKnown);;
  lift_result (reject_if (conflicts_with_pending self tx) PendingConflict);;
  fee ← lift_result (map_err (validate_transaction utxos tx tip_height params) InvalidTransaction);
  lift_result (reject_if (fee <? MIN_RELAY_FEE_ATOMS) (FeeTooLow fee MIN_RELAY_FEE_ATOMS));;
  (if MAX_MEMPOOL_TXS <=? pool_len self then
     match min_by_fee (iter self) with
     | Some (low_key, low) =>
         if fee_atoms low <? fee then modify (delete low_key)
         else lift_result (Err (MempoolFull fee MAX_MEMPOOL_TXS))
     | None => lift_result (Err (MempoolFull fee MAX_MEMPOOL_TXS))
     end
   else mret ());;
  modify (<[key := {| entry_tx := tx; fee_atoms := fee |}]>).

Definition select_for_block (self : Mempool) : list Transaction * Z :=
  select_loop (sort_by_fee (iter self).*2) ∅ [] 0.

(** [remove_confirmed]: [retain] with the sets of confirmed ids and spent outpoints. *)
Definition confirmed_ids (block : Block) : gset string :=
  list_to_set ((λ tx, to_hex (tx_id tx)) <$> transactions block).
Definition block_spent (block : Block) : gset OutPoint :=
  list_to_set (transactions block ≫= input_outpoints).

Definition remove_confirmed (block : Block) (self : Mempool) : Mempool :=
  filter (λ ke, negb (bool_decide (ke.1 ∈ confirmed_ids block))
                && negb (spends_any (block_spent block) (entry_tx ke.2))) self.

Definition is_known (self : Mempool) (txid_hex : string) : bool :=
  bool_decide (is_Some (self !! txid_hex)).

Definition fee_stats (self : Mempool) : FeeStats :=
  let count := pool_len self in
  if count =? 0 then
    {| fs_count := count; total_fee_atoms := 0; min_fee_atoms := 0; max_fee_atoms := 0;
       median_fee_atoms := 0; min_relay_fee_atoms := MIN_RELAY_FEE_ATOMS;
       priority_fee_atoms := PRIORITY_FEE_ATOMS |}
  else
    let fees := sorted_fees (fee_atoms <$> (iter self).*2) in
    {| fs_count := count;
       total_fee_atoms := foldl add64 0 fees;
       min_fee_atoms := default 0 (head fees);
       max_fee_atoms := default 0 (last fees);
       median_fee_atoms := nth (length fees / 2) fees 0;
       min_relay_fee_atoms := MIN_RELAY_FEE_ATOMS;
       priority_fee_atoms := PRIORITY_FEE_ATOMS |}.

Definition congestion (count : Z) : CongestionLevel :=
  if count <? 5 then Low else if count <? 20 then Medium else High.

(** In the [High] case there are at least 20 fees, so the indices are in range. *)
Definition fee_tiers (self : Mempool) : FeeTiers :=
  let slow_floor := MIN_RELAY_FEE_ATOMS in
  let normal_floor := MIN_RELAY_FEE_ATOMS * 2 in
  let fast_floor := MIN_RELAY_FEE_ATOMS * 10 in
  let count := pool_len self in
  let level := congestion count in
  let tier :=
    match level with
    | High =>
        let fees := sorted_fees (fee_atoms <$> (iter self).*2) in
        let n := length fees in
        (Z.max (nth (n * 25 / 100) fees 0) slow_floor,
         Z.max (nth (n * 50 / 100) fees 0) normal_floor,
         Z.max (nth (n * 75 / 100) fees 0) fast_floor)
    | _ => (slow_floor, normal_floor, fast_floor)
    end in
  {| slow_atoms := tier.1.1; normal_atoms := tier.1.2; fast_atoms := tier.2;
     congestion_level := level; mempool_count := count |}.
End Mempool.
