(* ===== verification/MempoolFacts.v ===== *)
(** * The mempool's invariant and its block templates *)

From S2P Require Import Prelude Crypto Hash Chain ScriptVM Block Utxo UtxoSupply.
From S2P Require Import Fixture Mempool.

Local Open Scope Z_scope.

(** ** Scripts that execute keep executing at greater heights *)
Section Height.
Context `{Crypto}.

Definition later (ctx ctx' : ScriptContext) : Prop :=
  sig_hash ctx = sig_hash ctx' /\ block_height ctx <= block_height ctx'.

Lemma exec_op_later ctx ctx' allow op stack r :
  later ctx ctx' -> exec_op ctx allow op stack = Ok r -> exec_op ctx' allow op stack = Ok r.
Proof.
  intros [Hs Hh]. unfold exec_op, check_multisig, op_checksig. rewrite Hs.
  destruct (decide (op = OP_CHECKLOCKTIMEVERIFY)) as [->|Hne].
  - unfold op_checklocktimeverify. cbn -[len le_val]. destruct stack as [|top stack]; [done|].
    destruct (8 <? len top); [done|]. cbn -[len le_val].
    destruct (Z.ltb_spec (block_height ctx) (le_val top)); [done|].
    by rewrite (proj2 (Z.ltb_ge (block_height ctx') _)) by lia.
  - rewrite !(proj2 (Z.eqb_neq op OP_CHECKLOCKTIMEVERIFY)) by done. done.
Qed.

Lemma step_later ctx ctx' allow op rest stack ifs r :
  later ctx ctx' -> step ctx allow op rest stack ifs = Ok r -> step ctx' allow op rest stack ifs = Ok r.
Proof.
  intros Hl. unfold step.
  repeat match goal with |- (if ?c then _ else _) = _ -> _ => destruct c; [exact id|] end.
  intros (s & Hs & Hr)%bind_Ok. apply bind_Ok. exists s. split; [by eapply exec_op_later|done].
Qed.

Lemma run_later ctx ctx' allow fuel rest stack ifs r :
  later ctx ctx' -> run_fuel fuel ctx allow rest stack ifs = Some (Ok r) ->
  run_fuel fuel ctx' allow rest stack ifs = Some (Ok r).
Proof.
  intros Hl. revert rest stack ifs; induction fuel as [|fuel IH]; intros [|op rest] stack ifs; try done.
  cbn [run_fuel]. destruct (step ctx _ _ _ _ _) as [[[rest' stack'] ifs']|] eqn:Hst; [|done].
  rewrite (step_later _ _ _ _ _ _ _ _ Hl Hst). apply IH.
Qed.

Lemma run_from_later ctx ctx' allow rest stack ifs r :
  later ctx ctx' -> run_from ctx allow rest stack ifs = Ok r -> run_from ctx' allow rest stack ifs = Ok r.
Proof.
  intros Hl. unfold run_from. destruct (run_fuel _ _ _ _ _ _) as [[s|]|] eqn:Hr; try done.
  intros [= ->]. by rewrite (run_later _ _ _ _ _ _ _ _ Hl Hr).
Qed.

Lemma execute_later ctx ctx' script_sig spk b :
  later ctx ctx' -> execute script_sig spk ctx = Ok b -> execute script_sig spk ctx' = Ok b.
Proof.
  intros Hl. unfold execute, run. destruct (reject_if _ _); [|done]. cbn [mbind result_bind].
  intros (st & Hst & Hr)%bind_Ok. rewrite (run_from_later _ _ _ _ _ _ _ Hl Hst). cbn [mbind result_bind].
  apply bind_Ok in Hr as (st' & Hst' & Hr). apply bind_Ok. exists st'. split; [|done].
  destruct (is_p2sh spk); [|by eapply run_from_later].
  apply bind_Ok in Hst' as ([redeem rest] & Hp & Hst'). apply bind_Ok. exists (redeem, rest).
  split; [done|]. destruct (reject_if _ _); [|done]. by eapply run_from_later.
Qed.

Lemma tx_valid_later self params h h' tx :
  h <= h' -> tx_valid self params h tx -> tx_valid self params h' tx.
Proof.
  intros Hh [Hun Hle]. split; [|done]. eapply Forall_impl; [exact Hun|].
  intros i (e & He & Him & Hex). exists e. split_and!; [done| |].
  - unfold immature in *. destruct (coinbase_output e); [|done]. simpl in *.
    rewrite Z.ltb_ge in *. lia.
  - eapply execute_later; [|exact Hex]. by split.
Qed.
End Height.

(** ** The invariant *)
Section Pool.
Context `{Crypto} `{!IterOrder string MempoolEntry}.

Record entry_ok (utxos : UtxoSet) (params : ConsensusParams) (h : Z) (k : string)
    (e : MempoolEntry) : Prop := {
  entry_key : k = to_hex (tx_id (entry_tx e));
  entry_not_coinbase : is_coinbase (entry_tx e) = false;
  entry_relays : MIN_RELAY_FEE_ATOMS <= fee_atoms e;
  entry_valid : validate_transaction utxos (entry_tx e) h params = Ok (fee_atoms e);
}.

Definition inputs_disjoint (t u : Transaction) : Prop :=
  forall op, op ∈ input_outpoints t -> op ∈ input_outpoints u -> False.

Record pool_ok (utxos : UtxoSet) (params : ConsensusParams) (h : Z) (pool : Mempool) : Prop := {
  pool_entries : map_Forall (entry_ok utxos params h) pool;
  pool_disjoint : forall k k' e e', pool !! k = Some e -> pool !! k' = Some e' -> k <> k' ->
    inputs_disjoint (entry_tx e) (entry_tx e');
  pool_bounded : pool_len pool <= MAX_MEMPOOL_TXS;
}.

Lemma elem_of_iter (m : Mempool) k e : (k, e) ∈ iter m <-> m !! k = Some e.
Proof. rewrite iter_perm. apply elem_of_map_to_list. Qed.

Lemma spends_any_false s tx :
  spends_any s tx = false <-> forall op, op ∈ input_outpoints tx -> op ∉ s.
Proof.
  unfold spends_any, input_outpoints. induction (inputs tx) as [|i ins IH]; csimpl; [set_solver|].
  rewrite orb_false_iff, bool_decide_eq_false, IH. set_solver.
Qed.

Lemma no_conflict pool tx :
  conflicts_with_pending pool tx = false <->
  forall k e, pool !! k = Some e -> inputs_disjoint tx (entry_tx e).
Proof.
  unfold conflicts_with_pending. rewrite <- not_true_iff_false, existsb_exists. split.
  - intros Hn k e Hk op Hop Hop'. apply Hn. exists (k, e). split.
    + by apply list_elem_of_In, elem_of_iter.
    + apply not_false_iff_true. intros Hs. eapply (proj1 (spends_any_false _ _) Hs op); set_solver.
  - intros Hd ([k e] & Hin%list_elem_of_In & Hs). apply elem_of_iter in Hin.
    apply not_false_iff_true in Hs. apply Hs, spends_any_false.
    intros op Hop Hop'. apply (Hd k e Hin op); set_solver.
Qed.

(** Removing entries keeps the invariant. *)
Lemma pool_ok_subseteq utxos params h pool pool' :
  pool' ⊆ pool -> pool_ok utxos params h pool -> pool_ok utxos params h pool'.
Proof.
  intros Hsub [He Hd Hb]. split.
  - intros k e Hk. by apply He, (lookup_weaken _ _ _ _ Hk).
  - intros k k' e e' ? ?. apply Hd; by eapply lookup_weaken.
  - unfold pool_len in *. apply subseteq_dom, dom_subseteq_size in Hsub. lia.
Qed.

Lemma min_by_fee_in l b : min_by_fee l = Some b -> b ∈ l.
Proof.
  unfold min_by_fee.
  enough (forall o, foldl (λ best ke, match best with None => Some ke
      | Some b => if fee_atoms ke.2 <? fee_atoms b.2 then Some ke else Some b end) o l = Some b ->
    b ∈ l \/ o = Some b) as Hg by (intros Hb; destruct (Hg None Hb); done).
  induction l as [|ke l IH]; intros o Ho; [by right|]. simpl in Ho. apply IH in Ho as [?|Ho]; [set_solver|].
  destruct o as [o|]; [|left; set_solver]. case_match; simplify_eq; [left; set_solver|by right].
Qed.

Lemma min_by_fee_least l b : min_by_fee l = Some b -> Forall (λ ke, fee_atoms b.2 <= fee_atoms ke.2) l.
Proof.
  unfold min_by_fee.
  enough (forall o, foldl (λ best ke, match best with None => Some ke
      | Some b => if fee_atoms ke.2 <? fee_atoms b.2 then Some ke else Some b end) o l = Some b ->
    Forall (λ ke, fee_atoms b.2 <= fee_atoms ke.2) l /\
    (forall x, o = Some x -> fee_atoms b.2 <= fee_atoms x.2)) as Hg by (intros Hb; by destruct (Hg None Hb)).
  induction l as [|ke l IH]; intros o Ho; simpl in Ho; [split; [done|]; intros; simplify_eq; lia|].
  apply IH in Ho as [Hf Hx]. destruct o as [o|].
  - destruct (Z.ltb_spec (fee_atoms ke.2) (fee_atoms o.2)); specialize (Hx _ eq_refl).
    + split; [by constructor|]. intros ? [= <-]. lia.
    + split; [constructor; [lia|done]|]. by intros ? [= <-].
  - split; [constructor; [by apply Hx|done]|done].
Qed.

(** The room made for a new entry: none needed, or a strictly cheaper lowest
    entry evicted. *)
Inductive makes_room (fee : Z) (pool : Mempool) : Mempool -> Prop :=
| room_left : pool_len pool < MAX_MEMPOOL_TXS -> makes_room fee pool pool
| evicts low_key low :
    MAX_MEMPOOL_TXS <= pool_len pool -> pool !! low_key = Some low ->
    (forall k e, pool !! k = Some e -> fee_atoms low <= fee_atoms e) -> fee_atoms low < fee ->
    makes_room fee pool (delete low_key pool).

(** The declarative reading of a successful [add]. *)
Record adds (utxos : UtxoSet) (params : ConsensusParams) (tx : Transaction) (h : Z)
    (pool pool' : Mempool) (fee : Z) : Prop := {
  adds_not_coinbase : is_coinbase tx = false;
  adds_new : pool !! to_hex (tx_id tx) = None;
  adds_no_conflict : forall k e, pool !! k = Some e -> inputs_disjoint tx (entry_tx e);
  adds_valid : validate_transaction utxos tx h params = Ok fee;
  adds_relays : MIN_RELAY_FEE_ATOMS <= fee;
  adds_result : exists pool1, makes_room fee pool pool1 /\
    pool' = <[to_hex (tx_id tx) := {| entry_tx := tx; fee_atoms := fee |}]> pool1;
}.

Lemma add_spec utxos params tx h pool pool' r :
  add utxos params tx h pool = (pool', r) ->
  match r with Ok _ => exists fee, adds utxos params tx h pool pool' fee | Err _ => pool' = pool end.
Proof.
  unfold add, lift_result, get_state, modify, mbind, stateful_bind.
  destruct (is_coinbase tx) eqn:Hcb; [by intros [= <- <-]|]. cbn [reject_if].
  destruct (pool !! to_hex (tx_id tx)) eqn:Hk; [rewrite bool_decide_true by done; by intros [= <- <-]|].
  rewrite bool_decide_false by by intros []. cbn [reject_if].
  destruct (conflicts_with_pending pool tx) eqn:Hc; [by intros [= <- <-]|]. cbn [reject_if].
  destruct (validate_transaction utxos tx h params) as [fee|] eqn:Hv; [|by intros [= <- <-]].
  cbn [map_err]. destruct (Z.ltb_spec fee MIN_RELAY_FEE_ATOMS); [by intros [= <- <-]|]. cbn [reject_if].
  rewrite no_conflict in Hc. destruct (Z.leb_spec MAX_MEMPOOL_TXS (pool_len pool)).
  2: { intros [= <- <-]. exists fee. split; try done. exists pool. split; [by constructor|done]. }
  destruct (min_by_fee (iter pool)) as [[lk low]|] eqn:Hm; [|by intros [= <- <-]].
  destruct (Z.ltb_spec (fee_atoms low) fee); [|by intros [= <- <-]].
  intros [= <- <-]. exists fee. split; try done. exists (delete lk pool). split; [|done].
  eapply evicts; [done|by apply elem_of_iter, min_by_fee_in| |done].
  intros k e Hke. apply min_by_fee_least in Hm. rewrite Forall_forall in Hm.
  by apply (Hm (k, e)), elem_of_iter.
Qed.

Lemma makes_room_spec fee pool pool1 :
  makes_room fee pool pool1 -> pool1 ⊆ pool /\ (pool_len pool <= MAX_MEMPOOL_TXS -> pool_len pool1 < MAX_MEMPOOL_TXS).
Proof.
  destruct 1 as [|lk low Hfull Hlk]; [by split|].
  split; [apply delete_subseteq|]. unfold pool_len in *. rewrite map_size_delete, Hlk.
  assert (size pool <> 0)%nat by (apply (map_size_ne_0_lookup_2 _ lk); eauto).
  cbn. lia.
Qed.

Lemma insert_pool_ok utxos params h pool tx fee :
  pool_ok utxos params h pool -> pool_len pool < MAX_MEMPOOL_TXS ->
  pool !! to_hex (tx_id tx) = None ->
  entry_ok utxos params h (to_hex (tx_id tx)) {| entry_tx := tx; fee_atoms := fee |} ->
  (forall k e, pool !! k = Some e -> inputs_disjoint tx (entry_tx e)) ->
  pool_ok utxos params h (<[to_hex (tx_id tx) := {| entry_tx := tx; fee_atoms := fee |}]> pool).
Proof.
  intros [He Hd Hb] Hroom Hnew Hok Hdis. split.
  - by apply map_Forall_insert_2.
  - intros k k' e e' Hk Hk' Hne.
    apply lookup_insert_Some in Hk as [[<- <-]|[? Hk]], Hk' as [[<- <-]|[? Hk']]; try done; simpl.
    + by eapply Hdis.
    + intros op ? ?. by eapply (Hdis k e Hk op).
    + by eapply Hd.
  - unfold pool_len in *. rewrite map_size_insert_None by done. lia.
Qed.

(** *** The invariant is preserved *)

(** A valid transaction with a fee that relays enters a pool with room. *)
Lemma add_accepts utxos params tx h pool fee :
  is_coinbase tx = false -> pool !! to_hex (tx_id tx) = None ->
  (forall k e, pool !! k = Some e -> inputs_disjoint tx (entry_tx e)) ->
  validate_transaction utxos tx h params = Ok fee -> MIN_RELAY_FEE_ATOMS <= fee -> pool_len pool < MAX_MEMPOOL_TXS ->
  add utxos params tx h pool = (<[to_hex (tx_id tx) := {| entry_tx := tx; fee_atoms := fee |}]> pool, Ok ()).
Proof.
  intros Hc Hk Hd Hv Hf Hl. unfold add, lift_result, get_state, modify, mbind, stateful_bind. rewrite Hc. cbn [reject_if].
  rewrite Hk, bool_decide_false by by intros []. cbn [reject_if]. rewrite (proj2 (no_conflict pool tx)) by done.
  cbn [reject_if]. rewrite Hv. cbn [map_err]. rewrite (proj2 (Z.ltb_ge fee _)) by done. cbn [reject_if].
  by rewrite (proj2 (Z.leb_gt _ _)).
Qed.

Lemma add_pool_ok utxos params tx h pool pool' r :
  pool_ok utxos params h pool -> add utxos params tx h pool = (pool', r) -> pool_ok utxos params h pool'.
Proof.
  intros Hok Had%add_spec. destruct r as [u|e]; [|by rewrite Had].
  destruct Had as (fee & [Hcb Hnew Hdis Hv Hfee (pool1 & [Hsub Hlt]%makes_room_spec & ->)]).
  apply insert_pool_ok; [by eapply pool_ok_subseteq|by apply Hlt, Hok|by eapply lookup_weaken_None| |].
  - by split.
  - intros k e Hk. eapply Hdis, lookup_weaken; done.
Qed.

(** *** Selection takes everything *)

Lemma sort_by_fee_perm l : sort_by_fee l ≡ₚ l.
Proof.
  assert (Hins : forall e l, insert_by_fee e l ≡ₚ e :: l).
  { intros e; induction l0 as [|x l0 IH]; simpl; [done|]. case_match; [done|]. rewrite IH. constructor. }
  induction l as [|e l IH]; simpl; [done|]. by rewrite Hins, IH.
Qed.

Definition fee_ge (a b : MempoolEntry) : Prop := fee_atoms b <= fee_atoms a.

Lemma sort_by_fee_sorted l : StronglySorted fee_ge (sort_by_fee l).
Proof.
  induction l as [|e l IH]; simpl; [constructor|].
  induction IH as [|x l' Hs IHs Hx]; simpl; [repeat constructor|].
  destruct (Z.leb_spec (fee_atoms x) (fee_atoms e)).
  - constructor; [by constructor|]. constructor; [done|]. eapply Forall_impl; [exact Hx|].
    unfold fee_ge. intros; lia.
  - constructor; [done|]. clear IHs. assert (fee_ge x e) by (unfold fee_ge; lia).
    induction Hx as [|y l' Hy Hl IHl]; simpl; [by repeat constructor|].
    case_match; [by repeat constructor|]. constructor; [done|].
    apply StronglySorted_inv in Hs as [Hs _]. by apply IHl.
Qed.

Lemma select_loop_all entries spent selected fees :
  NoDup (entries ≫= input_outpoints ∘ entry_tx) ->
  (forall op, op ∈ entries ≫= input_outpoints ∘ entry_tx -> op ∉ spent) ->
  select_loop entries spent selected fees =
    (selected ++ (entry_tx <$> entries), foldl sat_add64 fees (fee_atoms <$> entries)).
Proof.
  revert spent selected fees; induction entries as [|e es IH]; intros spent selected fees Hnd Hns; csimpl.
  { by rewrite app_nil_r. }
  cbn [select_loop]. csimpl in *. apply NoDup_app in Hnd as (_ & Hdis & Hnd).
  rewrite (proj2 (spends_any_false _ _)) by set_solver.
  rewrite IH, <- (assoc_L app); [done..|]. set_solver.
Qed.

Lemma pool_inputs_nodup utxos params h pool l :
  pool_ok utxos params h pool -> l ≡ₚ map_to_list pool ->
  NoDup (l.*2 ≫= input_outpoints ∘ entry_tx).
Proof.
  intros [He Hd _] Hl.
  assert (Hnd : NoDup l.*1) by (rewrite Hl; apply NoDup_fst_map_to_list).
  assert (Hin : forall k e, (k, e) ∈ l -> pool !! k = Some e)
    by (intros k e; rewrite Hl; apply elem_of_map_to_list).
  clear Hl. induction l as [|[k e] l IH]; csimpl in *; [constructor|].
  apply NoDup_cons in Hnd as [Hk Hnd]. apply NoDup_app. split_and!.
  - assert (pool !! k = Some e) as Hke by (apply Hin; set_solver). apply He in Hke as [_ _ _ Hv].
    by apply validate_transaction_Ok in Hv as [? _].
  - intros op Hop (? & Hop' & ([k' e'] & -> & Hin')%list_elem_of_fmap)%list_elem_of_bind.
    apply (Hd k k' e e') with op; try done; [apply Hin; set_solver|apply Hin; set_solver|].
    intros ->. by apply Hk, (list_elem_of_fmap_2 fst _ _ Hin').
  - apply IH; [done|]. intros. apply Hin. set_solver.
Qed.

Lemma spent_outpoints_entries (l : list MempoolEntry) :
  spent_outpoints (entry_tx <$> l) = l ≫= input_outpoints ∘ entry_tx.
Proof. unfold spent_outpoints. induction l as [|e l IH]; csimpl; [done|]. by rewrite IH. Qed.

Lemma select_for_block_spec utxos params h pool :
  pool_ok utxos params h pool ->
  let chosen := sort_by_fee (iter pool).*2 in
  select_for_block pool = (entry_tx <$> chosen, sat_sum (tx_fee utxos <$> (entry_tx <$> chosen))) /\
  NoDup (spent_outpoints (entry_tx <$> chosen)) /\
  Forall (tx_valid utxos params h) (entry_tx <$> chosen).
Proof.
  intros Hok chosen.
  assert (chosen ≡ₚ (map_to_list pool).*2) as Hperm
    by (unfold chosen; by rewrite sort_by_fee_perm, iter_perm).
  assert (NoDup (spent_outpoints (entry_tx <$> chosen))) as Hnd.
  { rewrite spent_outpoints_entries, Hperm. by eapply pool_inputs_nodup. }
  assert (Forall (λ e, tx_valid utxos params h (entry_tx e) /\ fee_atoms e = tx_fee utxos (entry_tx e))
            chosen) as Hv.
  { rewrite Hperm. apply Forall_fmap. eapply Forall_impl; [apply map_Forall_to_list, Hok|].
    intros [k e] [_ _ _ Hv]. by apply validate_transaction_Ok in Hv as (_ & ? & ?). }
  split_and!; [|done|].
  - unfold select_for_block. fold chosen. rewrite select_loop_all; [|by rewrite <- spent_outpoints_entries|set_solver].
    f_equal. unfold sat_sum. f_equal. rewrite <- list_fmap_compose. apply Forall_fmap_ext_1.
    eapply Forall_impl; [exact Hv|]. by intros e [].
  - apply Forall_fmap. eapply Forall_impl; [exact Hv|]. by intros e [].
Qed.

(** ** Properties *)

(** C28: The pool's invariant: keys are identifiers, no coinbase, every fee is
    the transaction's and at least the relay minimum, every transaction is
    valid against the UTXO set, no two entries spend one outpoint, and the size
    is bounded. [add] preserves it on every path; a rejected transaction leaves
    the pool as it was, and an accepted one is in it. *)
Theorem add_preserves_pool utxos params tx h pool :
  pool_ok utxos params h pool ->
  let '(pool', r) := add utxos params tx h pool in
  pool_ok utxos params h pool' /\
  match r with
  | Ok _ => exists e, pool' !! to_hex (tx_id tx) = Some e /\ entry_tx e = tx
  | Err _ => pool' = pool
  end.
Proof.
  intros Hok. destruct (add utxos params tx h pool) as [pool' r] eqn:Had.
  split; [by eapply add_pool_ok|]. apply add_spec in Had. destruct r as [u|e]; [|done].
  destruct Had as (fee & [_ _ _ _ _ (pool1 & _ & ->)]). rewrite lookup_insert_eq. eauto.
Qed.

(** A full pool is replaced by fee: a transaction enters it only by
    evicting one entry whose fee is the lowest in the pool and strictly lower
    than its own; a pool with room loses nothing. *)
Theorem add_evicts_cheapest utxos params tx h pool pool' :
  add utxos params tx h pool = (pool', Ok ()) ->
  exists fee pool1, validate_transaction utxos tx h params = Ok fee /\
    makes_room fee pool pool1 /\
    pool' = <[to_hex (tx_id tx) := {| entry_tx := tx; fee_atoms := fee |}]> pool1.
Proof. intros (fee & [_ _ _ Hv _ (pool1 & Hr & ->)])%add_spec. eauto. Qed.

(** Block templates are valid. The selection takes every transaction of
    the pool, dearest first, and a block at the validation height or above whose
    coinbase takes at most the subsidy and the reported fees, followed by the
    selection, is accepted by [apply_block]. *)
Theorem template_applies utxos params h pool b cb :
  pool_ok utxos params h pool -> h <= height (header b) ->
  transactions b = cb :: (select_for_block pool).1 ->
  total_output_atoms cb <= max_coinbase_atoms params (height (header b)) (select_for_block pool).2 ->
  (select_for_block pool).1 ≡ₚ entry_tx <$> (map_to_list pool).*2 /\
  (apply_block params b utxos).2 = Ok ().
Proof.
  intros Hok Hh Htxs Hcb. destruct (select_for_block_spec _ _ _ _ Hok) as (Hs & Hnd & Hv).
  rewrite Hs in *. simpl in *. split.
  { by rewrite sort_by_fee_perm, iter_perm. }
  erewrite (proj2 (apply_block_spec _ _ _ _)); [reflexivity|].
  split; rewrite ?Htxs; simpl; [done| |by exists cb|reflexivity].
  eapply Forall_impl; [exact Hv|]. intros tx. by apply tx_valid_later.
Qed.

(** Confirmation keeps the pool consistent. After a block is applied and
    its transactions and their conflicts removed, the invariant holds for the
    new UTXO set at the block's height, if the block creates no outpoint that
    was already unspent. *)
Theorem remove_confirmed_preserves utxos utxos' params h pool b :
  pool_ok utxos params h pool -> h <= height (header b) ->
  apply_block params b utxos = (utxos', Ok ()) ->
  (forall op, op ∈ (created (height (header b)) (transactions b)).*1 -> utxos !! op = None) ->
  pool_ok utxos' params (height (header b)) (remove_confirmed b pool).
Proof.
  intros Hok Hh [_ _ _ ->]%apply_block_spec Hfresh.
  assert (remove_confirmed b pool ⊆ pool) as Hsub by apply map_filter_subseteq.
  apply (pool_ok_subseteq _ _ _ _ _ Hsub) in Hok as [He Hd Hb]. split; [|done|done].
  intros k e Hk. destruct (He k e Hk) as [Hkey Hcb Hfee Hv]. split; [done..|].
  apply map_lookup_filter_Some in Hk as [Hk Hkeep]. simpl in Hkeep.
  apply Is_true_true, andb_true_iff in Hkeep as [_ Hkeep%negb_true_iff].
  rewrite spends_any_false in Hkeep.
  apply validate_transaction_Ok in Hv as (Hnd & Hv & Hf).
  apply (tx_valid_later _ _ _ (height (header b))) in Hv; [|done].
  eapply tx_valid_frame in Hv as [Hv Hf'].
  - apply validate_transaction_Ok. split_and!; [done|exact Hv|]. congruence.
  - intros i Hi. destruct (proj1 (Forall_forall _ _) (tx_unlocks _ _ _ _ Hv) i Hi) as (en & Hen & _).
    rewrite lookup_foldl_insert_ne.
    + rewrite lookup_foldl_delete, decide_False; [done|]. intros Hsp.
      apply (Hkeep (previous_output i)); [by apply list_elem_of_fmap_2|].
      unfold block_spent. apply elem_of_list_to_set. unfold spent_outpoints in Hsp.
      destruct (transactions b); [done|]. simpl in *. apply elem_of_app. by right.
    + intros Hc%Hfresh. congruence.
Qed.
End Pool.

(** ** The properties at a concrete pool *)
Module PoolWitness.
#[local] Existing Instance toy_crypto.
#[local] Existing Instance trie_order.

Definition key : string := to_hex (tx_id Fixture.tx).
Definition pool : Mempool := <[key := {| entry_tx := Fixture.tx; fee_atoms := Fixture.fee |}]> ∅.

Lemma empty_ok : pool_ok Fixture.utxos MAINNET 5 ∅.
Proof. split; [apply map_Forall_empty|intros ????; by rewrite lookup_empty|done]. Qed.

Lemma pool_is_ok : pool_ok Fixture.utxos MAINNET 5 pool.
Proof.
  apply insert_pool_ok; [exact empty_ok|done|apply lookup_empty| |].
  - split; [done|vm_compute; reflexivity|done|exact Fixture.tx_spends].
  - intros k e. by rewrite lookup_empty.
Qed.

Lemma added : (add Fixture.utxos MAINNET Fixture.tx 5 ∅).2 = Ok ().
Proof. vm_compute. reflexivity. Qed.

Definition template : Block := {|
  header := header Fixture.confirming;
  transactions := coinbase 5 (reward_at_height MAINNET 5 + Fixture.fee) "miner"
                    :: (select_for_block pool).1 |}.
End PoolWitness.

Lemma add_preserves_pool_witness :
  @pool_ok toy_crypto Fixture.utxos MAINNET 5
    (@add toy_crypto (trie_order _ _) Fixture.utxos MAINNET Fixture.tx 5 ∅).1.
Proof.
  pose proof (@add_preserves_pool toy_crypto (trie_order _ _) Fixture.utxos MAINNET Fixture.tx 5 ∅
    PoolWitness.empty_ok) as H.
  destruct (@add _ _ _ _ _ _ _) as [pool' r]. exact (proj1 H).
Defined.

Lemma add_evicts_cheapest_witness :
  exists fee pool1,
    @validate_transaction toy_crypto Fixture.utxos Fixture.tx 5 MAINNET = Ok fee /\
    makes_room fee ∅ pool1 /\
    (@add toy_crypto (trie_order _ _) Fixture.utxos MAINNET Fixture.tx 5 ∅).1
      = <[PoolWitness.key := {| entry_tx := Fixture.tx; fee_atoms := fee |}]> pool1.
Proof.
  exact (@add_evicts_cheapest toy_crypto (trie_order _ _) Fixture.utxos MAINNET Fixture.tx 5 ∅
    _ (pair_with _ _ PoolWitness.added)).
Defined.

Lemma template_applies_witness :
  (@apply_block toy_crypto MAINNET PoolWitness.template Fixture.utxos).2 = Ok ().
Proof.
  refine (proj2 (@template_applies toy_crypto (trie_order _ _) Fixture.utxos MAINNET 5 PoolWitness.pool
    PoolWitness.template (@coinbase toy_crypto 5 (reward_at_height MAINNET 5 + Fixture.fee) "miner")
    PoolWitness.pool_is_ok _ _ _)).
  - vm_compute. discriminate.
  - reflexivity.
  - vm_compute. discriminate.
Defined.

Lemma remove_confirmed_preserves_witness :
  @pool_ok toy_crypto (@apply_block toy_crypto MAINNET Fixture.confirming Fixture.utxos).1 MAINNET 5
    (@remove_confirmed toy_crypto Fixture.confirming PoolWitness.pool).
Proof.
  refine (@remove_confirmed_preserves toy_crypto Fixture.utxos _ MAINNET 5 PoolWitness.pool
    Fixture.confirming PoolWitness.pool_is_ok _ _ _).
  - vm_compute. discriminate.
  - apply pair_with. exact Fixture.confirming_applies.
  - intros op Hop.
    assert (Forall (λ op, Fixture.utxos !! op = None)
      (@created 5 (transactions Fixture.confirming)).*1) as Hall.
    { apply (bool_decide_unpack _). vm_compute. exact I. }
    exact (proj1 (Forall_forall _ _) Hall op Hop).
Defined.
