(* ===== verification/Storage.v ===== *)
(** * Database keys ([tensorium-core/src/storage/mod.rs])

    The keys of the column families. The values go through [bincode], a
    third-party serializer, so the development keeps them typed; the keys are
    encoded by the sources, and the order of the keys is the order of the
    iterators. *)

From S2P Require Import Prelude Crypto Hash Block.

Local Open Scope Z_scope.

Definition encode_height (h : Z) : bytes := be_bytes 8 h.

(** [try_into().expect(..)] panics unless there are eight bytes. *)
Definition decode_height (b : bytes) : outcome Z :=
  if decide (length b = 8%nat) then Done (be_val b) else Panic.

Definition encode_outpoint (o : OutPoint) : bytes :=
  hash_bytes (txid o) ++ be_bytes 4 (output_index o).

(** Slicing [bytes[..32]] and [bytes[32..36]] panics on a shorter key. *)
Definition decode_outpoint (b : bytes) : outcome OutPoint :=
  if decide (36 <= length b)%nat
  then Done {| txid := mkHash (take 32 b); output_index := be_val (take 4 (drop 32 b)) |}
  else Panic.

(** The order of the database's iterators: lexicographic on bytes. *)
Fixpoint lex_le (a b : bytes) : bool :=
  match a, b with
  | [], _ => true
  | _ :: _, [] => false
  | x :: a, y :: b => (x <? y) || ((x =? y) && lex_le a b)
  end.

Definition outpoint_ok (o : OutPoint) : Prop := hash_ok (txid o) /\ 0 <= output_index o < U32_MOD.

(** ** The order of big-endian keys *)

Lemma lex_le_app_same p a b : lex_le (p ++ a) (p ++ b) = lex_le a b.
Proof. induction p as [|x p IH]; [done|]. simpl. by rewrite Z.ltb_irrefl, Z.eqb_refl, IH. Qed.

Lemma be_bytes_S n x : be_bytes (S n) x = be_bytes n (x / 256) ++ [x mod 256].
Proof. unfold be_bytes. change (le_bytes (S n) x) with (x mod 256 :: le_bytes n (x / 256)). by rewrite reverse_cons. Qed.

Lemma lex_le_app a b c d :
  length a = length b ->
  lex_le (a ++ c) (b ++ d) = (lex_le a b && (negb (bool_decide (a = b)) || lex_le c d)).
Proof.
  revert b; induction a as [|x a IH]; intros [|y b] Hl; simplify_eq/=.
  - done.
  - rewrite IH by done. destruct (Z.ltb_spec x y); simpl.
    + rewrite bool_decide_false by (intros [= -> _]; lia). done.
    + destruct (Z.eqb_spec x y) as [->|]; simpl; [|done]. f_equal. f_equal. f_equal.
      apply bool_decide_ext. naive_solver.
Qed.

Lemma lex_le_be_bytes n x y :
  0 <= x < 256 ^ Z.of_nat n -> 0 <= y < 256 ^ Z.of_nat n ->
  lex_le (be_bytes n x) (be_bytes n y) = (x <=? y).
Proof.
  revert x y; induction n as [|n IH]; intros x y Hx Hy.
  { simpl in *. symmetry. apply Z.leb_le. lia. }
  assert (256 ^ Z.of_nat (S n) = 256 * 256 ^ Z.of_nat n) as Hp
    by (rewrite Nat2Z.inj_succ, Z.pow_succ_r by lia; done).
  assert (forall z, 0 <= z < 256 ^ Z.of_nat (S n) -> 0 <= z / 256 < 256 ^ Z.of_nat n) as Hdiv.
  { intros z Hz. split; [apply Z.div_pos; lia|apply Z.div_lt_upper_bound; lia]. }
  rewrite !be_bytes_S, lex_le_app by by rewrite !length_be_bytes.
  rewrite IH by by apply Hdiv.
  assert (bool_decide (be_bytes n (x / 256) = be_bytes n (y / 256)) = (x / 256 =? y / 256)) as ->.
  { case_bool_decide as Heq; symmetry; [apply Z.eqb_eq|apply Z.eqb_neq; congruence].
    apply (f_equal be_val) in Heq. rewrite !be_val_be_bytes in Heq.
    by rewrite !Z.mod_small in Heq by by apply Hdiv. }
  simpl. pose proof (Z.div_mod x 256). pose proof (Z.div_mod y 256).
  pose proof (Z.mod_pos_bound x 256). pose proof (Z.mod_pos_bound y 256).
  destruct (Z.eqb_spec (x / 256) (y / 256)), (Z.ltb_spec (x mod 256) (y mod 256)),
    (Z.eqb_spec (x mod 256) (y mod 256)), (Z.leb_spec (x / 256) (y / 256)), (Z.leb_spec x y); simpl; lia.
Qed.

(** Height keys sort like heights: the canonical index is iterated in block
    order, whatever byte lengths the numbers have, and a key decodes to its
    height. *)
Theorem height_keys_ordered a b :
  is_u64 a -> is_u64 b ->
  lex_le (encode_height a) (encode_height b) = (a <=? b) /\
  decode_height (encode_height a) = Done a.
Proof.
  intros Ha Hb. split; [apply lex_le_be_bytes; [exact Ha|exact Hb]|].
  unfold decode_height, encode_height. rewrite decide_True by apply length_be_bytes.
  rewrite be_val_be_bytes, Z.mod_small; [done|exact Ha].
Qed.

Lemma height_keys_ordered_witness :
  lex_le (encode_height 255) (encode_height 256) = true /\ decode_height (encode_height 255) = Done 255.
Proof. refine (height_keys_ordered 255 256 _ _); unfold is_u64, U64_MOD; lia. Defined.

(** The outpoint key of the UTXO column family decodes to its outpoint, so
    distinct outpoints have distinct keys. *)
Theorem outpoint_key_roundtrip o :
  outpoint_ok o -> length (encode_outpoint o) = 36%nat /\ decode_outpoint (encode_outpoint o) = Done o.
Proof.
  destruct o as [[bs] i]. intros [[Hl _] Hi]. simpl in *. unfold encode_outpoint, decode_outpoint. simpl.
  rewrite length_app, length_be_bytes, Hl, decide_True by lia. split; [done|].
  rewrite take_app_length', drop_app_length' by done.
  rewrite take_ge by (rewrite length_be_bytes; lia). rewrite be_val_be_bytes, Z.mod_small; [done|exact Hi].
Qed.

Lemma outpoint_key_roundtrip_witness :
  let o := {| txid := mkHash (replicate 32 7); output_index := 16909060 |} in
  length (encode_outpoint o) = 36%nat /\ decode_outpoint (encode_outpoint o) = Done o.
Proof.
  intros o. refine (outpoint_key_roundtrip o _).
  split; [split; [reflexivity|repeat constructor; unfold is_u8; lia]|unfold U32_MOD; simpl; lia].
Defined.
