(* ===== verification/State.v ===== *)
(** * The chain state ([tensorium-core/src/state.rs], [storage/migration.rs])

    The database as typed column families, the caches, block templates, the
    acceptance of a block with fork choice and reorganisation, and the UTXO set
    kept beside the canonical chain. A [WriteBatch] is a list of operations
    applied at once. The loops that follow [previous_hash] run with one unit of
    fuel more than there are blocks; [StateFacts] proves that enough. *)

From S2P Require Import Prelude Crypto Hash Chain Validation ScriptVM Block Utxo.
From S2P Require Import Storage.

Local Open Scope Z_scope.

(** ** The database *)

(** The four column families; the meta keys are separate fields. *)
Record Db := {
  cf_blocks : gmap Hash256 Block;
  cf_canonical : gmap Z Hash256;
  meta_tip : option Hash256;
  meta_height : option Z;
  meta_chain_id : option string;
  meta_utxo_tip : option Hash256;
  cf_utxo : UtxoSet;
}.

Definition empty_db : Db := {|
  cf_blocks := ∅; cf_canonical := ∅; meta_tip := None; meta_height := None;
  meta_chain_id := None; meta_utxo_tip := None; cf_utxo := ∅ |}.

Inductive batch_op :=
| PutBlock (h : Hash256) (b : Block)
| PutCanonical (height : Z) (h : Hash256)
| DeleteCanonical (height : Z)
| PutTip (h : Hash256)
| PutHeight (height : Z)
| PutChainId (id : string)
| PutUtxoTip (h : Hash256)
| PutUtxo (o : OutPoint) (e : UtxoEntry)
| DeleteUtxo (o : OutPoint).

Definition set_blocks f db := {|
  cf_blocks := f (cf_blocks db); cf_canonical := cf_canonical db; meta_tip := meta_tip db;
  meta_height := meta_height db; meta_chain_id := meta_chain_id db;
  meta_utxo_tip := meta_utxo_tip db; cf_utxo := cf_utxo db |}.
Definition set_canonical f db := {|
  cf_blocks := cf_blocks db; cf_canonical := f (cf_canonical db); meta_tip := meta_tip db;
  meta_height := meta_height db; meta_chain_id := meta_chain_id db;
  meta_utxo_tip := meta_utxo_tip db; cf_utxo := cf_utxo db |}.
Definition set_utxo f db := {|
  cf_blocks := cf_blocks db; cf_canonical := cf_canonical db; meta_tip := meta_tip db;
  meta_height := meta_height db; meta_chain_id := meta_chain_id db;
  meta_utxo_tip := meta_utxo_tip db; cf_utxo := f (cf_utxo db) |}.
Definition set_meta tip ht id utip db := {|
  cf_blocks := cf_blocks db; cf_canonical := cf_canonical db; meta_tip := tip;
  meta_height := ht; meta_chain_id := id; meta_utxo_tip := utip; cf_utxo := cf_utxo db |}.

Definition apply_op (db : Db) (op : batch_op) : Db :=
  match op with
  | PutBlock h b => set_blocks (<[h := b]>) db
  | PutCanonical n h => set_canonical (<[n := h]>) db
  | DeleteCanonical n => set_canonical (delete n) db
  | PutTip h => set_meta (Some h) (meta_height db) (meta_chain_id db) (meta_utxo_tip db) db
  | PutHeight n => set_meta (meta_tip db) (Some n) (meta_chain_id db) (meta_utxo_tip db) db
  | PutChainId id => set_meta (meta_tip db) (meta_height db) (Some id) (meta_utxo_tip db) db
  | PutUtxoTip h => set_meta (meta_tip db) (meta_height db) (meta_chain_id db) (Some h) db
  | PutUtxo o e => set_utxo (<[o := e]>) db
  | DeleteUtxo o => set_utxo (delete o) db
  end.

(** [db.write(batch)]: atomic. *)
Definition write_batch (batch : list batch_op) (db : Db) : Db := foldl apply_op db batch.
#[global] Arguments write_batch : simpl never.

Record ChainState := {
  db : Db;
  tip_cache : option Block;
  height_cache : option Z;
  last_disconnected : list Block;
}.

(** [ChainState::new()] *)
Definition new_state : ChainState :=
  {| db := empty_db; tip_cache := None; height_cache := None; last_disconnected := [] |}.

Definition with_db (d : Db) (s : ChainState) : ChainState := {|
  db := d; tip_cache := tip_cache s; height_cache := height_cache s;
  last_disconnected := last_disconnected s |}.
Definition with_tip (b : Block) (h : Z) (s : ChainState) : ChainState := {|
  db := db s; tip_cache := Some b; height_cache := Some h;
  last_disconnected := last_disconnected s |}.
Definition with_disconnected (l : list Block) (s : ChainState) : ChainState := {|
  db := db s; tip_cache := tip_cache s; height_cache := height_cache s; last_disconnected := l |}.

Inductive StateError :=
| GenesisAlreadyExists
| MissingGenesis
| MiningFailed
| S_AlreadyKnown
| UnknownParent
| S_Validation (e : ValidationError)
| S_Utxo (e : UtxoError).

#[export] Instance StateError_eq_dec : EqDecision StateError.
Proof. solve_decision. Defined.

(** ** Reads *)

Definition get_block_by_hash (d : Db) (h : Hash256) : option Block := cf_blocks d !! h.
Definition block_known (d : Db) (h : Hash256) : bool := bool_decide (is_Some (cf_blocks d !! h)).
Definition utxo_lookup (d : Db) (o : OutPoint) : option UtxoEntry := cf_utxo d !! o.

Definition get_block_by_height (d : Db) (n : Z) : option Block :=
  h ← cf_canonical d !! n; cf_blocks d !! h.

(** Key orders of the iterators. *)
Definition height_key_le (p q : Z * Hash256) : Prop := p.1 <= q.1.
Definition utxo_key_le (p q : OutPoint * UtxoEntry) : Prop :=
  lex_le (encode_outpoint p.1) (encode_outpoint q.1) = true.
#[export] Instance height_key_le_dec p q : Decision (height_key_le p q).
Proof. unfold height_key_le; apply _. Defined.
#[export] Instance utxo_key_le_dec p q : Decision (utxo_key_le p q).
Proof. unfold utxo_key_le; apply _. Defined.

(** The canonical column family in key order ([height_keys_ordered]). *)
Definition canonical_entries (d : Db) : list (Z * Hash256) :=
  merge_sort height_key_le (map_to_list (cf_canonical d)).

Definition canonical_blocks (d : Db) : list Block :=
  omap (λ p, cf_blocks d !! p.2) (canonical_entries d).

(** The UTXO column family in key order. *)
Definition utxo_entries (d : Db) : list (OutPoint * UtxoEntry) :=
  merge_sort utxo_key_le (map_to_list (cf_utxo d)).

Definition utxos_for_script (d : Db) (script : bytes) : list (OutPoint * UtxoEntry) :=
  filter (λ p, script_pubkey (output p.2) = script) (utxo_entries d).

(** [reload_caches]: the caches from the database, unchanged on the early returns. *)
Definition reload_caches (s : ChainState) : ChainState :=
  match meta_tip (db s) with
  | None => s
  | Some h =>
      match cf_blocks (db s) !! h with
      | None => s
      | Some b => with_tip b (height (header b)) s
      end
  end.

(** [open_db] on an existing database. *)
Definition open_db (d : Db) : ChainState :=
  reload_caches {| db := d; tip_cache := None; height_cache := None; last_disconnected := [] |}.

Definition chain_block_count (s : ChainState) : Z :=
  match height_cache s with Some h => add64 h 1 | None => 0 end.

(** [take_reorg_requeue_candidates]: [mem::take] empties the field. *)
Definition take_reorg_requeue_candidates (s : ChainState) : ChainState * list Transaction :=
  (with_disconnected [] s,
   filter (λ tx, is_coinbase tx = false) (last_disconnected s ≫= transactions)).

Section State.
Context `{Crypto} `{!IterOrder OutPoint UtxoEntry}.

Definition tip_hash (s : ChainState) : Hash256 :=
  match tip_cache s with Some b => block_hash b | None => ZERO end.

Definition epoch_seed_for_height (d : Db) (n : Z) : Hash256 :=
  let epoch := n / TensorHash.EPOCH_LENGTH in
  if epoch =? 0 then ZERO
  else
    let seed_height := sub64 (mul64 epoch TensorHash.EPOCH_LENGTH) 1 in
    match get_block_by_height d seed_height with Some b => block_hash b | None => ZERO end.

(** *** Difficulty from the parent's ancestry *)

(** The bootstrap loop: [first] is the block at the activation height, [last]
    the one at [height - 1]. *)
Fixpoint bootstrap_walk (fuel : nat) (d : Db) (n activation : Z) (cur : option Block)
    (last : option Block) : option Block * option Block :=
  match fuel, cur with
  | S fuel, Some b =>
      let h := height (header b) in
      let last := if (h =? sub64 n 1) && bool_decide (last = None) then Some b else last in
      if h =? activation then (Some b, last)
      else bootstrap_walk fuel d n activation (get_block_by_hash d (previous_hash (header b))) last
  | _, _ => (None, last)
  end.

(** The loop over a completed window. *)
Fixpoint window_walk (fuel : nat) (d : Db) (window_start window_end : Z) (cur : option Block)
    (first last : option Block) : option Block * option Block :=
  match fuel, cur with
  | S fuel, Some b =>
      let h := height (header b) in
      let last := if h =? window_end then Some b else last in
      let first := if h =? window_start then Some b else first in
      if h <=? window_start then (first, last)
      else window_walk fuel d window_start window_end
             (get_block_by_hash d (previous_hash (header b))) first last
  | _, _ => (first, last)
  end.

Definition walk_fuel (d : Db) : nat := S (S (size (cf_blocks d))).

(** The timing sample a block at height [n] on top of [parent] is scored with. *)
Definition retarget_sample (d : Db) (params : ConsensusParams) (parent : option Block) (n : Z) :
    option DifficultySample :=
  let activation := difficulty_retarget_activation_height params in
  if n <? activation then None
  else
    let window := Z.max (difficulty_adjustment_window params) 1 in
    let epoch := sub64 n activation / window in
    if epoch =? 0 then
      if sat_add64 activation 2 <=? n then
        match bootstrap_walk (walk_fuel d) d n activation parent None with
        | (Some first, Some last) => Some {|
            first_timestamp_seconds := timestamp_seconds (header first);
            last_timestamp_seconds := timestamp_seconds (header last);
            current_leading_zero_bits := leading_zero_bits_field (header last);
            block_count := add64 (sat_sub64 (height (header last)) (height (header first))) 1 |}
        | _ => None
        end
      else None
    else
      let window_start := add64 activation (mul64 (epoch - 1) window) in
      let window_end := sub64 (add64 window_start window) 1 in
      match window_walk (walk_fuel d) d window_start window_end parent None None with
      | (Some first, Some last) => Some {|
          first_timestamp_seconds := timestamp_seconds (header first);
          last_timestamp_seconds := timestamp_seconds (header last);
          current_leading_zero_bits := leading_zero_bits_field (header last);
          block_count := add64 (sat_sub64 window_end window_start) 1 |}
      | _ => None
      end.

Definition expected_leading_zero_bits_for (d : Db) (params : ConsensusParams)
    (parent : option Block) : Z :=
  let n := next_height parent in
  expected_leading_zero_bits params n (retarget_sample d params parent n).

(** *** Templates *)

Definition candidate (params : ConsensusParams) (parent : option Block) (timestamp_seconds : Z)
    (miner : string) (extra_txs : list Transaction) (total_fees : Z) : Block :=
  let n := next_height parent in
  let prev := match parent with None => ZERO | Some p => block_hash p end in
  let reward := sat_add64 (reward_at_height params n) total_fees in
  let coinbase_tx :=
    if has_genesis_premint params n then
      genesis_coinbase reward miner (founder_allocation_atoms params) (founder_address params)
        (genesis_allocations params)
    else coinbase n reward miner in
  let txs := coinbase_tx :: extra_txs in
  {| header := {|
       version := 1; chain_id := p_chain_id params; height := n; previous_hash := prev;
       merkle_root_field := merkle_root txs; timestamp_seconds := timestamp_seconds;
       leading_zero_bits_field := initial_leading_zero_bits params; nonce := 0 |};
     transactions := txs |}.

Definition candidate_block_with_mempool (s : ChainState) (params : ConsensusParams)
    (timestamp_seconds : Z) (miner : string) (extra_txs : list Transaction) (total_fees : Z) :
    result StateError Block :=
  parent ← ok_or (tip_cache s) MissingGenesis;
  let b := candidate params (Some parent) timestamp_seconds miner extra_txs total_fees in
  let bits := expected_leading_zero_bits_for (db s) params (Some parent) in
  Ok {| header := with_bits bits (header b); transactions := transactions b |}.

Definition candidate_block (s : ChainState) (params : ConsensusParams) (timestamp_seconds : Z)
    (miner : string) : result StateError Block :=
  candidate_block_with_mempool s params timestamp_seconds miner [] 0.

Definition mine_candidate_block (params : ConsensusParams) (parent : option Block)
    (timestamp_seconds : Z) (miner : string) (max_nonce bits : Z) (epoch_seed : Hash256) :
    result StateError Block :=
  let b := candidate params parent timestamp_seconds miner [] 0 in
  mined ← ok_or (mine_header (with_bits bits (header b)) epoch_seed max_nonce) MiningFailed;
  Ok {| header := mined; transactions := transactions b |}.

(** *** Writing a block that extends the tip *)

Definition put_block_batch (b : Block) : list batch_op :=
  let h := block_hash b in
  [ PutBlock h b; PutCanonical (height (header b)) h; PutTip h; PutHeight (height (header b));
    PutChainId (chain_id (header b)) ].

(** [validate_block(..)?] in a function that returns [StateError]. *)
Definition validated (params : ConsensusParams) (parent : option Block) (b : Block)
    (now bits : Z) (seed : Hash256) : stateful ChainState StateError () :=
  lift_result (map_err (validate_block params parent b now bits seed) S_Validation).

(** The common end of [init_genesis], [init_genesis_nonce] and [mine_next_block]. *)
Definition commit_tip (b : Block) (n : Z) : stateful ChainState StateError Block :=
  modify (λ s, with_db (write_batch (put_block_batch b) (db s)) s);;
  modify (with_tip b n);;
  mret b.

Definition init_genesis (params : ConsensusParams) (timestamp_seconds max_nonce : Z) :
    stateful ChainState StateError Block :=
  s ← get_state;
  lift_result (reject_if (bool_decide (is_Some (height_cache s))) GenesisAlreadyExists);;
  let bits := expected_leading_zero_bits_for (db s) params None in
  let seed := epoch_seed_for_height (db s) 0 in
  b ← lift_result (mine_candidate_block params None timestamp_seconds "genesis" max_nonce bits seed);
  validated params None b timestamp_seconds bits seed;;
  commit_tip b 0.

Definition init_genesis_nonce (params : ConsensusParams) (timestamp_seconds genesis_nonce : Z) :
    stateful ChainState StateError Block :=
  s ← get_state;
  lift_result (reject_if (bool_decide (is_Some (height_cache s))) GenesisAlreadyExists);;
  let bits := expected_leading_zero_bits_for (db s) params None in
  let seed := epoch_seed_for_height (db s) 0 in
  let c := candidate params None timestamp_seconds "genesis" [] 0 in
  let b := {| header := with_nonce genesis_nonce (with_bits bits (header c));
              transactions := transactions c |} in
  lift_result (reject_if (negb (header_meets_work (header b) seed)) MiningFailed);;
  validated params None b timestamp_seconds bits seed;;
  commit_tip b 0.

Definition mine_next_block (params : ConsensusParams) (timestamp_seconds : Z) (miner : string)
    (max_nonce : Z) : stateful ChainState StateError Block :=
  s ← get_state;
  parent ← lift_result (ok_or (tip_cache s) MissingGenesis);
  let bits := expected_leading_zero_bits_for (db s) params (Some parent) in
  let seed := epoch_seed_for_height (db s) (next_height (Some parent)) in
  b ← lift_result
        (mine_candidate_block params (Some parent) timestamp_seconds miner max_nonce bits seed);
  validated params (Some parent) b timestamp_seconds bits seed;;
  commit_tip b (height (header b)).

(** *** Walks over the stored blocks *)

Definition U128_MAX : Z := 340282366920938463463374607431768211455.
(** [1u128 << bits]: the shift count is taken modulo 128. *)
Definition block_work (b : Block) : Z := 2 ^ (leading_zero_bits_field (header b) mod 128).

Fixpoint chain_work_loop (fuel : nat) (d : Db) (tip : Hash256) (work : Z) : Z :=
  match fuel with
  | O => work
  | S fuel =>
      match get_block_by_hash d tip with
      | None => work
      | Some b =>
          let work := Z.min (work + block_work b) U128_MAX in
          if decide (previous_hash (header b) = ZERO) then work
          else chain_work_loop fuel d (previous_hash (header b)) work
      end
  end.
Definition chain_work (d : Db) (tip : Hash256) : Z := chain_work_loop (walk_fuel d) d tip 0.

Fixpoint build_chain_loop (fuel : nat) (d : Db) (cur : Hash256) (chain : list Block) : list Block :=
  match fuel with
  | O => chain
  | S fuel =>
      match get_block_by_hash d cur with
      | None => chain
      | Some b =>
          if decide (previous_hash (header b) = ZERO) then chain ++ [b]
          else build_chain_loop fuel d (previous_hash (header b)) (chain ++ [b])
      end
  end.
Definition build_canonical_chain (d : Db) (tip : Hash256) : list Block :=
  reverse (build_chain_loop (walk_fuel d) d tip []).

(** *** The UTXO set beside the chain *)

(** [replay_utxo]: [apply_block] over the chain, from a set. *)
Fixpoint replay_from (params : ConsensusParams) (chain : list Block) (set : UtxoSet) :
    result UtxoError UtxoSet :=
  match chain with
  | [] => Ok set
  | b :: chain =>
      match apply_block params b set with
      | (set, Ok _) => replay_from params chain set
      | (_, Err e) => Err e
      end
  end.
Definition replay_utxo (params : ConsensusParams) (chain : list Block) : result UtxoError UtxoSet :=
  replay_from params chain ∅.

(** [rewrite_utxo_into_batch]: delete every stored entry, insert the set's. *)
Definition rewrite_utxo_batch (d : Db) (set : UtxoSet) (utxo_tip : Hash256) : list batch_op :=
  (DeleteUtxo ∘ fst <$> utxo_entries d) ++ ((λ p, PutUtxo p.1 p.2) <$> iter set)
    ++ [PutUtxoTip utxo_tip].

(** [validate_block_utxo]: the temporary set holds just the inputs referred to. *)
Definition seed_utxos (d : Db) (txs : list Transaction) : UtxoSet :=
  foldl (λ seed tx,
      foldl (λ seed i,
          match utxo_lookup d (previous_output i) with
          | Some e => <[previous_output i := e]> seed
          | None => seed
          end) seed (inputs tx)) ∅ txs.

Definition validate_block_utxo (d : Db) (params : ConsensusParams) (b : Block) :
    result StateError () :=
  map_err (apply_block params b (seed_utxos d (tail (transactions b)))).2 S_Utxo.

(** [apply_utxo_delta_to_batch] *)
Definition utxo_delta_batch (b : Block) : list batch_op :=
  (tail (transactions b) ≫= λ tx, (DeleteUtxo ∘ previous_output <$> inputs tx))
    ++ (transactions b ≫= λ tx,
          (λ p, PutUtxo p.1 p.2) <$> created_outputs (height (header b)) tx).

Definition ensure_utxo_synced (params : ConsensusParams) : stateful ChainState StateError () :=
  s ← get_state;
  match tip_cache s with
  | None => mret ()
  | Some b =>
      let tip := block_hash b in
      if bool_decide (meta_utxo_tip (db s) = Some tip) then mret ()
      else
        set ← lift_result (map_err (replay_utxo params (canonical_blocks (db s))) S_Utxo);
        modify (λ s, with_db (write_batch (rewrite_utxo_batch (db s) set tip) (db s)) s)
  end.

(** *** Accepting a block *)

(** [take_while] over the zip of two chains: the length of the common prefix. *)
Fixpoint fork_index (old new : list Block) : nat :=
  match old, new with
  | a :: old, b :: new =>
      if decide (block_hash a = block_hash b) then S (fork_index old new) else O
  | _, _ => O
  end.

Definition extend_batch (b : Block) : list batch_op :=
  let h := block_hash b in
  let n := height (header b) in
  PutCanonical n h :: utxo_delta_batch b ++ [PutTip h; PutHeight n; PutUtxoTip h].

(** The fast path: the block extends the tip. *)
Definition extend_tip (params : ConsensusParams) (b : Block) : stateful ChainState StateError () :=
  s ← get_state;
  lift_result (validate_block_utxo (db s) params b);;
  modify (λ s, with_db (write_batch (extend_batch b) (db s)) s);;
  modify (with_tip b (height (header b))).

(** [for h in (height + 1)..=old_height] *)
Definition stale_heights (n old_height : Z) : list Z := seqZ (n + 1) (old_height - n).

Definition reorg_batch (d : Db) (new_canonical : list Block) (set : UtxoSet) (h : Hash256)
    (n old_height : Z) : list batch_op :=
  ((λ b, PutCanonical (height (header b)) (block_hash b)) <$> new_canonical)
    ++ (DeleteCanonical <$> stale_heights n old_height)
    ++ [PutTip h; PutHeight n] ++ rewrite_utxo_batch d set h.

Definition reorganise (params : ConsensusParams) (b : Block) (old_tip : Hash256) :
    stateful ChainState StateError () :=
  s ← get_state;
  let h := block_hash b in
  let new_canonical := build_canonical_chain (db s) h in
  set ← lift_result (map_err (replay_utxo params new_canonical) S_Utxo);
  let n := match last new_canonical with Some t => height (header t) | None => 0 end in
  let old_height := default 0 (height_cache s) in
  let old_canonical := build_canonical_chain (db s) old_tip in
  modify (with_disconnected (drop (fork_index old_canonical new_canonical) old_canonical));;
  modify (λ s, with_db (write_batch (reorg_batch (db s) new_canonical set h n old_height) (db s)) s);;
  modify (with_tip b n).

Definition submit_block (params : ConsensusParams) (b : Block) (now_seconds : Z) :
    stateful ChainState StateError Block :=
  let h := block_hash b in
  s ← get_state;
  lift_result (reject_if (block_known (db s) h) S_AlreadyKnown);;
  ensure_utxo_synced params;;
  s ← get_state;
  let parent_hash := previous_hash (header b) in
  parent ← lift_result (ok_or (get_block_by_hash (db s) parent_hash) UnknownParent);
  let bits := expected_leading_zero_bits_for (db s) params (Some parent) in
  let seed := epoch_seed_for_height (db s) (height (header b)) in
  validated params (Some parent) b now_seconds bits seed;;
  modify (λ s, with_db (set_blocks (<[h := b]>) (db s)) s);;
  s ← get_state;
  let old_tip := tip_hash s in
  let new_work := chain_work (db s) h in
  let old_work := chain_work (db s) old_tip in
  modify (with_disconnected []);;
  (if old_work <? new_work then
     if decide (parent_hash = old_tip) then extend_tip params b
     else reorganise params b old_tip
   else mret ());;
  mret b.

(** *** Migration from the JSON state ([storage/migration.rs])

    The batch and the reload; [NodeCommands] has the files around it. *)
Definition migrate_blocks (blocks : list Block) (s : ChainState) : option ChainState :=
  tip ← last blocks;
  let batch :=
    (blocks ≫= λ b, [PutBlock (block_hash b) b; PutCanonical (height (header b)) (block_hash b)])
      ++ [PutTip (block_hash tip); PutHeight (height (header tip))] in
  Some (reload_caches (with_db (write_batch batch (db s)) s)).
End State.
