(* ===== verification/StateDb.v ===== *)
(** * Batches and the UTXO column family

    What the batches of the state leave in each column family, and why checking
    a block against just the entries it refers to is checking it against the
    whole set. *)

From S2P Require Import Prelude Crypto Hash Chain ScriptVM Block Utxo.
From S2P Require Import UtxoSupply Storage State.

Local Open Scope Z_scope.

Lemma write_batch_app a b d : write_batch (a ++ b) d = write_batch b (write_batch a d).
Proof. apply foldl_app. Qed.

Lemma write_delete_utxos ops d :
  write_batch (DeleteUtxo <$> ops) d = set_utxo (λ u, foldl (λ u o, delete o u) u ops) d.
Proof. revert d; induction ops as [|o ops IH]; intros d; [by destruct d|]. unfold write_batch in *. csimpl. by rewrite IH. Qed.

Lemma write_put_utxos (kvs : list (OutPoint * UtxoEntry)) d :
  write_batch ((λ p, PutUtxo p.1 p.2) <$> kvs) d =
    set_utxo (λ u, foldl (λ u '(o, e), <[o := e]> u) u kvs) d.
Proof. revert d; induction kvs as [|[o e] kvs IH]; intros d; [by destruct d|]. unfold write_batch in *. csimpl. by rewrite IH. Qed.

Lemma write_put_canonicals {A} (f : A -> Z) (g : A -> Hash256) l d :
  write_batch ((λ a, PutCanonical (f a) (g a)) <$> l) d =
    set_canonical (λ c, foldl (λ c '(n, h), <[n := h]> c) c ((λ a, (f a, g a)) <$> l)) d.
Proof. revert d; induction l as [|a l IH]; intros d; [by destruct d|]. unfold write_batch in *. csimpl. by rewrite IH. Qed.

Lemma write_delete_canonicals ns d :
  write_batch (DeleteCanonical <$> ns) d = set_canonical (λ c, foldl (λ c n, delete n c) c ns) d.
Proof. revert d; induction ns as [|n ns IH]; intros d; [by destruct d|]. unfold write_batch in *. csimpl. by rewrite IH. Qed.

Section StateDb.
Context `{Crypto} `{!IterOrder OutPoint UtxoEntry}.

Lemma write_utxo_delta b d :
  write_batch (utxo_delta_batch b) d =
    set_utxo (λ u, foldl (λ u '(o, e), <[o := e]> u)
      (foldl (λ u o, delete o u) u (spent_outpoints (tail (transactions b))))
      (created (height (header b)) (transactions b))) d.
Proof.
  unfold utxo_delta_batch. rewrite write_batch_app.
  assert (forall txs, (txs ≫= λ tx, (DeleteUtxo ∘ previous_output <$> inputs tx))
            = DeleteUtxo <$> spent_outpoints txs) as ->.
  { induction txs as [|tx txs IH]; [done|]. rewrite spent_outpoints_cons, fmap_app, <- list_fmap_compose.
    csimpl. by rewrite IH. }
  assert (forall h txs, (txs ≫= λ tx, (λ p : OutPoint * UtxoEntry, PutUtxo p.1 p.2) <$> created_outputs h tx)
            = (λ p, PutUtxo p.1 p.2) <$> created h txs) as ->.
  { intros h. unfold created. induction txs as [|tx txs IH]; [done|]. csimpl. by rewrite fmap_app, IH. }
  rewrite write_delete_utxos, write_put_utxos. done.
Qed.

(** The fast path's batch, when the block applies to the stored set. *)
Lemma write_extend_batch params b d set :
  apply_block params b (cf_utxo d) = (set, Ok ()) ->
  write_batch (extend_batch b) d =
    set_meta (Some (block_hash b)) (Some (height (header b))) (meta_chain_id d) (Some (block_hash b))
      (set_utxo (λ _, set) (set_canonical (<[height (header b) := block_hash b]>) d)).
Proof.
  intros Hset%apply_block_spec%applies_result. unfold extend_batch. cbv zeta.
  change (?x :: ?l) with ([x] ++ l). rewrite !write_batch_app, write_utxo_delta. simpl.
  unfold write_batch, set_utxo, set_canonical, set_meta. simpl. by rewrite Hset.
Qed.

Lemma write_rewrite_utxo set tip d :
  write_batch (rewrite_utxo_batch d set tip) d =
    set_meta (meta_tip d) (meta_height d) (meta_chain_id d) (Some tip) (set_utxo (λ _, set) d).
Proof.
  unfold rewrite_utxo_batch. rewrite !write_batch_app, list_fmap_compose, write_delete_utxos, write_put_utxos.
  destruct d as [bs can mt mh mc mu u]. unfold set_utxo, set_meta.
  unfold write_batch.
  cbn -[utxo_entries iter]. rewrite (foldl_rebuild _ _ _ set); [done| |apply iter_perm].
  intros o [e Ho]. unfold utxo_entries. simpl. apply list_elem_of_fmap. exists (o, e). split; [done|].
  rewrite merge_sort_Permutation. by apply elem_of_map_to_list.
Qed.

(** The rewrite only reads the UTXO family of the database it was built from. *)
Lemma write_rewrite_utxo_from d d' set tip :
  cf_utxo d = cf_utxo d' ->
  write_batch (rewrite_utxo_batch d set tip) d' =
    set_meta (meta_tip d') (meta_height d') (meta_chain_id d') (Some tip) (set_utxo (λ _, set) d').
Proof. intros E. rewrite <- write_rewrite_utxo. unfold rewrite_utxo_batch, utxo_entries. by rewrite E. Qed.

(** A reorganisation's batch. *)
Lemma write_reorg_batch d chain set h n old_height :
  write_batch (reorg_batch d chain set h n old_height) d =
    set_meta (Some h) (Some n) (meta_chain_id d) (Some h)
      (set_utxo (λ _, set)
        (set_canonical (λ c, foldl (λ c n, delete n c)
          (foldl (λ c '(n, h), <[n := h]> c) c ((λ b, (height (header b), block_hash b)) <$> chain))
          (stale_heights n old_height)) d)).
Proof.
  unfold reorg_batch. rewrite !write_batch_app, write_put_canonicals, write_delete_canonicals.
  by rewrite write_rewrite_utxo_from by done.
Qed.

(** *** The temporary set *)

Lemma seed_utxos_spec d txs o :
  seed_utxos d txs !! o = if decide (o ∈ spent_outpoints txs) then cf_utxo d !! o else None.
Proof.
  unfold seed_utxos.
  assert (Hin : forall ins (s : UtxoSet) o, foldl (λ seed i,
      match utxo_lookup d (previous_output i) with
      | Some e => <[previous_output i := e]> seed | None => seed end) s ins !! o =
    if decide (o ∈ previous_output <$> ins) then
      match cf_utxo d !! o with Some e => Some e | None => s !! o end
    else s !! o).
  { clear o. induction ins as [|i ins IH]; intros s o; cbn [foldl].
    { by rewrite decide_False by apply not_elem_of_nil. }
    rewrite IH, fmap_cons. unfold utxo_lookup. destruct (decide (o = previous_output i)) as [->|Hne].
    - rewrite (decide_True (P := _ ∈ _ :: _)) by apply list_elem_of_here.
      destruct (cf_utxo d !! previous_output i) eqn:E; [rewrite lookup_insert_eq|]; by case_decide.
    - assert (match cf_utxo d !! previous_output i with
        | Some e => <[previous_output i := e]> s | None => s end !! o = s !! o) as ->
        by (case_match; [by rewrite lookup_insert_ne|done]).
      destruct (decide (o ∈ previous_output <$> ins)).
      + by rewrite decide_True by by apply list_elem_of_further.
      + by rewrite decide_False by by rewrite not_elem_of_cons. }
  assert (Hall : forall txs (s : UtxoSet) o, foldl (λ seed tx, foldl (λ seed i,
      match utxo_lookup d (previous_output i) with
      | Some e => <[previous_output i := e]> seed | None => seed end) seed (inputs tx)) s txs !! o =
    if decide (o ∈ spent_outpoints txs) then
      match cf_utxo d !! o with Some e => Some e | None => s !! o end
    else s !! o).
  { clear o. induction txs0 as [|tx txs0 IH]; intros s o; cbn [foldl].
    { by rewrite decide_False by apply not_elem_of_nil. }
    rewrite IH, spent_outpoints_cons, Hin.
    destruct (decide (o ∈ spent_outpoints txs0)) as [H1|H1],
      (decide (o ∈ previous_output <$> inputs tx)) as [H2|H2].
    - rewrite decide_True by (apply elem_of_app; by right). by case_match.
    - by rewrite decide_True by (apply elem_of_app; by right).
    - by rewrite decide_True by (apply elem_of_app; by left).
    - rewrite decide_False; [done|]. rewrite elem_of_app. tauto. }
  rewrite Hall, lookup_empty. repeat case_match; done.
Qed.

(** A block applies to the temporary set exactly when it applies to the whole
    family. *)
Lemma validate_block_utxo_spec d params b :
  validate_block_utxo d params b = Ok () <->
  exists set, apply_block params b (cf_utxo d) = (set, Ok ()).
Proof.
  set (txs := tail (transactions b)). set (seed := seed_utxos d txs).
  assert (Hsame : forall tx i, tx ∈ txs -> i ∈ inputs tx ->
    seed !! previous_output i = cf_utxo d !! previous_output i).
  { intros tx i Htx Hi. unfold seed. rewrite seed_utxos_spec, decide_True; [done|].
    unfold spent_outpoints. apply list_elem_of_bind. exists tx. split; [|done].
    by apply list_elem_of_fmap_2. }
  assert (Hiff : (exists s, block_applies params b seed s) <-> (exists s, block_applies params b (cf_utxo d) s)).
  { assert (Hgo : forall s1 s2, (forall tx i, tx ∈ txs -> i ∈ inputs tx ->
        s1 !! previous_output i = s2 !! previous_output i) ->
      (exists s, block_applies params b s1 s) -> (exists s, block_applies params b s2 s)).
    { intros s1 s2 Heq (s & [Hnd Hv (cb & Hcb & Hmax) _]). eexists. split; [done| | |reflexivity].
      - rewrite Forall_forall in Hv |- *. intros tx Htx. eapply tx_valid_frame; [|by apply Hv].
        intros i Hi. by eapply Heq.
      - exists cb. split; [done|]. replace (tx_fee s2 <$> _) with (tx_fee s1 <$> tail (transactions b)); [done|].
        apply Forall_fmap_ext_1, Forall_forall. intros tx Htx. symmetry.
        eapply tx_valid_frame; [|by eapply Forall_forall in Hv]. intros i Hi. by eapply Heq. }
    split; apply Hgo; [done|]. intros tx i Htx Hi. symmetry. by eapply Hsame. }
  unfold validate_block_utxo. fold txs seed. split.
  - intros Hok. destruct (apply_block params b seed) as [s' [[]|e]] eqn:Hap; [|done].
    apply apply_block_spec in Hap. destruct (proj1 Hiff (ex_intro _ _ Hap)) as [set Hset].
    exists set. by apply apply_block_spec.
  - intros [set Hset%apply_block_spec]. destruct (proj2 Hiff (ex_intro _ _ Hset)) as [s Hs].
    apply apply_block_spec in Hs. by rewrite Hs.
Qed.
End StateDb.
