(* ===== verification/StateChain.v ===== *)
(** * Ancestries: the walks over stored blocks

    The list of a block's ancestors down to a genesis block, the fuel that is
    enough to walk it, and what each loop of the state computes from it. *)

From S2P Require Import Prelude Crypto Hash Chain Validation ScriptVM Block Utxo.
From S2P Require Import Storage State.

Local Open Scope Z_scope.

Abbreviation Blocks := (gmap Hash256 Block).

(** [ancestry bs h l]: [l] is the block stored at [h] and its ancestors, tip first. *)
Inductive ancestry (bs : Blocks) : Hash256 -> list Block -> Prop :=
| ancestry_genesis h b :
    bs !! h = Some b -> previous_hash (header b) = ZERO -> height (header b) = 0 ->
    ancestry bs h [b]
| ancestry_step h b p l :
    bs !! h = Some b -> previous_hash (header b) <> ZERO ->
    ancestry bs (previous_hash (header b)) (p :: l) ->
    height (header b) = height (header p) + 1 ->
    ancestry bs h (b :: p :: l).

Lemma ancestry_tip bs h l : ancestry bs h l -> exists b l', l = b :: l' /\ bs !! h = Some b.
Proof. destruct 1; eauto. Qed.

Lemma ancestry_det bs h l l' : ancestry bs h l -> ancestry bs h l' -> l = l'.
Proof.
  intros Hl. revert l'; induction Hl as [h b Hb Hz _|h b p l Hb Hnz _ IH _];
    intros l' Hl'; inversion Hl'; simplify_eq; [done|].
  f_equal. by apply IH.
Qed.

Lemma ancestry_weaken bs bs' h l : bs ⊆ bs' -> ancestry bs h l -> ancestry bs' h l.
Proof.
  intros Hsub. induction 1; [eapply ancestry_genesis|eapply ancestry_step]; try done;
    by eapply lookup_weaken.
Qed.

(** The heights count down to zero. *)
Lemma ancestry_heights bs h l :
  ancestry bs h l -> forall i b, l !! i = Some b -> height (header b) = Z.of_nat (length l) - 1 - Z.of_nat i.
Proof.
  induction 1 as [h b _ _ Hh|h b p l _ _ _ IH Hh]; intros i c Hi.
  - destruct i; simplify_eq/=; lia.
  - destruct i as [|i]; simplify_eq/=.
    + specialize (IH 0%nat p eq_refl). simpl in *. lia.
    + specialize (IH i c Hi). simpl in *. lia.
Qed.

Lemma ancestry_tip_height bs h b l :
  ancestry bs h (b :: l) -> height (header b) = Z.of_nat (length l).
Proof. intros Hl. pose proof (ancestry_heights _ _ _ Hl 0%nat b eq_refl). simpl in *. lia. Qed.

Lemma ancestry_height_inj bs h l b c :
  ancestry bs h l -> b ∈ l -> c ∈ l -> height (header b) = height (header c) -> b = c.
Proof.
  intros Hl [i Hi]%list_elem_of_lookup [j Hj]%list_elem_of_lookup Hh.
  rewrite (ancestry_heights _ _ _ Hl i b Hi), (ancestry_heights _ _ _ Hl j c Hj) in Hh.
  assert (i = j) as -> by lia. congruence.
Qed.

Lemma ancestry_nodup bs h l : ancestry bs h l -> NoDup l.
Proof.
  intros Hl. apply NoDup_alt. intros i j b Hi Hj.
  pose proof (ancestry_heights _ _ _ Hl i b Hi). pose proof (ancestry_heights _ _ _ Hl j b Hj). lia.
Qed.

Section Walks.
Context `{Crypto}.

(** Blocks are stored under their hash. *)
Definition keyed (bs : Blocks) : Prop := forall h b, bs !! h = Some b -> h = block_hash b.

Lemma ancestry_stored bs h l b : keyed bs -> ancestry bs h l -> b ∈ l -> bs !! block_hash b = Some b.
Proof.
  intros Hk. induction 1 as [h c Hc _ _|h c p l Hc _ _ IH _]; intros Hb.
  - apply list_elem_of_singleton in Hb as ->. by rewrite <- (Hk _ _ Hc).
  - apply elem_of_cons in Hb as [->|Hb]; [by rewrite <- (Hk _ _ Hc)|by apply IH].
Qed.

Lemma ancestry_hashes_nodup bs h l : keyed bs -> ancestry bs h l -> NoDup (block_hash <$> l).
Proof.
  intros Hk Hl. apply NoDup_fmap_2_strong; [|by eapply ancestry_nodup].
  intros b c Hb Hc E. apply (ancestry_stored _ _ _ _ Hk Hl) in Hb, Hc. congruence.
Qed.

(** An ancestry is no longer than the number of stored blocks: the walks have
    enough fuel. *)
Lemma ancestry_length bs h l : keyed bs -> ancestry bs h l -> (length l <= size bs)%nat.
Proof.
  intros Hk Hl. rewrite <- size_dom, <- (length_fmap block_hash l).
  rewrite <- (size_list_to_set (C := gset Hash256)) by by eapply ancestry_hashes_nodup.
  apply subseteq_size. intros k Hin. apply elem_of_list_to_set, list_elem_of_fmap in Hin as (b & -> & Hb).
  apply elem_of_dom. eexists. by eapply ancestry_stored.
Qed.

Lemma ancestry_fuel d h l :
  keyed (cf_blocks d) -> ancestry (cf_blocks d) h l -> (length l < walk_fuel d)%nat.
Proof. intros Hk Hl. pose proof (ancestry_length _ _ _ Hk Hl). unfold walk_fuel. lia. Qed.

(** *** The work and the chain of a tip *)

Definition add_work (w : Z) (b : Block) : Z := Z.min (w + block_work b) U128_MAX.

Lemma chain_work_loop_spec fuel d h l w :
  ancestry (cf_blocks d) h l -> (length l <= fuel)%nat ->
  chain_work_loop fuel d h w = foldl add_work w l.
Proof.
  intros Hl. revert fuel w; induction Hl as [h b Hb Hz _|h b p l Hb Hnz _ IH _];
    intros [|fuel] w Hf; simpl in Hf; try lia; cbn [chain_work_loop];
    unfold get_block_by_hash; rewrite Hb; [by rewrite decide_True|].
  rewrite decide_False by done. rewrite IH by (simpl; lia). done.
Qed.

Lemma chain_work_spec d h l :
  keyed (cf_blocks d) -> ancestry (cf_blocks d) h l -> chain_work d h = foldl add_work 0 l.
Proof. intros Hk Hl. apply chain_work_loop_spec; [done|]. pose proof (ancestry_fuel _ _ _ Hk Hl). lia. Qed.

Lemma build_chain_loop_spec fuel d h l acc :
  ancestry (cf_blocks d) h l -> (length l <= fuel)%nat -> build_chain_loop fuel d h acc = acc ++ l.
Proof.
  intros Hl. revert fuel acc; induction Hl as [h b Hb Hz _|h b p l Hb Hnz _ IH _];
    intros [|fuel] acc Hf; simpl in Hf; try lia; cbn [build_chain_loop];
    unfold get_block_by_hash; rewrite Hb; [by rewrite decide_True|].
  rewrite decide_False by done. rewrite IH, <- (assoc_L app) by (simpl; lia). done.
Qed.

Lemma build_canonical_chain_spec d h l :
  keyed (cf_blocks d) -> ancestry (cf_blocks d) h l -> build_canonical_chain d h = reverse l.
Proof.
  intros Hk Hl. unfold build_canonical_chain. f_equal.
  rewrite (build_chain_loop_spec _ _ _ l); [done|done|]. pose proof (ancestry_fuel _ _ _ Hk Hl). lia.
Qed.

(** *** The canonical index of a chain *)

Definition index_of (l : list Block) : gmap Z Hash256 :=
  list_to_map ((λ b, (height (header b), block_hash b)) <$> l).

Lemma index_keys bs h l :
  ancestry bs h l -> NoDup ((λ b, (height (header b), block_hash b)) <$> l).*1.
Proof.
  intros Hl. rewrite <- list_fmap_compose. apply NoDup_fmap_2_strong; [|by eapply ancestry_nodup].
  intros b c Hb Hc E. by eapply ancestry_height_inj.
Qed.

Lemma index_lookup bs h l n k :
  ancestry bs h l ->
  index_of l !! n = Some k <-> exists b, b ∈ l /\ height (header b) = n /\ block_hash b = k.
Proof.
  intros Hl. unfold index_of. rewrite <- elem_of_list_to_map by by eapply index_keys.
  rewrite list_elem_of_fmap. split.
  - intros (b & [= -> ->] & Hb). eauto.
  - intros (b & Hb & <- & <-). eauto.
Qed.

Lemma index_lookup_None bs h l n :
  ancestry bs h l -> (n < 0 \/ Z.of_nat (length l) <= n) -> index_of l !! n = None.
Proof.
  intros Hl Hn. apply eq_None_not_Some. intros [k (b & Hb & Hh & _)%(index_lookup _ _ _ _ _ Hl)].
  apply list_elem_of_lookup in Hb as [i Hi]. pose proof (lookup_lt_Some _ _ _ Hi).
  pose proof (ancestry_heights _ _ _ Hl i b Hi). lia.
Qed.

Lemma reverse_heights_sorted bs h l :
  ancestry bs h l ->
  StronglySorted height_key_le (reverse ((λ b, (height (header b), block_hash b)) <$> l)).
Proof.
  induction 1 as [h b _ _ _|h b p l Hb Hnz Hp IH Hh]; [repeat constructor|].
  rewrite fmap_cons, reverse_cons. assert (Hl : ancestry bs h (b :: p :: l)) by by eapply ancestry_step.
  apply StronglySorted_app_2; [|done|repeat constructor].
  intros x1 x2 Hx1 Hx2. apply list_elem_of_singleton in Hx2 as ->.
  rewrite elem_of_reverse in Hx1. apply list_elem_of_fmap in Hx1 as (c & -> & Hc).
  unfold height_key_le. simpl. apply list_elem_of_lookup in Hc as [i Hi].
  rewrite (ancestry_heights _ _ _ Hl (S i) c Hi), (ancestry_heights _ _ _ Hl 0%nat b eq_refl). lia.
Qed.

(** Iterating the index of a chain yields the chain, genesis first. *)
Lemma canonical_blocks_spec d h l :
  keyed (cf_blocks d) -> ancestry (cf_blocks d) h l -> cf_canonical d = index_of l ->
  canonical_blocks d = reverse l.
Proof.
  intros Hk Hl Hi. set (kvs := (λ b, (height (header b), block_hash b)) <$> l).
  assert (canonical_entries d = reverse kvs) as Hent.
  { apply (StronglySorted_unique_strong height_key_le).
    - intros [n k] [n' k'] H1 H2 H3 H4. unfold height_key_le in *. simpl in *.
      assert (n = n') as -> by lia. f_equal.
      unfold canonical_entries in H1. rewrite merge_sort_Permutation, Hi in H1.
      apply elem_of_map_to_list in H1. rewrite elem_of_reverse in H2.
      apply (elem_of_list_to_map_1 _ _ _ (index_keys _ _ _ Hl)) in H2. unfold index_of in H1.
      rewrite H1 in H2. by injection H2.
    - apply Sorted_StronglySorted; [intros ???; unfold height_key_le; lia|].
      apply Sorted_merge_sort. intros ??; unfold height_key_le; lia.
    - by eapply reverse_heights_sorted.
    - unfold canonical_entries. rewrite merge_sort_Permutation, Hi, reverse_Permutation.
      by apply map_to_list_to_map, (index_keys _ _ _ Hl). }
  unfold canonical_blocks. rewrite Hent. unfold kvs. rewrite <- fmap_reverse.
  assert (Hall : forall b, b ∈ reverse l -> cf_blocks d !! block_hash b = Some b).
  { intros b Hb. rewrite elem_of_reverse in Hb. by eapply ancestry_stored. }
  clear -Hall. induction (reverse l) as [|b k IH]; [done|]. csimpl.
  rewrite Hall by apply list_elem_of_here. f_equal. apply IH. intros. apply Hall. by apply list_elem_of_further.
Qed.

(** Extending a chain extends its index. *)
Lemma index_of_cons b l : index_of (b :: l) = <[height (header b) := block_hash b]> (index_of l).
Proof. done. Qed.
End Walks.
