(* ===== verification/StateInv.v ===== *)
(** * The invariant of the chain state

    [submit_step] reads [submit_block] as the steps of a state machine, one
    rule per way through the function. [state_ok] is what every step keeps:
    every stored block hangs on a genesis block, the caches and the meta keys
    name the tip, the canonical index is the tip's ancestry, and the UTXO family
    is the replay of that ancestry whenever its marker names the tip. *)

From S2P Require Import Prelude Crypto Hash Chain Validation ScriptVM Block Utxo.
From S2P Require Import BlockFacts UtxoSupply Storage State StateDb StateChain.

Local Open Scope Z_scope.

Section StateInv.
Context `{Crypto} `{!IterOrder OutPoint UtxoEntry}.

(** ** The invariant *)

Record blocks_ok (bs : Blocks) : Prop := {
  blocks_keyed : keyed bs;
  blocks_rooted : forall h b, bs !! h = Some b -> exists l, ancestry bs h l;
  blocks_nonzero : bs !! ZERO = None;
}.

(** The canonical tip is [t] with ancestry [l]. *)
Record tip_ok (params : ConsensusParams) (s : ChainState) (t : Block) (l : list Block) : Prop := {
  tip_cached : tip_cache s = Some t;
  tip_height_cached : height_cache s = Some (height (header t));
  tip_meta : meta_tip (db s) = Some (block_hash t);
  tip_head : head l = Some t;
  tip_ancestry : ancestry (cf_blocks (db s)) (block_hash t) l;
  tip_index : cf_canonical (db s) = index_of l;
  tip_utxo : meta_utxo_tip (db s) = Some (block_hash t) ->
    replay_utxo params (reverse l) = Ok (cf_utxo (db s));
  tip_marker : forall h, meta_utxo_tip (db s) = Some h -> is_Some (cf_blocks (db s) !! h);
}.

Record empty_state (s : ChainState) : Prop := {
  empty_tip : tip_cache s = None;
  empty_height : height_cache s = None;
  empty_database : db s = empty_db;
}.

Definition state_ok (params : ConsensusParams) (s : ChainState) : Prop :=
  blocks_ok (cf_blocks (db s)) /\ (empty_state s \/ exists t l, tip_ok params s t l).

(** The UTXO family is marked as the tip's. *)
Definition synced (s : ChainState) : Prop :=
  forall t, tip_cache s = Some t -> meta_utxo_tip (db s) = Some (block_hash t).

(** ** The steps of [submit_block] *)

(** The state after the block is stored, before fork choice. *)
Definition stored (b : Block) (s : ChainState) : ChainState :=
  with_disconnected [] (with_db (set_blocks (<[block_hash b := b]>) (db s)) s).

Record valid_child (params : ConsensusParams) (s : ChainState) (b : Block) (now : Z) (p : Block) : Prop := {
  child_parent : get_block_by_hash (db s) (previous_hash (header b)) = Some p;
  child_valid : validate_block params (Some p) b now (expected_leading_zero_bits_for (db s) params (Some p))
    (epoch_seed_for_height (db s) (height (header b))) = Ok ();
}.

Definition heavier (b : Block) (s : ChainState) : Prop :=
  chain_work (db s) (tip_hash s) < chain_work (db s) (block_hash b).

Inductive submit_step (params : ConsensusParams) (b : Block) (now : Z) (s : ChainState) :
    ChainState -> result StateError Block -> Prop :=
| submit_known :
    is_Some (cf_blocks (db s) !! block_hash b) -> submit_step params b now s s (Err S_AlreadyKnown)
| submit_unsynced s1 e :
    cf_blocks (db s) !! block_hash b = None -> ensure_utxo_synced params s = (s1, Err e) ->
    submit_step params b now s s1 (Err e)
| submit_orphan s1 :
    cf_blocks (db s) !! block_hash b = None -> ensure_utxo_synced params s = (s1, Ok ()) ->
    get_block_by_hash (db s1) (previous_hash (header b)) = None ->
    submit_step params b now s s1 (Err UnknownParent)
| submit_invalid s1 p e :
    cf_blocks (db s) !! block_hash b = None -> ensure_utxo_synced params s = (s1, Ok ()) ->
    get_block_by_hash (db s1) (previous_hash (header b)) = Some p ->
    validate_block params (Some p) b now (expected_leading_zero_bits_for (db s1) params (Some p))
      (epoch_seed_for_height (db s1) (height (header b))) = Err e ->
    submit_step params b now s s1 (Err (S_Validation e))
| submit_side s1 p :
    cf_blocks (db s) !! block_hash b = None -> ensure_utxo_synced params s = (s1, Ok ()) ->
    valid_child params s1 b now p -> ~ heavier b (stored b s1) ->
    submit_step params b now s (stored b s1) (Ok b)
| submit_extend s1 p s2 r :
    cf_blocks (db s) !! block_hash b = None -> ensure_utxo_synced params s = (s1, Ok ()) ->
    valid_child params s1 b now p -> heavier b (stored b s1) ->
    previous_hash (header b) = tip_hash s1 -> extend_tip params b (stored b s1) = (s2, r) ->
    submit_step params b now s s2 (r ≫= λ _, Ok b)
| submit_reorg s1 p s2 r :
    cf_blocks (db s) !! block_hash b = None -> ensure_utxo_synced params s = (s1, Ok ()) ->
    valid_child params s1 b now p -> heavier b (stored b s1) ->
    previous_hash (header b) <> tip_hash s1 -> reorganise params b (tip_hash s1) (stored b s1) = (s2, r) ->
    submit_step params b now s s2 (r ≫= λ _, Ok b).

Lemma submit_block_step params b now s :
  submit_step params b now s (submit_block params b now s).1 (submit_block params b now s).2.
Proof.
  unfold submit_block, get_state, modify, validated, lift_result, mbind, stateful_bind.
  unfold block_known. destruct (cf_blocks (db s) !! block_hash b) eqn:Hk.
  { rewrite bool_decide_true by done. apply submit_known. by eexists. }
  rewrite bool_decide_false by by intros []. cbn [reject_if].
  destruct (ensure_utxo_synced params s) as [s1 [[]|e]] eqn:Hs1; [|by eapply submit_unsynced].
  destruct (get_block_by_hash (db s1) (previous_hash (header b))) as [p|] eqn:Hp; [|by eapply submit_orphan].
  cbn [ok_or]. destruct (validate_block _ _ _ _ _ _) as [[]|e] eqn:Hv; [|by eapply submit_invalid].
  cbn [map_err]. assert (valid_child params s1 b now p) as Hc by by split.
  change (with_disconnected [] (with_db (set_blocks (<[block_hash b:=b]>) (db s1)) s1)) with (stored b s1).
  change (tip_hash (with_db _ s1)) with (tip_hash s1).
  change (db (with_db ?d s1)) with d.
  destruct (Z.ltb_spec (chain_work (set_blocks (<[block_hash b:=b]>) (db s1)) (tip_hash s1))
              (chain_work (set_blocks (<[block_hash b:=b]>) (db s1)) (block_hash b))) as [Hw|Hw].
  - case_decide as Hprev.
    + destruct (extend_tip params b (stored b s1)) as [s2 r] eqn:He.
      pose proof (submit_extend params b now s s1 p s2 r Hk Hs1 Hc Hw Hprev He) as Hst.
      by destruct r as [[]|].
    + destruct (reorganise params b (tip_hash s1) (stored b s1)) as [s2 r] eqn:He.
      pose proof (submit_reorg params b now s s1 p s2 r Hk Hs1 Hc Hw Hprev He) as Hst.
      by destruct r as [[]|].
  - eapply submit_side; try done. apply Z.le_ngt. exact Hw.
Qed.

(** ** Keeping the invariant *)

Lemma validate_child_spec params p b now bits seed :
  validate_block params (Some p) b now bits seed = Ok () ->
  height (header b) = add64 (height (header p)) 1 /\ previous_hash (header b) = block_hash p /\
  leading_zero_bits_field (header b) = bits /\ header_meets_work (header b) seed = true.
Proof.
  unfold validate_block. intros Hv. inv_ok Hv. unfold next_height in *.
  rewrite negb_false_iff in *. rewrite ?bool_decide_eq_true, ?Z.eqb_eq in *. done.
Qed.

Lemma ancestry_store bs b h l :
  bs !! block_hash b = None -> ancestry bs h l -> ancestry (<[block_hash b := b]> bs) h l.
Proof. intros Hb. apply ancestry_weaken. by apply insert_subseteq. Qed.

(** Storing a child of a stored block. *)
Lemma blocks_ok_child params bs b p now bits seed :
  blocks_ok bs -> Z.of_nat (size bs) < U64_MAX -> block_hash b <> ZERO -> bs !! block_hash b = None ->
  bs !! previous_hash (header b) = Some p -> validate_block params (Some p) b now bits seed = Ok () ->
  blocks_ok (<[block_hash b := b]> bs) /\
  exists l, ancestry bs (block_hash p) l /\ ancestry (<[block_hash b := b]> bs) (block_hash b) (b :: l).
Proof.
  intros [Hk Hr Hz] Hsize Hnz Hnew Hp (Hh & Hprev & _)%validate_child_spec.
  destruct (Hr _ _ Hp) as [l Hl]. pose proof (ancestry_length _ _ _ Hk Hl) as Hlen.
  destruct (ancestry_tip _ _ _ Hl) as (p' & l' & -> & Hp'). simplify_eq.
  pose proof (ancestry_tip_height _ _ _ _ Hl) as Hph. simpl in Hlen.
  rewrite add64_small in Hh by (unfold U64_MAX, U64_MOD in *; lia).
  assert (ancestry (<[block_hash b := b]> bs) (block_hash b) (b :: p :: l')) as Hanc.
  { apply ancestry_step; [by rewrite lookup_insert_eq| | |done].
    - intros E. rewrite E in Hp. congruence.
    - by apply ancestry_store. }
  split; [split|].
  - intros h c [[<- <-]|[_ Hc]]%lookup_insert_Some; [done|by apply Hk].
  - intros h c [[<- <-]|[_ Hc]]%lookup_insert_Some; [by eexists|].
    destruct (Hr h c Hc) as [lc Hlc]. exists lc. by apply ancestry_store.
  - by rewrite lookup_insert_ne.
  - exists (p :: l'). split; [|done]. by rewrite <- Hprev.
Qed.

Lemma replay_from_app params l k set :
  replay_from params (l ++ k) set = replay_from params l set ≫= replay_from params k.
Proof.
  revert set; induction l as [|b l IH]; intros set; [done|]. cbn [app replay_from].
  destruct (apply_block params b set) as [set' [|]]; [apply IH|done].
Qed.

Lemma ensure_synced_spec params s s1 r :
  state_ok params s -> ensure_utxo_synced params s = (s1, r) ->
  state_ok params s1 /\ cf_blocks (db s1) = cf_blocks (db s) /\ tip_cache s1 = tip_cache s /\
  match r with Ok _ => synced s1 | Err _ => s1 = s end.
Proof.
  intros [Hbs Hs]. unfold ensure_utxo_synced, get_state, modify, lift_result, mbind, stateful_bind.
  destruct Hs as [[Hemp Hh Hdb]|(t & l & [Htip Hh Hmeta Hhd Hanc Hidx Hutxo Hmk])].
  { rewrite Hemp. intros [= <- <-]. split_and!; try done; [by split; [|left; split]|]. intros t. by rewrite Hemp. }
  rewrite Htip. case_bool_decide as Hm.
  { intros [= <- <-]. split_and!; try done; [by split; [|right; exists t, l; split]|].
    intros t'. rewrite Htip. by intros [= <-]. }
  rewrite (canonical_blocks_spec _ _ _ (blocks_keyed _ Hbs) Hanc Hidx).
  destruct (replay_utxo params (reverse l)) as [set|e] eqn:Hrep; cbn [map_err];
    intros [= <- <-]; [|by split_and!; [split; [|right; exists t, l; split]|..]].
  rewrite write_rewrite_utxo. destruct s as [d tc hc ld]; simpl in *.
  split_and!; try done.
  - split; [done|]. right. exists t, l. split; try done. simpl.
    intros h [= <-]. destruct (ancestry_tip _ _ _ Hanc) as (? & ? & _ & ->). eauto.
  - intros t' Ht'. simpl in *. by simplify_eq.
Qed.

Lemma ensure_synced_canonical params s s1 r :
  ensure_utxo_synced params s = (s1, r) -> cf_canonical (db s1) = cf_canonical (db s).
Proof.
  unfold ensure_utxo_synced, get_state, modify, lift_result, mbind, stateful_bind.
  destruct (tip_cache s); [|by intros [= <- _]]. case_bool_decide; [by intros [= <- _]|].
  destruct (replay_utxo _ _); intros [= <- _]; [|done]. by rewrite write_rewrite_utxo.
Qed.

Lemma stored_tip_ok params b s t l :
  cf_blocks (db s) !! block_hash b = None -> tip_ok params s t l -> tip_ok params (stored b s) t l.
Proof.
  intros Hnew [?????? Hu Hmk]. split; try done; [by apply ancestry_store|].
  intros h Hh. simpl. apply lookup_insert_is_Some'. right. by apply Hmk.
Qed.

(** The fast path: the block becomes the tip, the delta is its application. *)
Lemma extend_tip_spec params b s t l s' r :
  tip_ok params s t l -> synced s -> ancestry (cf_blocks (db s)) (block_hash b) (b :: l) ->
  extend_tip params b s = (s', r) ->
  cf_blocks (db s') = cf_blocks (db s) /\
  match r with
  | Ok _ => tip_ok params s' b (b :: l) /\ synced s' /\ last_disconnected s' = last_disconnected s
  | Err _ => s' = s
  end.
Proof.
  intros [Htip Hh Hmeta Hhd Hanc Hidx Hutxo Hmk] Hsync Hb.
  unfold extend_tip, get_state, modify, lift_result, mbind, stateful_bind. cbv beta zeta.
  destruct (validate_block_utxo (db s) params b) as [[]|e] eqn:Hv; intros [= <- <-]; [|done].
  apply validate_block_utxo_spec in Hv as [set Hset].
  rewrite (write_extend_batch _ _ _ _ Hset).
  split; [done|]. split; [|split; [|done]].
  - split; simpl; try done; [by rewrite Hidx|intros _|].
    2: { intros h [= <-]. destruct (ancestry_tip _ _ _ Hb) as (? & ? & _ & ->). eauto. }
    unfold replay_utxo in *. rewrite reverse_cons, replay_from_app, (Hutxo (Hsync _ Htip)).
    cbn [mbind result_bind replay_from]. by rewrite Hset.
  - intros t' [= <-]. done.
Qed.

Lemma extend_tip_blocks params b s s' e : extend_tip params b s = (s', Err e) -> s' = s.
Proof.
  unfold extend_tip, get_state, modify, lift_result, mbind, stateful_bind. cbv beta zeta.
  by destruct (validate_block_utxo _ _ _) as [[]|]; intros [=].
Qed.

Lemma reorganise_blocks params b h s s' e : reorganise params b h s = (s', Err e) -> s' = s.
Proof.
  unfold reorganise, get_state, modify, lift_result, mbind, stateful_bind. cbv beta zeta.
  by destruct (map_err _ _) as [?|]; intros [=].
Qed.

(** The canonical index after a reorganisation: the new chain's, the stale tail pruned. *)
Lemma reorg_index bs h h' l l' b t :
  ancestry bs h (t :: l) -> ancestry bs h' (b :: l') ->
  foldl (λ c n, delete n c)
    (foldl (λ c '(n, k), <[n := k]> c) (index_of (t :: l))
       ((λ b, (height (header b), block_hash b)) <$> reverse (b :: l')))
    (stale_heights (height (header b)) (height (header t)))
  = index_of (b :: l').
Proof.
  intros Hl Hl'. rewrite foldl_insert_union.
  2: { rewrite fmap_reverse, fmap_reverse, reverse_Permutation. by eapply index_keys. }
  rewrite fmap_reverse.
  replace (list_to_map (reverse _)) with (index_of (b :: l')).
  2: { apply list_to_map_proper; [by eapply index_keys|by rewrite reverse_Permutation]. }
  pose proof (ancestry_tip_height _ _ _ _ Hl). pose proof (ancestry_tip_height _ _ _ _ Hl').
  apply map_eq. intros n. rewrite lookup_foldl_delete. unfold stale_heights.
  case_decide as Hst; [apply elem_of_seqZ in Hst; symmetry; eapply index_lookup_None; [done|simpl; lia]|].
  rewrite lookup_union. destruct (index_of (b :: l') !! n) eqn:Hn; [by rewrite union_Some_l|].
  rewrite (left_id_L None (∪)). destruct (decide (n < 0 \/ Z.of_nat (length (t :: l)) <= n)) as [Ho|Hin].
  { by eapply index_lookup_None. }
  exfalso. assert (0 <= n <= Z.of_nat (length l')) as Hr.
  { rewrite elem_of_seqZ in Hst. simpl in *. lia. }
  destruct (lookup_lt_is_Some_2 (b :: l') (Z.to_nat (Z.of_nat (length l') - n))) as [c Hc]; [simpl; lia|].
  pose proof (ancestry_heights _ _ _ Hl' _ _ Hc) as Hch.
  assert (index_of (b :: l') !! n = Some (block_hash c)) as Hs; [|congruence].
  eapply index_lookup; [done|]. exists c. split_and!; [by eapply list_elem_of_lookup_2| |done]. simpl in *. lia.
Qed.

(** A reorganisation: the new branch is replayed from nothing. *)
Lemma reorganise_spec params b s t l l' s' r :
  blocks_ok (cf_blocks (db s)) -> tip_ok params s t l ->
  ancestry (cf_blocks (db s)) (block_hash b) (b :: l') ->
  reorganise params b (block_hash t) s = (s', r) ->
  cf_blocks (db s') = cf_blocks (db s) /\
  match r with
  | Ok _ => tip_ok params s' b (b :: l') /\ synced s' /\
      last_disconnected s' = drop (fork_index (reverse l) (reverse (b :: l'))) (reverse l)
  | Err _ => s' = s
  end.
Proof.
  intros Hbs [Htip Hh Hmeta Hhd Hanc Hidx Hutxo Hmk] Hb.
  unfold reorganise, get_state, modify, lift_result, mbind, stateful_bind. cbv beta zeta.
  rewrite (build_canonical_chain_spec _ _ _ (blocks_keyed _ Hbs) Hb).
  rewrite (build_canonical_chain_spec _ _ _ (blocks_keyed _ Hbs) Hanc).
  destruct (replay_utxo params (reverse (b :: l'))) as [set|e] eqn:Hrep; intros [= <- <-]; [|done].
  rewrite reverse_cons, last_snoc, <- reverse_cons, Hh.
  change (db (with_disconnected _ s)) with (db s). rewrite write_reorg_batch.
  destruct l as [|t' l0]; simplify_eq/=.
  split; [done|]. split; [|split; [|done]].
  - split; simpl; try done; [rewrite Hidx; by eapply reorg_index|].
    intros h [= <-]. destruct (ancestry_tip _ _ _ Hb) as (? & ? & _ & ->). eauto.
  - intros t0 [= <-]. done.
Qed.

(** *** One step *)

(** After synchronisation and storage of a valid child the state is still good,
    and the child has an ancestry through its parent. *)
Lemma stored_ok params b now s s1 p :
  state_ok params s -> Z.of_nat (size (cf_blocks (db s))) < U64_MAX -> block_hash b <> ZERO ->
  cf_blocks (db s) !! block_hash b = None -> ensure_utxo_synced params s = (s1, Ok ()) ->
  valid_child params s1 b now p ->
  exists t l lp, tip_cache s = Some t /\ tip_cache s1 = Some t /\ synced s1 /\
    cf_blocks (db s1) = cf_blocks (db s) /\
    blocks_ok (cf_blocks (db (stored b s1))) /\ tip_ok params (stored b s1) t l /\
    cf_canonical (db s1) = cf_canonical (db s) /\
    previous_hash (header b) = block_hash p /\ ancestry (cf_blocks (db s1)) (block_hash p) lp /\
    ancestry (cf_blocks (db (stored b s1))) (block_hash b) (b :: lp).
Proof.
  intros Hok Hsize Hnz Hnew Hs1 [Hp Hv].
  destruct (ensure_synced_spec _ _ _ _ Hok Hs1) as ([Hbs Hst] & Hbl & Htc & Hsync).
  unfold get_block_by_hash in Hp.
  destruct Hst as [[_ _ Hemp]|(t & l & Htip)]; [by rewrite Hemp in Hp|].
  assert (cf_blocks (db s1) !! block_hash b = None) as Hnew1 by by rewrite Hbl.
  destruct (blocks_ok_child _ _ _ _ _ _ _ Hbs ltac:(by rewrite Hbl) Hnz Hnew1 Hp Hv) as (Hbs' & lp & Hlp & Hb).
  exists t, l, lp. pose proof (tip_cached _ _ _ _ Htip) as Ht1.
  split_and!; try done; [congruence|by apply stored_tip_ok| |by apply validate_child_spec in Hv as (_ & ? & _)].
  destruct Hok as [Hbs0 [[Ht _ _]|(t0 & l0 & [Ht0 _ _ _ Ha0 Hi0 _ _])]]; [congruence|].
  destruct Htip as [_ _ _ _ Ha Hi _ _]. rewrite Hbl in Ha. assert (t0 = t) as -> by congruence.
  by rewrite Hi, Hi0, (ancestry_det _ _ _ _ Ha Ha0).
Qed.

Lemma chain_work_blocks d d' h : cf_blocks d = cf_blocks d' -> chain_work d h = chain_work d' h.
Proof.
  intros E. unfold chain_work, walk_fuel. rewrite E. generalize (S (S (size (cf_blocks d')))) as fuel, 0.
  intros fuel. revert h; induction fuel as [|fuel IH]; intros h w; [done|]. cbn [chain_work_loop].
  unfold get_block_by_hash. rewrite E. destruct (cf_blocks d' !! h); [|done]. case_decide; [done|apply IH].
Qed.

(** How the two ways to a new tip end. *)
Lemma step_conclusion params b s s1 s2 r t l lb :
  tip_cache s = Some t -> cf_blocks (db s1) = cf_blocks (db s) -> tip_cache s1 = Some t ->
  cf_blocks (db s) !! block_hash b = None ->
  cf_canonical (db s1) = cf_canonical (db s) -> heavier b (stored b s1) ->
  blocks_ok (cf_blocks (db (stored b s1))) -> tip_ok params (stored b s1) t l ->
  cf_blocks (db s2) = cf_blocks (db (stored b s1)) ->
  match r with
  | Ok _ => tip_ok params s2 b lb /\ synced s2 /\ True
  | Err _ => s2 = stored b s1
  end ->
  state_ok params s2 /\ cf_blocks (db s) ⊆ cf_blocks (db s2) /\
  ((r : result StateError ()) ≫= (λ _, Ok b) = Ok b -> synced s2) /\
  ((tip_cache s2 = tip_cache s /\ cf_canonical (db s2) = cf_canonical (db s)) \/
   (r ≫= (λ _, Ok b) = Ok b /\ tip_cache s2 = Some b /\ synced s2 /\
    chain_work (db s2) (tip_hash s) < chain_work (db s2) (block_hash b))).
Proof.
  intros Hts Hbl Ht1 Hnew Hcan Hw Hbs Htip Hbl2 Hr.
  assert (cf_blocks (db s) ⊆ cf_blocks (db s2)) as Hsub.
  { rewrite Hbl2. simpl. rewrite Hbl. by apply insert_subseteq. }
  split; [|split; [done|split]].
  - split; [by rewrite Hbl2|]. right. destruct r; [destruct Hr as (Htb & _); eauto|rewrite Hr; eauto].
  - by destruct r; [intros _; apply Hr|].
  - destruct r; [right|left; rewrite Hr; split; [by rewrite Hts|done]].
    destruct Hr as (Htb & Hsy & _). split_and!; [done|by apply Htb|done|].
    unfold heavier in Hw. rewrite (chain_work_blocks (db s2) _ _ Hbl2), (chain_work_blocks (db s2) _ _ Hbl2).
    unfold tip_hash in *. simpl in *. by rewrite Hts, Ht1 in *.
Qed.

Lemma submit_step_ok params b now s s' r :
  state_ok params s -> Z.of_nat (size (cf_blocks (db s))) < U64_MAX -> block_hash b <> ZERO ->
  submit_step params b now s s' r ->
  state_ok params s' /\ cf_blocks (db s) ⊆ cf_blocks (db s') /\ (r = Ok b -> synced s') /\
  ((tip_cache s' = tip_cache s /\ cf_canonical (db s') = cf_canonical (db s)) \/
   (r = Ok b /\ tip_cache s' = Some b /\ synced s' /\
    chain_work (db s') (tip_hash s) < chain_work (db s') (block_hash b))).
Proof.
  intros Hok Hsize Hnz Hstep.
  assert (Hsame : forall s1 r1, ensure_utxo_synced params s = (s1, r1) ->
    state_ok params s1 /\ cf_blocks (db s) ⊆ cf_blocks (db s1) /\
    tip_cache s1 = tip_cache s /\ cf_canonical (db s1) = cf_canonical (db s)).
  { intros s1 r1 Hs1. destruct (ensure_synced_spec _ _ _ _ Hok Hs1) as (Hok1 & Hbl & Htc & _).
    split_and!; [done|by rewrite Hbl|done|]. by eapply ensure_synced_canonical. }
  destruct Hstep as [Hk|s1 e Hk Hs1|s1 Hk Hs1 Hp|s1 p e Hk Hs1 Hp Hv|s1 p Hk Hs1 Hc Hw
    |s1 p s2 r Hk Hs1 Hc Hw Hprev Hext|s1 p s2 r Hk Hs1 Hc Hw Hprev Hext].
  - split_and!; [done|done|done|by left].
  - destruct (Hsame _ _ Hs1) as (? & ? & ?). split_and!; [done|done|done|by left].
  - destruct (Hsame _ _ Hs1) as (? & ? & ?). split_and!; [done|done|done|by left].
  - destruct (Hsame _ _ Hs1) as (? & ? & ?). split_and!; [done|done|done|by left].
  - destruct (stored_ok _ _ _ _ _ _ Hok Hsize Hnz Hk Hs1 Hc)
      as (t & l & lp & Hts & Ht1 & Hsync & Hbl & Hbs & Htip & Hcan & _).
    split_and!; [split; [done|right; by eexists _, _]| |done|left; split; [by rewrite Hts|done]].
    simpl. rewrite Hbl. by apply insert_subseteq.
  - destruct (stored_ok _ _ _ _ _ _ Hok Hsize Hnz Hk Hs1 Hc)
      as (t & l & lp & Hts & Ht1 & Hsync & Hbl & Hbs & Htip & Hcan & Hpp & Hlp & Hb).
    assert (lp = l) as ->.
    { assert (cf_blocks (db s1) !! block_hash b = None) as Hk1 by by rewrite Hbl.
      apply (ancestry_det _ _ _ _ (ancestry_store _ b _ _ Hk1 Hlp)). rewrite <- Hpp, Hprev. unfold tip_hash. rewrite Ht1. apply Htip. }
    destruct (extend_tip_spec _ _ _ _ _ _ _ Htip Hsync Hb Hext) as [Hbl2 Hr].
    eapply (step_conclusion _ _ _ _ _ _ t l); eauto. by destruct r as [[]|]; [destruct Hr as (? & ? & _)|].
  - destruct (stored_ok _ _ _ _ _ _ Hok Hsize Hnz Hk Hs1 Hc)
      as (t & l & lp & Hts & Ht1 & Hsync & Hbl & Hbs & Htip & Hcan & Hpp & Hlp & Hb).
    unfold tip_hash in Hext. rewrite Ht1 in Hext.
    destruct (reorganise_spec _ _ _ _ _ _ _ _ Hbs Htip Hb Hext) as [Hbl2 Hr].
    eapply (step_conclusion _ _ _ _ _ _ t l); eauto. by destruct r as [[]|]; [destruct Hr as (? & ? & _)|].
Qed.

(** ** The operations that extend the tip without a submission *)

Lemma write_put_block b d :
  write_batch (put_block_batch b) d =
    set_meta (Some (block_hash b)) (Some (height (header b))) (Some (chain_id (header b))) (meta_utxo_tip d)
      (set_canonical (<[height (header b) := block_hash b]>) (set_blocks (<[block_hash b := b]>) d)).
Proof. done. Qed.

Definition committed (b : Block) (s : ChainState) : ChainState :=
  with_tip b (height (header b)) (with_db (write_batch (put_block_batch b) (db s)) s).

Lemma commit_genesis_ok params b s :
  empty_state s -> height (header b) = 0 -> previous_hash (header b) = ZERO -> block_hash b <> ZERO ->
  state_ok params (committed b s).
Proof.
  intros [_ _ Hdb] Hh Hp Hnz. unfold committed. rewrite write_put_block, Hdb.
  assert (forall h c, (<[block_hash b := b]> (∅ : Blocks)) !! h = Some c -> h = block_hash b /\ c = b) as Hin.
  { intros h c [[<- <-]|[_ Hc]]%lookup_insert_Some; [done|by rewrite lookup_empty in Hc]. }
  assert (ancestry (<[block_hash b := b]> ∅) (block_hash b) [b]) as Hanc
    by (apply ancestry_genesis; [by rewrite lookup_insert_eq|done|done]).
  split; [split|right; exists b, [b]; split; simpl; done].
  - by intros h c [-> ->]%Hin.
  - intros h c [-> ->]%Hin. eauto.
  - simpl. by rewrite lookup_insert_ne, lookup_empty.
Qed.

Lemma commit_child_ok params b s t l now bits seed :
  blocks_ok (cf_blocks (db s)) -> tip_ok params s t l ->
  Z.of_nat (size (cf_blocks (db s))) < U64_MAX -> block_hash b <> ZERO ->
  cf_blocks (db s) !! block_hash b = None ->
  validate_block params (Some t) b now bits seed = Ok () -> state_ok params (committed b s).
Proof.
  intros Hbs [Htip Hh Hmeta Hhd Hanc Hidx Hutxo Hmk] Hsize Hnz Hnew Hv.
  pose proof (validate_child_spec _ _ _ _ _ _ Hv) as (_ & Hprev & _).
  assert (cf_blocks (db s) !! previous_hash (header b) = Some t) as Hp.
  { rewrite Hprev. destruct (ancestry_tip _ _ _ Hanc) as (t' & l' & -> & ->). by injection Hhd as ->. }
  destruct (blocks_ok_child _ _ _ _ _ _ _ Hbs Hsize Hnz Hnew Hp Hv) as (Hbs' & l2 & Hl2 & Hb).
  rewrite (ancestry_det _ _ _ _ Hl2 Hanc) in Hb.
  unfold committed. rewrite write_put_block. split; [done|]. right. exists b, (b :: l).
  split; simpl; try done.
  - by rewrite Hidx.
  - intros Hm. apply Hmk in Hm. rewrite Hnew in Hm. by destruct Hm.
  - intros h Hm. apply lookup_insert_is_Some'. right. by apply Hmk.
Qed.

Lemma new_state_ok params : state_ok params new_state.
Proof.
  split; [split|left; by split]; simpl.
  - intros h b. by rewrite lookup_empty.
  - intros h b. by rewrite lookup_empty.
  - by rewrite lookup_empty.
Qed.

Lemma mined_header h seed max_nonce h' :
  mine_header h seed max_nonce = Some h' -> exists k, h' = with_nonce k h.
Proof.
  unfold mine_header. pose proof (mine_from_spec (Z.to_nat (max_nonce + 1)) 0 h seed) as Hm.
  intros E. rewrite E in Hm. destruct Hm as (k & _ & -> & _). eauto.
Qed.

(** A mined candidate keeps the position of the candidate. *)
Lemma mine_candidate_position params parent ts miner max_nonce bits seed b :
  mine_candidate_block params parent ts miner max_nonce bits seed = Ok b ->
  height (header b) = next_height parent /\
  previous_hash (header b) = match parent with None => ZERO | Some p => block_hash p end.
Proof.
  unfold mine_candidate_block. intros Hm. inv_ok Hm. injection Hm as <-.
  apply mined_header in Hok as [k ->]. done.
Qed.

Lemma state_ok_empty params s : state_ok params s -> height_cache s = None -> empty_state s.
Proof. intros [_ [He|(t & l & [_ Hh _ _ _ _ _ _])]] Hn; [done|congruence]. Qed.

Lemma init_genesis_spec params ts max_nonce s s' b :
  init_genesis params ts max_nonce s = (s', Ok b) ->
  height_cache s = None /\ height (header b) = 0 /\ previous_hash (header b) = ZERO /\ s' = committed b s.
Proof.
  unfold init_genesis, commit_tip, validated, get_state, modify, lift_result, mret, stateful_ret,
    mbind, stateful_bind. cbv beta zeta.
  case_bool_decide as Hc; [done|]. cbn [reject_if].
  destruct (mine_candidate_block _ _ _ _ _ _ _) as [c|] eqn:Hm; [|done].
  apply mine_candidate_position in Hm as [Hh Hp]. simpl in Hh, Hp.
  destruct (validate_block _ _ _ _ _ _) as [[]|]; [|done]. cbn [map_err]. intros [= <- <-].
  split_and!; [by apply eq_None_not_Some|done|done|]. unfold committed. by rewrite Hh.
Qed.

Lemma init_genesis_nonce_spec params ts n s s' b :
  init_genesis_nonce params ts n s = (s', Ok b) ->
  height_cache s = None /\ height (header b) = 0 /\ previous_hash (header b) = ZERO /\ s' = committed b s.
Proof.
  unfold init_genesis_nonce, commit_tip, validated, get_state, modify, lift_result, mret, stateful_ret,
    mbind, stateful_bind. cbv beta zeta.
  case_bool_decide as Hc; [done|]. cbn [reject_if].
  destruct (reject_if _ MiningFailed) as [[]|]; [|done].
  destruct (validate_block _ _ _ _ _ _) as [[]|]; [|done]. cbn [map_err]. intros [= <- <-].
  by split_and!; [apply eq_None_not_Some| | |].
Qed.

Lemma mine_next_spec params ts miner max_nonce s s' b :
  mine_next_block params ts miner max_nonce s = (s', Ok b) ->
  exists t, tip_cache s = Some t /\ s' = committed b s /\
    validate_block params (Some t) b ts (expected_leading_zero_bits_for (db s) params (Some t))
      (epoch_seed_for_height (db s) (next_height (Some t))) = Ok ().
Proof.
  unfold mine_next_block, commit_tip, validated, get_state, modify, lift_result, mret, stateful_ret,
    mbind, stateful_bind. cbv beta zeta.
  destruct (tip_cache s) as [t|]; [|done]. cbn [ok_or].
  destruct (mine_candidate_block _ _ _ _ _ _ _) as [c|]; [|done].
  destruct (validate_block _ _ _ _ _ _) as [[]|] eqn:Hv; [|done]. cbn [map_err]. intros [= <- <-].
  by exists t.
Qed.

(** ** The state machine *)

(** The operations on a chain state, with what is assumed of the hash function:
    no block hashes to zero, and a mined block is not one already stored. *)
Inductive op_step (params : ConsensusParams) (s : ChainState) : ChainState -> Prop :=
| step_genesis ts max_nonce s' b :
    init_genesis params ts max_nonce s = (s', Ok b) -> block_hash b <> ZERO -> op_step params s s'
| step_genesis_nonce ts n s' b :
    init_genesis_nonce params ts n s = (s', Ok b) -> block_hash b <> ZERO -> op_step params s s'
| step_mine ts miner max_nonce s' b :
    mine_next_block params ts miner max_nonce s = (s', Ok b) -> block_hash b <> ZERO ->
    cf_blocks (db s) !! block_hash b = None ->
    Z.of_nat (size (cf_blocks (db s))) < U64_MAX -> op_step params s s'
| step_submit b now :
    block_hash b <> ZERO -> Z.of_nat (size (cf_blocks (db s))) < U64_MAX ->
    op_step params s (submit_block params b now s).1
| step_sync s' r : ensure_utxo_synced params s = (s', r) -> op_step params s s'
| step_requeue : op_step params s (take_reorg_requeue_candidates s).1
| step_reopen : op_step params s (open_db (db s)).

Lemma op_step_ok params s s' : state_ok params s -> op_step params s s' -> state_ok params s'.
Proof.
  intros Hok Hstep.
  destruct Hstep as [ts m s' b Hg Hnz|ts n s' b Hg Hnz|ts mi m s' b Hm Hnz Hnew Hsize
    |b now Hnz Hsize|s' r Hs| |].
  - apply init_genesis_spec in Hg as (Hn & Hh & Hp & ->). eapply commit_genesis_ok; try done.
    by eapply state_ok_empty.
  - apply init_genesis_nonce_spec in Hg as (Hn & Hh & Hp & ->). eapply commit_genesis_ok; try done.
    by eapply state_ok_empty.
  - apply mine_next_spec in Hm as (t & Ht & -> & Hv). destruct Hok as [Hbs [[He _ _]|(t' & l & Htip)]]; [congruence|].
    assert (t' = t) as -> by (pose proof (tip_cached _ _ _ _ Htip); congruence). by eapply commit_child_ok.
  - by eapply submit_step_ok, submit_block_step.
  - by apply (ensure_synced_spec _ _ _ _ Hok Hs).
  - destruct Hok as [Hbs [[]|(t & l & [])]]; split; try done; [left|right; exists t, l]; by split.
  - destruct Hok as [Hbs [[Ht Hh Hdb]|(t & l & [Ht Hh Hm Hhd Ha Hi Hu Hk])]].
    + rewrite Hdb. apply new_state_ok.
    + destruct (ancestry_tip _ _ _ Ha) as (t' & l' & -> & Ht'). injection Hhd as ->.
      unfold open_db, reload_caches. cbn [db]. rewrite Hm, Ht'. split; [done|]. right. exists t, (t :: l'). by split.
Qed.
End StateInv.
