(* ===== verification/StateProps.v ===== *)
(** * What the chain state guarantees

    The properties of the node's chain: the canonical index is one linked chain,
    fork choice only moves to more work, the UTXO family is the replay of the
    canonical chain, and the supply stays on schedule. *)

From S2P Require Import Prelude Crypto Hash Chain Validation ScriptVM Block Utxo.
From S2P Require Import BlockFacts UtxoSupply Storage State StateDb StateChain StateInv Fixture.

Local Open Scope Z_scope.

Section Linked.
Context `{Crypto}.

(** Genesis first: heights from zero, each block on the previous one's hash. *)
Definition linked_chain (l : list Block) : Prop :=
  forall i b, l !! i = Some b ->
    height (header b) = Z.of_nat i /\
    match i with
    | O => previous_hash (header b) = ZERO
    | S j => exists p, l !! j = Some p /\ previous_hash (header b) = block_hash p
    end.

Lemma ancestry_linked bs h l : keyed bs -> ancestry bs h l -> linked_chain (reverse l).
Proof.
  intros Hk. induction 1 as [h b Hb Hz Hh|h b p l Hb Hnz Hp IH Hh].
  - by intros [|i] c Hc; simplify_eq/=.
  - intros i c Hc. rewrite reverse_cons in Hc.
    assert (length (reverse (p :: l)) = S (length l)) as Hlen by by rewrite length_reverse.
    pose proof (ancestry_tip_height _ _ _ _ Hp) as Hph.
    destruct (ancestry_tip _ _ _ Hp) as (p' & l' & [= -> ->] & Hp').
    apply lookup_snoc_Some in Hc as [[Hi Hc]|[-> <-]].
    + destruct (IH i c Hc) as [Hhc Hpc]. split; [done|]. destruct i as [|j]; [done|].
      destruct Hpc as (q & Hq & Hqp). exists q. split; [|done]. rewrite reverse_cons. by apply lookup_app_l_Some.
    + rewrite Hlen. split; [lia|]. exists p'. split; [|by apply Hk].
      rewrite reverse_cons. apply lookup_app_l_Some. rewrite reverse_cons.
      replace (length l') with (length (reverse l')) by by rewrite length_reverse.
      by rewrite list_lookup_middle.
Qed.

(** Two stored chains that meet at a block agree below it. *)
Lemma linked_agree (bs : Blocks) k k' i c :
  linked_chain k -> linked_chain k' ->
  (forall b, b ∈ k -> bs !! block_hash b = Some b) -> (forall b, b ∈ k' -> bs !! block_hash b = Some b) ->
  k !! i = Some c -> k' !! i = Some c -> forall j, (j <= i)%nat -> is_Some (k !! j) /\ k !! j = k' !! j.
Proof.
  intros Hk Hk' Hs Hs'. revert c; induction i as [|i IH]; intros c Hc Hc' j Hj.
  - assert (j = 0%nat) as -> by lia. rewrite Hc, Hc'. eauto.
  - destruct (decide (j = S i)) as [->|Hne]; [rewrite Hc, Hc'; eauto|].
    destruct (Hk _ _ Hc) as (_ & p & Hp & Hpp), (Hk' _ _ Hc') as (_ & p' & Hp' & Hpp').
    assert (p = p') as <-.
    { apply (inj Some). rewrite <- (Hs p), <- (Hs' p'); [congruence|by eapply list_elem_of_lookup_2..]. }
    eapply IH; try done. lia.
Qed.

Lemma fork_index_prefix old new i :
  (forall j, (j <= i)%nat -> is_Some (old !! j) /\ old !! j = new !! j) -> (i < fork_index old new)%nat.
Proof.
  revert old new; induction i as [|i IH]; intros old new Hj;
    destruct (Hj 0%nat ltac:(lia)) as [[b Hb] E]; destruct old as [|b' old]; simplify_eq/=;
    destruct new as [|b' new]; simplify_eq/=; rewrite decide_True by done; [lia|].
  apply -> Nat.succ_lt_mono. apply IH. intros j Hle. apply (Hj (S j)). lia.
Qed.

Lemma fork_index_same old new i c :
  (i < fork_index old new)%nat -> old !! i = Some c ->
  exists c', new !! i = Some c' /\ block_hash c = block_hash c'.
Proof.
  revert new i; induction old as [|b old IH]; intros [|b' new] i; simpl; try lia.
  case_decide; [|lia]. destruct i as [|i]; intros Hi Hc; [injection Hc as ->; eauto|]. apply (IH new i); [lia|done].
Qed.

(** What the diff of a reorganisation disconnects. *)
Lemma fork_diff (bs : Blocks) old new c :
  linked_chain old -> linked_chain new ->
  (forall b, b ∈ old -> bs !! block_hash b = Some b) -> (forall b, b ∈ new -> bs !! block_hash b = Some b) ->
  c ∈ drop (fork_index old new) old <-> c ∈ old /\ c ∉ new.
Proof.
  intros Hk Hk' Hs Hs'. split.
  - intros [i Hi]%list_elem_of_lookup. rewrite lookup_drop in Hi.
    split; [by eapply list_elem_of_lookup_2|]. intros [i' Hi']%list_elem_of_lookup.
    assert (i' = (fork_index old new + i)%nat) as ->.
    { destruct (Hk _ _ Hi) as [Hh _], (Hk' _ _ Hi') as [Hh' _]. lia. }
    pose proof (fork_index_prefix old new (fork_index old new + i)
      (linked_agree bs _ _ _ _ Hk Hk' Hs Hs' Hi Hi')). lia.
  - intros [[i Hi]%list_elem_of_lookup Hn].
    destruct (decide (i < fork_index old new)%nat) as [Hlt|Hge].
    + exfalso. destruct (fork_index_same _ _ _ _ Hlt Hi) as (c' & Hc' & Hh). apply Hn.
      apply list_elem_of_lookup_2 in Hi, Hc'. assert (c = c') as ->; [|done].
      apply (inj Some). by rewrite <- (Hs c), <- (Hs' c'), Hh by done.
    + apply list_elem_of_lookup. exists (i - fork_index old new)%nat. rewrite lookup_drop, <- Hi. f_equal. lia.
Qed.
End Linked.

Section StateProps.
Context `{Crypto} `{!IterOrder OutPoint UtxoEntry}.
Implicit Types (s : ChainState).

Lemma state_ok_tip params s t :
  state_ok params s -> tip_cache s = Some t ->
  exists l, tip_ok params s t (t :: l) /\ ancestry (cf_blocks (db s)) (block_hash t) (t :: l).
Proof.
  intros [_ [[He _ _]|(t' & l & Htip)]] Ht; [congruence|]. pose proof (tip_cached _ _ _ _ Htip).
  assert (t' = t) as -> by congruence. pose proof (tip_head _ _ _ _ Htip) as Hhd.
  destruct l as [|? l]; simplify_eq/=. exists l. split; [done|apply Htip].
Qed.

Lemma state_ok_canonical params s t l :
  state_ok params s -> tip_ok params s t l -> canonical_blocks (db s) = reverse l.
Proof. intros [Hbs _] Htip. eapply canonical_blocks_spec; [apply Hbs|apply Htip|apply Htip]. Qed.

(** A good state finds by height what its canonical list has there. *)
Lemma canonical_lookup params s t l n :
  state_ok params s -> tip_ok params s t l -> 0 <= n ->
  get_block_by_height (db s) n = reverse l !! Z.to_nat n.
Proof.
  intros [[Hk _ _] _] Htip Hn. pose proof (tip_ancestry _ _ _ _ Htip) as Ha.
  unfold get_block_by_height. rewrite (tip_index _ _ _ _ Htip).
  pose proof (ancestry_heights _ _ _ Ha) as Hhs.
  destruct (decide (n < Z.of_nat (length l))) as [Hin|Hout].
  - destruct (lookup_lt_is_Some_2 l (length l - 1 - Z.to_nat n)) as [b Hb]; [lia|].
    rewrite (proj2 (index_lookup _ _ _ n (block_hash b) Ha)).
    2: { exists b. split_and!; [by eapply list_elem_of_lookup_2| |done]. rewrite (Hhs _ _ Hb). lia. }
    cbn [mbind option_bind]. rewrite (ancestry_stored _ _ _ b Hk Ha) by by eapply list_elem_of_lookup_2.
    rewrite reverse_lookup by lia. rewrite <- Hb. f_equal. lia.
  - rewrite (index_lookup_None _ _ _ n Ha) by lia. symmetry. apply lookup_ge_None.
    rewrite length_reverse. lia.
Qed.

(** Work does not depend on later blocks. *)
Lemma chain_work_grows params s s' :
  state_ok params s -> state_ok params s' -> cf_blocks (db s) ⊆ cf_blocks (db s') ->
  chain_work (db s) (tip_hash s) = chain_work (db s') (tip_hash s).
Proof.
  intros [Hbs Hs] [Hbs' _] Hsub. unfold tip_hash.
  destruct Hs as [[Ht _ _]|(t & l & Htip)].
  - rewrite Ht. unfold chain_work, walk_fuel. cbn [chain_work_loop]. unfold get_block_by_hash.
    by rewrite (blocks_nonzero _ Hbs), (blocks_nonzero _ Hbs').
  - rewrite (tip_cached _ _ _ _ Htip). pose proof (tip_ancestry _ _ _ _ Htip) as Ha.
    rewrite (chain_work_spec _ _ _ (blocks_keyed _ Hbs) Ha).
    by rewrite (chain_work_spec _ _ _ (blocks_keyed _ Hbs') (ancestry_weaken _ _ _ _ Hsub Ha)).
Qed.

(** ** Properties *)

(** C1: The invariant of the chain state holds in every state the operations
    reach from an empty database: genesis by search or by nonce, local mining,
    submission of any block with any outcome, synchronisation, requeueing and
    reopening the database. *)
Theorem reachable_state_ok params s :
  rtc (op_step params) new_state s -> state_ok params s.
Proof.
  revert s. apply rtc_ind_r; [apply new_state_ok|]. intros s1 s2 _ Hst IH. by eapply op_step_ok.
Qed.

(** The canonical column family is one linked chain: iterating it yields
    blocks at heights 0, 1, 2, ..., each naming the hash of the one before, the
    first a genesis block and the last the cached tip; looking a height up
    yields the same block, and nothing is found beyond the tip. *)
Theorem canonical_chain_linked params s t :
  state_ok params s -> tip_cache s = Some t ->
  linked_chain (canonical_blocks (db s)) /\ last (canonical_blocks (db s)) = Some t /\
  forall n, 0 <= n -> get_block_by_height (db s) n = canonical_blocks (db s) !! Z.to_nat n.
Proof.
  intros Hok Ht. destruct (state_ok_tip _ _ _ Hok Ht) as (l & Htip & Ha).
  rewrite (state_ok_canonical _ _ _ _ Hok Htip). split; [eapply ancestry_linked; [apply Hok|done]|].
  split; [by rewrite reverse_cons, last_snoc|]. intros n Hn. by eapply canonical_lookup.
Qed.

(** C4: Fork choice. Submitting a block never lowers the cumulative work of
    the tip; the tip changes only to the submitted block, on success, and only
    if that block's chain has strictly more work; on an error the tip and the
    canonical index are untouched. *)
Theorem fork_choice params b now s :
  state_ok params s -> Z.of_nat (size (cf_blocks (db s))) < U64_MAX -> block_hash b <> ZERO ->
  let '(s', r) := submit_block params b now s in
  chain_work (db s) (tip_hash s) <= chain_work (db s') (tip_hash s') /\
  (tip_cache s' = tip_cache s /\ cf_canonical (db s') = cf_canonical (db s) \/
   r = Ok b /\ tip_cache s' = Some b /\
   chain_work (db s) (tip_hash s) < chain_work (db s') (block_hash b)).
Proof.
  intros Hok Hsize Hnz. destruct (submit_block params b now s) as [s' r] eqn:Hsub.
  pose proof (submit_block_step params b now s) as Hst. rewrite Hsub in Hst. simpl in Hst.
  destruct (submit_step_ok _ _ _ _ _ _ Hok Hsize Hnz Hst) as (Hok' & Hin & _ & Hcase).
  rewrite (chain_work_grows _ _ _ Hok Hok' Hin).
  destruct Hcase as [[Ht Hc]|(Hr & Ht & _ & Hw)].
  - split; [unfold tip_hash; rewrite Ht; lia|by left].
  - split; [unfold tip_hash at 2; rewrite Ht; lia|by right].
Qed.

(** C2: After every successful submission (extension, side branch or
    reorganisation) the UTXO column family is exactly the replay of the
    canonical chain from an empty set: the incremental fast path and the full
    rebuild agree. *)
Theorem submitted_utxo_is_replay params b now s s' :
  state_ok params s -> Z.of_nat (size (cf_blocks (db s))) < U64_MAX -> block_hash b <> ZERO ->
  submit_block params b now s = (s', Ok b) ->
  replay_utxo params (canonical_blocks (db s')) = Ok (cf_utxo (db s')).
Proof.
  intros Hok Hsize Hnz Hsub.
  pose proof (submit_block_step params b now s) as Hst. rewrite Hsub in Hst. simpl in Hst.
  destruct (submit_step_ok _ _ _ _ _ _ Hok Hsize Hnz Hst) as (Hok' & _ & Hsync & _).
  destruct (tip_cache s') as [t|] eqn:Ht.
  - destruct (state_ok_tip _ _ _ Hok' Ht) as (l & Htip & _).
    rewrite (state_ok_canonical _ _ _ _ Hok' Htip). apply Htip. by apply Hsync.
  - destruct Hok' as [_ [[_ _ ->]|(t & l & Htip)]]; [done|]. pose proof (tip_cached _ _ _ _ Htip). congruence.
Qed.

(** *** Supply *)

Definition premint (params : ConsensusParams) : Z :=
  if has_genesis_premint params 0 then premint_atoms params else 0.

Lemma block_subsidy_at params n :
  block_subsidy params n = reward_at_height params n + (if n =? 0 then premint params else 0).
Proof. unfold block_subsidy, premint, has_genesis_premint. by destruct (Z.eqb_spec n 0) as [->|]. Qed.

Lemma replay_supply params bs h l set :
  emission_ok params -> 0 <= founder_allocation_atoms params ->
  ancestry bs h l -> Forall (λ b, Forall tx_ok (transactions b)) l ->
  premint params + rewards_below params (length l) < U64_MAX ->
  replay_utxo params (reverse l) = Ok set ->
  utxo_total set <= premint params + rewards_below params (length l) /\ set_ok set.
Proof.
  intros He Hf Hl. pose proof (premint_atoms_nonneg params Hf) as Hpre.
  assert (0 <= premint params) as Hpm by (unfold premint; case_match; lia).
  revert set; induction Hl as [h b Hb Hz Hh|h b p l Hb Hnz Hp IH Hh]; intros set Htx Hfit Hrep.
  - apply Forall_cons in Htx as [Htx _]. unfold replay_utxo in Hrep. simpl in Hrep.
    destruct (apply_block params b ∅) as [set' [[]|]] eqn:Hap; [injection Hrep as <-|done].
    apply apply_block_spec in Hap.
    assert (block_subsidy params (height (header b)) = premint params + rewards_below params (length [b])) as Hsub.
    { rewrite block_subsidy_at, Hh. simpl length. rewrite rewards_below_S, Z.eqb_refl.
      change (rewards_below params 0) with 0. change (Z.of_nat 0) with 0. lia. }
    assert (utxo_total ∅ = 0) as H0 by apply map_sum_empty.
    rewrite <- Hsub. destruct (block_conserves params b ∅ set' He Hpre) as [Hle Hok];
      [done|done|by rewrite H0, Hsub|done|]. by rewrite H0 in Hle.
  - apply Forall_cons in Htx as [Hbtx Htx]. unfold replay_utxo in *. rewrite reverse_cons in Hrep.
    rewrite replay_from_app in Hrep. apply bind_Ok in Hrep as (set1 & Hrep1 & Hrep).
    simpl in Hrep. destruct (apply_block params b set1) as [set' [[]|]] eqn:Hap; [injection Hrep as <-|done].
    apply apply_block_spec in Hap. change (length (b :: p :: l)) with (S (length (p :: l))) in *.
    rewrite rewards_below_S in *.
    assert (0 < length (p :: l))%nat by (simpl; lia). set (n := length (p :: l)) in *.
    pose proof (reward_at_height_range params He (Z.of_nat n)).
    destruct (IH set1 Htx ltac:(lia) Hrep1) as [Hle1 Hok1].
    assert (height (header b) = Z.of_nat n) as Hhn.
    { rewrite Hh, (ancestry_tip_height _ _ _ _ Hp). unfold n. simpl. lia. }
    assert (block_subsidy params (height (header b)) = reward_at_height params (Z.of_nat n)) as Hsub.
    { rewrite block_subsidy_at, Hhn. destruct (Z.eqb_spec (Z.of_nat n) 0) as [E|]; lia. }
    destruct (block_conserves params b set1 set' He Hpre) as [Hle Hok]; try done; [lia|].
    split; [lia|done].
Qed.

(** Supply. In a synchronised state the value of all unspent outputs is at
    most the premint and the subsidies of the blocks up to the tip, whatever
    transactions the chain contains. *)
Theorem supply_on_schedule params s t :
  emission_ok params -> 0 <= founder_allocation_atoms params ->
  state_ok params s -> synced s -> tip_cache s = Some t ->
  (forall h b, cf_blocks (db s) !! h = Some b -> Forall tx_ok (transactions b)) ->
  premint params + rewards_below params (S (Z.to_nat (height (header t)))) < U64_MAX ->
  utxo_total (cf_utxo (db s)) <= premint params + rewards_below params (S (Z.to_nat (height (header t)))).
Proof.
  intros He Hf Hok Hsync Ht Htx. destruct (state_ok_tip _ _ _ Hok Ht) as (l & Htip & Ha).
  pose proof (ancestry_tip_height _ _ _ _ Ha) as Hh. rewrite Hh, Nat2Z.id. intros Hfit.
  eapply (replay_supply params _ _ (t :: l)); try done; [|by apply Htip, Hsync].
  apply Forall_forall. intros b Hb. eapply Htx. eapply ancestry_stored; [apply Hok|done|done].
Qed.

(** C5: On mainnet no synchronised chain, up to the height where the era cast
    wraps (nine quadrillion blocks), holds more than 33 million coins. *)
Theorem mainnet_supply_cap s t :
  state_ok MAINNET s -> synced s -> tip_cache s = Some t ->
  (forall h b, cf_blocks (db s) !! h = Some b -> Forall tx_ok (transactions b)) ->
  height (header t) < halving_interval_blocks MAINNET * U32_MOD ->
  utxo_total (cf_utxo (db s)) <= TOTAL_SUPPLY_ATOMS.
Proof.
  intros Hok Hsync Ht Htx Hlt. destruct (state_ok_tip _ _ _ Hok Ht) as (l & Htip & Ha).
  pose proof (ancestry_tip_height _ _ _ _ Ha) as Hh.
  assert (rewards_below MAINNET (length (t :: l)) <= TOTAL_SUPPLY_ATOMS) as Hcap
    by (apply MAINNET_rewards_cap; simpl length; lia).
  assert (premint MAINNET = 0) as Hpm by reflexivity.
  destruct (replay_supply MAINNET (cf_blocks (db s)) (block_hash t) (t :: l) (cf_utxo (db s))
    MAINNET_emission_ok) as [Hle _]; try done.
  - apply Forall_forall. intros b Hb. eapply Htx. eapply ancestry_stored; [apply Hok|done|done].
  - rewrite Hpm. unfold TOTAL_SUPPLY_ATOMS, TOTAL_SUPPLY_COINS, COIN, U64_MAX in *. lia.
  - by apply Htip, Hsync.
  - lia.
Qed.

(** *** A rejected block stays stored *)

(** A block that fails the UTXO rules after its header was accepted stays
    in the database: submitting any block with the same hash afterwards (the
    same one, or the genuine one a tampered copy was made of) answers
    [AlreadyKnown] and changes nothing, so it cannot enter the canonical chain. *)
Theorem utxo_reject_is_permanent params b now s s' e :
  state_ok params s -> synced s -> submit_block params b now s = (s', Err (S_Utxo e)) ->
  forall b' now', block_hash b' = block_hash b ->
    submit_block params b' now' s' = (s', Err S_AlreadyKnown).
Proof.
  intros Hok Hsync Hsub b' now' Hh.
  assert (is_Some (cf_blocks (db s') !! block_hash b)) as Hst.
  { pose proof (submit_block_step params b now s) as Hstep. rewrite Hsub in Hstep. simpl in Hstep.
    remember (Err (S_Utxo e)) as r eqn:Er.
    destruct Hstep as [Hk|s1 e' Hk Hs1|s1 Hk Hs1 Hp|s1 p e' Hk Hs1 Hp Hv|s1 p Hk Hs1 Hc Hw
      |s1 p s2 r Hk Hs1 Hc Hw Hprev Hext|s1 p s2 r Hk Hs1 Hc Hw Hprev Hext]; try done.
    - exfalso. unfold ensure_utxo_synced, get_state, mbind, stateful_bind in Hs1.
      destruct (tip_cache s) as [t|] eqn:Ht; [|done]. by rewrite (bool_decide_true _ (Hsync _ Ht)) in Hs1.
    - destruct r as [[]|e']; [done|]. apply extend_tip_blocks in Hext as ->. simpl.
      by rewrite lookup_insert_eq.
    - destruct r as [[]|e']; [done|]. apply reorganise_blocks in Hext as ->. simpl.
      by rewrite lookup_insert_eq. }
  unfold submit_block, get_state, lift_result, mbind, stateful_bind, block_known. rewrite Hh.
  by rewrite bool_decide_true.
Qed.

(** *** Requeueing *)

Lemma stored_canonical params b s s1 t l :
  state_ok params s -> tip_cache s = Some t -> cf_blocks (db s1) = cf_blocks (db s) ->
  cf_blocks (db s) !! block_hash b = None -> tip_ok params (stored b s1) t l ->
  canonical_blocks (db s) = reverse l.
Proof.
  intros Hok Hts Hbl Hk Htip. destruct (state_ok_tip _ _ _ Hok Hts) as (l0 & Htip0 & Ha0).
  rewrite (state_ok_canonical _ _ _ _ Hok Htip0). f_equal.
  apply (ancestry_store _ b) in Ha0; [|done]. rewrite <- Hbl in Ha0.
  exact (ancestry_det _ _ _ _ Ha0 (tip_ancestry _ _ _ _ Htip)).
Qed.

Lemma submit_disconnects params b now s s' :
  state_ok params s -> Z.of_nat (size (cf_blocks (db s))) < U64_MAX -> block_hash b <> ZERO ->
  submit_block params b now s = (s', Ok b) ->
  forall c, c ∈ last_disconnected s' <-> c ∈ canonical_blocks (db s) /\ c ∉ canonical_blocks (db s').
Proof.
  intros Hok Hsize Hnz Hsub c.
  pose proof (submit_block_step params b now s) as Hst. rewrite Hsub in Hst. simpl in Hst.
  destruct (submit_step_ok _ _ _ _ _ _ Hok Hsize Hnz Hst) as (Hok' & _).
  remember (Ok b) as res eqn:Er.
  destruct Hst as [Hk|s1 e' Hk Hs1|s1 Hk Hs1 Hp|s1 p e' Hk Hs1 Hp Hv|s1 p Hk Hs1 Hc Hw
    |s1 p s2 r Hk Hs1 Hc Hw Hprev Hext|s1 p s2 r Hk Hs1 Hc Hw Hprev Hext]; try done;
    destruct (stored_ok _ _ _ _ _ _ Hok Hsize Hnz Hk Hs1 Hc)
      as (t & l & lp & Hts & Ht1 & Hsync & Hbl & Hbs & Htip & _ & Hpp & Hlp & Hb);
    rewrite (stored_canonical _ _ _ _ _ _ Hok Hts Hbl Hk Htip).
  - rewrite (state_ok_canonical _ _ _ _ Hok' Htip). simpl. set_solver.
  - assert (lp = l) as ->.
    { assert (cf_blocks (db s1) !! block_hash b = None) as Hk1 by by rewrite Hbl.
      apply (ancestry_det _ _ _ _ (ancestry_store _ b _ _ Hk1 Hlp)).
      rewrite <- Hpp, Hprev. unfold tip_hash. rewrite Ht1. apply Htip. }
    destruct (extend_tip_spec _ _ _ _ _ _ _ Htip Hsync Hb Hext) as [Hbl2 Hr].
    destruct r as [[]|]; [|done]. destruct Hr as (Htip2 & _ & ->).
    rewrite (state_ok_canonical _ _ _ _ Hok' Htip2), reverse_cons. simpl. set_solver.
  - unfold tip_hash in Hext. rewrite Ht1 in Hext.
    destruct (reorganise_spec _ _ _ _ _ _ _ _ Hbs Htip Hb Hext) as [Hbl2 Hr].
    destruct r as [[]|]; [|done]. destruct Hr as (Htip2 & _ & ->).
    rewrite (state_ok_canonical _ _ _ _ Hok' Htip2). pose proof (blocks_keyed _ Hbs) as Hkeyed.
    apply (fork_diff (cf_blocks (db (stored b s1)))).
    + eapply ancestry_linked; [done|apply Htip].
    + by eapply ancestry_linked.
    + intros x Hx. rewrite elem_of_reverse in Hx. eapply ancestry_stored; [done|apply Htip|done].
    + intros x Hx. rewrite elem_of_reverse in Hx. by eapply ancestry_stored.
Qed.

(** C16: Reorganisations lose no payments: after a successful submission the
    requeue candidates are exactly the non-coinbase transactions of the blocks
    that left the canonical chain, and taking them empties the list. *)
Theorem requeue_exact params b now s s' :
  state_ok params s -> Z.of_nat (size (cf_blocks (db s))) < U64_MAX -> block_hash b <> ZERO ->
  submit_block params b now s = (s', Ok b) ->
  let '(s'', txs) := take_reorg_requeue_candidates s' in
  last_disconnected s'' = [] /\ db s'' = db s' /\
  forall tx, tx ∈ txs <-> is_coinbase tx = false /\
    exists c, tx ∈ transactions c /\ c ∈ canonical_blocks (db s) /\ c ∉ canonical_blocks (db s').
Proof.
  intros Hok Hsize Hnz Hsub. simpl. split_and!; [done|done|]. intros tx.
  rewrite list_elem_of_filter, list_elem_of_bind.
  pose proof (submit_disconnects _ _ _ _ _ Hok Hsize Hnz Hsub) as Hd.
  setoid_rewrite Hd. done.
Qed.
End StateProps.
