(* ===== verification/StateSubmit.v ===== *)
(** * Difficulty on a block's own ancestry, and submissions that succeed

    The two walks of [expected_leading_zero_bits_for] find the ancestors of the
    parent at the ends of the timing window, on whatever branch the parent is,
    and never run out of fuel. *)

From S2P Require Import Prelude Crypto Hash Chain Validation Block State StateChain.

Local Open Scope Z_scope.

(** The block at height [k] of an ancestry (tip first). *)
Definition ancestor_at (l : list Block) (k : Z) : option Block :=
  l !! Z.to_nat (Z.of_nat (length l) - 1 - k).

(** The sample between two ancestors. *)
Definition sample_between (l : list Block) (first last : Z) : option DifficultySample :=
  a ← ancestor_at l first;
  z ← ancestor_at l last;
  Some {| first_timestamp_seconds := timestamp_seconds (header a);
          last_timestamp_seconds := timestamp_seconds (header z);
          current_leading_zero_bits := leading_zero_bits_field (header z);
          block_count := last - first + 1 |}.

(** What the retarget rule is meant to measure: below activation nothing; in the
    first window the chain since activation, once it has two blocks; later the
    last completed window. *)
Definition retarget_spec (params : ConsensusParams) (l : list Block) (n : Z) : option DifficultySample :=
  let activation := difficulty_retarget_activation_height params in
  let window := Z.max (difficulty_adjustment_window params) 1 in
  let epoch := (n - activation) / window in
  if decide (n < activation) then None
  else if decide (epoch = 0) then
    if decide (activation + 2 <= n) then sample_between l activation (n - 1) else None
  else sample_between l (activation + (epoch - 1) * window) (activation + epoch * window - 1).

Lemma ancestor_at_cons b l k :
  0 <= k <= Z.of_nat (length l) ->
  ancestor_at (b :: l) k = if decide (k = Z.of_nat (length l)) then Some b else ancestor_at l k.
Proof.
  intros Hk. unfold ancestor_at. simpl length. case_decide as Hd.
  - by replace (Z.to_nat _) with 0%nat by lia.
  - replace (Z.to_nat _) with (S (Z.to_nat (Z.of_nat (length l) - 1 - k))) by lia. done.
Qed.

Section Walks.
Context `{Crypto}.

Lemma window_walk_spec fuel d ws we h b l first last :
  ancestry (cf_blocks d) h (b :: l) -> (length (b :: l) <= fuel)%nat ->
  0 <= ws <= Z.of_nat (length l) -> ws <= we ->
  window_walk fuel d ws we (Some b) first last =
    (ancestor_at (b :: l) ws,
     if decide (we <= Z.of_nat (length l)) then ancestor_at (b :: l) we else last).
Proof.
  revert fuel h b first last; induction l as [|p l IH]; intros [|fuel] h b first last Ha Hf Hws Hwe;
    simpl in Hf; try lia; cbn [window_walk]; pose proof (ancestry_tip_height _ _ _ _ Ha) as Hh; rewrite Hh.
  - change (Z.of_nat (length [])) with 0 in *. assert (ws = 0) as -> by lia. rewrite Z.eqb_refl, Z.leb_refl.
    destruct (Z.eqb_spec 0 we) as [<-|]; [by rewrite decide_True by lia|by rewrite decide_False by lia].
  - rewrite (ancestor_at_cons b _ ws) by done.
    assert ((if decide (we <= Z.of_nat (length (p :: l))) then ancestor_at (b :: p :: l) we else last)
      = if decide (we <= Z.of_nat (length (p :: l)))
        then if decide (we = Z.of_nat (length (p :: l))) then Some b else ancestor_at (p :: l) we else last) as ->
      by (destruct (decide (we <= Z.of_nat (length (p :: l)))); [by rewrite ancestor_at_cons by lia|done]).
    simpl length in *.
    destruct (Z.leb_spec (Z.of_nat (S (length l))) ws).
    + assert (ws = Z.of_nat (S (length l))) as -> by lia. rewrite Z.eqb_refl, decide_True by done. f_equal.
      destruct (Z.eqb_spec (Z.of_nat (S (length l))) we) as [<-|]; [by rewrite !decide_True by lia|].
      by rewrite decide_False by lia.
    + rewrite (decide_False (P := ws = _)) by lia.
      inversion Ha as [|? ? ? ? Hb Hnz Hp Hhh]; simplify_eq. unfold get_block_by_hash.
      destruct (ancestry_tip _ _ _ Hp) as (? & ? & [= <- <-] & ->).
      rewrite (IH _ _ _ _ _ Hp) by (simpl; lia). f_equal.
      destruct (Z.eqb_spec (Z.of_nat (S (length l))) we) as [<-|Hne].
      * rewrite (decide_False (P := _ <= Z.of_nat (length l))) by lia. by rewrite !decide_True by lia.
      * destruct (decide (we <= Z.of_nat (length l))).
        -- rewrite (decide_True (P := we <= Z.of_nat (S _))) by lia. by rewrite decide_False by lia.
        -- by rewrite (decide_False (P := we <= Z.of_nat (S _))) by lia.
Qed.

Lemma bootstrap_walk_spec fuel d n a h b l last :
  ancestry (cf_blocks d) h (b :: l) -> (length (b :: l) <= fuel)%nat ->
  0 <= a <= Z.of_nat (length l) -> Z.of_nat (length l) < n - 1 -> is_u64 n -> last <> None ->
  bootstrap_walk fuel d n a (Some b) last = (ancestor_at (b :: l) a, last).
Proof.
  revert fuel h b; induction l as [|p l IH]; intros [|fuel] h b Ha Hf Hr Hn Hu Hl;
    simpl in Hf; try lia; cbn [bootstrap_walk]; pose proof (ancestry_tip_height _ _ _ _ Ha) as Hh; rewrite Hh;
    rewrite sub64_small by (unfold is_u64 in Hu; lia); rewrite (proj2 (Z.eqb_neq _ (n - 1))) by (simpl length in *; lia); cbn [andb].
  - change (Z.of_nat (length [])) with 0 in *. assert (a = 0) as -> by lia. done.
  - rewrite (ancestor_at_cons b _ a) by done. simpl length in *.
    destruct (Z.eqb_spec (Z.of_nat (S (length l))) a) as [<-|Hne]; [by rewrite decide_True|].
    rewrite decide_False by lia. inversion Ha as [|? ? ? ? Hb Hnz Hp Hhh]; simplify_eq.
    destruct (ancestry_tip _ _ _ Hp) as (? & ? & [= <- <-] & Hst). unfold get_block_by_hash. rewrite Hst.
    apply (IH _ _ _ Hp); [simpl; lia..|done|done].
Qed.

(** The first iteration, at the parent of the block at height [n]. *)
Lemma bootstrap_walk_tip fuel d n a h b l :
  ancestry (cf_blocks d) h (b :: l) -> (length (b :: l) <= fuel)%nat ->
  0 <= a <= Z.of_nat (length l) -> Z.of_nat (length l) = n - 1 -> is_u64 n ->
  bootstrap_walk fuel d n a (Some b) None = (ancestor_at (b :: l) a, Some b).
Proof.
  destruct fuel as [|fuel]; intros Ha Hf Hr Hn Hu; simpl in Hf; [lia|]. cbn [bootstrap_walk].
  pose proof (ancestry_tip_height _ _ _ _ Ha) as Hh. rewrite Hh, sub64_small by (unfold is_u64 in Hu; lia).
  rewrite (proj2 (Z.eqb_eq _ (n - 1))) by done. cbn [andb].
  rewrite bool_decide_true by done. rewrite ancestor_at_cons by done.
  destruct (Z.eqb_spec (Z.of_nat (length l)) a) as [<-|Hne]; [by rewrite decide_True|].
  rewrite decide_False by lia. destruct l as [|p l]; [simpl in *; lia|].
  inversion Ha as [|? ? ? ? Hb Hnz Hp Hhh]; simplify_eq.
  destruct (ancestry_tip _ _ _ Hp) as (? & ? & [= <- <-] & Hst). unfold get_block_by_hash. rewrite Hst.
  apply (bootstrap_walk_spec _ _ _ _ _ _ _ _ Hp); simpl in *; try lia; done.
Qed.

Lemma ancestor_at_height bs h l k b :
  ancestry bs h l -> 0 <= k < Z.of_nat (length l) -> ancestor_at l k = Some b -> height (header b) = k.
Proof. intros Ha Hk Hb. rewrite (ancestry_heights _ _ _ Ha _ _ Hb). lia. Qed.

Lemma ancestor_at_Some l k : 0 <= k < Z.of_nat (length l) -> is_Some (ancestor_at l k).
Proof. intros Hk. apply lookup_lt_is_Some_2. lia. Qed.

Lemma expected_bits_spec params d h p l :
  keyed (cf_blocks d) -> ancestry (cf_blocks d) h (p :: l) ->
  0 <= difficulty_retarget_activation_height params <= U64_MAX ->
  Z.of_nat (length (p :: l)) < U64_MAX ->
  expected_leading_zero_bits_for d params (Some p) =
    expected_leading_zero_bits params (Z.of_nat (length (p :: l)))
      (retarget_spec params (p :: l) (Z.of_nat (length (p :: l)))).
Proof.
  intros Hk Ha Hact Hlen. pose proof (ancestry_tip_height _ _ _ _ Ha) as Hh.
  pose proof (ancestry_fuel d h (p :: l) Hk Ha) as Hfuel.
  set (n := Z.of_nat (length (p :: l))) in *.
  assert (Z.of_nat (length l) = n - 1) as Hn by (unfold n; simpl; lia).
  unfold expected_leading_zero_bits_for.
  assert (next_height (Some p) = n) as ->.
  { simpl. rewrite Hh, add64_small; unfold U64_MAX, U64_MOD in *; lia. }
  f_equal. unfold retarget_sample, retarget_spec. cbv zeta.
  set (a := difficulty_retarget_activation_height params) in *.
  set (w := Z.max (difficulty_adjustment_window params) 1).
  destruct (Z.ltb_spec n a) as [Hlt|Hge]; [by rewrite decide_True|]. rewrite decide_False by lia.
  rewrite sub64_small by (unfold U64_MAX, U64_MOD in *; lia).
  pose proof (Z.div_mod (n - a) w ltac:(lia)) as Hdm. pose proof (Z.mod_pos_bound (n - a) w ltac:(lia)) as Hmb.
  set (e := (n - a) / w) in *. assert (0 <= e) as He by (apply Z.div_pos; lia).
  destruct (Z.eqb_spec e 0) as [Hz|Hnz].
  - rewrite decide_True by done. unfold sat_add64.
    destruct (Z.leb_spec (Z.min (a + 2) U64_MAX) n) as [Hle|]; [|by rewrite decide_False by lia].
    rewrite decide_True by lia.
    rewrite (bootstrap_walk_tip _ _ _ _ h _ l Ha); [|lia|lia|done|unfold is_u64, U64_MAX, U64_MOD in *; lia].
    unfold sample_between. rewrite (ancestor_at_cons p l (n - 1)), decide_True by lia.
    destruct (ancestor_at_Some (p :: l) a) as [f Hf]; [fold n; lia|]. rewrite Hf. cbn [mbind option_bind].
    assert (height (header f) = a) as Hfa by (eapply ancestor_at_height; [done| |done]; fold n; lia).
    rewrite Hh, Hfa.
    unfold sat_sub64. rewrite Z.max_l, add64_small, Hn by (unfold U64_MAX, U64_MOD in *; lia). done.
  - rewrite decide_False by done.
    assert (add64 a (mul64 (e - 1) w) = a + (e - 1) * w) as ->.
    { unfold mul64. rewrite (Z.mod_small ((e - 1) * w)), add64_small; unfold U64_MAX, U64_MOD in *; nia. }
    assert (sub64 (add64 (a + (e - 1) * w) w) 1 = a + e * w - 1) as ->.
    { rewrite add64_small, sub64_small; unfold U64_MAX, U64_MOD in *; nia. }
    rewrite (window_walk_spec _ _ _ _ h _ l _ _ Ha); [|lia|nia|nia].
    rewrite decide_True by nia. unfold sample_between.
    destruct (ancestor_at_Some (p :: l) (a + (e - 1) * w)) as [f Hf]; [fold n; nia|].
    destruct (ancestor_at_Some (p :: l) (a + e * w - 1)) as [z Hz]; [fold n; nia|].
    rewrite Hf, Hz. cbn [mbind option_bind].
    unfold sat_sub64. rewrite Z.max_l, add64_small by (unfold U64_MAX, U64_MOD in *; nia). done.
Qed.
(** Databases that agree on the ancestry of a block ask the same of its children. *)
Lemma expected_bits_agree params d d' p l :
  keyed (cf_blocks d) -> keyed (cf_blocks d') ->
  ancestry (cf_blocks d) (block_hash p) (p :: l) -> ancestry (cf_blocks d') (block_hash p) (p :: l) ->
  0 <= difficulty_retarget_activation_height params <= U64_MAX -> Z.of_nat (length (p :: l)) < U64_MAX ->
  expected_leading_zero_bits_for d params (Some p) = expected_leading_zero_bits_for d' params (Some p).
Proof. intros. by erewrite !expected_bits_spec. Qed.

(** C40: The difficulty of a block is computed from the timestamps of its own
    ancestors at the two ends of the last completed window (or of the chain
    since activation, in the first window), found on whatever branch the
    parent is, with the walks never running out of fuel. *)
Theorem retarget_uses_ancestry params d h p l :
  keyed (cf_blocks d) -> ancestry (cf_blocks d) h (p :: l) ->
  0 <= difficulty_retarget_activation_height params <= U64_MAX ->
  Z.of_nat (length (p :: l)) < U64_MAX ->
  expected_leading_zero_bits_for d params (Some p) =
    expected_leading_zero_bits params (Z.of_nat (length (p :: l)))
      (retarget_spec params (p :: l) (Z.of_nat (length (p :: l)))).
Proof. apply expected_bits_spec. Qed.
End Walks.

(** * Submissions that succeed

    When the conditions of a block are met, [submit_block] takes exactly one of
    three ways: the block is stored beside the chain, extends the tip, or makes
    the chain reorganise. The node's sync and template theorems build on these. *)

From S2P Require Import ScriptVM Utxo.
From S2P Require Import Storage StateDb StateInv StateProps.

Section Submit.
Context `{Crypto} `{!IterOrder OutPoint UtxoEntry}.

(** The rules for a child block, as a conjunction. *)
Lemma validate_block_child params p b now bits seed :
  chain_id (header b) = p_chain_id params -> height (header b) = next_height (Some p) ->
  previous_hash (header b) = block_hash p ->
  timestamp_seconds (header b) <= add64 now (max_future_block_time_seconds params) ->
  merkle_root_field (header b) = merkle_root (transactions b) -> leading_zero_bits_field (header b) = bits ->
  header_meets_work (header b) seed = true -> (exists cb, head (transactions b) = Some cb /\ is_coinbase cb = true) ->
  validate_block params (Some p) b now bits seed = Ok ().
Proof.
  intros Hc Hh Hp Ht Hm Hb Hw (cb & Hcb & Hi). unfold validate_block, validate_coinbase.
  rewrite Hc, Hh, Hp, Hm, Hb, Hw, Hcb, !bool_decide_true, !Z.eqb_refl, (proj2 (Z.ltb_ge _ _) Ht) by done.
  cbn [negb reject_if mbind result_bind ok_or]. by rewrite Hi.
Qed.

Lemma validate_block_root params b now bits seed :
  chain_id (header b) = p_chain_id params -> height (header b) = 0 ->
  timestamp_seconds (header b) <= add64 now (max_future_block_time_seconds params) ->
  merkle_root_field (header b) = merkle_root (transactions b) -> leading_zero_bits_field (header b) = bits ->
  header_meets_work (header b) seed = true -> (exists cb, head (transactions b) = Some cb /\ is_coinbase cb = true) ->
  validate_block params None b now bits seed = Ok ().
Proof.
  intros Hc Hh Ht Hm Hb Hw (cb & Hcb & Hi). unfold validate_block, validate_coinbase.
  rewrite Hc, Hh, Hm, Hb, Hw, Hcb, !bool_decide_true, !Z.eqb_refl, (proj2 (Z.ltb_ge _ _) Ht) by done.
  cbn [negb reject_if mbind result_bind ok_or]. by rewrite Hi.
Qed.

Lemma ensure_synced_id params s : synced s -> ensure_utxo_synced params s = (s, Ok ()).
Proof.
  intros Hs. unfold ensure_utxo_synced, get_state, mbind, stateful_bind, mret, stateful_ret.
  destruct (tip_cache s) as [t|] eqn:Ht; [|done]. by rewrite bool_decide_true by by apply Hs.
Qed.

Lemma submit_known_spec params b now s :
  is_Some (cf_blocks (db s) !! block_hash b) -> submit_block params b now s = (s, Err S_AlreadyKnown).
Proof.
  intros Hk. unfold submit_block, get_state, lift_result, mbind, stateful_bind, block_known. by rewrite bool_decide_true.
Qed.

Lemma submit_orphan_spec params b now s :
  synced s -> cf_blocks (db s) !! block_hash b = None -> cf_blocks (db s) !! previous_hash (header b) = None ->
  submit_block params b now s = (s, Err UnknownParent).
Proof.
  intros Hs Hk Hp. unfold submit_block, get_state, lift_result, mbind, stateful_bind, block_known, get_block_by_hash.
  rewrite Hk, bool_decide_false by by intros []. cbn [reject_if]. by rewrite ensure_synced_id, Hp.
Qed.

(** What a block must meet to be taken up by a synchronised state. *)
Record acceptable (params : ConsensusParams) (b : Block) (now : Z) (s : ChainState) (p : Block) : Prop := {
  acc_new : cf_blocks (db s) !! block_hash b = None;
  acc_nonzero : block_hash b <> ZERO;
  acc_size : Z.of_nat (size (cf_blocks (db s))) < U64_MAX;
  acc_child : valid_child params s b now p;
}.

(** The run of the function up to fork choice. *)
Lemma submit_choice params b now s p :
  synced s -> acceptable params b now s p ->
  submit_block params b now s =
    (_ ← (if chain_work (db (stored b s)) (tip_hash s) <? chain_work (db (stored b s)) (block_hash b)
          then if decide (previous_hash (header b) = tip_hash s) then extend_tip params b
               else reorganise params b (tip_hash s)
          else mret ()); mret b) (stored b s).
Proof.
  intros Hs [Hnew Hnz Hsize [Hp Hv]].
  unfold submit_block. unfold get_state, modify, validated, lift_result, mbind, stateful_bind.
  unfold block_known. rewrite Hnew, bool_decide_false by by intros []. cbn [reject_if].
  rewrite ensure_synced_id by done. rewrite Hp. cbn [ok_or]. rewrite Hv. reflexivity.
Qed.

Lemma acceptable_ancestry params b now s p :
  blocks_ok (cf_blocks (db s)) -> acceptable params b now s p ->
  blocks_ok (cf_blocks (db (stored b s))) /\ previous_hash (header b) = block_hash p /\
  exists l, ancestry (cf_blocks (db s)) (block_hash p) l /\
            ancestry (cf_blocks (db (stored b s))) (block_hash b) (b :: l).
Proof.
  intros Hbs [Hnew Hnz Hsize [Hp Hv]]. unfold get_block_by_hash in Hp.
  destruct (blocks_ok_child _ _ _ _ _ _ _ Hbs Hsize Hnz Hnew Hp Hv) as [Hbs' Hl].
  split; [exact Hbs'|]. split; [by apply validate_child_spec in Hv as (_ & ? & _)|exact Hl].
Qed.

Lemma submit_side_spec params b now s p :
  synced s -> acceptable params b now s p -> ~ heavier b (stored b s) ->
  submit_block params b now s = (stored b s, Ok b).
Proof.
  intros Hs Ha Hw. rewrite (submit_choice _ _ _ _ p) by done.
  change (tip_hash s) with (tip_hash (stored b s)) at 1. rewrite (proj2 (Z.ltb_ge _ _)) by by apply Z.le_ngt.
  reflexivity.
Qed.

Lemma submit_extend_spec params b now s p t l :
  state_ok params s -> tip_ok params s t l -> synced s -> acceptable params b now s p ->
  heavier b (stored b s) -> previous_hash (header b) = block_hash t ->
  (exists set, apply_block params b (cf_utxo (db s)) = (set, Ok ())) ->
  exists s', submit_block params b now s = (s', Ok b)
    /\ tip_ok params s' b (b :: l) /\ synced s' /\ state_ok params s'
    /\ cf_blocks (db s') = <[block_hash b := b]> (cf_blocks (db s)) /\ last_disconnected s' = [].
Proof.
  intros [Hbs _] Htip Hs Ha Hw Hprev Happ.
  destruct (acceptable_ancestry _ _ _ _ _ Hbs Ha) as (Hbs' & Hpp & lp & Hlp & Hb).
  assert (tip_hash s = block_hash t) as Hth by (unfold tip_hash; by rewrite (tip_cached _ _ _ _ Htip)).
  assert (lp = l) as -> by (eapply ancestry_det; [exact Hlp|]; rewrite <- Hpp, Hprev; apply Htip).
  assert (tip_ok params (stored b s) t l) as Htip' by (apply stored_tip_ok; [apply Ha|done]).
  rewrite (submit_choice _ _ _ _ p) by done. unfold heavier in Hw.
  change (tip_hash (stored b s)) with (tip_hash s) in Hw. rewrite (proj2 (Z.ltb_lt _ _)) by done.
  rewrite decide_True by congruence. unfold mbind, stateful_bind.
  destruct (extend_tip params b (stored b s)) as [s2 r] eqn:He.
  destruct (extend_tip_spec _ _ _ _ _ _ _ Htip' Hs Hb He) as [Hbl Hr].
  destruct r as [[]|e].
  - destruct Hr as (Ht2 & Hs2 & Hld). exists s2. split_and!; try done.
    split; [by rewrite Hbl|]. right. eauto.
  - exfalso. revert He. unfold extend_tip, get_state, modify, lift_result, mbind, stateful_bind. cbv beta zeta.
    rewrite (proj2 (validate_block_utxo_spec (db (stored b s)) params b)); [done|exact Happ].
Qed.

Lemma submit_reorg_spec params b now s p t l :
  state_ok params s -> tip_ok params s t l -> synced s -> acceptable params b now s p ->
  heavier b (stored b s) -> previous_hash (header b) <> block_hash t ->
  (forall lb, ancestry (cf_blocks (db (stored b s))) (block_hash b) lb ->
     exists set, replay_utxo params (reverse lb) = Ok set) ->
  exists s' lb, submit_block params b now s = (s', Ok b)
    /\ tip_ok params s' b lb /\ synced s' /\ state_ok params s'
    /\ cf_blocks (db s') = <[block_hash b := b]> (cf_blocks (db s)).
Proof.
  intros [Hbs _] Htip Hs Ha Hw Hprev Hrep.
  destruct (acceptable_ancestry _ _ _ _ _ Hbs Ha) as (Hbs' & Hpp & lp & Hlp & Hb).
  assert (tip_hash s = block_hash t) as Hth by (unfold tip_hash; by rewrite (tip_cached _ _ _ _ Htip)).
  assert (tip_ok params (stored b s) t l) as Htip' by (apply stored_tip_ok; [apply Ha|done]).
  rewrite (submit_choice _ _ _ _ p) by done. unfold heavier in Hw.
  change (tip_hash (stored b s)) with (tip_hash s) in Hw. rewrite (proj2 (Z.ltb_lt _ _)) by done.
  rewrite decide_False by congruence. rewrite Hth. unfold mbind, stateful_bind.
  destruct (reorganise params b (block_hash t) (stored b s)) as [s2 r] eqn:He.
  destruct (reorganise_spec _ _ _ _ _ _ _ _ Hbs' Htip' Hb He) as [Hbl Hr].
  destruct r as [[]|e].
  - destruct Hr as (Ht2 & Hs2 & Hld). exists s2, (b :: lp). split_and!; try done.
    split; [by rewrite Hbl|]. right. eauto.
  - exfalso. destruct (Hrep _ Hb) as [set Hset]. revert He.
    unfold reorganise, get_state, modify, lift_result, mbind, stateful_bind. cbv beta zeta.
    rewrite (build_canonical_chain_spec _ _ _ (blocks_keyed _ Hbs') Hb), Hset. done.
Qed.

Lemma submit_accepted params b now s s' :
  state_ok params s -> Z.of_nat (size (cf_blocks (db s))) < U64_MAX -> block_hash b <> ZERO ->
  submit_block params b now s = (s', Ok b) -> state_ok params s' /\ synced s'.
Proof.
  intros Hok Hsize Hnz Hsub. pose proof (submit_block_step params b now s) as Hst. rewrite Hsub in Hst.
  destruct (submit_step_ok _ _ _ _ _ _ Hok Hsize Hnz Hst) as (Hok' & _ & Hs & _). split; [exact Hok'|by apply Hs].
Qed.

(** Reopening the database. *)
Lemma open_db_db d : db (open_db d) = d.
Proof. unfold open_db, reload_caches. cbn [db]. by repeat case_match. Qed.

Lemma open_db_tip params s t l :
  tip_ok params s t l -> tip_ok params (open_db (db s)) t l /\ db (open_db (db s)) = db s.
Proof.
  intros [Ht Hh Hm Hhd Ha Hi Hu Hk]. destruct (ancestry_tip _ _ _ Ha) as (t' & l' & -> & Ht').
  injection Hhd as ->. unfold open_db, reload_caches. cbn [db]. rewrite Hm, Ht'. by split.
Qed.

Lemma open_db_ok params s : state_ok params s -> state_ok params (open_db (db s)).
Proof. intros Hs. eapply op_step_ok; [exact Hs|apply step_reopen]. Qed.

(** The work of a chain is the capped sum over its blocks. *)
Definition total_work (l : list Block) : Z := sumZ (block_work <$> l).

Lemma block_work_pos b : 0 < block_work b.
Proof. unfold block_work. apply Z.pow_pos_nonneg; [lia|]. apply Z.mod_pos_bound. lia. Qed.

Lemma total_work_nonneg l : 0 <= total_work l.
Proof. apply sumZ_nonneg, Forall_fmap, Forall_true. intros b. apply Z.lt_le_incl, block_work_pos. Qed.

Lemma total_work_app l k : total_work (l ++ k) = total_work l + total_work k.
Proof. unfold total_work. by rewrite fmap_app, sumZ_app. Qed.

Lemma add_work_sum l w : 0 <= w <= U128_MAX -> foldl add_work w l = Z.min (w + total_work l) U128_MAX.
Proof.
  assert (0 <= U128_MAX) by (unfold U128_MAX; lia).
  revert w; induction l as [|b l IH]; intros w Hw; [cbn; lia|]. cbn [foldl]. unfold total_work. csimpl.
  pose proof (block_work_pos b). change (add_work w b) with (Z.min (w + block_work b) U128_MAX). rewrite IH by lia. unfold total_work.
  pose proof (total_work_nonneg l). unfold total_work in *. lia.
Qed.

Lemma chain_work_total d h l :
  keyed (cf_blocks d) -> ancestry (cf_blocks d) h l -> chain_work d h = Z.min (total_work l) U128_MAX.
Proof.
  intros Hk Hl. rewrite (chain_work_spec _ _ _ Hk Hl), add_work_sum; [by rewrite Z.add_0_l|]. unfold U128_MAX. lia.
Qed.

Lemma heavier_total params s b t l lb :
  blocks_ok (cf_blocks (db (stored b s))) -> tip_ok params (stored b s) t l ->
  ancestry (cf_blocks (db (stored b s))) (block_hash b) lb ->
  (heavier b (stored b s) <-> Z.min (total_work l) U128_MAX < Z.min (total_work lb) U128_MAX).
Proof.
  intros Hbs Htip Hb. unfold heavier, tip_hash. rewrite (tip_cached _ _ _ _ Htip).
  rewrite (chain_work_total _ _ _ (blocks_keyed _ Hbs) (tip_ancestry _ _ _ _ Htip)).
  by rewrite (chain_work_total _ _ _ (blocks_keyed _ Hbs) Hb).
Qed.
End Submit.
