(* ===== verification/StateWitness.v ===== *)
(** * A concrete history of the chain state

    Genesis, a block, a competing branch and a reorganisation, run by
    evaluation; the properties of the chain state are instantiated along it. *)

From S2P Require Import Prelude Crypto Hash Chain Validation ScriptVM Block Utxo.
From S2P Require Import BlockFacts UtxoSupply Storage State StateDb StateChain StateInv StateProps.
From S2P Require Import StateSubmit Fixture.

Local Open Scope Z_scope.

#[local] Existing Instance toy_crypto.
#[local] Existing Instance trie_order.

Module History.

Definition params : ConsensusParams := Fixture.easy.
Definition value_of {E} (r : result E Block) : Block :=
  match r with Ok b => b | Err _ => Fixture.first_block end.

Definition s0 : ChainState := (init_genesis params 1000 5 new_state).1.
Definition genesis0 : Block := value_of (init_genesis params 1000 5 new_state).2.
Definition b1 : Block := candidate params (Some genesis0) 1060 "a" [] 0.
Definition s1 : ChainState := (submit_block params b1 1060 s0).1.
Definition side1 : Block := candidate params (Some genesis0) 1070 "b" [] 0.
Definition s2 : ChainState := (submit_block params side1 1070 s1).1.
Definition side2 : Block := candidate params (Some side1) 1090 "b" [] 0.
Definition s3 : ChainState := (submit_block params side2 1090 s2).1.

Lemma snd0 : (init_genesis params 1000 5 new_state).2 = Ok genesis0.
Proof. vm_compute. reflexivity. Qed.
Lemma snd1 : (submit_block params b1 1060 s0).2 = Ok b1.
Proof. vm_compute. reflexivity. Qed.
Lemma snd3 : (submit_block params side2 1090 s2).2 = Ok side2.
Proof. vm_compute. reflexivity. Qed.

Lemma run0 : init_genesis params 1000 5 new_state = (s0, Ok genesis0).
Proof. exact (pair_with _ _ snd0). Qed.
Lemma run1 : submit_block params b1 1060 s0 = (s1, Ok b1).
Proof. exact (pair_with _ _ snd1). Qed.
Lemma run3 : submit_block params side2 1090 s2 = (s3, Ok side2).
Proof. exact (pair_with _ _ snd3). Qed.

Lemma nonzero :
  block_hash genesis0 <> ZERO /\ block_hash b1 <> ZERO /\ block_hash side1 <> ZERO /\ block_hash side2 <> ZERO.
Proof. by_compute. Qed.

Lemma step0 : op_step params new_state s0.
Proof. exact (step_genesis params new_state 1000 5 s0 genesis0 run0 (proj1 nonzero)). Qed.

Lemma size0 : Z.of_nat (size (cf_blocks (db s0))) < U64_MAX.
Proof. vm_compute. reflexivity. Qed.
Lemma size1 : Z.of_nat (size (cf_blocks (db s1))) < U64_MAX.
Proof. vm_compute. reflexivity. Qed.
Lemma size2 : Z.of_nat (size (cf_blocks (db s2))) < U64_MAX.
Proof. vm_compute. reflexivity. Qed.

Lemma step1 : op_step params s0 s1.
Proof. exact (step_submit params s0 b1 1060 (proj1 (proj2 nonzero)) size0). Qed.
Lemma step2 : op_step params s1 s2.
Proof. exact (step_submit params s1 side1 1070 (proj1 (proj2 (proj2 nonzero))) size1). Qed.

Lemma ok0 : state_ok params s0.
Proof. exact (op_step_ok _ _ _ (new_state_ok _) step0). Qed.
Lemma ok1 : state_ok params s1.
Proof. exact (op_step_ok _ _ _ ok0 step1). Qed.
Lemma ok2 : state_ok params s2.
Proof. exact (op_step_ok _ _ _ ok1 step2). Qed.

Lemma tip1 : tip_cache s1 = Some b1.
Proof. vm_compute. reflexivity. Qed.

(** A mainnet state: one genesis block, synchronised. *)
Definition unsynced : ChainState := committed Fixture.first_block new_state.
Definition mainnet0 : ChainState := (ensure_utxo_synced MAINNET unsynced).1.

Lemma mainnet0_snd : (ensure_utxo_synced MAINNET unsynced).2 = Ok ().
Proof. vm_compute. reflexivity. Qed.
Lemma mainnet0_run : ensure_utxo_synced MAINNET unsynced = (mainnet0, Ok ()).
Proof. exact (pair_with _ _ mainnet0_snd). Qed.

Lemma first_nonzero : block_hash Fixture.first_block <> ZERO.
Proof. by_compute. Qed.

Lemma mainnet0_spec :
  state_ok MAINNET mainnet0 /\ cf_blocks (db mainnet0) = cf_blocks (db unsynced) /\
  tip_cache mainnet0 = tip_cache unsynced /\ synced mainnet0.
Proof.
  refine (ensure_synced_spec MAINNET unsynced mainnet0 (Ok ()) _ mainnet0_run).
  apply commit_genesis_ok; [by split|reflexivity|reflexivity|exact first_nonzero].
Qed.

Lemma mainnet0_txs h b : cf_blocks (db mainnet0) !! h = Some b -> Forall tx_ok (transactions b).
Proof.
  destruct mainnet0_spec as (_ & -> & _). change (cf_blocks (db unsynced))
    with (<[block_hash Fixture.first_block := Fixture.first_block]> (∅ : Blocks)).
  intros [[_ <-]|[_ Hb]]%lookup_insert_Some; [by_compute|by rewrite lookup_empty in Hb].
Qed.

(** A header-valid block that fails the UTXO rules: its coinbase takes too much. *)
Definition greedy : Block := candidate params (Some genesis0) 1060 "a" [] 7.
Definition s1' : ChainState := (submit_block params greedy 1060 s0).1.
Lemma greedy_snd : (submit_block params greedy 1060 s0).2 = Err (S_Utxo CoinbaseOutputTooHigh).
Proof. vm_compute. reflexivity. Qed.

Definition s0' : ChainState := (ensure_utxo_synced params s0).1.
Lemma s0'_snd : (ensure_utxo_synced params s0).2 = Ok ().
Proof. vm_compute. reflexivity. Qed.
Lemma s0'_spec :
  state_ok params s0' /\ cf_blocks (db s0') = cf_blocks (db s0) /\ tip_cache s0' = tip_cache s0 /\ synced s0'.
Proof. exact (ensure_synced_spec params s0 s0' (Ok ()) ok0 (pair_with _ _ s0'_snd)). Qed.
Lemma greedy_again : (submit_block params greedy 1060 s0').2 = Err (S_Utxo CoinbaseOutputTooHigh).
Proof. vm_compute. reflexivity. Qed.

(** Retargeting from genesis. *)
Definition retargeting : ConsensusParams := {|
  network := Mainnet; p_chain_id := "tensorium-mainnet"; target_block_seconds := 60;
  halving_interval_blocks := 2102400; max_halving_eras := 10;
  total_supply_atoms := TOTAL_SUPPLY_ATOMS; founder_allocation_atoms := 0;
  mining_allocation_atoms := MINING_ALLOCATION_ATOMS; genesis_allocations := [];
  founder_address := ""; initial_reward_atoms := 785584523;
  initial_leading_zero_bits := 0; min_leading_zero_bits := 0; max_leading_zero_bits := 58;
  difficulty_adjustment_window := 60; difficulty_retarget_activation_height := 0;
  coinbase_maturity_blocks := 10; max_future_block_time_seconds := 7200;
  max_block_bytes := 1000000 |}.

Lemma ancestry1 : ancestry (cf_blocks (db s1)) (block_hash b1) [b1; genesis0].
Proof.
  apply ancestry_step.
  - vm_compute. reflexivity.
  - by_compute.
  - apply ancestry_genesis; vm_compute; reflexivity.
  - vm_compute. reflexivity.
Qed.
End History.

Lemma retarget_uses_ancestry_witness :
  expected_leading_zero_bits_for (db History.s1) History.retargeting (Some History.b1) =
    expected_leading_zero_bits History.retargeting 2
      (sample_between [History.b1; History.genesis0] 0 1).
Proof.
  refine (@retarget_uses_ancestry toy_crypto History.retargeting (db History.s1)
    (block_hash History.b1) History.b1 [History.genesis0] (blocks_keyed _ (proj1 History.ok1))
    History.ancestry1 _ _); vm_compute; intuition congruence.
Defined.

Lemma reachable_state_ok_witness : state_ok History.params History.s2.
Proof.
  exact (@reachable_state_ok toy_crypto (trie_order _ _) History.params History.s2
    (rtc_l _ _ _ _ History.step0 (rtc_l _ _ _ _ History.step1 (rtc_once _ _ History.step2)))).
Defined.

Lemma canonical_chain_linked_witness :
  @linked_chain toy_crypto (canonical_blocks (db History.s1)) /\
  last (canonical_blocks (db History.s1)) = Some History.b1 /\
  forall n, 0 <= n ->
    get_block_by_height (db History.s1) n = canonical_blocks (db History.s1) !! Z.to_nat n.
Proof.
  exact (@canonical_chain_linked toy_crypto History.params History.s1 History.b1 History.ok1 History.tip1).
Defined.

Lemma fork_choice_witness :
  let '(s', r) := @submit_block toy_crypto (trie_order _ _) History.params History.side2 1090 History.s2 in
  @chain_work (db History.s2) (@tip_hash toy_crypto History.s2) <= chain_work (db s') (@tip_hash toy_crypto s') /\
  (tip_cache s' = tip_cache History.s2 /\ cf_canonical (db s') = cf_canonical (db History.s2) \/
   r = Ok History.side2 /\ tip_cache s' = Some History.side2 /\
   chain_work (db History.s2) (@tip_hash toy_crypto History.s2)
     < chain_work (db s') (@block_hash toy_crypto History.side2)).
Proof.
  exact (@fork_choice toy_crypto (trie_order _ _) History.params History.side2 1090 History.s2 History.ok2
    History.size2 (proj2 (proj2 (proj2 History.nonzero)))).
Defined.

Lemma submitted_utxo_is_replay_witness :
  @replay_utxo toy_crypto History.params (canonical_blocks (db History.s3)) = Ok (cf_utxo (db History.s3)).
Proof.
  exact (@submitted_utxo_is_replay toy_crypto (trie_order _ _) History.params History.side2 1090 History.s2
    History.s3 History.ok2 History.size2 (proj2 (proj2 (proj2 History.nonzero))) History.run3).
Defined.

Lemma requeue_exact_witness :
  let '(s'', txs) := take_reorg_requeue_candidates History.s3 in
  last_disconnected s'' = [] /\ db s'' = db History.s3 /\
  forall tx, tx ∈ txs <-> is_coinbase tx = false /\
    exists c, tx ∈ transactions c /\ c ∈ canonical_blocks (db History.s2) /\
      c ∉ canonical_blocks (db History.s3).
Proof.
  exact (@requeue_exact toy_crypto (trie_order _ _) History.params History.side2 1090 History.s2
    History.s3 History.ok2 History.size2 (proj2 (proj2 (proj2 History.nonzero))) History.run3).
Defined.

Lemma utxo_reject_is_permanent_witness :
  @submit_block toy_crypto (trie_order _ _) History.params History.greedy 2000
      (@submit_block toy_crypto (trie_order _ _) History.params History.greedy 1060 History.s0').1
    = ((@submit_block toy_crypto (trie_order _ _) History.params History.greedy 1060 History.s0').1,
       Err S_AlreadyKnown).
Proof.
  refine (@utxo_reject_is_permanent toy_crypto (trie_order _ _) History.params History.greedy 1060
    History.s0' _ CoinbaseOutputTooHigh (proj1 History.s0'_spec) (proj2 (proj2 (proj2 History.s0'_spec)))
    (pair_with _ _ History.greedy_again) History.greedy 2000 eq_refl).
Defined.

Lemma supply_on_schedule_witness :
  utxo_total (cf_utxo (db History.mainnet0)) <= premint MAINNET + rewards_below MAINNET 1.
Proof.
  refine (@supply_on_schedule toy_crypto MAINNET History.mainnet0 Fixture.first_block
    MAINNET_emission_ok _ (proj1 History.mainnet0_spec) (proj2 (proj2 (proj2 History.mainnet0_spec)))
    (proj1 (proj2 (proj2 History.mainnet0_spec))) History.mainnet0_txs _); vm_compute; [discriminate|reflexivity].
Defined.

Lemma mainnet_supply_cap_witness : utxo_total (cf_utxo (db History.mainnet0)) <= TOTAL_SUPPLY_ATOMS.
Proof.
  refine (@mainnet_supply_cap toy_crypto History.mainnet0 Fixture.first_block
    (proj1 History.mainnet0_spec) (proj2 (proj2 (proj2 History.mainnet0_spec)))
    (proj1 (proj2 (proj2 History.mainnet0_spec))) History.mainnet0_txs _); vm_compute; reflexivity.
Defined.
