(* ===== verification/StateErrors.v ===== *)
(** * What [submit_block] answers, and what a refused block leaves behind

    The outcome of a submission is decided by the block and the state alone, in the order of
    the code's checks: each error has its exact cause, and only the UTXO rules leave a trace. *)

From S2P Require Import Prelude Crypto Hash Chain Block Validation Utxo Storage State StateDb StateChain StateInv StateProps StateSubmit.
From S2P Require Import Fixture StateWitness.

Local Open Scope Z_scope.

Section Errors.
Context `{Crypto} `{!IterOrder OutPoint UtxoEntry}.

(** The chain that ends in [b], once [b] is stored, obeys the UTXO rules from an empty set on. *)
Definition replays (params : ConsensusParams) (b : Block) (s : ChainState) : Prop :=
  exists lb set, ancestry (cf_blocks (db (stored b s))) (block_hash b) lb /\ replay_utxo params (reverse lb) = Ok set.

(** The causes of the outcomes, as conditions on a synchronised state before the submission. *)
Definition outcome_cause (params : ConsensusParams) (b : Block) (now : Z) (s : ChainState)
    (r : result StateError Block) : Prop :=
  let fresh := cf_blocks (db s) !! block_hash b = None in
  match r with
  | Err S_AlreadyKnown => is_Some (cf_blocks (db s) !! block_hash b)
  | Err UnknownParent => fresh /\ cf_blocks (db s) !! previous_hash (header b) = None
  | Err (S_Validation e) =>
      fresh /\ exists p, cf_blocks (db s) !! previous_hash (header b) = Some p
        /\ validate_block params (Some p) b now (expected_leading_zero_bits_for (db s) params (Some p))
             (epoch_seed_for_height (db s) (height (header b))) = Err e
  | Err (S_Utxo _) => fresh /\ (exists p, valid_child params s b now p) /\ heavier b (stored b s) /\ ~ replays params b s
  | Err _ => False
  | Ok b' =>
      b' = b /\ fresh /\ (exists p, valid_child params s b now p) /\ (heavier b (stored b s) -> replays params b s)
  end.

(** What is left: nothing for a block refused at sight, the stored block for one that fails the UTXO rules. *)
Definition refused_state (b : Block) (s : ChainState) (r : result StateError Block) : ChainState :=
  match r with Err (S_Utxo _) => stored b s | _ => s end.

Lemma extend_replays params b s t l s2 r :
  tip_ok params (stored b s) t l -> synced (stored b s) ->
  ancestry (cf_blocks (db (stored b s))) (block_hash b) (b :: l) ->
  extend_tip params b (stored b s) = (s2, r) ->
  match r with Ok _ => replays params b s | Err (S_Utxo _) => ~ replays params b s /\ s2 = stored b s | Err _ => False end.
Proof.
  intros Htip Hsy Hb. unfold extend_tip, get_state, modify, lift_result, mbind, stateful_bind. cbv beta zeta.
  pose proof (validate_block_utxo_spec (db (stored b s)) params b) as Hv.
  pose proof (tip_utxo _ _ _ _ Htip (Hsy _ (tip_cached _ _ _ _ Htip))) as Hrep.
  assert (replays params b s <-> exists set, apply_block params b (cf_utxo (db (stored b s))) = (set, Ok ())) as Hiff.
  { split.
    - intros (lb & set & Hlb & Hset). assert (lb = b :: l) as -> by (by eapply ancestry_det).
      unfold replay_utxo in *. rewrite reverse_cons, replay_from_app, Hrep in Hset. cbn [mbind result_bind replay_from] in Hset.
      destruct (apply_block params b _) as [set' [[]|]]; [by exists set'|done].
    - intros [set Hset]. exists (b :: l), set. split; [done|].
      unfold replay_utxo in *. rewrite reverse_cons, replay_from_app, Hrep. cbn [mbind result_bind replay_from]. by rewrite Hset. }
  destruct (validate_block_utxo (db (stored b s)) params b) as [[]|e] eqn:He; intros [= <- <-].
  - by apply Hiff, Hv.
  - unfold validate_block_utxo in He. destruct (apply_block _ _ _).2 as [u|u]; [done|]. injection He as <-.
    split; [|done]. intros Hr. by apply Hiff, Hv in Hr.
Qed.

Lemma reorganise_replays params b s t lb s2 r :
  blocks_ok (cf_blocks (db (stored b s))) -> ancestry (cf_blocks (db (stored b s))) (block_hash b) lb ->
  reorganise params b t (stored b s) = (s2, r) ->
  match r with Ok _ => replays params b s | Err (S_Utxo _) => ~ replays params b s /\ s2 = stored b s | Err _ => False end.
Proof.
  intros Hbs Hb. unfold reorganise, get_state, modify, lift_result, mbind, stateful_bind. cbv beta zeta.
  rewrite (build_canonical_chain_spec _ _ _ (blocks_keyed _ Hbs) Hb).
  destruct (replay_utxo params (reverse lb)) as [set|e] eqn:Hrep; cbn [map_err]; intros [= <- <-].
  - by exists lb, set.
  - split; [|done]. intros (lb' & set & Hlb & Hset). assert (lb' = lb) as -> by (by eapply ancestry_det). congruence.
Qed.

(** C14: Every outcome of a submission has its exact cause. On a good synchronised state [submit_block]
    answers that the block is known, that its parent is not, that it breaks this or that rule of
    [validate_block], or that its chain has more work and does not replay, in this order and in no other
    case; otherwise it takes the block. Whatever the error, the tip, the canonical index and the
    UTXO set stay as they are: nothing at all changes, but for a block that only fails the UTXO rules,
    which is stored. *)
Theorem submission_outcomes params b now s :
  state_ok params s -> synced s -> Z.of_nat (size (cf_blocks (db s))) < U64_MAX -> block_hash b <> ZERO ->
  let '(s', r) := submit_block params b now s in
  outcome_cause params b now s r /\ match r with Ok _ => True | Err _ => s' = refused_state b s r end.
Proof.
  intros Hok Hsy Hsize Hnz. destruct (submit_block params b now s) as [s' r] eqn:Hsub.
  pose proof (submit_block_step params b now s) as Hst. rewrite Hsub in Hst. cbn [fst snd] in Hst. clear Hsub.
  assert (forall s1 r1, ensure_utxo_synced params s = (s1, r1) -> s1 = s /\ r1 = Ok ()) as Hid.
  { intros s1 r1. rewrite ensure_synced_id by done. by intros [= <- <-]. }
  destruct Hst as [Hk|s1 e Hk Hs1|s1 Hk Hs1 Hp|s1 p e Hk Hs1 Hp Hv|s1 p Hk Hs1 Hc Hw
    |s1 p s2 r Hk Hs1 Hc Hw Hprev Hext|s1 p s2 r Hk Hs1 Hc Hw Hprev Hext]; [done|..];
    destruct (Hid _ _ Hs1) as [E1 Er]; subst s1.
  - done.
  - done.
  - split; [|done]. split; [done|]. by exists p.
  - split; [|done]. split_and!; [done|done|by exists p|done].
  - destruct (stored_ok _ _ _ _ _ _ Hok Hsize Hnz Hk Hs1 Hc)
      as (t & l & lp & Hts & Ht1 & Hsync & Hbl & Hbs & Htip & Hcan & Hpp & Hlp & Hb).
    assert (lp = l) as ->.
    { apply (ancestry_det _ _ _ _ (ancestry_store _ b _ _ Hk Hlp)). rewrite <- Hpp, Hprev. unfold tip_hash. rewrite Ht1. apply Htip. }
    pose proof (extend_replays _ _ _ _ _ _ _ Htip Hsync Hb Hext) as Hr. destruct r as [u|[]]; try done; cbn [mbind result_bind].
    + split; [|done]. split_and!; [done|done|by exists p|done].
    + destruct Hr as [Hr ->]. split; [|done]. split_and!; [done|by exists p|done|done].
  - destruct (stored_ok _ _ _ _ _ _ Hok Hsize Hnz Hk Hs1 Hc)
      as (t & l & lp & Hts & Ht1 & Hsync & Hbl & Hbs & Htip & Hcan & Hpp & Hlp & Hb).
    pose proof (reorganise_replays _ _ _ _ _ _ _ Hbs Hb Hext) as Hr. destruct r as [u|[]]; try done; cbn [mbind result_bind].
    + split; [|done]. split_and!; [done|done|by exists p|done].
    + destruct Hr as [Hr ->]. split; [|done]. split_and!; [done|by exists p|done|done].
Qed.
End Errors.

(** Witness: a block whose coinbase takes too much, on a chain of one block. *)
Lemma submission_outcomes_witness :
  let '(s', r) := @submit_block toy_crypto (trie_order _ _) History.params History.greedy 1060 History.s0' in
  @outcome_cause toy_crypto History.params History.greedy 1060 History.s0' r
  /\ match r with Ok _ => True | Err _ => s' = @refused_state toy_crypto History.greedy History.s0' r end.
Proof.
  apply (@submission_outcomes toy_crypto (trie_order _ _) History.params History.greedy 1060 History.s0').
  - exact (proj1 History.s0'_spec).
  - exact (proj2 (proj2 (proj2 History.s0'_spec))).
  - vm_compute. reflexivity.
  - by_compute.
Defined.
