(* ===== verification/StateTyped.v ===== *)
(** * What the database holds has the types of the code

    Hashes of 32 bytes, indices of 32 bits, amounts and heights of 64, scripts of bytes: what
    [#[derive(Deserialize)]] guarantees of a block that arrives holds of everything the chain state
    stores and of everything it writes about it. The clients of the database need not check. *)

From S2P Require Import Prelude Crypto Hash Chain Validation ScriptVM ScriptStandard Block BlockFacts.
From S2P Require Import Utxo UtxoSupply Storage State StateDb StateChain StateInv StateSubmit StateProps Fixture StateWitness.

Local Open Scope Z_scope.

(** ** Typed values *)

Definition outpoint_ok (o : OutPoint) : Prop := hash_ok (txid o) /\ 0 <= output_index o < U32_MOD.
Definition input_ok (i : TxInput) : Prop := outpoint_ok (previous_output i) /\ bytes_ok (signature_script i).
Record tx_typed (tx : Transaction) : Prop := {
  tx_id_typed : hash_ok (tx_id tx);
  tx_inputs_typed : Forall input_ok (inputs tx);
  tx_outputs_typed : tx_ok tx;
  tx_payload_typed : bytes_ok (payload tx);
}.
Record block_typed (b : Block) : Prop := {
  header_typed : header_ok (header b);
  bits_typed : is_u8 (leading_zero_bits_field (header b));
  txs_typed : Forall tx_typed (transactions b);
}.
Definition entry_typed (e : UtxoEntry) : Prop := output_ok (output e) /\ is_u64 (created_height e).
Definition utxo_typed (utxos : UtxoSet) : Prop := map_Forall (λ op e, outpoint_ok op /\ entry_typed e) utxos.

Record db_typed (d : Db) : Prop := {
  blocks_typed : map_Forall (λ h b, hash_ok h /\ block_typed b) (cf_blocks d);
  canonical_typed : map_Forall (λ n h, is_u64 n /\ hash_ok h) (cf_canonical d);
  tip_typed : forall h, meta_tip d = Some h -> hash_ok h;
  utxos_typed : utxo_typed (cf_utxo d);
}.

(** Parameters whose amounts and difficulties fit. *)
Record params_typed (params : ConsensusParams) : Prop := {
  params_bits : bits_range params;
  params_emission : emission_ok params;
  params_founder : is_u64 (founder_allocation_atoms params);
  params_allocations : Forall is_u64 (genesis_allocations params).*2;
}.

Lemma MAINNET_typed : params_typed MAINNET.
Proof. split; [apply MAINNET_bits_range|apply MAINNET_emission_ok|by_compute|by_compute]. Qed.

(** ** Applying a block keeps the types *)

Lemma created_outputs_typed h tx :
  is_u64 h -> tx_typed tx -> Forall (λ p, outpoint_ok p.1 /\ entry_typed p.2) (created_outputs h tx).
Proof.
  intros Hh [Hid _ Ho _]. unfold created_outputs. apply Forall_forall. intros [op e] Hin.
  apply list_elem_of_omap in Hin as ([i o] & Hi & Hp). destruct (unspendable o); [done|]. injection Hp as <- <-.
  apply elem_of_zip_r in Hi. unfold tx_ok in Ho. rewrite Forall_forall in Ho. cbn.
  split; [split; [done|cbn; apply Z.mod_pos_bound; done]|]. split; [by apply Ho|done].
Qed.

Lemma foldl_insert_typed (l : list (OutPoint * UtxoEntry)) self :
  Forall (λ p, outpoint_ok p.1 /\ entry_typed p.2) l -> utxo_typed self ->
  utxo_typed (foldl (λ s '(op, e), <[op := e]> s) self l).
Proof.
  intros Hl; revert self; induction Hl as [|[op e] l Hp _ IH]; intros self Hs; [done|]. cbn [foldl].
  apply IH. by apply map_Forall_insert_2.
Qed.

Lemma foldl_delete_typed (l : list OutPoint) self : utxo_typed self -> utxo_typed (foldl (λ s op, delete op s) self l).
Proof.
  revert self; induction l as [|op l IH]; intros self Hs; [done|]. cbn [foldl]. apply IH. by apply map_Forall_delete.
Qed.

Lemma new_db_typed : db_typed (db new_state).
Proof. split; [apply map_Forall_empty|apply map_Forall_empty|done|apply map_Forall_empty]. Qed.

Section Typed.
Context `{Crypto} `{!CryptoLaws _} `{!IterOrder OutPoint UtxoEntry}.

Lemma apply_block_typed params b self self' :
  block_typed b -> utxo_typed self -> apply_block params b self = (self', Ok ()) -> utxo_typed self'.
Proof.
  intros [Hh _ Ht] Hs Ha. apply apply_block_spec in Ha as [_ _ _ ->].
  apply foldl_insert_typed; [|by apply foldl_delete_typed]. unfold created.
  apply Forall_forall. intros p Hp. apply list_elem_of_bind in Hp as (tx & Hp & Htx).
  rewrite Forall_forall in Ht. pose proof (created_outputs_typed _ tx (height_ok _ Hh) (Ht _ Htx)) as Hc.
  rewrite Forall_forall in Hc. by apply Hc.
Qed.

Lemma replay_typed params l set set' :
  Forall block_typed l -> utxo_typed set -> replay_from params l set = Ok set' -> utxo_typed set'.
Proof.
  intros Hl; revert set; induction Hl as [|b l Hb _ IH]; intros set Hs; cbn [replay_from]; [by intros [= <-]|].
  destruct (apply_block params b set) as [set1 [[]|e]] eqn:Ha; [|done]. apply IH. by eapply apply_block_typed.
Qed.

(** ** Hashes *)

Lemma block_hash_typed b : hash_ok (block_hash b).
Proof. apply double_sha256_ok. Qed.

Lemma zero_typed : hash_ok ZERO.
Proof. split; [done|]. apply Forall_replicate. unfold is_u8. lia. Qed.

Lemma merkle_pairs_typed layer : Forall hash_ok layer -> Forall hash_ok (merkle_pairs layer).
Proof.
  intros _. remember (length layer) as n eqn:Hn. assert (length layer <= n)%nat as Hle by lia. clear Hn.
  revert layer Hle; induction n as [n IH] using lt_wf_ind; intros [|l [|r rest]] Hle; cbn [merkle_pairs];
    [constructor|constructor; [apply double_sha256_ok|constructor]|].
  constructor; [apply double_sha256_ok|]. cbn [length] in Hle. apply (IH (length rest)); lia.
Qed.

Lemma merkle_root_typed txs : Forall tx_typed txs -> hash_ok (merkle_root txs).
Proof.
  intros Ht. unfold merkle_root. case_decide; [apply zero_typed|]. unfold merkle_ids.
  assert (Forall hash_ok (tx_id <$> txs)) as Hl by (apply Forall_fmap; eapply Forall_impl; [done|]; by intros tx []).
  revert Hl. generalize (tx_id <$> txs) at 1 3. generalize (length (tx_id <$> txs)). intros n layer Hl.
  destruct (merkle_loop n layer) as [[|root rest]|] eqn:Hm; [apply zero_typed| |apply zero_typed].
  revert layer Hl Hm; induction n as [|n IH]; intros layer Hl Hm; cbn [merkle_loop] in Hm; case_decide; try done;
    [by injection Hm as ->; apply Forall_cons in Hl as [? _]..|].
  by apply (IH (merkle_pairs layer)); [apply merkle_pairs_typed|].
Qed.

(** ** Blocks the state makes itself *)

Lemma from_address_typed addr s : p2pkh_from_address addr = Ok s -> bytes_ok s.
Proof.
  unfold p2pkh_from_address. intros Hp. apply bind_Ok in Hp as ([hrp data] & _ & Hp).
  apply bind_Ok in Hp as ([] & _ & Hp). apply bind_Ok in Hp as (h & Hh & Hp). apply bind_Ok in Hp as ([] & _ & [= <-]).
  apply ok_or_Ok, from_base32_bytes in Hh. unfold p2pkh_bytes, OP_DUP, OP_HASH160, OP_EQUALVERIFY, OP_CHECKSIG.
  do 3 (apply Forall_cons; split; [unfold is_u8; lia|]). apply Forall_app; split; [done|].
  repeat constructor; unfold is_u8; lia.
Qed.

Lemma script_or_default_typed addr : bytes_ok (script_or_default addr).
Proof.
  unfold script_or_default. destruct (p2pkh_from_address addr) eqn:Hp; [by eapply from_address_typed|constructor].
Qed.

Lemma make_tx_typed outs pl : Forall output_ok outs -> bytes_ok pl -> tx_typed (make_tx [] outs pl).
Proof. intros Ho Hp. split; [apply double_sha256_ok|constructor|done|done]. Qed.

Lemma coinbase_typed n reward miner : is_u64 reward -> tx_typed (coinbase n reward miner).
Proof.
  intros Hr. apply make_tx_typed; [|apply bytes_of_string_ok]. destruct (reward =? 0); repeat constructor; cbn; [apply Hr..|].
  apply script_or_default_typed.
Qed.

Lemma genesis_coinbase_typed reward miner founder addr allocations :
  is_u64 reward -> is_u64 founder -> Forall is_u64 allocations.*2 ->
  tx_typed (genesis_coinbase reward miner founder addr allocations).
Proof.
  intros Hr Hf Ha. apply make_tx_typed; [|apply bytes_of_string_ok].
  assert (forall a v, is_u64 v -> output_ok {| value_atoms := v; script_pubkey := script_or_default a |}) as Hpay
    by (intros a v Hv; split; [done|apply script_or_default_typed]).
  apply Forall_app; split; [destruct (0 <? reward); repeat constructor; by apply Hpay|].
  destruct (negb _).
  - apply Forall_fmap, Forall_forall. intros [a v] Hin. apply list_elem_of_filter in Hin as [_ Hin]. apply Hpay.
    rewrite Forall_forall in Ha. apply Ha, list_elem_of_fmap. by exists (a, v).
  - destruct (_ && _); repeat constructor; by apply Hpay.
Qed.

Lemma next_height_typed parent : is_u64 (next_height parent).
Proof.
  unfold next_height, is_u64. destruct parent; [apply Z.mod_pos_bound; done|done].
Qed.

(** A candidate with a new nonce and difficulty. *)
Lemma candidate_typed params parent ts miner n bits :
  params_typed params -> is_u64 ts -> is_u64 n -> is_u8 bits ->
  block_typed {| header := with_nonce n (with_bits bits (header (candidate params parent ts miner [] 0)));
                 transactions := transactions (candidate params parent ts miner [] 0) |}.
Proof.
  intros [Hb He Hf Ha] Hts Hn Hbits.
  assert (is_u64 (sat_add64 (reward_at_height params (next_height parent)) 0)) as Hr.
  { apply sat_add64_range; [|done]. by apply (reward_at_height_range params He). }
  assert (Forall tx_typed (transactions (candidate params parent ts miner [] 0))) as Ht.
  { cbn [candidate transactions]. apply Forall_singleton. destruct (has_genesis_premint _ _);
      [by apply genesis_coinbase_typed|by apply coinbase_typed]. }
  split; [|done|done]. split; cbn [header candidate with_nonce with_bits version height timestamp_seconds nonce previous_hash merkle_root_field].
  - done.
  - apply next_height_typed.
  - done.
  - done.
  - destruct parent; [apply block_hash_typed|apply zero_typed].
  - by apply merkle_root_typed.
Qed.

Lemma template_typed params parent ts miner :
  params_typed params -> is_u64 ts -> block_typed (candidate params parent ts miner [] 0).
Proof.
  intros Hp Hts. apply (candidate_typed params parent ts miner 0 (initial_leading_zero_bits params)); [done|done|done|].
  destruct (params_bits _ Hp) as [Hmin Hmax]. unfold is_u8. lia.
Qed.

Lemma expected_bits_typed d params parent : bits_range params -> is_u8 (expected_leading_zero_bits_for d params parent).
Proof.
  intros Hb. unfold expected_leading_zero_bits_for.
  pose proof (expected_leading_zero_bits_range params (next_height parent) (retarget_sample d params parent (next_height parent)) Hb).
  destruct Hb as [Hmin Hmax]. unfold is_u8. lia.
Qed.

Lemma mined_typed params parent ts miner max_nonce bits seed b :
  params_typed params -> is_u64 ts -> is_u64 max_nonce -> is_u8 bits ->
  mine_candidate_block params parent ts miner max_nonce bits seed = Ok b -> block_typed b.
Proof.
  intros Hp Hts Hn Hb. unfold mine_candidate_block. intros Hm. apply bind_Ok in Hm as (h & Hh & [= <-]).
  apply ok_or_Ok in Hh. unfold mine_header in Hh.
  pose proof (mine_from_spec (Z.to_nat (max_nonce + 1)) 0 (with_bits bits (header (candidate params parent ts miner [] 0))) seed) as Hs.
  rewrite Hh in Hs. destruct Hs as (k & Hk & -> & _). unfold is_u64 in Hn. apply candidate_typed; [done|done|unfold is_u64; lia|done].
Qed.

(** ** Submission *)

(** A submission leaves the state, or a UTXO family in step with the tip. *)
Lemma submit_step_synced params b now s s' r :
  state_ok params s -> Z.of_nat (size (cf_blocks (db s))) < U64_MAX -> block_hash b <> ZERO ->
  submit_step params b now s s' r -> s' = s \/ synced s'.
Proof.
  intros Hok Hsize Hnz Hstep. pose proof (submit_step_ok _ _ _ _ _ _ Hok Hsize Hnz Hstep) as (_ & _ & Hsy & _).
  assert (forall s1 e, ensure_utxo_synced params s = (s1, e) -> s1 = s \/ synced s1) as Hens.
  { intros s1 e Hs1. destruct (ensure_synced_spec _ _ _ _ Hok Hs1) as (_ & _ & _ & Hr). destruct e; [by right|by left]. }
  assert (forall s1 p, cf_blocks (db s) !! block_hash b = None -> ensure_utxo_synced params s = (s1, Ok ()) ->
    valid_child params s1 b now p -> synced (stored b s1)) as Hst.
  { intros s1 p Hk Hs1 Hc. destruct (ensure_synced_spec _ _ _ _ Hok Hs1) as (_ & _ & _ & Hr). exact Hr. }
  destruct Hstep as [Hk|s1 e Hk Hs1|s1 Hk Hs1 Hp|s1 p e Hk Hs1 Hp Hv|s1 p Hk Hs1 Hc Hw
    |s1 p s2 r Hk Hs1 Hc Hw Hprev Hext|s1 p s2 r Hk Hs1 Hc Hw Hprev Hext]; [by left|by eapply Hens..| | |].
  - right. by eapply Hst.
  - right. destruct r; [by apply Hsy|]. apply extend_tip_blocks in Hext as ->. by eapply Hst.
  - right. destruct r; [by apply Hsy|]. apply reorganise_blocks in Hext as ->. by eapply Hst.
Qed.

(** The stored blocks are those of before and the one submitted. *)
Lemma submit_step_blocks params b now s s' r h c :
  state_ok params s -> Z.of_nat (size (cf_blocks (db s))) < U64_MAX -> block_hash b <> ZERO ->
  submit_step params b now s s' r -> cf_blocks (db s') !! h = Some c ->
  cf_blocks (db s) !! h = Some c \/ h = block_hash b /\ c = b.
Proof.
  intros Hok Hsize Hnz Hstep Hin.
  assert (forall s1 e, ensure_utxo_synced params s = (s1, e) -> cf_blocks (db s1) = cf_blocks (db s)) as Hens
    by (intros s1 e Hs1; by destruct (ensure_synced_spec _ _ _ _ Hok Hs1) as (_ & ? & _)).
  assert (forall s1 e, ensure_utxo_synced params s = (s1, e) -> cf_blocks (db (stored b s1)) !! h = Some c ->
    cf_blocks (db s) !! h = Some c \/ h = block_hash b /\ c = b) as Hst.
  { intros s1 e Hs1. simpl. rewrite (Hens _ _ Hs1). intros [[<- <-]|[_ ?]]%lookup_insert_Some; [by right|by left]. }
  destruct Hstep as [Hk|s1 e Hk Hs1|s1 Hk Hs1 Hp|s1 p e Hk Hs1 Hp Hv|s1 p Hk Hs1 Hc Hw
    |s1 p s2 r Hk Hs1 Hc Hw Hprev Hext|s1 p s2 r Hk Hs1 Hc Hw Hprev Hext]; [by left|left; by rewrite <- (Hens _ _ Hs1)..| | |].
  - by eapply Hst.
  - eapply Hst; [done|]. destruct (stored_ok _ _ _ _ _ _ Hok Hsize Hnz Hk Hs1 Hc)
      as (t & l & lp & Hts & Ht1 & Hsync & Hbl & Hbs & Htip & Hcan & Hpp & Hlp & Hb).
    assert (lp = l) as ->.
    { assert (cf_blocks (db s1) !! block_hash b = None) as Hk1 by by rewrite Hbl.
      apply (ancestry_det _ _ _ _ (ancestry_store _ b _ _ Hk1 Hlp)). rewrite <- Hpp, Hprev. unfold tip_hash. rewrite Ht1. apply Htip. }
    destruct (extend_tip_spec _ _ _ _ _ _ _ Htip Hsync Hb Hext) as [<- _]. done.
  - eapply Hst; [done|]. destruct (stored_ok _ _ _ _ _ _ Hok Hsize Hnz Hk Hs1 Hc)
      as (t & l & lp & Hts & Ht1 & Hsync & Hbl & Hbs & Htip & Hcan & Hpp & Hlp & Hb).
    unfold tip_hash in Hext. rewrite Ht1 in Hext.
    destruct (reorganise_spec _ _ _ _ _ _ _ _ Hbs Htip Hb Hext) as [<- _]. done.
Qed.

(** ** A good state of typed blocks *)

Lemma synced_utxo_typed params s :
  state_ok params s -> synced s -> map_Forall (λ h b, hash_ok h /\ block_typed b) (cf_blocks (db s)) ->
  utxo_typed (cf_utxo (db s)).
Proof.
  intros [Hbs [[_ _ ->]|(t & l & Ht)]] Hsy Hb; [apply map_Forall_empty|].
  pose proof (tip_utxo _ _ _ _ Ht (Hsy _ (tip_cached _ _ _ _ Ht))) as Hr.
  eapply replay_typed; [|apply map_Forall_empty|exact Hr]. apply Forall_reverse, Forall_forall. intros b Hin.
  pose proof (ancestry_stored _ _ _ _ (blocks_keyed _ Hbs) (tip_ancestry _ _ _ _ Ht) Hin) as Hs. by apply (Hb _ _ Hs).
Qed.

Lemma good_db_typed params s :
  state_ok params s -> map_Forall (λ h b, hash_ok h /\ block_typed b) (cf_blocks (db s)) -> utxo_typed (cf_utxo (db s)) ->
  db_typed (db s).
Proof.
  intros [Hbs Hs] Hb Hu. split; [done| | |done].
  - destruct Hs as [[_ _ ->]|(t & l & Ht)]; [apply map_Forall_empty|]. rewrite (tip_index _ _ _ _ Ht).
    intros n h Hn. unfold index_of in Hn. apply elem_of_list_to_map_2, list_elem_of_fmap in Hn as (b & [= -> ->] & Hin).
    split; [|apply block_hash_typed].
    pose proof (ancestry_stored _ _ _ _ (blocks_keyed _ Hbs) (tip_ancestry _ _ _ _ Ht) Hin) as Hst.
    by apply (Hb _ _ Hst).
  - intros h Hm. destruct Hs as [[_ _ He]|(t & l & Ht)]; [by rewrite He in Hm|].
    rewrite (tip_meta _ _ _ _ Ht) in Hm. injection Hm as <-. apply block_hash_typed.
Qed.

(** Synchronising keeps the types. *)
Lemma ensure_synced_typed params s s1 r :
  state_ok params s -> db_typed (db s) -> ensure_utxo_synced params s = (s1, r) -> db_typed (db s1).
Proof.
  intros Hok Hd Hs1. destruct (ensure_synced_spec _ _ _ _ Hok Hs1) as (Hok1 & Hbl & _ & Hr).
  destruct r as [[]|e]; [|by subst]. pose proof (blocks_typed _ Hd) as Hb. rewrite <- Hbl in Hb.
  apply (good_db_typed params); [done|done|]. by apply (synced_utxo_typed params).
Qed.

Lemma submit_typed params b now s s' r :
  state_ok params s -> Z.of_nat (size (cf_blocks (db s))) < U64_MAX -> block_hash b <> ZERO ->
  db_typed (db s) -> block_typed b -> submit_step params b now s s' r -> db_typed (db s').
Proof.
  intros Hok Hsize Hnz Hd Hb Hstep.
  pose proof (submit_step_ok _ _ _ _ _ _ Hok Hsize Hnz Hstep) as (Hok' & _).
  destruct (submit_step_synced _ _ _ _ _ _ Hok Hsize Hnz Hstep) as [->|Hsy]; [done|].
  assert (map_Forall (λ h b, hash_ok h /\ block_typed b) (cf_blocks (db s'))) as Hbs.
  { intros h c Hc. destruct (submit_step_blocks _ _ _ _ _ _ _ _ Hok Hsize Hnz Hstep Hc) as [Hin|[-> ->]].
    - by apply (blocks_typed _ Hd).
    - split; [apply block_hash_typed|done]. }
  apply (good_db_typed params); [done|done|]. by apply (synced_utxo_typed params).
Qed.

(** Committing a typed block at the tip. *)
Lemma committed_typed params b s :
  state_ok params (committed b s) -> db_typed (db s) -> block_typed b -> db_typed (db (committed b s)).
Proof.
  intros Hok Hd Hb. apply (good_db_typed params); [done|..].
  - unfold committed. rewrite write_put_block. simpl. apply map_Forall_insert_2; [split; [apply block_hash_typed|done]|].
    apply Hd.
  - unfold committed. rewrite write_put_block. simpl. apply Hd.
Qed.

(** ** The state machine on typed inputs *)

(** The steps of [op_step] when what they are given has its types. *)
Inductive typed_step (params : ConsensusParams) (s : ChainState) : ChainState -> Prop :=
| typed_genesis ts max_nonce s' b :
    is_u64 ts -> is_u64 max_nonce -> init_genesis params ts max_nonce s = (s', Ok b) -> block_hash b <> ZERO ->
    typed_step params s s'
| typed_genesis_nonce ts n s' b :
    is_u64 ts -> is_u64 n -> init_genesis_nonce params ts n s = (s', Ok b) -> block_hash b <> ZERO -> typed_step params s s'
| typed_mine ts miner max_nonce s' b :
    is_u64 ts -> is_u64 max_nonce -> mine_next_block params ts miner max_nonce s = (s', Ok b) -> block_hash b <> ZERO ->
    cf_blocks (db s) !! block_hash b = None -> Z.of_nat (size (cf_blocks (db s))) < U64_MAX -> typed_step params s s'
| typed_submit b now :
    block_typed b -> block_hash b <> ZERO -> Z.of_nat (size (cf_blocks (db s))) < U64_MAX ->
    typed_step params s (submit_block params b now s).1
| typed_sync s' r : ensure_utxo_synced params s = (s', r) -> typed_step params s s'
| typed_requeue : typed_step params s (take_reorg_requeue_candidates s).1
| typed_reopen : typed_step params s (open_db (db s)).

Lemma typed_op_step params s s' : typed_step params s s' -> op_step params s s'.
Proof.
  intros [ts m s1 b _ _ Hg Hnz|ts n s1 b _ _ Hg Hnz|ts mi m s1 b _ _ Hm Hnz Hnew Hsize|b now _ Hnz Hsize|s1 r Hs| |].
  - by eapply step_genesis.
  - by eapply step_genesis_nonce.
  - by eapply step_mine.
  - by apply step_submit.
  - by eapply step_sync.
  - apply step_requeue.
  - apply step_reopen.
Qed.

(** The blocks the state mines are typed. *)
Lemma made_typed params s s' b :
  params_typed params ->
  (exists ts m, is_u64 ts /\ is_u64 m /\ init_genesis params ts m s = (s', Ok b))
  \/ (exists ts n, is_u64 ts /\ is_u64 n /\ init_genesis_nonce params ts n s = (s', Ok b))
  \/ (exists ts miner m, is_u64 ts /\ is_u64 m /\ mine_next_block params ts miner m s = (s', Ok b)) ->
  block_typed b.
Proof.
  intros Hp Hmade. pose proof (params_bits _ Hp) as Hbits.
  unfold init_genesis, init_genesis_nonce, mine_next_block, commit_tip, validated, get_state, modify, lift_result, mret,
    stateful_ret, mbind, stateful_bind in Hmade. cbv beta zeta in Hmade.
  destruct Hmade as [(ts & m & Hts & Hm & Hr)|[(ts & n & Hts & Hn & Hr)|(ts & miner & m & Hts & Hm & Hr)]].
  - destruct (reject_if _ _) as [[]|]; [|done].
    destruct (mine_candidate_block _ _ _ _ _ _ _) as [c|] eqn:Hc; [|done].
    destruct (validate_block _ _ _ _ _ _) as [[]|]; [|done]. injection Hr as _ <-.
    eapply mined_typed; [done|exact Hts|exact Hm|by apply expected_bits_typed|exact Hc].
  - destruct (reject_if _ _) as [[]|]; [|done]. destruct (reject_if _ _) as [[]|]; [|done].
    destruct (validate_block _ _ _ _ _ _) as [[]|]; [|done]. injection Hr as _ <-.
    by apply (candidate_typed params None ts "genesis" n); [| | |apply expected_bits_typed].
  - destruct (ok_or (tip_cache s) MissingGenesis) as [t|]; [|done].
    destruct (mine_candidate_block _ _ _ _ _ _ _) as [c|] eqn:Hc; [|done].
    destruct (validate_block _ _ _ _ _ _) as [[]|]; [|done]. injection Hr as _ <-.
    eapply mined_typed; [done|exact Hts|exact Hm|by apply expected_bits_typed|exact Hc].
Qed.

Lemma typed_step_ok params s s' :
  params_typed params -> state_ok params s -> db_typed (db s) -> typed_step params s s' -> db_typed (db s').
Proof.
  intros Hp Hok Hd Hstep. pose proof (op_step_ok _ _ _ Hok (typed_op_step _ _ _ Hstep)) as Hok'.
  destruct Hstep as [ts m s1 b Hts Hm Hg Hnz|ts n s1 b Hts Hn Hg Hnz|ts mi m s1 b Hts Hm Hg Hnz Hnew Hsize
    |b now Hb Hnz Hsize|s1 r Hs| |].
  - assert (block_typed b) as Hb by (eapply made_typed; [done|left; by exists ts, m]).
    apply init_genesis_spec in Hg as (_ & _ & _ & ->). by eapply committed_typed.
  - assert (block_typed b) as Hb by (eapply made_typed; [done|right; left; by exists ts, n]).
    apply init_genesis_nonce_spec in Hg as (_ & _ & _ & ->). by eapply committed_typed.
  - assert (block_typed b) as Hb by (eapply made_typed; [done|right; right; by exists ts, mi, m]).
    apply mine_next_spec in Hg as (t & _ & -> & _). by eapply committed_typed.
  - apply (submit_typed params b now s _ (submit_block params b now s).2); try done. apply submit_block_step.
  - by apply (ensure_synced_typed params s s1 r).
  - done.
  - by rewrite open_db_db.
Qed.
End Typed.
