(* ===== verification/Wallet.v ===== *)
(** * Keys and signing ([tensorium-core/src/wallet.rs])

    Key pairs, their addresses and the functions that sign transactions. A
    method on [&mut Transaction] threads the transaction as its state; every
    error is found before the transaction is changed. *)

From S2P Require Import Prelude Crypto Hash ScriptVM ScriptStandard Block.

Local Open Scope Z_scope.

Record WalletKeypair := {
  private_key_hex : string;
  public_key_hex : string;
  address : string;
}.

Inductive WalletError :=
| InvalidPrivateKey | AddressEncode | SignatureEncode | InvalidPublicKey | WalletInvalidSignature
| InputIndexOutOfRange.

#[export] Instance WalletError_eq_dec : EqDecision WalletError.
Proof. solve_decision. Defined.

(** [input.signature_script = script] *)
Definition set_script (script : bytes) (i : TxInput) : TxInput :=
  {| previous_output := previous_output i; signature_script := script |}.
Definition set_inputs (ins : list TxInput) (tx : Transaction) : Transaction :=
  {| tx_id := tx_id tx; inputs := ins; outputs := outputs tx; payload := payload tx |}.

Section Wallet.
Context `{Crypto}.

(** [Address::from_public_key] *)
Definition address_from_public_key (public_key_bytes : bytes) : result WalletError string :=
  ok_or (bech32_encode ADDRESS_HRP (to_base32 (take 20 (sha256 public_key_bytes)))) AddressEncode.

(** The [expect] of an address error is a panic. *)
Definition from_signing_key (sk : signing_key) : outcome WalletKeypair :=
  let public_key_bytes := vk_to_sec1 (verifying_of sk) in
  match address_from_public_key public_key_bytes with
  | Ok a => Done {| private_key_hex := hex_encode (secret_to_bytes sk);
                    public_key_hex := hex_encode public_key_bytes; address := a |}
  | Err _ => Panic
  end.

(** [hex::decode] and [SecretKey::from_slice], the first lines of every function
    that uses the private key. *)
Definition secret_of_hex (s : string) : result WalletError signing_key :=
  private_key_bytes ← ok_or (hex_decode s) InvalidPrivateKey;
  ok_or (secret_from_slice private_key_bytes) InvalidPrivateKey.

Definition from_private_key_hex (s : string) : outcome (result WalletError WalletKeypair) :=
  match secret_of_hex s with
  | Ok sk => match from_signing_key sk with Done kp => Done (Ok kp) | Panic => Panic end
  | Err e => Done (Err e)
  end.

(** [sign_hash]: the DER signature of a hash. *)
Definition sign_hash (self : WalletKeypair) (hash : Hash256) : result WalletError bytes :=
  sk ← secret_of_hex (private_key_hex self);
  Ok (sig_to_der (ecdsa_sign sk (hash_bytes hash))).

(** The unlocking script [sign_transaction] and [sign_input] compute. *)
Definition unlocking_script (self : WalletKeypair) (tx : Transaction) : result WalletError bytes :=
  sk ← secret_of_hex (private_key_hex self);
  let der_bytes := sig_to_der (ecdsa_sign sk (hash_bytes (signature_hash tx))) in
  pubkey_bytes ← ok_or (hex_decode (public_key_hex self)) InvalidPrivateKey;
  Ok (p2pkh_script_sig der_bytes pubkey_bytes).

Definition sign_transaction (self : WalletKeypair) : stateful Transaction WalletError () :=
  tx ← get_state;
  script_sig ← lift_result (unlocking_script self tx);
  put_state (refresh_id (set_inputs (set_script script_sig <$> inputs tx) tx)).

Definition sign_input (self : WalletKeypair) (index : nat) : stateful Transaction WalletError () :=
  tx ← get_state;
  lift_result (reject_if (length (inputs tx) <=? index)%nat InputIndexOutOfRange);;
  script_sig ← lift_result (unlocking_script self tx);
  put_state (refresh_id (set_inputs (alter (set_script script_sig) index (inputs tx)) tx)).
End Wallet.

(** * Signing: what a key pair signs, the chain accepts *)

From S2P Require Import Chain ScriptVMFacts ScriptStandardFacts.
From S2P Require Import ScriptSpend Utxo Fixture.

Section Wallet.
Context `{Crypto} `{!CryptoLaws _}.

(** A key pair the program created: by [generate] or [from_private_key_hex]. *)
Definition made_from (kp : WalletKeypair) (sk : signing_key) : Prop := from_signing_key sk = Done kp.

(** The locking script of a key pair's address. *)
Definition owner_script (sk : signing_key) : bytes := p2pkh_from_pubkey (vk_to_sec1 (verifying_of sk)).

Lemma key_hash_length bs : length (take 20 (sha256 bs)) = 20%nat.
Proof. rewrite length_take, sha256_length. done. Qed.

Lemma key_hash_ok bs : bytes_ok (take 20 (sha256 bs)).
Proof. apply Forall_take, sha256_ok. Qed.

Lemma secret_of_made kp sk : made_from kp sk -> secret_of_hex (private_key_hex kp) = Ok sk.
Proof.
  unfold made_from, from_signing_key. destruct (address_from_public_key _); [|done]. intros [= <-].
  unfold secret_of_hex; cbn [private_key_hex]. rewrite hex_roundtrip by apply secret_bytes_ok.
  cbn. by rewrite secret_roundtrip.
Qed.

Lemma public_of_made kp sk :
  made_from kp sk -> hex_decode (public_key_hex kp) = Some (vk_to_sec1 (verifying_of sk)).
Proof.
  unfold made_from, from_signing_key. destruct (address_from_public_key _); [|done]. intros [= <-].
  cbn [public_key_hex]. apply hex_roundtrip, vk_sec1_ok.
Qed.

(** The signature script a key pair puts into a transaction. *)
Definition stamp (sk : signing_key) (hash : Hash256) : bytes :=
  p2pkh_script_sig (sig_to_der (ecdsa_sign sk (hash_bytes hash))) (vk_to_sec1 (verifying_of sk)).

Lemma unlocking_script_made kp sk tx :
  made_from kp sk -> unlocking_script kp tx = Ok (stamp sk (signature_hash tx)).
Proof.
  intros Hk. unfold unlocking_script. rewrite (secret_of_made _ _ Hk). cbn [mbind result_bind].
  by rewrite (public_of_made _ _ Hk).
Qed.

Lemma made_total sk : exists kp, made_from kp sk.
Proof.
  unfold made_from, from_signing_key, address_from_public_key.
  destruct (bech32_encodes ADDRESS_HRP (take 20 (sha256 (vk_to_sec1 (verifying_of sk))))) as [a Ha].
  - by left.
  - apply key_hash_length.
  - apply key_hash_ok.
  - rewrite Ha. simpl. eauto.
Qed.

(** The address of a key pair parses to its locking script, and the script
    prints as the address. *)
Lemma made_address kp sk :
  made_from kp sk ->
  p2pkh_from_address (address kp) = Ok (owner_script sk) /\
  extract_address (owner_script sk) = Some (address kp).
Proof.
  unfold made_from, from_signing_key, address_from_public_key, owner_script, p2pkh_from_pubkey.
  set (h := take 20 (sha256 _)). assert (length h = 20%nat) as Hl by apply key_hash_length.
  assert (bytes_ok h) as Hb by apply key_hash_ok. clearbody h.
  destruct (bech32_encode ADDRESS_HRP (to_base32 h)) as [a|] eqn:Ha; [|done]. intros [= <-].
  cbn [address]. unfold p2pkh_from_address, extract_address. rewrite extract_p2sh_hash_p2pkh by done. split.
  - rewrite (bech32_roundtrip _ _ _ (or_introl eq_refl) Ha). cbn.
    rewrite base32_roundtrip by done. cbn. by rewrite Hl.
  - rewrite <- Ha. by explode h.
Qed.

(** The stamp unlocks the owner's output. *)
Lemma stamp_executes sk hash h :
  execute (stamp sk hash) (owner_script sk) {| sig_hash := hash; block_height := h |} = Ok true.
Proof.
  set (sig := sig_to_der (ecdsa_sign sk (hash_bytes hash))). set (pk := vk_to_sec1 (verifying_of sk)).
  assert (1 <= length sig <= 72)%nat as Hs by apply sig_der_length.
  assert (length pk = 33%nat) as Hp by apply vk_sec1_length.
  assert (unlocks {| sig_hash := hash; block_height := h |} (take 20 (sha256 pk)) sig pk) as Hu.
  { split; [done|]. unfold sig_ok, pk, sig. rewrite vk_sec1_roundtrip, sig_der_roundtrip.
    apply ecdsa_sign_verifies. }
  unfold stamp, owner_script, p2pkh_from_pubkey. fold sig pk. clearbody sig pk.
  apply execute_bare; [apply p2pkh_not_p2sh, key_hash_length|]. split.
  { unfold p2pkh_script_sig, p2pkh_bytes, MAX_SCRIPT_SIZE.
    repeat (rewrite ?length_cons, ?length_app; simpl app). rewrite key_hash_length. simpl. lia. }
  exists [pk; sig], [1], []. split_and!; [| |done].
  - unfold p2pkh_script_sig. rewrite <- (app_nil_r pk) at 2. rewrite run_sig_pk by lia. apply run_from_nil.
  - unfold run. rewrite p2pkh_keyhash, keyhash_run; [apply run_from_nil|apply key_hash_length|done| |done].
    simpl. unfold MAX_STACK_DEPTH. lia.
Qed.

(** *** Signing one input leaves everything else *)

Lemma sign_input_made kp sk index tx :
  made_from kp sk -> (index < length (inputs tx))%nat ->
  sign_input kp index tx =
    (refresh_id (set_inputs (alter (set_script (stamp sk (signature_hash tx))) index (inputs tx)) tx), Ok ()).
Proof.
  intros Hk Hi. unfold sign_input, mbind, stateful_bind, get_state, lift_result, put_state.
  rewrite (proj2 (Nat.leb_gt _ _)) by done. cbn [reject_if].
  by rewrite (unlocking_script_made kp sk tx Hk).
Qed.

Lemma signature_hash_set_inputs ins tx :
  strip_input <$> ins = strip_input <$> inputs tx ->
  signature_hash (refresh_id (set_inputs ins tx)) = signature_hash tx.
Proof. intros E. unfold signature_hash. cbn [inputs outputs payload refresh_id make_tx set_inputs]. by rewrite E. Qed.

Lemma strip_alter s (index : nat) (ins : list TxInput) : strip_input <$> alter (set_script s) index ins = strip_input <$> ins.
Proof.
  apply list_eq. intros i. rewrite !list_lookup_fmap.
  destruct (decide (index = i)) as [->|Hne].
  - rewrite list_lookup_alter_eq. by destruct (ins !! i).
  - by rewrite list_lookup_alter_ne.
Qed.

(** Parties sign their own inputs, one after the other. *)
Definition cosign (keys : nat -> WalletKeypair) (order : list nat) (tx : Transaction) : Transaction :=
  foldl (λ tx i, (sign_input (keys i) i tx).1) tx order.

Lemma cosign_spec keys sks order tx :
  (forall i, made_from (keys i) (sks i)) -> Forall (λ i, (i < length (inputs tx))%nat) order ->
  let tx' := cosign keys order tx in
  outputs tx' = outputs tx /\ payload tx' = payload tx /\ signature_hash tx' = signature_hash tx /\
  strip_input <$> inputs tx' = strip_input <$> inputs tx /\
  forall i, inputs tx' !! i =
    (if decide (i ∈ order) then set_script (stamp (sks i) (signature_hash tx)) <$> inputs tx !! i
     else inputs tx !! i).
Proof.
  intros Hk Ho. cbv zeta. revert tx Ho. induction order as [|j order IH]; intros tx Ho.
  { by split_and!. }
  apply Forall_cons in Ho as [Hj Ho]. unfold cosign. cbn [foldl].
  rewrite (sign_input_made _ _ _ _ (Hk j) Hj). cbn [fst].
  set (tx1 := refresh_id _).
  assert (signature_hash tx1 = signature_hash tx) as Hs by apply signature_hash_set_inputs, strip_alter.
  assert (length (inputs tx1) = length (inputs tx)) as Hl by apply length_alter.
  destruct (IH tx1) as (Ho1 & Hp & Hsig & Hst & Hin); [by rewrite Hl|].
  unfold cosign in *. rewrite Ho1, Hp, Hsig, Hst. split_and!; [done|done|done|apply strip_alter|].
  intros i. rewrite Hin, Hs. change (inputs tx1) with (alter (set_script (stamp (sks j) (signature_hash tx))) j (inputs tx)).
  destruct (decide (j = i)) as [->|Hne].
  - rewrite list_lookup_alter_eq, (decide_True (P := i ∈ i :: order)) by set_solver.
    case_decide; [|done]. by destruct (inputs tx !! i).
  - rewrite list_lookup_alter_ne by done. case_decide; case_decide; set_solver.
Qed.

(** An input whose output is locked to the key [sk] and mature at [h]. *)
Definition owned_by (utxos : UtxoSet) (params : ConsensusParams) (h : Z) (sk : signing_key) (op : OutPoint) : Prop :=
  exists e, utxos !! op = Some e /\ immature params h e = false /\ script_pubkey (output e) = owner_script sk.

(** Inputs that carry their owners' stamps pass validation. *)
Lemma stamped_valid utxos params h sks tx tx' :
  signature_hash tx' = signature_hash tx -> outputs tx' = outputs tx ->
  strip_input <$> inputs tx' = strip_input <$> inputs tx ->
  (forall i inp, inputs tx' !! i = Some inp -> signature_script inp = stamp (sks i) (signature_hash tx)) ->
  NoDup (previous_output <$> inputs tx) ->
  (forall i inp, inputs tx !! i = Some inp -> owned_by utxos params h (sks i) (previous_output inp)) ->
  total_output_atoms tx <= input_value utxos tx ->
  validate_transaction utxos tx' h params = Ok (tx_fee utxos tx).
Proof.
  intros Hs Ho Hst Hin Hnd Hown Hv.
  assert (previous_output <$> inputs tx' = previous_output <$> inputs tx) as Hprev.
  { transitivity (previous_output <$> (strip_input <$> inputs tx')); [by rewrite <- list_fmap_compose|].
    rewrite Hst. by rewrite <- list_fmap_compose. }
  assert (input_value utxos tx' = input_value utxos tx) as Hiv.
  { unfold input_value. rewrite !list_fmap_compose. by rewrite Hprev. }
  assert (total_output_atoms tx' = total_output_atoms tx) as Hto by (unfold total_output_atoms; by rewrite Ho).
  apply validate_transaction_Ok. rewrite Hprev. split; [done|]. split.
  - split; [|by rewrite Hiv, Hto]. apply Forall_lookup. intros i inp' Hi.
    assert (exists inp, inputs tx !! i = Some inp /\ previous_output inp = previous_output inp') as (inp & Hi0 & Hp).
    { assert ((previous_output <$> inputs tx') !! i = Some (previous_output inp')) as Hx
        by (by rewrite list_lookup_fmap, Hi).
      rewrite Hprev, list_lookup_fmap in Hx. destruct (inputs tx !! i) as [inp|]; [|done].
      injection Hx as Hx. eauto. }
    destruct (Hown i inp Hi0) as (e & He & Him & Hsc). exists e. rewrite <- Hp. split_and!; [done|done|].
    rewrite (Hin i inp' Hi), Hsc, Hs. apply stamp_executes.
  - unfold tx_fee. by rewrite Hiv, Hto.
Qed.
(** Signing a transaction of owned inputs: nothing changes but the scripts and the id. *)
Lemma sign_transaction_valid kp sk utxos params h tx :
  made_from kp sk -> NoDup (previous_output <$> inputs tx) ->
  Forall (λ i, exists e, utxos !! previous_output i = Some e /\ immature params h e = false
                 /\ script_pubkey (output e) = owner_script sk) (inputs tx) ->
  total_output_atoms tx <= input_value utxos tx ->
  let tx' := refresh_id (set_inputs (set_script (stamp sk (signature_hash tx)) <$> inputs tx) tx) in
  sign_transaction kp tx = (tx', Ok ()) /\ validate_transaction utxos tx' h params = Ok (tx_fee utxos tx).
Proof.
  intros Hk Hnd Hown Hv. cbv zeta.
  unfold sign_transaction, mbind, stateful_bind, get_state, lift_result, put_state.
  rewrite (unlocking_script_made kp sk tx Hk). split; [reflexivity|].
  set (script := stamp sk (signature_hash tx)).
  assert (strip_input <$> (set_script script <$> inputs tx) = strip_input <$> inputs tx) as Hst
    by (by rewrite <- list_fmap_compose).
  apply (stamped_valid utxos params h (λ _, sk)); try done.
  - by apply signature_hash_set_inputs.
  - intros i inp Hi. cbn [inputs refresh_id make_tx set_inputs] in Hi.
    rewrite list_lookup_fmap in Hi. destruct (inputs tx !! i); [|done]. by injection Hi as <-.
  - intros i inp Hi. by apply (Forall_lookup_1 _ _ _ _ Hown Hi).
Qed.
End Wallet.

(** Every payment a wallet signs from its own outputs is accepted by the
    chain: if the inputs are distinct, mature outputs locked to the key pair's
    address and worth at least the outputs, signing succeeds, keeps the outputs,
    and the signed transaction validates with exactly the fee left over. *)
Theorem signed_payment_accepted `{Crypto} `{!CryptoLaws _} kp sk spk utxos params h tx :
  from_signing_key sk = Done kp -> p2pkh_from_address (address kp) = Ok spk ->
  NoDup (previous_output <$> inputs tx) ->
  Forall (λ i, exists e, utxos !! previous_output i = Some e /\ immature params h e = false
                 /\ script_pubkey (output e) = spk) (inputs tx) ->
  total_output_atoms tx <= input_value utxos tx ->
  exists tx', sign_transaction kp tx = (tx', Ok ())
    /\ outputs tx' = outputs tx /\ tx_id tx' = transaction_id (inputs tx') (outputs tx') (payload tx')
    /\ validate_transaction utxos tx' h params = Ok (tx_fee utxos tx).
Proof.
  intros Hk Hspk Hnd Hown Hv. destruct (made_address _ _ Hk) as [Ha _].
  assert (spk = owner_script sk) as -> by congruence.
  destruct (sign_transaction_valid kp sk utxos params h tx Hk Hnd Hown Hv) as [Hs Hval].
  eexists. split; [exact Hs|]. by split_and!.
Qed.

(** Co-signing works in any order. If several parties own the inputs of a
    transaction and each signs its own input with [sign_input], in whatever
    order and with whatever repetitions, the result keeps the outputs all agreed
    on and validates with the fee left over: no party's signature invalidates
    another's. *)
Theorem cosigning_commutes `{Crypto} `{!CryptoLaws _} keys sks order utxos params h tx :
  (forall i, from_signing_key (sks i) = Done (keys i)) ->
  (forall i, i ∈ order <-> (i < length (inputs tx))%nat) ->
  NoDup (previous_output <$> inputs tx) ->
  (forall i inp, inputs tx !! i = Some inp -> owned_by utxos params h (sks i) (previous_output inp)) ->
  total_output_atoms tx <= input_value utxos tx ->
  let tx' := cosign keys order tx in
  outputs tx' = outputs tx /\ validate_transaction utxos tx' h params = Ok (tx_fee utxos tx).
Proof.
  intros Hk Ho Hnd Hown Hv.
  destruct (cosign_spec keys sks order tx Hk) as (Hout & _ & Hs & Hst & Hin).
  { apply Forall_forall. intros i. apply Ho. }
  split; [done|]. apply (stamped_valid utxos params h sks); try done.
  intros i inp Hi. rewrite Hin in Hi. destruct (inputs tx !! i) as [inp0|] eqn:Hi0.
  - rewrite decide_True in Hi by (by apply Ho, lookup_lt_Some with inp0). by injection Hi as <-.
  - by case_decide.
Qed.

(** ** Two parties, two coins *)
Module Parties.
#[local] Existing Instance toy_crypto.
Definition sks (i : nat) : signing_key := if (i =? 0)%nat then toy_key else toy_key2.
Definition wallet (sk : signing_key) : WalletKeypair :=
  match from_signing_key sk with
  | Done kp => kp
  | Panic => {| private_key_hex := ""; public_key_hex := ""; address := "" |}
  end.
Definition keys (i : nat) : WalletKeypair := wallet (sks i).
Definition coin2 : OutPoint := {| txid := mkHash (replicate 32 8); output_index := 1 |}.
Definition utxos : UtxoSet :=
  <[coin2 := {| output := {| value_atoms := 500000; script_pubkey := p2pkh_from_pubkey (vk_to_sec1 toy_key2) |};
                created_height := 1; coinbase_output := true |}]> Fixture.utxos.
Definition tx : Transaction :=
  payment [ {| previous_output := Fixture.coin; signature_script := [] |};
            {| previous_output := coin2; signature_script := [] |} ] Fixture.paid.

Lemma wallet_made sk : from_signing_key sk = Done (wallet sk).
Proof. unfold wallet. by destruct (made_total (CryptoLaws0 := toy_laws) sk) as [kp ->]. Qed.

Lemma coins_owned i inp :
  inputs tx !! i = Some inp -> owned_by utxos MAINNET 20 (sks i) (previous_output inp).
Proof.
  destruct i as [|[|i]]; intros [= <-].
  - exists Fixture.entry. split_and!; [|reflexivity|reflexivity]. vm_compute. reflexivity.
  - eexists. split_and!; [apply lookup_insert_eq|reflexivity|reflexivity].
Qed.
End Parties.

Lemma signed_payment_accepted_witness :
  exists tx', sign_transaction (H := toy_crypto) (Parties.wallet toy_key) Fixture.unsigned = (tx', Ok ())
    /\ outputs tx' = outputs Fixture.unsigned
    /\ validate_transaction (H := toy_crypto) Fixture.utxos tx' 5 MAINNET = Ok 100000.
Proof.
  destruct (@signed_payment_accepted toy_crypto toy_laws (Parties.wallet toy_key) toy_key Fixture.script
    Fixture.utxos MAINNET 5 Fixture.unsigned) as (tx' & H1 & H2 & _ & H3).
  - exact (Parties.wallet_made toy_key).
  - vm_compute. reflexivity.
  - apply NoDup_singleton.
  - apply Forall_singleton. exists Fixture.entry. split_and!; [|reflexivity|reflexivity]. vm_compute. reflexivity.
  - by_compute.
  - exists tx'. split; [exact H1|]. split; [exact H2|]. rewrite H3. vm_compute. reflexivity.
Defined.

Lemma cosigning_commutes_witness :
  outputs (cosign (H := toy_crypto) Parties.keys [1; 0; 1]%nat Parties.tx) = Fixture.paid
  /\ validate_transaction (H := toy_crypto) Parties.utxos
       (cosign (H := toy_crypto) Parties.keys [1; 0; 1]%nat Parties.tx) 20 MAINNET = Ok 600000.
Proof.
  destruct (@cosigning_commutes toy_crypto toy_laws Parties.keys Parties.sks [1; 0; 1]%nat
    Parties.utxos MAINNET 20 Parties.tx) as [H1 H2].
  - intros i. exact (Parties.wallet_made (Parties.sks i)).
  - intros i. change (length (inputs Parties.tx)) with 2%nat. set_unfold. lia.
  - by_compute.
  - exact Parties.coins_owned.
  - by_compute.
  - split; [exact H1|]. rewrite H2. vm_compute. reflexivity.
Defined.

(** A key pair is restored from its private key. *)
Lemma restore_key `{Crypto} `{!CryptoLaws _} kp sk :
  made_from kp sk -> from_private_key_hex (private_key_hex kp) = Done (Ok kp).
Proof.
  intros Hk. unfold from_private_key_hex. rewrite (secret_of_made _ _ Hk). by rewrite Hk.
Qed.
