(* ===== verification/AssetCodec.v ===== *)
(** * The asset overlay's wire format ([tensorium-core/src/assets/mod.rs], [codec.rs])

    Asset operations, their payload encoding, the [OP_RETURN] carrier script and
    the extraction from a transaction. A [String] is its UTF-8 bytes; the lossy
    conversion of the decoder is modelled byte for byte. *)

From S2P Require Import Prelude Crypto Hash ScriptVM ScriptStandard Block.

Local Open Scope Z_scope.

(** ** [String::from_utf8_lossy] *)

(** The length of the character at the head of a byte string ([inl]), or of the
    maximal invalid part to replace ([inr]). *)
Definition cont (lo hi : Z) (b : option Z) : bool :=
  match b with Some b => (lo <=? b) && (b <=? hi) | None => false end.

Definition utf8_char (bs : bytes) : nat + nat :=
  let b0 := nth 0 bs 0 in
  let c1 := cont 0x80 0xbf (bs !! 1%nat) in
  let c2 := cont 0x80 0xbf (bs !! 2%nat) in
  let c3 := cont 0x80 0xbf (bs !! 3%nat) in
  let three (second : bool) : nat + nat :=
    if second then if c2 then inl 3%nat else inr 2%nat else inr 1%nat in
  let four (second : bool) : nat + nat :=
    if second then if c2 then if c3 then inl 4%nat else inr 3%nat else inr 2%nat else inr 1%nat in
  if b0 <? 0x80 then inl 1%nat
  else if (0xc2 <=? b0) && (b0 <=? 0xdf) then if c1 then inl 2%nat else inr 1%nat
  else if b0 =? 0xe0 then three (cont 0xa0 0xbf (bs !! 1%nat))
  else if b0 =? 0xed then three (cont 0x80 0x9f (bs !! 1%nat))
  else if (0xe1 <=? b0) && (b0 <=? 0xef) then three c1
  else if b0 =? 0xf0 then four (cont 0x90 0xbf (bs !! 1%nat))
  else if (0xf1 <=? b0) && (b0 <=? 0xf3) then four c1
  else if b0 =? 0xf4 then four (cont 0x80 0x8f (bs !! 1%nat))
  else inr 1%nat.

Definition REPLACEMENT : bytes := [0xef; 0xbf; 0xbd].

(** Every step consumes at least one byte, so [length bs] units of fuel are enough. *)
Fixpoint utf8_lossy_loop (fuel : nat) (bs : bytes) : bytes :=
  match fuel, bs with
  | S fuel, _ :: _ =>
      match utf8_char bs with
      | inl n => take n bs ++ utf8_lossy_loop fuel (drop n bs)
      | inr n => REPLACEMENT ++ utf8_lossy_loop fuel (drop n bs)
      end
  | _, _ => []
  end.

Definition from_utf8_lossy (bs : bytes) : string := string_of_bytes (utf8_lossy_loop (length bs) bs).

(** [String::from_utf8(bytes)]; one step per byte is enough. *)
Fixpoint utf8_valid (fuel : nat) (bs : bytes) : bool :=
  match fuel, bs with
  | S fuel, _ :: _ => match utf8_char bs with inl n => utf8_valid fuel (drop n bs) | inr _ => false end
  | _, _ => true
  end.
Definition from_utf8 (bs : bytes) : option string :=
  if utf8_valid (length bs) bs then Some (string_of_bytes bs) else None.

(** Valid UTF-8, the invariant of a Rust [String]. *)
Inductive utf8 : bytes -> Prop :=
| utf8_nil : utf8 []
| utf8_cons bs n : bs <> [] -> utf8_char bs = inl n -> utf8 (drop n bs) -> utf8 bs.

(** ** Operations *)

Record IssueData := {
  ticker : string; decimals : Z; supply : Z; asset_name : string; flags : Z }.
Record NftMintData := {
  collection_id : bytes; royalty_bps : Z; royalty_addr : string; uri : string; content_hash : bytes }.
Record TransferData := { asset_id : bytes; amount : Z; dest_output_index : Z }.

Inductive AssetOp := Issue (d : IssueData) | NftMint (d : NftMintData) | Transfer (d : TransferData).

Inductive AssetError :=
| BadMagic | BadVersion | UnknownOpcode | Truncated | TooLarge | FieldTooLong | BadRoyalty.

#[export] Instance IssueData_eq_dec : EqDecision IssueData.
Proof. solve_decision. Defined.
#[export] Instance NftMintData_eq_dec : EqDecision NftMintData.
Proof. solve_decision. Defined.
#[export] Instance TransferData_eq_dec : EqDecision TransferData.
Proof. solve_decision. Defined.
#[export] Instance AssetOp_eq_dec : EqDecision AssetOp.
Proof. solve_decision. Defined.
#[export] Instance AssetError_eq_dec : EqDecision AssetError.
Proof. solve_decision. Defined.

Definition MAGIC : bytes := bytes_of_string "TXMA".
Definition VERSION : Z := 0x01.
Definition OP_ISSUE : Z := 0x01.
Definition OP_NFT_MINT : Z := 0x02.
Definition OP_TRANSFER : Z := 0x03.
Definition MAX_PAYLOAD : Z := 520.

(** ** Encoding *)

Definition put_str (s : string) (max : nat) : bytes :=
  let b := bytes_of_string s in
  let n := Nat.min (length b) max in
  (Z.of_nat n mod 256) :: take n b.

Definition encode_op (op : AssetOp) : bytes :=
  MAGIC ++ VERSION ::
  match op with
  | Issue d =>
      OP_ISSUE :: put_str (ticker d) 8 ++ decimals d :: be_bytes 8 (supply d)
        ++ put_str (asset_name d) 32 ++ [flags d]
  | NftMint d =>
      OP_NFT_MINT :: collection_id d ++ be_bytes 2 (royalty_bps d) ++ put_str (royalty_addr d) 90
        ++ put_str (uri d) 200 ++ content_hash d
  | Transfer d =>
      OP_TRANSFER :: asset_id d ++ be_bytes 8 (amount d) ++ [dest_output_index d]
  end.

(** ** Decoding: the cursor [i] is the rest of the buffer *)

Abbreviation reader := (stateful bytes AssetError).

(** [take(buf, &mut i, n)]: the name [take] is the list function's. *)
Definition take_bytes (n : nat) : reader bytes :=
  λ rest, if (length rest <? n)%nat then (rest, Err Truncated) else (drop n rest, Ok (take n rest)).

(** [take(buf, &mut i, 1)?[0]] *)
Definition take_u8 : reader Z := b ← take_bytes 1; mret (nth 0 b 0).

Definition take_str : reader string :=
  n ← take_u8;
  bs ← take_bytes (Z.to_nat n);
  mret (from_utf8_lossy bs).

Definition take_u64 : reader Z := b ← take_bytes 8; mret (be_val b).

Definition decode_body : reader AssetOp :=
  magic ← take_bytes 4;
  lift_result (reject_if (negb (bool_decide (magic = MAGIC))) BadMagic);;
  version ← take_u8;
  lift_result (reject_if (negb (version =? VERSION)) BadVersion);;
  opcode ← take_u8;
  if opcode =? OP_ISSUE then
    t ← take_str;
    dec ← take_u8;
    sup ← take_u64;
    n ← take_str;
    fl ← take_u8;
    mret (Issue {| ticker := t; decimals := dec; supply := sup; asset_name := n; flags := fl |})
  else if opcode =? OP_NFT_MINT then
    coll ← take_bytes 32;
    bps ← take_bytes 2;
    lift_result (reject_if (10000 <? be_val bps) BadRoyalty);;
    addr ← take_str;
    u ← take_str;
    hash ← take_bytes 32;
    mret (NftMint {| collection_id := coll; royalty_bps := be_val bps; royalty_addr := addr;
                     uri := u; content_hash := hash |})
  else if opcode =? OP_TRANSFER then
    a ← take_bytes 32;
    amt ← take_u64;
    dest ← take_u8;
    mret (Transfer {| asset_id := a; amount := amt; dest_output_index := dest |})
  else lift_result (Err UnknownOpcode).

Definition decode_op (buf : bytes) : result AssetError AssetOp :=
  reject_if (MAX_PAYLOAD <? len buf) TooLarge;; (decode_body buf).2.

(** ** The carrier script *)

Definition op_return_script (data : bytes) : bytes :=
  let n := len data in
  OP_RETURN ::
    (if n <=? 0x4b then [n]
     else if n <=? 0xff then [0x4c; n]
     else [0x4d; Z.land n 0xff; Z.land (Z.shiftr n 8) 0xff]) ++ data.

(** [spk.get(i..i + len)] *)
Definition get_range (bs : bytes) (n : nat) : option bytes :=
  if (length bs <? n)%nat then None else Some (take n bs).

Definition op_return_data (spk : bytes) : option bytes :=
  match spk with
  | op :: n :: rest =>
      if negb (op =? OP_RETURN) then None
      else if (0x01 <=? n) && (n <=? 0x4b) then get_range rest (Z.to_nat n)
      else if n =? 0x4c then
        match rest with l :: rest => get_range rest (Z.to_nat l) | [] => None end
      else if n =? 0x4d then
        match rest with
        | lo :: hi :: rest => get_range rest (Z.to_nat (Z.lor lo (Z.shiftl hi 8)))
        | _ => None
        end
      else None
  | _ => None
  end.

(** [extract_asset_op]: the first output that carries a valid operation. *)
Fixpoint first_asset_op (outs : list TxOutput) : option AssetOp :=
  match outs with
  | [] => None
  | o :: outs =>
      match op_return_data (script_pubkey o) with
      | Some data => match decode_op data with Ok op => Some op | Err _ => first_asset_op outs end
      | None => first_asset_op outs
      end
  end.
Definition extract_asset_op (tx : Transaction) : option AssetOp := first_asset_op (outputs tx).

(** ** Building the outputs of an asset transaction ([assets::build_outputs])

    The error texts are reduced to their kind. *)
Inductive BuildError := InsufficientBalance (have need : Z) | InvalidRecipient | InvalidChange.

Section Build.
Context `{Crypto}.

Definition build_outputs (op : AssetOp) (dest : option (string * Z)) (change_addr : string)
    (total_in fee_atoms : Z) : result BuildError (list TxOutput) :=
  let dest_atoms := match dest with Some (_, a) => a | None => 0 end in
  let spent := sat_add64 dest_atoms fee_atoms in
  reject_if (total_in <? spent) (InsufficientBalance total_in spent);;
  carrier ←
    match dest with
    | Some (addr, atoms) =>
        s ← map_err (p2pkh_from_address addr) (λ _, InvalidRecipient);
        Ok [ {| value_atoms := atoms; script_pubkey := s |} ]
    | None => Ok []
    end;
  let outs := carrier ++ [ {| value_atoms := 0; script_pubkey := op_return_script (encode_op op) |} ] in
  let change := sub64 total_in spent in
  if 0 <? change then
    s ← map_err (p2pkh_from_address change_addr) (λ _, InvalidChange);
    Ok (outs ++ [ {| value_atoms := change; script_pubkey := s |} ])
  else Ok outs.
End Build.
