(* ===== verification/AssetCodecFacts.v ===== *)
(** * The asset wire format: round trips

    A well-formed operation survives its encoding, the carrier script and the
    outputs the wallet builds around it. *)

From S2P Require Import Prelude Crypto Hash ScriptVM ScriptStandard Block AssetCodec.

Local Open Scope Z_scope.

(** ** UTF-8 *)

Lemma utf8_char_length bs n : bs <> [] -> utf8_char bs = inl n -> (0 < n <= length bs)%nat.
Proof.
  intros Hne. unfold utf8_char.
  destruct bs as [|b0 [|b1 [|b2 [|b3 bs]]]]; [done|..]; cbn;
    repeat case_match; intros; simplify_eq; cbn in *; try lia; try done.
Qed.

Lemma utf8_lossy_id fuel bs : utf8 bs -> (length bs <= fuel)%nat -> utf8_lossy_loop fuel bs = bs.
Proof.
  intros Hu; revert fuel; induction Hu as [|bs n Hne Hc Hu IH]; intros fuel Hf; [by destruct fuel|].
  pose proof (utf8_char_length bs n Hne Hc). destruct fuel as [|fuel]; [lia|].
  destruct bs as [|b bs]; [done|]. cbn [utf8_lossy_loop]. rewrite Hc, IH; [apply take_drop|].
  rewrite length_drop. lia.
Qed.

Lemma from_utf8_lossy_id s : utf8 (bytes_of_string s) -> from_utf8_lossy (bytes_of_string s) = s.
Proof.
  intros Hu. unfold from_utf8_lossy. rewrite utf8_lossy_id by done. apply string_of_bytes_of_string.
Qed.

Lemma utf8_ascii bs : Forall (λ b, 0 <= b < 0x80) bs -> utf8 bs.
Proof.
  induction 1 as [|b bs Hb _ IH]; [constructor|].
  apply utf8_cons with (n := 1%nat); [done| |done].
  unfold utf8_char. cbn [nth]. by rewrite (proj2 (Z.ltb_lt _ _)) by lia.
Qed.

(** ** Reading back what was written *)

Lemma reader_bind {A B} (m : reader A) (f : A -> reader B) r r' a :
  m r = (r', Ok a) -> (m ≫= f) r = f a r'.
Proof. intros H. unfold mbind, stateful_bind. by rewrite H. Qed.

Lemma take_bytes_app n pre r : length pre = n -> take_bytes n (pre ++ r) = (r, Ok pre).
Proof.
  intros <-. unfold take_bytes. rewrite length_app, (proj2 (Nat.ltb_ge _ _)) by lia.
  by rewrite drop_app_length, take_app_length.
Qed.

Lemma take_u8_cons b r : take_u8 (b :: r) = (r, Ok b).
Proof. reflexivity. Qed.

Lemma take_u64_app x r : is_u64 x -> take_u64 (be_bytes 8 x ++ r) = (r, Ok x).
Proof.
  intros Hx. unfold take_u64. erewrite reader_bind by (apply take_bytes_app, length_be_bytes).
  cbn. unfold mret, stateful_ret. by rewrite be_val_be_bytes, Z.mod_small by apply Hx.
Qed.

(** A field: a valid string that fits its maximum. *)
Definition field_ok (s : string) (max : nat) : Prop :=
  utf8 (bytes_of_string s) /\ (length (bytes_of_string s) <= max)%nat.

Lemma put_str_ok s max : field_ok s max ->
  put_str s max = (len (bytes_of_string s) mod 256) :: bytes_of_string s.
Proof. intros [_ Hl]. unfold put_str. by rewrite Nat.min_l, firstn_all by done. Qed.

Lemma take_str_put s max r :
  field_ok s max -> (max <= 255)%nat -> take_str (put_str s max ++ r) = (r, Ok s).
Proof.
  intros Hs Hm. rewrite put_str_ok by done. destruct Hs as [Hu Hl].
  unfold take_str. cbn [app]. erewrite reader_bind by apply take_u8_cons.
  rewrite Z.mod_small by lia. rewrite Nat2Z.id.
  erewrite reader_bind by by apply take_bytes_app.
  unfold mret, stateful_ret. by rewrite from_utf8_lossy_id.
Qed.

Lemma put_str_length s max : (length (put_str s max) <= S max)%nat.
Proof. unfold put_str. simpl. rewrite length_take. lia. Qed.

(** The values the types and their comments allow. *)
Definition op_wf (op : AssetOp) : Prop :=
  match op with
  | Issue d =>
      field_ok (ticker d) 8 /\ is_u8 (decimals d) /\ is_u64 (supply d)
      /\ field_ok (asset_name d) 32 /\ is_u8 (flags d)
  | NftMint d =>
      length (collection_id d) = 32%nat /\ 0 <= royalty_bps d <= 10000
      /\ field_ok (royalty_addr d) 90 /\ field_ok (uri d) 200 /\ length (content_hash d) = 32%nat
  | Transfer d => length (asset_id d) = 32%nat /\ is_u64 (amount d) /\ is_u8 (dest_output_index d)
  end.

(** One step of the decoder on an encoded field. *)
Ltac read_field :=
  first
  [ erewrite reader_bind by (apply take_str_put; [eassumption|lia])
  | erewrite reader_bind by (apply take_u64_app; eassumption)
  | erewrite reader_bind by (apply take_bytes_app; first [eassumption | apply length_be_bytes])
  | erewrite reader_bind by apply take_u8_cons ]; cbn beta.

Lemma decode_body_opcode opcode body :
  decode_body (MAGIC ++ VERSION :: opcode :: body)
  = (if opcode =? OP_ISSUE then
      t ← take_str; dec ← take_u8; sup ← take_u64; n ← take_str; fl ← take_u8;
      mret (Issue {| ticker := t; decimals := dec; supply := sup; asset_name := n; flags := fl |})
    else if opcode =? OP_NFT_MINT then
      coll ← take_bytes 32; bps ← take_bytes 2;
      lift_result (reject_if (10000 <? be_val bps) BadRoyalty);;
      addr ← take_str; u ← take_str; hash ← take_bytes 32;
      mret (NftMint {| collection_id := coll; royalty_bps := be_val bps; royalty_addr := addr;
                       uri := u; content_hash := hash |})
    else if opcode =? OP_TRANSFER then
      a ← take_bytes 32; amt ← take_u64; dest ← take_u8;
      mret (Transfer {| asset_id := a; amount := amt; dest_output_index := dest |})
    else lift_result (Err UnknownOpcode)) body.
Proof. reflexivity. Qed.

Lemma decode_encode op : op_wf op -> (decode_body (encode_op op)).2 = Ok op.
Proof.
  destruct op as [d|d|d]; unfold encode_op; rewrite decode_body_opcode; cbn -[take_bytes take_str put_str].
  - intros (Ht & Hd & Hs & Hn & Hf). read_field. cbn [app]. do 4 read_field.
    by destruct d.
  - intros (Hc & Hb & Ha & Hu & Hh). do 2 read_field.
    rewrite be_val_be_bytes, Z.mod_small by lia. rewrite (proj2 (Z.ltb_ge _ _)) by lia.
    erewrite reader_bind by done. cbn beta. do 2 read_field.
    rewrite <- (app_nil_r (content_hash d)). read_field. by destruct d.
  - intros (Ha & Hm & Hd). do 3 read_field. by destruct d.
Qed.

(** ** The carrier *)

(** A 16-bit length reassembled from its two bytes. *)
Lemma join_bytes n :
  0 <= n < 65536 -> Z.lor (Z.land n 0xff) (Z.shiftl (Z.land (Z.shiftr n 8) 0xff) 8) = n.
Proof.
  intros Hn. apply Z.bits_inj'. intros i Hi. change 0xff with (Z.ones 8).
  rewrite Z.lor_spec, Z.shiftl_spec, !Z.land_spec by lia.
  destruct (decide (i < 8)).
  - rewrite (Z.testbit_neg_r _ (i - 8)), Z.ones_spec_low by lia. by rewrite andb_true_r, orb_false_r.
  - rewrite Z.shiftr_spec, (Z.ones_spec_high 8 i) by lia. replace (i - 8 + 8) with i by lia.
    destruct (decide (i < 16)).
    + rewrite Z.ones_spec_low by lia. by rewrite andb_false_r, andb_true_r.
    + rewrite <- (Z.mod_small n (2 ^ 16)) by lia. by rewrite Z.mod_pow2_bits_high by lia.
Qed.

Lemma get_range_all data n : n = length data -> get_range data n = Some data.
Proof.
  intros ->. unfold get_range. rewrite (proj2 (Nat.ltb_ge _ _)) by lia. by rewrite firstn_all.
Qed.

Lemma op_return_roundtrip data :
  1 <= len data <= 65535 -> op_return_data (op_return_script data) = Some data.
Proof.
  intros Hd. unfold op_return_script.
  destruct (Z.leb_spec (len data) 0x4b); [|destruct (Z.leb_spec (len data) 0xff)].
  - cbn [app]. unfold op_return_data. change (OP_RETURN =? OP_RETURN) with true. cbn [negb].
    rewrite (proj2 (Z.leb_le 1 _)), (proj2 (Z.leb_le _ 0x4b)) by lia. cbn [andb].
    apply get_range_all. lia.
  - cbn. apply get_range_all. lia.
  - cbn -[Z.lor Z.land Z.shiftl Z.shiftr]. rewrite join_bytes by lia. apply get_range_all. lia.
Qed.

(** A P2PKH output is not a carrier. *)
Lemma p2pkh_not_carrier h : op_return_data (p2pkh_bytes h) = None.
Proof. reflexivity. Qed.

Lemma first_asset_op_p2pkh v h outs :
  first_asset_op ({| value_atoms := v; script_pubkey := p2pkh_bytes h |} :: outs) = first_asset_op outs.
Proof. cbn [first_asset_op script_pubkey]. by rewrite p2pkh_not_carrier. Qed.

Lemma outs_sum_cons (o : TxOutput) outs :
  sumZ (value_atoms <$> o :: outs) = value_atoms o + sumZ (value_atoms <$> outs).
Proof. done. Qed.

Lemma encode_op_length op : op_wf op -> 1 <= len (encode_op op) <= MAX_PAYLOAD.
Proof.
  unfold encode_op, MAX_PAYLOAD. rewrite length_app. change (length MAGIC) with 4%nat.
  destruct op as [d|d|d]; cbn [op_wf length]; rewrite ?length_app; cbn [length];
    rewrite ?length_app, ?length_be_bytes; cbn [length].
  - pose proof (put_str_length (ticker d) 8). pose proof (put_str_length (asset_name d) 32). lia.
  - pose proof (put_str_length (royalty_addr d) 90). pose proof (put_str_length (uri d) 200). lia.
  - lia.
Qed.

Lemma first_asset_op_carrier op outs v :
  op_wf op ->
  first_asset_op ({| value_atoms := v; script_pubkey := op_return_script (encode_op op) |} :: outs) = Some op.
Proof.
  intros Hop. pose proof (encode_op_length op Hop) as Hl. cbn [first_asset_op script_pubkey].
  unfold MAX_PAYLOAD in Hl. rewrite op_return_roundtrip by lia.
  unfold decode_op, MAX_PAYLOAD. rewrite (proj2 (Z.ltb_ge _ _)) by lia. cbn [reject_if].
  by rewrite (decode_encode op Hop).
Qed.

(** ** Decoded values have the width of their fields *)

(** A reader that keeps the rest of the buffer bytes and returns values in [Q]. *)
Definition reads {A} (Q : A -> Prop) (m : reader A) : Prop :=
  forall r, bytes_ok r -> bytes_ok (m r).1 /\ forall a, (m r).2 = Ok a -> Q a.

Lemma reads_bind {A B} (P : A -> Prop) (Q : B -> Prop) (m : reader A) (f : A -> reader B) :
  reads P m -> (forall a, P a -> reads Q (f a)) -> reads Q (m ≫= f).
Proof.
  intros Hm Hf r Hr. unfold mbind, stateful_bind. destruct (Hm r Hr) as [Hr1 Hp].
  destruct (m r) as [r1 [a|e]]; cbn [fst snd] in *; [by apply Hf, Hr1; apply Hp|by split].
Qed.

Lemma reads_ret {A} (Q : A -> Prop) a : Q a -> reads Q (mret a).
Proof. intros Ha r Hr. split; [done|]. by intros ? [= <-]. Qed.

Lemma reads_lift {A} (Q : A -> Prop) (res : result AssetError A) :
  (forall a, res = Ok a -> Q a) -> reads Q (lift_result res).
Proof. intros Hq r Hr. by split. Qed.

Lemma reads_take n : reads (λ b, length b = n /\ bytes_ok b) (take_bytes n).
Proof.
  intros r Hr. unfold take_bytes. destruct (Nat.ltb_spec (length r) n); cbn; [by split|].
  split; [by apply Forall_drop|]. intros ? [= <-]. split; [rewrite length_take; lia|by apply Forall_take].
Qed.

Lemma reads_u64 : reads is_u64 take_u64.
Proof.
  eapply reads_bind; [apply reads_take|]. intros b [Hl Hb]. apply reads_ret.
  unfold be_val, is_u64. pose proof (le_val_range (reverse b)) as Hr. rewrite length_reverse, Hl in Hr.
  apply Hr. by apply Forall_reverse.
Qed.

Lemma reads_u8 : reads (λ _, True) take_u8.
Proof. eapply reads_bind; [apply reads_take|]. intros. by apply reads_ret. Qed.

Lemma reads_str : reads (λ _, True) take_str.
Proof.
  eapply reads_bind; [apply reads_u8|]. intros n _.
  eapply reads_bind; [apply reads_take|]. intros. by apply reads_ret.
Qed.

Create HintDb reads discriminated.
#[export] Hint Resolve reads_take reads_u64 reads_u8 reads_str reads_ret : reads.

(** The next field. *)
Ltac reads_step := eapply reads_bind; [solve [eauto with reads]|]; intros ? ?.

Definition amounts_ok (op : AssetOp) : Prop :=
  match op with Issue d => is_u64 (supply d) | NftMint _ => True | Transfer d => is_u64 (amount d) end.

Lemma reads_decode_body : reads amounts_ok decode_body.
Proof.
  unfold decode_body. reads_step.
  eapply reads_bind; [by apply (reads_lift (λ _, True))|]. intros _ _. reads_step.
  eapply reads_bind; [by apply (reads_lift (λ _, True))|]. intros _ _. reads_step.
  destruct (_ =? OP_ISSUE); [|destruct (_ =? OP_NFT_MINT); [|destruct (_ =? OP_TRANSFER)]].
  - do 5 reads_step. by apply reads_ret.
  - do 2 reads_step. eapply reads_bind; [by apply (reads_lift (λ _, True))|]. intros _ _.
    do 3 reads_step. by apply reads_ret.
  - do 3 reads_step. by apply reads_ret.
  - by apply reads_lift.
Qed.

Lemma get_range_ok bs n data : bytes_ok bs -> get_range bs n = Some data -> bytes_ok data.
Proof. unfold get_range. intros Hb. destruct (_ <? _)%nat; [done|]. intros [= <-]. by apply Forall_take. Qed.

Lemma op_return_data_ok spk data : bytes_ok spk -> op_return_data spk = Some data -> bytes_ok data.
Proof.
  unfold op_return_data. intros Hb.
  destruct spk as [|op [|n rest]]; [done..|].
  apply Forall_cons in Hb as [_ [_ Hb]%Forall_cons].
  destruct (negb (op =? OP_RETURN)); [done|]. destruct (_ && _); [by apply get_range_ok|].
  destruct (n =? 0x4c).
  { destruct rest as [|l rest]; [done|]. apply Forall_cons in Hb as [_ Hb]. by apply get_range_ok. }
  destruct (n =? 0x4d); [|done]. destruct rest as [|lo [|hi rest]]; [done..|].
  apply Forall_cons in Hb as [_ [_ Hb]%Forall_cons]. by apply get_range_ok.
Qed.

Lemma extracted_amounts_ok tx op : tx_ok tx -> extract_asset_op tx = Some op -> amounts_ok op.
Proof.
  unfold tx_ok, extract_asset_op. induction 1 as [|o outs [_ Ho] _ IH]; [done|]. cbn [first_asset_op].
  destruct (op_return_data (script_pubkey o)) as [data|] eqn:Hd; [|done].
  destruct (decode_op data) as [op'|] eqn:Hop; [|done]. intros [= ->].
  apply op_return_data_ok in Hd; [|done]. unfold decode_op in Hop. inv_ok Hop.
  by apply (reads_decode_body data Hd).
Qed.

Section Build.
Context `{Crypto}.

Lemma payment_outputs ins outs : outputs (payment ins outs) = outs.
Proof. done. Qed.

Lemma p2pkh_from_address_bytes addr s :
  p2pkh_from_address addr = Ok s -> exists h, s = p2pkh_bytes h.
Proof.
  unfold p2pkh_from_address. intros Hs. apply bind_Ok in Hs as ([hrp d] & _ & Hs).
  inv_ok Hs. injection Hs as <-. eauto.
Qed.

(** The amount the optional recipient output takes. *)
Definition carrier_atoms (dest : option (string * Z)) : Z :=
  match dest with Some (_, a) => a | None => 0 end.

Definition op_output (op : AssetOp) : TxOutput :=
  {| value_atoms := 0; script_pubkey := op_return_script (encode_op op) |}.

Lemma spent_exact atoms fee total :
  0 <= atoms -> 0 <= fee -> 0 <= total < U64_MAX -> sat_add64 atoms fee <= total ->
  sat_add64 atoms fee = atoms + fee /\ sub64 total (sat_add64 atoms fee) = total - (atoms + fee).
Proof. u64_lia. Qed.

(** The outputs a successful call returns. *)
Lemma build_outputs_shape op dest change_addr total_in fee outs :
  0 <= carrier_atoms dest -> 0 <= fee -> 0 <= total_in < U64_MAX ->
  build_outputs op dest change_addr total_in fee = Ok outs ->
  exists carrier chg,
    outs = carrier ++ op_output op :: chg
    /\ sumZ (value_atoms <$> chg) = total_in - (carrier_atoms dest + fee)
    /\ match dest with
       | Some (a, v) => exists s, p2pkh_from_address a = Ok s
                          /\ carrier = [ {| value_atoms := v; script_pubkey := s |} ]
       | None => carrier = []
       end.
Proof.
  intros Ha Hf Ht Hb. unfold build_outputs in Hb. fold (carrier_atoms dest) in Hb.
  apply bind_Ok in Hb as (u & Hr & Hb). apply reject_if_Ok, Z.ltb_ge in Hr.
  destruct (spent_exact _ _ _ Ha Hf Ht Hr) as [Hs Hc]. rewrite Hc in Hb.
  apply bind_Ok in Hb as (carrier & Hcar & Hb). fold (op_output op) in Hb.
  assert (match dest with
          | Some (a, v) => exists s, p2pkh_from_address a = Ok s
                             /\ carrier = [ {| value_atoms := v; script_pubkey := s |} ]
          | None => carrier = []
          end) as Hcarrier.
  { destruct dest as [[a v]|]; [|by injection Hcar].
    destruct (p2pkh_from_address a) as [s|]; [|discriminate]. injection Hcar as <-. eauto. }
  exists carrier. destruct (Z.ltb_spec 0 (total_in - (carrier_atoms dest + fee))) as [Hlt|Hge].
  - apply bind_Ok in Hb as (s & _ & Hb). injection Hb as <-. eexists. rewrite <- app_assoc.
    split; [reflexivity|]. split; [|exact Hcarrier]. rewrite outs_sum_cons. cbn [value_atoms]. cbn. lia.
  - injection Hb as <-. exists []. split; [reflexivity|]. split; [|exact Hcarrier]. cbn. lia.
Qed.

(** C39: Whenever the wallet can build the outputs of an asset transaction for a
    well-formed operation, every reader that scans the transaction decodes
    exactly that operation from it, the first output pays the recipient the
    requested carrier amount, and the outputs spend the inputs up to exactly
    the fee: none of the inputs is lost or created. *)
Theorem asset_tx_roundtrip op dest change_addr total_in fee ins outs :
  op_wf op -> 0 <= total_in < U64_MAX -> 0 <= fee -> (forall a v, dest = Some (a, v) -> 0 <= v) ->
  build_outputs op dest change_addr total_in fee = Ok outs ->
  extract_asset_op (payment ins outs) = Some op
  /\ sumZ (value_atoms <$> outs) = total_in - fee
  /\ (forall a v, dest = Some (a, v) ->
        exists o, head outs = Some o /\ value_atoms o = v /\ p2pkh_from_address a = Ok (script_pubkey o)).
Proof.
  intros Hop Ht Hf Hd Hb.
  assert (0 <= carrier_atoms dest) as Ha by (destruct dest as [[a v]|]; cbn; eauto; lia).
  destruct (build_outputs_shape _ _ _ _ _ _ Ha Hf Ht Hb) as (carrier & chg & -> & Hsum & Hcar).
  unfold extract_asset_op. rewrite payment_outputs. destruct dest as [[a v]|].
  - destruct Hcar as (s & Hs & ->). destruct (p2pkh_from_address_bytes a s Hs) as [h ->]. cbn [app].
    rewrite first_asset_op_p2pkh, !outs_sum_cons. cbn [op_output value_atoms carrier_atoms] in *. split_and!.
    + by apply first_asset_op_carrier.
    + lia.
    + intros ? ? [= <- <-]. eexists. by split_and!.
  - subst carrier. cbn [app]. rewrite outs_sum_cons. cbn [op_output value_atoms carrier_atoms] in *. split_and!.
    + by apply first_asset_op_carrier.
    + lia.
    + discriminate.
Qed.
End Build.

(** ** A concrete asset transaction *)
Module Carrier.
#[local] Existing Instance toy_crypto.
Definition op : AssetOp :=
  Issue {| ticker := "GOLD"; decimals := 8; supply := 21000000; asset_name := "Gold Token"; flags := 0 |}.
Definition owner : string :=
  default ""%string (bech32_encode ADDRESS_HRP (to_base32 (take 20 (sha256 (vk_to_sec1 toy_key))))).

Lemma op_is_wf : op_wf op.
Proof.
  split_and!; try by_compute; (split; [apply utf8_ascii; by_compute | by_compute]).
Qed.

Definition built : list TxOutput :=
  match build_outputs op (Some (owner, 1000)) owner 1000000 100000 with Ok outs => outs | Err _ => [] end.

Lemma op_builds : build_outputs op (Some (owner, 1000)) owner 1000000 100000 = Ok built.
Proof. vm_compute. reflexivity. Qed.
End Carrier.

Lemma asset_tx_roundtrip_witness :
  extract_asset_op (payment (H := toy_crypto) [] Carrier.built) = Some Carrier.op
  /\ sumZ (value_atoms <$> Carrier.built) = 900000.
Proof.
  assert (forall (o a : string) v, Some (o, 1000) = Some (a, v) -> 0 <= v) as Hv by (intros ? ? ? [= _ <-]; lia).
  destruct (@asset_tx_roundtrip toy_crypto Carrier.op (Some (Carrier.owner, 1000)) Carrier.owner 1000000 100000 []
    Carrier.built Carrier.op_is_wf ltac:(by_compute) ltac:(by_compute) (Hv _) Carrier.op_builds) as (H1 & H2 & _).
  split; [exact H1 | exact H2].
Defined.
