(* ===== verification/AssetState.v ===== *)
(** * The asset ledger ([tensorium-core/src/assets/state.rs])

    Registered assets, fungible balances and NFT owners, and the one operation
    that changes them. An asset id ([[u8; 32]]) is its bytes; a [HashMap] whose
    order is never read is a finite map. *)

From S2P Require Import Prelude AssetCodec.

Local Open Scope Z_scope.

Inductive AssetKind := Fungible | NonFungible.

Record AssetInfo := {
  kind : AssetKind;
  info_ticker : string;
  info_name : string;
  info_decimals : Z;
  info_supply : Z;
  issuer : string;
  info_royalty_bps : Z;
  info_royalty_addr : string;
  info_uri : string;
  info_content_hash : bytes;
  mint_height : Z;
}.

Inductive ApplyResult := Applied | Ignored (reason : string).

#[export] Instance AssetKind_eq_dec : EqDecision AssetKind.
Proof. solve_decision. Defined.
#[export] Instance AssetInfo_eq_dec : EqDecision AssetInfo.
Proof. solve_decision. Defined.
#[export] Instance ApplyResult_eq_dec : EqDecision ApplyResult.
Proof. solve_decision. Defined.

Record AssetState := {
  assets : gmap bytes AssetInfo;
  ft_balances : gmap (string * bytes) Z;
  nft_owner : gmap bytes string;
}.

Definition empty_assets : AssetState := {| assets := ∅; ft_balances := ∅; nft_owner := ∅ |}.

(** [*balances.get(&key).unwrap_or(&0)], also the value of [entry(key).or_insert(0)]. *)
Definition balance_of (m : gmap (string * bytes) Z) (key : string * bytes) : Z := default 0 (m !! key).

Definition ft_balance (st : AssetState) (addr : string) (asset : bytes) : Z :=
  balance_of (ft_balances st) (addr, asset).

(** [*balances.entry(key).or_insert(0) += amount] *)
Definition credit (key : string * bytes) (amount : Z) (m : gmap (string * bytes) Z) :
    gmap (string * bytes) Z :=
  <[key := add64 (balance_of m key) amount]> m.

(** [*balances.get_mut(&key).unwrap() -= amount]: the callers have checked that
    the balance is at least [amount], which is positive, so the entry exists. *)
Definition debit (key : string * bytes) (amount : Z) (m : gmap (string * bytes) Z) :
    gmap (string * bytes) Z :=
  <[key := sub64 (balance_of m key) amount]> m.

Definition apply_issue (st : AssetState) (txid : bytes) (height : Z) (source : string) (d : IssueData) :
    AssetState * ApplyResult :=
  if bool_decide (is_Some (assets st !! txid)) then (st, Ignored "asset_id exists")
  else if 18 <? decimals d then (st, Ignored "decimals too high")
  else
    ({| assets := <[txid := {|
          kind := Fungible; info_ticker := ticker d; info_name := asset_name d;
          info_decimals := decimals d; info_supply := supply d; issuer := source;
          info_royalty_bps := 0; info_royalty_addr := ""; info_uri := "";
          info_content_hash := replicate 32 0; mint_height := height |}]> (assets st);
        ft_balances := credit (source, txid) (supply d) (ft_balances st);
        nft_owner := nft_owner st |}, Applied).

Definition apply_mint (st : AssetState) (txid : bytes) (height : Z) (source : string) (d : NftMintData) :
    AssetState * ApplyResult :=
  if bool_decide (is_Some (assets st !! txid)) then (st, Ignored "asset_id exists")
  else if 10000 <? royalty_bps d then (st, Ignored "royalty too high")
  else
    ({| assets := <[txid := {|
          kind := NonFungible; info_ticker := ""; info_name := "";
          info_decimals := 0; info_supply := 1; issuer := source;
          info_royalty_bps := royalty_bps d; info_royalty_addr := royalty_addr d; info_uri := uri d;
          info_content_hash := content_hash d; mint_height := height |}]> (assets st);
        ft_balances := ft_balances st;
        nft_owner := <[txid := source]> (nft_owner st) |}, Applied).

Definition apply_transfer (st : AssetState) (source : string) (dest_addr : option string)
    (d : TransferData) : AssetState * ApplyResult :=
  match assets st !! asset_id d, dest_addr with
  | None, _ => (st, Ignored "unknown asset")
  | Some _, None => (st, Ignored "bad dest output")
  | Some info, Some dest =>
      match kind info with
      | Fungible =>
          if amount d =? 0 then (st, Ignored "zero amount")
          else if ft_balance st source (asset_id d) <? amount d then (st, Ignored "insufficient balance")
          else
            ({| assets := assets st;
                ft_balances := credit (dest, asset_id d) (amount d)
                                 (debit (source, asset_id d) (amount d) (ft_balances st));
                nft_owner := nft_owner st |}, Applied)
      | NonFungible =>
          if negb (amount d =? 1) then (st, Ignored "nft amount must be 1")
          else if negb (bool_decide (nft_owner st !! asset_id d = Some source))
          then (st, Ignored "not nft owner")
          else
            ({| assets := assets st; ft_balances := ft_balances st;
                nft_owner := <[asset_id d := dest]> (nft_owner st) |}, Applied)
      end
  end.

Definition apply (st : AssetState) (txid : bytes) (height : Z) (source : string)
    (dest_addr : option string) (op : AssetOp) : AssetState * ApplyResult :=
  match op with
  | Issue d => apply_issue st txid height source d
  | NftMint d => apply_mint st txid height source d
  | Transfer d => apply_transfer st source dest_addr d
  end.

(** * The asset ledger: conservation and authority

    Every asset the ledger knows has exactly its supply in circulation or
    exactly one owner, and only the source of an operation can lose a holding. *)

From S2P Require Import AssetCodecFacts.

(** What all holders together have of one asset. *)
Definition circulating (m : gmap (string * bytes) Z) (asset : bytes) : Z :=
  map_sum id (filter (λ kv, kv.1.2 = asset) m).

(** The ledger's promise about one registered asset. *)
Definition asset_backed (st : AssetState) (asset : bytes) (info : AssetInfo) : Prop :=
  match kind info with
  | Fungible =>
      is_u64 (info_supply info) /\ circulating (ft_balances st) asset = info_supply info
      /\ nft_owner st !! asset = None
  | NonFungible => is_Some (nft_owner st !! asset) /\ circulating (ft_balances st) asset = 0
  end.

Record ledger_ok (st : AssetState) : Prop := {
  balances_nonneg : map_Forall (λ _ b, 0 <= b) (ft_balances st);
  registered_backed asset info : assets st !! asset = Some info -> asset_backed st asset info;
  unregistered_empty asset :
    assets st !! asset = None -> circulating (ft_balances st) asset = 0 /\ nft_owner st !! asset = None;
}.

#[export] Instance amounts_ok_dec op : Decision (amounts_ok op).
Proof. destruct op; simpl; apply _. Defined.

Lemma circulating_empty asset : circulating ∅ asset = 0.
Proof. unfold circulating. rewrite map_filter_empty. apply map_sum_empty. Qed.

Lemma circulating_insert m addr a b v :
  circulating (<[(addr, a) := v]> m) b
  = if decide (a = b) then circulating m b - balance_of m (addr, a) + v else circulating m b.
Proof.
  unfold circulating. case_decide as Hab.
  - rewrite map_filter_insert_True by done. rewrite map_sum_insert. f_equal. f_equal.
    unfold value_or_0, balance_of. destruct (m !! (addr, a)) as [x|] eqn:E.
    + by rewrite (map_lookup_filter_Some_2 _ _ _ _ E) by done.
    + by rewrite map_lookup_filter_None_2 by auto.
  - rewrite map_filter_insert_not by naive_solver. done.
Qed.

Lemma circulating_nonneg m a : map_Forall (λ _ b, 0 <= b) m -> 0 <= circulating m a.
Proof.
  intros Hm. apply map_sum_nonneg. intros k v [Hv _]%map_lookup_filter_Some. by apply (Hm k).
Qed.

Lemma balance_nonneg m k : map_Forall (λ _ b, 0 <= b) m -> 0 <= balance_of m k.
Proof. intros Hm. unfold balance_of. destruct (m !! k) eqn:E; simpl; [by apply (Hm k)|lia]. Qed.

(** A holder has at most what circulates. *)
Lemma balance_le_circulating m addr a :
  map_Forall (λ _ b, 0 <= b) m -> balance_of m (addr, a) <= circulating m a.
Proof.
  intros Hm. pose proof (circulating_insert m addr a a 0) as H. rewrite decide_True in H by done.
  assert (0 <= circulating (<[(addr, a):=0]> m) a); [|lia].
  apply circulating_nonneg. by apply map_Forall_insert_2.
Qed.

Lemma balance_of_insert m k k' v :
  balance_of (<[k := v]> m) k' = if decide (k = k') then v else balance_of m k'.
Proof.
  unfold balance_of. case_decide as E; [subst; by rewrite lookup_insert_eq|by rewrite lookup_insert_ne].
Qed.

(** Debiting and crediting inside a width-respecting supply does not wrap. *)
Section Transfer.
Context (m : gmap (string * bytes) Z) (src dst : string) (a : bytes) (n : Z).
Context (Hm : map_Forall (λ _ b, 0 <= b) m) (Hc : circulating m a < U64_MOD)
  (Hn : 0 <= n <= balance_of m (src, a)).

Definition moved : gmap (string * bytes) Z := credit (dst, a) n (debit (src, a) n m).

Lemma debit_exact : debit (src, a) n m = <[(src, a) := balance_of m (src, a) - n]> m.
Proof using Hm Hc Hn.
  unfold debit. rewrite sub64_small; [done|].
  pose proof (balance_le_circulating m src a Hm). lia.
Qed.

Lemma credit_exact :
  moved = <[(dst, a) := balance_of (debit (src, a) n m) (dst, a) + n]> (debit (src, a) n m).
Proof using Hm Hc Hn.
  unfold moved, credit. rewrite debit_exact, add64_small; [done|].
  assert (map_Forall (λ _ b, 0 <= b) (<[(src, a) := balance_of m (src, a) - n]> m)) as Hm'
    by (apply map_Forall_insert_2; [lia|done]).
  pose proof (balance_nonneg _ (dst, a) Hm').
  pose proof (balance_le_circulating _ dst a Hm') as Hle.
  rewrite circulating_insert, decide_True in Hle by done. lia.
Qed.

Lemma moved_nonneg : map_Forall (λ _ b, 0 <= b) moved.
Proof using Hm Hc Hn.
  assert (map_Forall (λ _ b, 0 <= b) (debit (src, a) n m)) as Hm'.
  { rewrite debit_exact. apply map_Forall_insert_2; [lia|done]. }
  rewrite credit_exact. apply map_Forall_insert_2; [|done].
  pose proof (balance_nonneg _ (dst, a) Hm'). lia.
Qed.

Lemma moved_circulating b : circulating moved b = circulating m b.
Proof using Hm Hc Hn.
  rewrite credit_exact, circulating_insert, debit_exact, circulating_insert.
  case_decide; lia.
Qed.

Lemma moved_balance addr b :
  balance_of moved (addr, b)
  = if decide (a = b)
    then balance_of m (addr, b) + (if decide (addr = dst) then n else 0)
         - (if decide (addr = src) then n else 0)
    else balance_of m (addr, b).
Proof using Hm Hc Hn.
  rewrite credit_exact, debit_exact, !balance_of_insert. repeat case_decide; simplify_eq; lia.
Qed.
End Transfer.

(** ** The invariant *)

Lemma ledger_empty : ledger_ok empty_assets.
Proof.
  split; simpl.
  - apply map_Forall_empty.
  - intros ? ?. by rewrite lookup_empty.
  - intros asset _. by rewrite circulating_empty, lookup_empty.
Qed.

Lemma apply_issue_ok st t h src d :
  ledger_ok st -> is_u64 (supply d) -> ledger_ok (apply_issue st t h src d).1.
Proof.
  intros [Hn Hr He] Hs. unfold apply_issue.
  case_bool_decide as Hx; [by split|]. apply eq_None_not_Some in Hx.
  destruct (18 <? decimals d); [by split|]. destruct (He t Hx) as [Hc Ho].
  assert (balance_of (ft_balances st) (src, t) = 0) as Hb.
  { pose proof (balance_le_circulating _ src t Hn). pose proof (balance_nonneg _ (src, t) Hn). lia. }
  split; cbn [fst assets ft_balances nft_owner].
  - apply map_Forall_insert_2; [|done]. unfold add64, U64_MOD. apply Z.mod_pos_bound. lia.
  - intros a info. unfold asset_backed; cbn [ft_balances nft_owner].
    unfold credit. rewrite Hb, add64_small, circulating_insert, Hb by (unfold is_u64 in Hs; lia).
    destruct (decide (t = a)) as [<-|Hne].
    + rewrite lookup_insert_eq. intros [= <-]. cbn. rewrite Hc. split_and!; [apply Hs|lia|done].
    + rewrite lookup_insert_ne by done. apply Hr.
  - intros a. unfold credit. rewrite circulating_insert. case_decide as Hne.
    + subst. by rewrite lookup_insert_eq.
    + rewrite lookup_insert_ne by done. apply He.
Qed.

Lemma apply_mint_ok st t h src d : ledger_ok st -> ledger_ok (apply_mint st t h src d).1.
Proof.
  intros [Hn Hr He]. unfold apply_mint.
  case_bool_decide as Hx; [by split|]. apply eq_None_not_Some in Hx.
  destruct (10000 <? royalty_bps d); [by split|]. destruct (He t Hx) as [Hc Ho].
  split; cbn [fst assets ft_balances nft_owner]; [done| |].
  - intros a info. unfold asset_backed; cbn [ft_balances nft_owner].
    destruct (decide (t = a)) as [<-|Hne].
    + rewrite !lookup_insert_eq. intros [= <-]. cbn. eauto.
    + rewrite !lookup_insert_ne by done. apply Hr.
  - intros a. destruct (decide (t = a)) as [<-|Hne]; [by rewrite lookup_insert_eq|].
    rewrite !lookup_insert_ne by done. apply He.
Qed.

(** What a fungible transfer that is not ignored has checked. *)
Lemma transfer_checked st src d info :
  ledger_ok st -> assets st !! asset_id d = Some info -> kind info = Fungible ->
  amount d <= ft_balance st src (asset_id d) -> is_u64 (amount d) ->
  circulating (ft_balances st) (asset_id d) < U64_MOD
  /\ 0 <= amount d <= balance_of (ft_balances st) (src, asset_id d).
Proof.
  intros Hst Hi Hk Hle Ha. pose proof (registered_backed _ Hst _ _ Hi) as Hb.
  unfold asset_backed in Hb. rewrite Hk in Hb. unfold ft_balance, is_u64 in *. lia.
Qed.

Lemma apply_transfer_ok st src dest d :
  ledger_ok st -> is_u64 (amount d) -> ledger_ok (apply_transfer st src dest d).1.
Proof.
  intros Hst Ha. unfold apply_transfer.
  destruct (assets st !! asset_id d) as [info|] eqn:Hi; [|done]. destruct dest as [dst|]; [|done].
  destruct (kind info) eqn:Hk.
  - destruct (amount d =? 0); [done|]. destruct (Z.ltb_spec (ft_balance st src (asset_id d)) (amount d)); [done|].
    destruct (transfer_checked st src d info) as [Hc Hn]; [done..|].
    pose proof (balances_nonneg _ Hst) as Hm.
    split; cbn [fst assets ft_balances nft_owner].
    + by apply moved_nonneg.
    + intros a i Hai. unfold asset_backed; cbn [ft_balances nft_owner].
      change (credit _ _ _) with (moved (ft_balances st) src dst (asset_id d) (amount d)).
      rewrite moved_circulating by done. by apply (registered_backed _ Hst).
    + intros a Hai. change (credit _ _ _) with (moved (ft_balances st) src dst (asset_id d) (amount d)).
      rewrite moved_circulating by done. by apply (unregistered_empty _ Hst).
  - destruct (negb (amount d =? 1)); [done|]. case_bool_decide as Ho; [|done]. cbn [negb].
    split; cbn [fst assets ft_balances nft_owner].
    + apply (balances_nonneg _ Hst).
    + intros a i Hai. pose proof (registered_backed _ Hst _ _ Hai) as Hb.
      unfold asset_backed in *; cbn [ft_balances nft_owner].
      destruct (decide (asset_id d = a)) as [<-|Hne].
      * assert (i = info) as -> by congruence. rewrite Hk in *. rewrite lookup_insert_eq.
        destruct Hb. eauto.
      * by rewrite lookup_insert_ne.
    + intros a Hai. destruct (decide (asset_id d = a)) as [<-|Hne]; [congruence|].
      rewrite lookup_insert_ne by done. by apply (unregistered_empty _ Hst).
Qed.

Lemma apply_ok st t h src dest op :
  ledger_ok st -> amounts_ok op -> ledger_ok (apply st t h src dest op).1.
Proof.
  destruct op; simpl; auto using apply_issue_ok, apply_mint_ok, apply_transfer_ok.
Qed.

(** ** Histories of operations *)
Record Event := {
  ev_txid : bytes; ev_height : Z; ev_source : string; ev_dest : option string; ev_op : AssetOp }.

Definition apply_event (st : AssetState) (e : Event) : AssetState :=
  (apply st (ev_txid e) (ev_height e) (ev_source e) (ev_dest e) (ev_op e)).1.

Lemma apply_events_ok es st :
  ledger_ok st -> Forall (λ e, amounts_ok (ev_op e)) es -> ledger_ok (foldl apply_event st es).
Proof.
  intros Hst Hes; revert st Hst; induction Hes as [|e es He _ IH]; intros st Hst; simpl; [done|].
  apply IH. by apply apply_ok.
Qed.

(** C31: In the ledger any history of operations produces, the balances of a
    fungible asset add up to exactly its issued supply, no single balance
    exceeds it, and an NFT has exactly one owner and no balances: no sequence
    of issues, mints and transfers creates or destroys an asset. *)
Theorem asset_conservation es asset info :
  let st := foldl apply_event empty_assets es in
  Forall (λ e, amounts_ok (ev_op e)) es ->
  assets st !! asset = Some info ->
  match kind info with
  | Fungible =>
      circulating (ft_balances st) asset = info_supply info
      /\ forall addr, 0 <= ft_balance st addr asset <= info_supply info
  | NonFungible =>
      is_Some (nft_owner st !! asset) /\ forall addr, ft_balance st addr asset = 0
  end.
Proof.
  intros st Hes Hi. pose proof (apply_events_ok es empty_assets ledger_empty Hes : ledger_ok st) as Hst.
  pose proof (registered_backed _ Hst _ _ Hi) as Hb. unfold asset_backed, ft_balance in *.
  pose proof (λ addr, balance_le_circulating _ addr asset (balances_nonneg _ Hst)).
  pose proof (λ addr, balance_nonneg _ (addr, asset) (balances_nonneg _ Hst)).
  destruct (kind info).
  - destruct Hb as (_ & Hb & _). rewrite <- Hb. auto.
  - destruct Hb as [Hb Hz]. split; [done|]. intros addr. specialize (H addr); specialize (H0 addr). lia.
Qed.

(** An ignored operation leaves the ledger as it is. *)
Ltac unchanged := cbn [fst negb]; split_and!; [intros; lia|done|done].

(** One operation takes fungible units away only from its own source, and
    only by a transfer of an amount the source holds; it changes the owner of
    an existing NFT only if the source is that owner; and it never alters a
    registered asset's description. *)
Theorem only_source_loses st t h src dest op :
  ledger_ok st -> amounts_ok op ->
  let st' := (apply st t h src dest op).1 in
  (forall addr a, ft_balance st' addr a < ft_balance st addr a ->
     addr = src /\ exists d, op = Transfer d /\ asset_id d = a
       /\ ft_balance st addr a - ft_balance st' addr a = amount d)
  /\ (forall a o, nft_owner st !! a = Some o -> nft_owner st' !! a <> Some o -> o = src)
  /\ (forall a info, assets st !! a = Some info -> assets st' !! a = Some info).
Proof.
  intros Hst Ha st'. subst st'. destruct op as [d|d|d]; cbn [apply].
  - unfold apply_issue. case_bool_decide as Hx; [unchanged|].
    destruct (18 <? decimals d); [unchanged|]. cbn [fst].
    apply eq_None_not_Some in Hx. split_and!.
    + intros addr a. unfold ft_balance; cbn [ft_balances]. unfold credit. rewrite balance_of_insert.
      case_decide as E; [|lia]. injection E as -> ->.
      destruct (unregistered_empty _ Hst a Hx) as [Hc _].
      pose proof (balance_le_circulating _ addr a (balances_nonneg _ Hst)).
      cbn in Ha. u64_lia.
    + done.
    + intros a info Hi. cbn. rewrite lookup_insert_ne; congruence.
  - unfold apply_mint. case_bool_decide as Hx; [unchanged|].
    destruct (10000 <? royalty_bps d); [unchanged|]. cbn [fst].
    apply eq_None_not_Some in Hx. split_and!; cbn.
    + intros addr a. unfold ft_balance; cbn. lia.
    + intros a o Ho. destruct (unregistered_empty _ Hst t Hx) as [_ Hn].
      rewrite lookup_insert_ne; congruence.
    + intros a info Hi. rewrite lookup_insert_ne; congruence.
  - unfold apply_transfer. destruct (assets st !! asset_id d) as [info|] eqn:Hi; [|unchanged].
    destruct dest as [dst|]; [|unchanged]. destruct (kind info) eqn:Hk.
    + destruct (amount d =? 0); [unchanged|].
      destruct (Z.ltb_spec (ft_balance st src (asset_id d)) (amount d)); [unchanged|].
      destruct (transfer_checked st src d info) as [Hc Hn]; [done..|].
      cbn [fst]. split_and!; [|done|done].
      intros addr a. unfold ft_balance; cbn [ft_balances].
      change (credit _ _ _) with (moved (ft_balances st) src dst (asset_id d) (amount d)).
      rewrite moved_balance by (try done; apply (balances_nonneg _ Hst)).
      case_decide as Ea; [|lia]. intros Hlt. cbn in Ha. unfold is_u64 in Ha.
      repeat case_decide; subst; try lia. split; [done|]. exists d. split_and!; [done|done|lia].
    + destruct (negb (amount d =? 1)); [unchanged|].
      case_bool_decide as Ho; [|unchanged]. cbn [negb fst].
      split_and!; [|cbn|done].
      * intros addr a. unfold ft_balance; cbn. lia.
      * intros a o Hao. destruct (decide (asset_id d = a)) as [<-|]; [congruence|].
        by rewrite lookup_insert_ne.
Qed.

(** ** A concrete history *)
Module Ledger.
Definition gold : bytes := replicate 32 1.
Definition art : bytes := replicate 32 5.
Definition history : list Event := [
  {| ev_txid := gold; ev_height := 1; ev_source := "alice"; ev_dest := None;
     ev_op := Issue {| ticker := "GOLD"; decimals := 8; supply := 1000; asset_name := "Gold"; flags := 0 |} |};
  {| ev_txid := art; ev_height := 2; ev_source := "carol"; ev_dest := None;
     ev_op := NftMint {| collection_id := replicate 32 0; royalty_bps := 500; royalty_addr := "carol";
                         uri := "ipfs://Qm"; content_hash := replicate 32 1 |} |};
  {| ev_txid := replicate 32 2; ev_height := 3; ev_source := "alice"; ev_dest := Some "bob";
     ev_op := Transfer {| asset_id := gold; amount := 300; dest_output_index := 0 |} |};
  {| ev_txid := replicate 32 3; ev_height := 4; ev_source := "carol"; ev_dest := Some "bob";
     ev_op := Transfer {| asset_id := art; amount := 1; dest_output_index := 0 |} |} ].
Definition ledger : AssetState := foldl apply_event empty_assets history.

Lemma history_ok : Forall (λ e, amounts_ok (ev_op e)) history.
Proof. by_compute. Qed.

Lemma ledger_is_ok : ledger_ok ledger.
Proof. apply apply_events_ok; [apply ledger_empty|apply history_ok]. Qed.
End Ledger.

Lemma asset_conservation_witness :
  circulating (ft_balances Ledger.ledger) Ledger.gold = 1000
  /\ forall addr, 0 <= ft_balance Ledger.ledger addr Ledger.gold <= 1000.
Proof.
  refine (asset_conservation Ledger.history Ledger.gold
            {| kind := Fungible; info_ticker := "GOLD"; info_name := "Gold"; info_decimals := 8;
               info_supply := 1000; issuer := "alice"; info_royalty_bps := 0; info_royalty_addr := "";
               info_uri := ""; info_content_hash := replicate 32 0; mint_height := 1 |}
            Ledger.history_ok _).
  vm_compute. reflexivity.
Defined.

Lemma only_source_loses_witness :
  let op := Transfer {| asset_id := Ledger.gold; amount := 700; dest_output_index := 0 |} in
  let st' := (apply Ledger.ledger (replicate 32 9) 5 "alice" (Some "bob") op).1 in
  ft_balance st' "alice" Ledger.gold = 0
  /\ forall addr, ft_balance st' addr Ledger.gold < ft_balance Ledger.ledger addr Ledger.gold -> addr = "alice"%string.
Proof.
  split; [vm_compute; reflexivity|]. intros addr Hlt.
  refine (proj1 (proj1 (only_source_loses Ledger.ledger (replicate 32 9) 5 "alice" (Some "bob"%string)
    (Transfer {| asset_id := Ledger.gold; amount := 700; dest_output_index := 0 |})
    Ledger.ledger_is_ok _) addr Ledger.gold Hlt)).
  by_compute.
Defined.
