(* ===== verification/Settlement.v ===== *)
(** * Marketplace settlement ([tensorium-core/src/settlement.rs])

    One co-signed transaction moves an asset, pays the seller, the platform and
    the creator, and returns the change. Error texts are reduced to their kind. *)

From S2P Require Import Prelude Crypto Hash ScriptVM ScriptStandard Block AssetCodec.

Local Open Scope Z_scope.

Definition PLATFORM_FEE_BPS : Z := 250.
Definition PLATFORM_FEE_ADDRESS : string := "txm1px2nmtp087mz8dv3lplqadwzxawk0c5kg0mt24".
Definition CARRIER_ATOMS : Z := 1000.

Record SettlementTerms := {
  terms_asset_id : bytes;
  terms_amount : Z;
  price_atoms : Z;
  terms_royalty_bps : Z;
  terms_royalty_addr : string;
  seller_addr : string;
  buyer_addr : string;
  miner_fee_atoms : Z;
}.

(** [(price as u128 * bps as u128 / 10_000) as u64] *)
Definition bps_of (price bps : Z) : Z := (price * bps / 10000) mod U64_MOD.

Definition fee_split (price bps : Z) (seller royalty : string) : Z * Z :=
  (bps_of price PLATFORM_FEE_BPS,
   if (bps =? 0) || bool_decide (seller = royalty) then 0 else bps_of price bps).

Inductive SettlementError := FeesExceedPrice | InsufficientFunds (have need : Z) | InvalidSettlementAddress.

(** [iter().map(|(_, v)| *v).sum()] wraps. *)
Definition sum_values (ins : list (OutPoint * Z)) : Z := foldl add64 0 ins.*2.

Definition unsigned_input (op : OutPoint) : TxInput := {| previous_output := op; signature_script := [] |}.

Definition transfer_op (terms : SettlementTerms) : AssetOp :=
  Transfer {| asset_id := terms_asset_id terms; amount := terms_amount terms; dest_output_index := 0 |}.

Section Settlement.
Context `{Crypto}.

(** [TxOutput { value_atoms, script_pubkey: p2pkh(addr)? }] *)
Definition pay_output (value : Z) (addr : string) : result SettlementError TxOutput :=
  s ← map_err (p2pkh_from_address addr) (λ _, InvalidSettlementAddress);
  Ok {| value_atoms := value; script_pubkey := s |}.

(** [if value > 0 { outputs.push(...) }] *)
Definition push_if_positive (value : Z) (addr : string) (outs : list TxOutput) :
    result SettlementError (list TxOutput) :=
  if 0 <? value then o ← pay_output value addr; Ok (outs ++ [o]) else Ok outs.

Definition build_settlement_tx (terms : SettlementTerms) (seller_input : OutPoint * Z)
    (buyer_inputs : list (OutPoint * Z)) : result SettlementError Transaction :=
  let '(platform_fee, royalty) :=
    fee_split (price_atoms terms) (terms_royalty_bps terms) (seller_addr terms) (terms_royalty_addr terms) in
  reject_if (price_atoms terms <? add64 platform_fee royalty) FeesExceedPrice;;
  let v_seller := seller_input.2 in
  let v_buyer := sum_values buyer_inputs in
  let buyer_need := add64 (add64 (price_atoms terms) CARRIER_ATOMS) (miner_fee_atoms terms) in
  reject_if (v_buyer <? buyer_need) (InsufficientFunds v_buyer buyer_need);;
  let seller_proceeds := sub64 (sub64 (add64 v_seller (price_atoms terms)) platform_fee) royalty in
  let change := sub64 (sub64 (sub64 v_buyer (price_atoms terms)) CARRIER_ATOMS) (miner_fee_atoms terms) in
  let ins := unsigned_input seller_input.1 :: (unsigned_input <$> buyer_inputs.*1) in
  carrier ← pay_output CARRIER_ATOMS (buyer_addr terms);
  proceeds ← pay_output seller_proceeds (seller_addr terms);
  let outs := [ carrier;
                {| value_atoms := 0; script_pubkey := op_return_script (encode_op (transfer_op terms)) |};
                proceeds ] in
  outs ← push_if_positive platform_fee PLATFORM_FEE_ADDRESS outs;
  outs ← push_if_positive royalty (terms_royalty_addr terms) outs;
  outs ← push_if_positive change (buyer_addr terms) outs;
  Ok (payment ins outs).

Inductive Mismatch :=
| BuyerCarrier | TransferMismatch | PlatformFeeMissing | RoyaltyMissing | SellerBelowNet.

Definition has_output_exact (tx : Transaction) (addr : string) (value : Z) : bool :=
  existsb (λ o, (value_atoms o =? value) && bool_decide (extract_address (script_pubkey o) = Some addr))
    (outputs tx).

Definition has_output_at_least (tx : Transaction) (addr : string) (min : Z) : bool :=
  existsb (λ o, (min <=? value_atoms o) && bool_decide (extract_address (script_pubkey o) = Some addr))
    (outputs tx).

(** [if cond { bad.push(m) }] *)
Definition note (c : bool) (m : Mismatch) : list Mismatch := if c then [m] else [].

Definition is_buyer_carrier (terms : SettlementTerms) (o : option TxOutput) : bool :=
  match o with
  | Some o => (value_atoms o =? CARRIER_ATOMS)
              && bool_decide (extract_address (script_pubkey o) = Some (buyer_addr terms))
  | None => false
  end.

Definition is_terms_transfer (terms : SettlementTerms) (op : option AssetOp) : bool :=
  match op with
  | Some (Transfer d) =>
      bool_decide (asset_id d = terms_asset_id terms) && (amount d =? terms_amount terms)
      && (dest_output_index d =? 0)
  | _ => false
  end.

Definition verify_settlement (tx : Transaction) (terms : SettlementTerms) : list Mismatch :=
  let '(platform_fee, royalty) :=
    fee_split (price_atoms terms) (terms_royalty_bps terms) (seller_addr terms) (terms_royalty_addr terms) in
  let min_proceeds := sat_sub64 (price_atoms terms) (add64 platform_fee royalty) in
  note (negb (is_buyer_carrier terms (head (outputs tx)))) BuyerCarrier
  ++ note (negb (is_terms_transfer terms (extract_asset_op tx))) TransferMismatch
  ++ note ((0 <? platform_fee) && negb (has_output_exact tx PLATFORM_FEE_ADDRESS platform_fee)) PlatformFeeMissing
  ++ note ((0 <? royalty) && negb (has_output_exact tx (terms_royalty_addr terms) royalty)) RoyaltyMissing
  ++ note (negb (has_output_at_least tx (seller_addr terms) min_proceeds)) SellerBelowNet.
End Settlement.

(** * Settlement: what is built conserves value and verifies *)

From S2P Require Import Chain AssetCodecFacts.

(** Amounts that exist: no set of outputs is worth more than the supply. *)
Record settlement_bounds (terms : SettlementTerms) (seller_input : OutPoint * Z)
    (buyer_inputs : list (OutPoint * Z)) : Prop := {
  price_bound : 0 <= price_atoms terms <= TOTAL_SUPPLY_ATOMS;
  miner_fee_bound : 0 <= miner_fee_atoms terms <= TOTAL_SUPPLY_ATOMS;
  royalty_bound : 0 <= terms_royalty_bps terms < 65536;
  seller_value_bound : 0 <= seller_input.2;
  buyer_values_bound : Forall (Z.le 0) buyer_inputs.*2;
  inputs_bound : seller_input.2 + sumZ buyer_inputs.*2 <= TOTAL_SUPPLY_ATOMS;
}.

Lemma foldl_add64 l a :
  Forall (Z.le 0) l -> 0 <= a -> a + sumZ l < U64_MOD -> foldl add64 a l = a + sumZ l.
Proof.
  intros Hl; revert a; induction Hl as [|x l Hx Hl IH]; intros a Ha Hb; simpl in *; [lia|].
  pose proof (sumZ_nonneg l Hl). rewrite add64_small by lia. rewrite IH; lia.
Qed.

Lemma sub64_twice a b c :
  0 <= b -> 0 <= c -> b + c <= a < U64_MOD -> sub64 (sub64 a b) c = a - b - c.
Proof. intros. by rewrite (sub64_small a b), sub64_small by lia. Qed.

Lemma sub64_thrice a b c d :
  0 <= b -> 0 <= c -> 0 <= d -> b + c + d <= a < U64_MOD -> sub64 (sub64 (sub64 a b) c) d = a - b - c - d.
Proof. intros. by rewrite (sub64_twice a b c), sub64_small by lia. Qed.

(** The fees are within the width for any price in circulation. *)
Lemma bps_of_exact price bps :
  0 <= price <= TOTAL_SUPPLY_ATOMS -> 0 <= bps < 65536 ->
  bps_of price bps = price * bps / 10000 /\ 0 <= bps_of price bps <= 7 * TOTAL_SUPPLY_ATOMS.
Proof.
  intros Hp Hb. assert (0 <= price * bps / 10000 <= 7 * TOTAL_SUPPLY_ATOMS) as Hr.
  { split; [apply Z.div_pos; nia|]. apply Z.div_le_upper_bound; nia. }
  unfold bps_of. rewrite Z.mod_small; [done|]. split; [lia|].
  eapply Z.le_lt_trans; [apply Hr|]. reflexivity.
Qed.

Section Settlement.
Context `{Crypto}.

(** An address that is the text of its own script, as every address the wallet prints is. *)
Definition canonical (addr : string) : Prop :=
  forall s, p2pkh_from_address addr = Ok s -> extract_address s = Some addr.

(** An output that pays [v] to [addr]. *)
Definition pays (o : TxOutput) (v : Z) (addr : string) : Prop :=
  value_atoms o = v /\ p2pkh_from_address addr = Ok (script_pubkey o).

Lemma pay_output_Ok v addr o : pay_output v addr = Ok o -> pays o v addr.
Proof.
  unfold pay_output. intros Ho. apply bind_Ok in Ho as (s & Hs & [= <-]). split; [done|].
  destruct (p2pkh_from_address addr); [by injection Hs as ->|discriminate].
Qed.

Lemma push_if_positive_Ok v addr outs outs' :
  0 <= v -> push_if_positive v addr outs = Ok outs' ->
  exists l, outs' = outs ++ l /\ sumZ (value_atoms <$> l) = v /\ (0 < v -> exists o, l = [o] /\ pays o v addr)
    /\ Forall (λ o, 0 <= value_atoms o) l.
Proof.
  intros Hv. unfold push_if_positive. destruct (Z.ltb_spec 0 v) as [Hp|Hp]; intros Ho.
  - apply bind_Ok in Ho as (o & Hpay & [= <-]). apply pay_output_Ok in Hpay. exists [o].
    split; [done|]. destruct (Hpay) as [Hval _]. split_and!; [cbn; lia|eauto|]. apply Forall_singleton. lia.
  - injection Ho as <-. exists []. rewrite app_nil_r. split_and!; [done|cbn; lia|lia|constructor].
Qed.

Section Build.
Context (terms : SettlementTerms) (seller_input : OutPoint * Z) (buyer_inputs : list (OutPoint * Z)).
Context (Hb : settlement_bounds terms seller_input buyer_inputs).

Definition platform_fee : Z :=
  (fee_split (price_atoms terms) (terms_royalty_bps terms) (seller_addr terms) (terms_royalty_addr terms)).1.
Definition royalty : Z :=
  (fee_split (price_atoms terms) (terms_royalty_bps terms) (seller_addr terms) (terms_royalty_addr terms)).2.
Definition net_proceeds : Z := price_atoms terms - platform_fee - royalty.

Lemma fees_bounds : 0 <= platform_fee <= 7 * TOTAL_SUPPLY_ATOMS /\ 0 <= royalty <= 7 * TOTAL_SUPPLY_ATOMS
  /\ add64 platform_fee royalty = platform_fee + royalty.
Proof using Hb.
  destruct Hb as [Hp _ Hr _ _ _]. unfold platform_fee, royalty, fee_split. cbn [fst snd].
  destruct (bps_of_exact (price_atoms terms) PLATFORM_FEE_BPS Hp) as [_ H1]; [unfold PLATFORM_FEE_BPS; lia|].
  destruct (bps_of_exact (price_atoms terms) (terms_royalty_bps terms) Hp Hr) as [_ H2].
  assert (7 * TOTAL_SUPPLY_ATOMS + 7 * TOTAL_SUPPLY_ATOMS < U64_MOD) as Hm by reflexivity.
  destruct (_ || _); (split; [lia|]); (split; [lia|]); apply add64_small; lia.
Qed.

(** The arithmetic of the builder is exact. *)
Lemma amounts_exact :
  platform_fee + royalty <= price_atoms terms ->
  add64 (add64 (price_atoms terms) CARRIER_ATOMS) (miner_fee_atoms terms) <= sum_values buyer_inputs ->
  sum_values buyer_inputs = sumZ buyer_inputs.*2
  /\ sub64 (sub64 (add64 seller_input.2 (price_atoms terms)) platform_fee) royalty = seller_input.2 + net_proceeds
  /\ 0 <= sub64 (sub64 (sub64 (sum_values buyer_inputs) (price_atoms terms)) CARRIER_ATOMS) (miner_fee_atoms terms)
  /\ sub64 (sub64 (sub64 (sum_values buyer_inputs) (price_atoms terms)) CARRIER_ATOMS) (miner_fee_atoms terms)
     = sumZ buyer_inputs.*2 - price_atoms terms - CARRIER_ATOMS - miner_fee_atoms terms.
Proof using Hb.
  intros Hle Hneed. destruct fees_bounds as (Hf & Hr & _). destruct Hb as [Hp Hm _ Hs Hbv Hi].
  pose proof (sumZ_nonneg _ Hbv) as Hsum. unfold net_proceeds in *. unfold sum_values in *.
  assert (TOTAL_SUPPLY_ATOMS * 20 + CARRIER_ATOMS < U64_MOD) as Hmod by reflexivity.
  assert (0 <= CARRIER_ATOMS) by done.
  rewrite foldl_add64 in Hneed |- * by (done || lia).
  rewrite (add64_small (price_atoms terms)), add64_small in Hneed by lia.
  rewrite (add64_small seller_input.2), sub64_twice, !sub64_thrice by lia. lia.
Qed.

(** The outputs of a settlement, in the canonical layout. *)
Lemma build_settlement_shape tx :
  build_settlement_tx terms seller_input buyer_inputs = Ok tx ->
  exists carrier proceeds fee_out royalty_out change_out,
    inputs tx = unsigned_input seller_input.1 :: (unsigned_input <$> buyer_inputs.*1)
    /\ outputs tx = carrier :: op_output (transfer_op terms) :: proceeds
                      :: fee_out ++ royalty_out ++ change_out
    /\ pays carrier CARRIER_ATOMS (buyer_addr terms)
    /\ pays proceeds (seller_input.2 + net_proceeds) (seller_addr terms) /\ 0 <= net_proceeds
    /\ (sumZ (value_atoms <$> fee_out) = platform_fee
        /\ (0 < platform_fee -> exists o, fee_out = [o] /\ pays o platform_fee PLATFORM_FEE_ADDRESS))
    /\ (sumZ (value_atoms <$> royalty_out) = royalty
        /\ (0 < royalty -> exists o, royalty_out = [o] /\ pays o royalty (terms_royalty_addr terms)))
    /\ (let change := sumZ buyer_inputs.*2 - price_atoms terms - CARRIER_ATOMS - miner_fee_atoms terms in
        sumZ (value_atoms <$> change_out) = change
        /\ (0 < change -> exists o, change_out = [o] /\ pays o change (buyer_addr terms)))
    /\ Forall (λ o, 0 <= value_atoms o) (outputs tx).
Proof using Hb.
  intros Hbuild. unfold build_settlement_tx in Hbuild.
  rewrite (surjective_pairing (fee_split _ _ _ _)) in Hbuild. fold platform_fee royalty in Hbuild.
  destruct fees_bounds as (Hf & Hr & Hfr). rewrite Hfr in Hbuild.
  apply bind_Ok in Hbuild as ([] & Hle & Hbuild). apply reject_if_Ok, Z.ltb_ge in Hle.
  apply bind_Ok in Hbuild as ([] & Hneed & Hbuild). apply reject_if_Ok, Z.ltb_ge in Hneed.
  destruct (amounts_exact Hle Hneed) as (_ & Hproc & Hcnn & Hch).
  rewrite Hproc in Hbuild. rewrite Hch in Hbuild, Hcnn.
  apply bind_Ok in Hbuild as (carrier & Hc & Hbuild). apply pay_output_Ok in Hc.
  apply bind_Ok in Hbuild as (proceeds & Hp & Hbuild). apply pay_output_Ok in Hp.
  apply bind_Ok in Hbuild as (o1 & H1 & Hbuild). apply push_if_positive_Ok in H1 as (l1 & -> & Hs1 & He1 & Hn1); [|lia].
  apply bind_Ok in Hbuild as (o2 & H2 & Hbuild). apply push_if_positive_Ok in H2 as (l2 & -> & Hs2 & He2 & Hn2); [|lia].
  apply bind_Ok in Hbuild as (o3 & H3 & Hbuild). apply push_if_positive_Ok in H3 as (l3 & -> & Hs3 & He3 & Hn3); [|lia].
  injection Hbuild as <-. exists carrier, proceeds, l1, l2, l3.
  split; [done|]. split; [cbn; by rewrite <- app_assoc|].
  assert (0 <= CARRIER_ATOMS) by done. pose proof (seller_value_bound _ _ _ Hb).
  unfold net_proceeds in *. split_and!; try done; [lia|]. cbn [payment make_tx outputs].
  destruct (Hc) as [Hcv _], (Hp) as [Hpv _]. do 3 (apply Forall_cons; split; [cbn; lia|]).
  apply Forall_app; split; [|done]. by apply Forall_app.
Qed.
End Build.

Lemma existsb_output (tx : Transaction) (f : TxOutput -> bool) o :
  o ∈ outputs tx -> f o = true -> existsb f (outputs tx) = true.
Proof. intros Ho Hf. apply existsb_exists. exists o. by rewrite <- list_elem_of_In. Qed.

(** An output to a canonical address is found. *)
Lemma pays_found o v addr : canonical addr -> pays o v addr -> extract_address (script_pubkey o) = Some addr.
Proof. intros Hc [_ Hp]. by apply Hc. Qed.

Lemma note_empty c m : c = false -> note c m = [].
Proof. by intros ->. Qed.
End Settlement.

(** A settlement neither creates nor loses value: whatever transaction the
    builder returns, the seller's input and the buyer's inputs together are
    worth exactly the outputs plus the agreed miner fee; the seller gets the
    carrier value back plus the price less the platform fee and royalty, which
    never exceed the price. *)
Theorem settlement_conserves_value `{Crypto} terms seller_input buyer_inputs tx :
  settlement_bounds terms seller_input buyer_inputs ->
  build_settlement_tx terms seller_input buyer_inputs = Ok tx ->
  seller_input.2 + sumZ buyer_inputs.*2 = sumZ (value_atoms <$> outputs tx) + miner_fee_atoms terms
  /\ (exists o, outputs tx !! 2%nat = Some o
        /\ pays o (seller_input.2 + (price_atoms terms - platform_fee terms - royalty terms)) (seller_addr terms))
  /\ platform_fee terms + royalty terms <= price_atoms terms.
Proof.
  intros Hb Hbuild.
  destruct (build_settlement_shape terms seller_input buyer_inputs Hb tx Hbuild)
    as (c & p & l1 & l2 & l3 & _ & -> & Hc & Hp & Hnet & [Hs1 _] & [Hs2 _] & [Hs3 _] & _).
  unfold net_proceeds in *. split_and!; [|by eexists|lia].
  rewrite !outs_sum_cons, !fmap_app, !sumZ_app, Hs1, Hs2, Hs3.
  destruct Hc as [-> _], Hp as [-> _]. cbn [op_output value_atoms]. lia.
Qed.

(** The builder's transactions pass the check. *)
Lemma built_verifies `{Crypto} terms seller_input buyer_inputs tx :
  settlement_bounds terms seller_input buyer_inputs ->
  length (terms_asset_id terms) = 32%nat -> is_u64 (terms_amount terms) ->
  canonical (buyer_addr terms) -> canonical (seller_addr terms) ->
  canonical (terms_royalty_addr terms) -> canonical PLATFORM_FEE_ADDRESS ->
  build_settlement_tx terms seller_input buyer_inputs = Ok tx ->
  verify_settlement tx terms = [].
Proof.
  intros Hb Hlen Hamt Cb Cs Cr Cp Hbuild.
  destruct (build_settlement_shape terms seller_input buyer_inputs Hb tx Hbuild)
    as (c & p & l1 & l2 & l3 & _ & Hout & Hc & Hp & Hnet & [_ He1] & [_ He2] & _).
  destruct (fees_bounds terms seller_input buyer_inputs Hb) as (Hf & Hr & Hfr).
  unfold verify_settlement. rewrite (surjective_pairing (fee_split _ _ _ _)).
  fold (platform_fee terms) (royalty terms). rewrite Hfr.
  rewrite !note_empty; [done|..].
  - apply negb_false_iff. unfold has_output_at_least.
    apply existsb_output with p; [rewrite Hout; set_solver|].
    rewrite (pays_found _ _ _ Cs Hp), bool_decide_true, andb_true_r by done.
    destruct Hp as [-> _]. apply Z.leb_le. unfold net_proceeds in *. unfold sat_sub64.
    pose proof (seller_value_bound _ _ _ Hb). lia.
  - destruct (Z.ltb_spec 0 (royalty terms)) as [Hpos|]; [|done]. destruct (He2 Hpos) as (o & -> & Hpay).
    apply negb_false_iff. apply existsb_output with o; [rewrite Hout; set_solver|].
    rewrite (pays_found _ _ _ Cr Hpay), bool_decide_true, andb_true_r by done.
    destruct Hpay as [-> _]. apply Z.eqb_refl.
  - destruct (Z.ltb_spec 0 (platform_fee terms)) as [Hpos|]; [|done]. destruct (He1 Hpos) as (o & -> & Hpay).
    apply negb_false_iff. apply existsb_output with o; [rewrite Hout; set_solver|].
    rewrite (pays_found _ _ _ Cp Hpay), bool_decide_true, andb_true_r by done.
    destruct Hpay as [-> _]. apply Z.eqb_refl.
  - apply negb_false_iff. unfold extract_asset_op. rewrite Hout.
    destruct c as [v s]. destruct Hc as [_ Hs]. destruct (p2pkh_from_address_bytes _ _ Hs) as [h Hh].
    cbn [script_pubkey] in Hh. subst s. rewrite first_asset_op_p2pkh.
    unfold op_output. rewrite first_asset_op_carrier by done. unfold transfer_op, is_terms_transfer. cbn.
    rewrite bool_decide_true by done. by rewrite Z.eqb_refl.
  - apply negb_false_iff. rewrite Hout. cbn [head is_buyer_carrier].
    rewrite (pays_found _ _ _ Cb Hc), bool_decide_true, andb_true_r by done.
    destruct Hc as [-> _]. reflexivity.
Qed.

(** What the seller builds, the buyer's check accepts: for canonical
    addresses and a transfer of a 32-byte asset id, every transaction
    [build_settlement_tx] returns passes [verify_settlement] on the same terms. *)
Theorem built_settlement_verifies `{Crypto} terms seller_input buyer_inputs tx :
  settlement_bounds terms seller_input buyer_inputs ->
  length (terms_asset_id terms) = 32%nat -> is_u64 (terms_amount terms) ->
  canonical (buyer_addr terms) -> canonical (seller_addr terms) ->
  canonical (terms_royalty_addr terms) -> canonical PLATFORM_FEE_ADDRESS ->
  build_settlement_tx terms seller_input buyer_inputs = Ok tx ->
  verify_settlement tx terms = [].
Proof. exact (built_verifies terms seller_input buyer_inputs tx). Qed.

(** ** A concrete sale

    The toy instance with two payloads of its address text exchanged, so that the
    platform's address is one of its addresses too. *)
Module Market.
Definition platform_hash : bytes := replicate 20 42.
Definition platform_text : bytes := drop 4 (bytes_of_string PLATFORM_FEE_ADDRESS).
Definition exchange (d : bytes) : bytes :=
  if bool_decide (d = platform_hash) then platform_text
  else if bool_decide (d = platform_text) then platform_hash else d.

Lemma exchange_involutive d : exchange (exchange d) = d.
Proof.
  destruct (decide (d = platform_hash)) as [->|H1]; [reflexivity|].
  destruct (decide (d = platform_text)) as [->|H2]; [reflexivity|].
  assert (exchange d = d) as E by (unfold exchange; by rewrite !bool_decide_false).
  by rewrite !E.
Qed.

Lemma exchange_ok d : bytes_ok d -> bytes_ok (exchange d).
Proof. unfold exchange. case_bool_decide; [intros _; by_compute|]. case_bool_decide; [intros _; by_compute|done]. Qed.

Definition market_crypto : Crypto := {|
  sha256 := @sha256 toy_crypto; blake2b256 := @blake2b256 toy_crypto;
  signing_key := Toy.secret; verifying_key := Toy.secret; signature := Toy.secret * Z;
  secret_from_slice := @secret_from_slice toy_crypto; secret_to_bytes := @secret_to_bytes toy_crypto;
  verifying_of := @verifying_of toy_crypto; vk_from_sec1 := @vk_from_sec1 toy_crypto;
  vk_to_sec1 := @vk_to_sec1 toy_crypto; sig_from_der := @sig_from_der toy_crypto;
  sig_to_der := @sig_to_der toy_crypto; ecdsa_sign := @ecdsa_sign toy_crypto;
  ecdsa_verify := @ecdsa_verify toy_crypto;
  bech32_encode := λ hrp d, Toy.encode hrp (exchange d);
  bech32_decode := λ s, prod_map id exchange <$> Toy.split1 s;
  to_base32 := @to_base32 toy_crypto; from_base32 := @from_base32 toy_crypto;
  hex_encode := @hex_encode toy_crypto; hex_decode := @hex_decode toy_crypto |}.

Lemma market_laws : CryptoLaws market_crypto.
Proof.
  destruct toy_laws. split; try assumption.
  - intros hrp d s Hh He. cbn [bech32_encode bech32_decode market_crypto] in *.
    pose proof (bech32_roundtrip hrp (exchange d) s Hh He) as Hr. cbn [bech32_decode toy_crypto] in Hr.
    rewrite Hr. cbn. by rewrite exchange_involutive.
  - intros hrp bs _ _ Hbs. cbn. unfold Toy.encode, id. rewrite bool_decide_true; [done|]. by apply exchange_ok.
  - intros hrp d s Hh He. exact (bech32_prefix hrp (exchange d) s Hh He).
Qed.

#[local] Existing Instance market_crypto.
Definition addr (n : Z) : string := default ""%string (bech32_encode ADDRESS_HRP (replicate 20 n)).

(** The canonical check, as a computation. *)
Lemma canonical_by (a : string) s :
  p2pkh_from_address a = Ok s -> extract_address s = Some a -> canonical a.
Proof. intros H1 H2 s' H3. assert (s' = s) as -> by congruence. exact H2. Qed.

Definition terms : SettlementTerms := {|
  terms_asset_id := replicate 32 7; terms_amount := 5; price_atoms := 1000000; terms_royalty_bps := 500;
  terms_royalty_addr := addr 3; seller_addr := addr 1; buyer_addr := addr 2; miner_fee_atoms := 10000 |}.
Definition seller_input : OutPoint * Z := ({| txid := mkHash (replicate 32 1); output_index := 0 |}, 3000).
Definition buyer_inputs : list (OutPoint * Z) :=
  [ ({| txid := mkHash (replicate 32 2); output_index := 0 |}, 1100000) ].
Definition tx : Transaction :=
  match build_settlement_tx terms seller_input buyer_inputs with Ok tx => tx | Err _ => payment [] [] end.

Lemma built : build_settlement_tx terms seller_input buyer_inputs = Ok tx.
Proof. vm_compute. reflexivity. Qed.

Lemma bounds : settlement_bounds terms seller_input buyer_inputs.
Proof. split; by_compute. Qed.
End Market.

Lemma settlement_conserves_value_witness :
  3000 + 1100000 = sumZ (value_atoms <$> outputs Market.tx) + 10000
  /\ outputs Market.tx !! 2%nat <> None.
Proof.
  destruct (@settlement_conserves_value Market.market_crypto Market.terms Market.seller_input Market.buyer_inputs
    Market.tx Market.bounds Market.built) as (H1 & (o & H2 & _) & _).
  split; [exact H1|]. rewrite H2. discriminate.
Defined.

Lemma built_settlement_verifies_witness :
  @verify_settlement Market.market_crypto Market.tx Market.terms = [].
Proof.
  apply (@built_settlement_verifies Market.market_crypto Market.terms Market.seller_input Market.buyer_inputs
    Market.tx Market.bounds).
  - reflexivity.
  - by_compute.
  - eapply Market.canonical_by; vm_compute; reflexivity.
  - eapply Market.canonical_by; vm_compute; reflexivity.
  - eapply Market.canonical_by; vm_compute; reflexivity.
  - eapply Market.canonical_by; vm_compute; reflexivity.
  - exact Market.built.
Defined.
