(* ===== verification/Indexer.v ===== *)
(** * The asset indexer ([tensorium-indexer/src/index.rs], [sync.rs])

    Derives the asset ledger from the blocks of a node and follows its chain:
    incremental scan, reorganisation check, rollback to a buried checkpoint.
    The node is the argument [fetch]. *)

From S2P Require Import Prelude Crypto Hash ScriptVM ScriptStandard Block AssetCodec AssetState.

Local Open Scope Z_scope.

Record HistoryEntry := {
  entry_height : Z;
  entry_txid : string;
  entry_op : string;
  entry_asset_id : string;
  entry_from : string;
  entry_to : string;
  entry_amount : Z;
}.

Record CheckpointSnap := {
  snap_state : AssetState;
  snap_outpoints : gmap string string;
  snap_history : gmap string (list HistoryEntry);
  snap_last_height : Z;
  snap_last_hash : string;
}.

Record Indexer := {
  ix_state : AssetState;
  ix_outpoints : gmap string string;
  ix_history : gmap string (list HistoryEntry);
  last_height : Z;
  last_hash : string;
  scanned_any : bool;
  checkpoint : option (Z * string * CheckpointSnap);
}.

Definition empty_indexer : Indexer := {|
  ix_state := empty_assets; ix_outpoints := ∅; ix_history := ∅;
  last_height := 0; last_hash := ""; scanned_any := false; checkpoint := None |}.

Definition snapshot (self : Indexer) : CheckpointSnap := {|
  snap_state := ix_state self; snap_outpoints := ix_outpoints self; snap_history := ix_history self;
  snap_last_height := last_height self; snap_last_hash := last_hash self |}.

Definition restore (snap : CheckpointSnap) (self : Indexer) : Indexer := {|
  ix_state := snap_state snap; ix_outpoints := snap_outpoints snap; ix_history := snap_history snap;
  last_height := snap_last_height snap; last_hash := snap_last_hash snap;
  scanned_any := true; checkpoint := checkpoint self |}.

(** Field updates of a mutable indexer. *)
Definition with_state (st : AssetState) (self : Indexer) : Indexer := {|
  ix_state := st; ix_outpoints := ix_outpoints self; ix_history := ix_history self;
  last_height := last_height self; last_hash := last_hash self;
  scanned_any := scanned_any self; checkpoint := checkpoint self |}.
Definition with_outpoints (m : gmap string string) (self : Indexer) : Indexer := {|
  ix_state := ix_state self; ix_outpoints := m; ix_history := ix_history self;
  last_height := last_height self; last_hash := last_hash self;
  scanned_any := scanned_any self; checkpoint := checkpoint self |}.
Definition with_history (m : gmap string (list HistoryEntry)) (self : Indexer) : Indexer := {|
  ix_state := ix_state self; ix_outpoints := ix_outpoints self; ix_history := m;
  last_height := last_height self; last_hash := last_hash self;
  scanned_any := scanned_any self; checkpoint := checkpoint self |}.
Definition with_scanned (h : Z) (self : Indexer) : Indexer := {|
  ix_state := ix_state self; ix_outpoints := ix_outpoints self; ix_history := ix_history self;
  last_height := h; last_hash := last_hash self; scanned_any := true; checkpoint := checkpoint self |}.
Definition with_last_hash (hash : string) (self : Indexer) : Indexer := {|
  ix_state := ix_state self; ix_outpoints := ix_outpoints self; ix_history := ix_history self;
  last_height := last_height self; last_hash := hash;
  scanned_any := scanned_any self; checkpoint := checkpoint self |}.
Definition with_checkpoint (cp : option (Z * string * CheckpointSnap)) (self : Indexer) : Indexer := {|
  ix_state := ix_state self; ix_outpoints := ix_outpoints self; ix_history := ix_history self;
  last_height := last_height self; last_hash := last_hash self;
  scanned_any := scanned_any self; checkpoint := cp |}.

(** [self.history.entry(addr).or_default().push(entry)] *)
Definition push_history (addr : string) (entry : HistoryEntry) (m : gmap string (list HistoryEntry)) :
    gmap string (list HistoryEntry) :=
  <[addr := default [] (m !! addr) ++ [entry]]> m.

Definition CHECKPOINT_INTERVAL : Z := 20.
Definition CHECKPOINT_SAFETY : Z := 5.

Section Indexer.
Context `{Crypto}.

Definition outpoint_key (txid : Hash256) (vout : Z) : string :=
  String.append (to_hex txid) (String.append ":" (dec_string vout)).

(** One output of [record_outputs]; the index is cast to [u32]. *)
Definition record_output (txid : Hash256) (m : gmap string string) (o : nat * TxOutput) : gmap string string :=
  match extract_address (script_pubkey o.2) with
  | Some addr => <[outpoint_key txid (Z.of_nat o.1 mod U32_MOD) := addr]> m
  | None => m
  end.

Definition record_outputs (tx : Transaction) (self : Indexer) : Indexer :=
  with_outpoints
    (foldl (record_output (tx_id tx)) (ix_outpoints self) (zip (seq 0 (length (outputs tx))) (outputs tx)))
    self.

Definition resolve_source (self : Indexer) (tx : Transaction) : option string :=
  first ← head (inputs tx);
  ix_outpoints self !! outpoint_key (txid (previous_output first)) (output_index (previous_output first)).

Definition record_history (height : Z) (txid : bytes) (source : string) (dest : option string)
    (op : AssetOp) (self : Indexer) : Indexer :=
  let '(kind, asset, to, amt) :=
    match op with
    | Issue d => ("issue"%string, txid, ""%string, supply d)
    | NftMint _ => ("nft_mint"%string, txid, ""%string, 1)
    | Transfer d => ("transfer"%string, asset_id d, default ""%string dest, amount d)
    end in
  let entry := {| entry_height := height; entry_txid := to_hex (mkHash txid); entry_op := kind;
                  entry_asset_id := to_hex (mkHash asset); entry_from := source; entry_to := to;
                  entry_amount := amt |} in
  let m := push_history source entry (ix_history self) in
  with_history
    (if negb (bool_decide (to = ""%string)) && negb (bool_decide (to = source))
     then push_history to entry m else m) self.

(** The recipient of a transfer: the address of the output it names. *)
Definition resolve_dest (tx : Transaction) (op : AssetOp) : option string :=
  match op with
  | Transfer d => o ← outputs tx !! Z.to_nat (dest_output_index d); extract_address (script_pubkey o)
  | _ => None
  end.

(** The operation of one transaction, if it carries one and its source is known. *)
Definition index_op (height : Z) (tx : Transaction) (self : Indexer) : Indexer :=
  match extract_asset_op tx, resolve_source self tx with
  | Some op, Some src =>
      let dest := resolve_dest tx op in
      let '(st, result) := apply (ix_state self) (hash_bytes (tx_id tx)) height src dest op in
      let self := with_state st self in
      if bool_decide (result = Applied)
      then record_history height (hash_bytes (tx_id tx)) src dest op self else self
  | _, _ => self
  end.

(** One transaction: the source is resolved before its own outputs are recorded. *)
Definition index_tx (height : Z) (self : Indexer) (tx : Transaction) : Indexer :=
  record_outputs tx (index_op height tx self).

(** [Indexer::apply_block] *)
Definition index_block (block : Block) (height : Z) (self : Indexer) : Indexer :=
  with_scanned height (foldl (index_tx height) self (transactions block)).

(** ** Following the chain ([sync.rs]) *)

Definition needs_rebuild (idx : Indexer) (hash_at_last_height : string) : bool :=
  scanned_any idx && (0 <? last_height idx) && negb (bool_decide (last_hash idx = hash_at_last_height)).

Section Scan.
Context (fetch : Z -> result string (Hash256 * Block)).

Definition try_rollback (idx : Indexer) : Indexer * result string bool :=
  match checkpoint idx with
  | None => (idx, Ok false)
  | Some (cp_height, cp_hash, snap) =>
      match fetch cp_height with
      | Err e => (idx, Err e)
      | Ok (canon, _) =>
          if bool_decide (to_hex canon = cp_hash) then (restore snap idx, Ok true) else (idx, Ok false)
      end
  end.

(** The body of the loop: a block applied, and the buried checkpoint refreshed. *)
Definition scan_step (tip height : Z) (hash : Hash256) (block : Block) (idx : Indexer) : Indexer :=
  let idx := with_last_hash (to_hex hash) (index_block block height idx) in
  if (height mod CHECKPOINT_INTERVAL =? 0) && (add64 height CHECKPOINT_SAFETY <=? tip)
  then with_checkpoint (Some (height, last_hash idx, snapshot idx)) idx else idx.

Fixpoint scan_loop (tip : Z) (heights : list Z) (applied : Z) : stateful Indexer string Z :=
  match heights with
  | [] => mret applied
  | height :: heights =>
      '(hash, block) ← lift_result (fetch height);
      modify (scan_step tip height hash block);;
      scan_loop tip heights (add64 applied 1)
  end.

(** The reorganisation check at the last scanned height. *)
Definition check_reorg : stateful Indexer string () :=
  idx ← get_state;
  if scanned_any idx && (0 <? last_height idx) then
    '(hash, _) ← lift_result (fetch (last_height idx));
    if needs_rebuild idx (to_hex hash) then
      rolled_back ← try_rollback;
      if rolled_back : bool then mret () else put_state empty_indexer
    else mret ()
  else mret ().

Definition scan (tip : Z) : stateful Indexer string Z :=
  check_reorg;;
  idx ← get_state;
  let start := if scanned_any idx then add64 (last_height idx) 1 else 0 in
  scan_loop tip (seqZ start (tip - start + 1)) 0.
End Scan.

(** One cycle of the scanner thread ([main.rs]), the node's tip given. *)
Definition tick (fetch : Z -> result string (Hash256 * Block)) (tip : option Z) : stateful Indexer string Z :=
  match tip with
  | None => mret 0
  | Some tip =>
      idx ← get_state;
      if scanned_any idx && (tip <=? last_height idx) then mret 0 else scan fetch tip
  end.
End Indexer.
