(* ===== verification/IndexerFacts.v ===== *)
(** * The indexer follows the chain

    Whatever the indexer did before, a scan leaves it in the state a scan of the
    node's chain from genesis would give, and the ledger it serves is sound. *)

From S2P Require Import Prelude Crypto Hash ScriptVM ScriptStandard Block AssetCodec AssetCodecFacts.
From S2P Require Import AssetState Settlement Indexer.

Local Open Scope Z_scope.

(** A canonical chain, as the node serves it. *)
Abbreviation chain_view := (Z -> Hash256 * Block).

Definition agree (A B : chain_view) (h : Z) : Prop := forall k, 0 <= k <= h -> A k = B k.

Section Indexer.
Context `{Crypto}.

(** Equal block hashes at a height mean equal chains up to it, as each block
    commits to its parent. *)
Definition hash_binds (A B : chain_view) : Prop :=
  forall h, 0 <= h -> to_hex (A h).1 = to_hex (B h).1 -> agree A B h.

(** The reference: index the chain from genesis. *)
Definition index_one (C : chain_view) (idx : Indexer) (h : Z) : Indexer :=
  with_last_hash (to_hex (C h).1) (index_block (C h).2 h idx).
Definition index_upto (C : chain_view) (h : Z) : Indexer := foldl (index_one C) empty_indexer (seqZ 0 (h + 1)).

Record synced (C : chain_view) (idx : Indexer) : Prop := {
  synced_height : 0 <= last_height idx;
  synced_state :
    with_checkpoint None idx = index_upto C (if scanned_any idx then last_height idx else -1);
  synced_checkpoint cp_height cp_hash snap :
    checkpoint idx = Some (cp_height, cp_hash, snap) ->
    scanned_any idx = true /\ 0 <= cp_height <= last_height idx /\
    cp_hash = to_hex (C cp_height).1 /\ snap = snapshot (index_upto C cp_height);
}.

(** *** Indexing does not look at the checkpoint *)

Lemma index_op_checkpoint cp h tx idx :
  index_op h tx (with_checkpoint cp idx) = with_checkpoint cp (index_op h tx idx).
Proof.
  unfold index_op. destruct (extract_asset_op tx) as [op|]; [|done].
  change (resolve_source (with_checkpoint cp idx) tx) with (resolve_source idx tx).
  destruct (resolve_source idx tx) as [src|]; [|done].
  change (ix_state (with_checkpoint cp idx)) with (ix_state idx).
  destruct (apply _ _ _ _ _ _) as [st r]. case_bool_decide; [|done].
  unfold record_history. by destruct op.
Qed.

Lemma index_tx_checkpoint cp h tx idx :
  index_tx h (with_checkpoint cp idx) tx = with_checkpoint cp (index_tx h idx tx).
Proof. unfold index_tx. by rewrite index_op_checkpoint. Qed.

Lemma index_block_checkpoint cp b h idx :
  index_block b h (with_checkpoint cp idx) = with_checkpoint cp (index_block b h idx).
Proof.
  unfold index_block.
  assert (forall txs, foldl (index_tx h) (with_checkpoint cp idx) txs
                      = with_checkpoint cp (foldl (index_tx h) idx txs)) as ->; [|done].
  intros txs. revert idx. induction txs as [|tx txs IH]; intros idx; [done|]. cbn [foldl].
  by rewrite index_tx_checkpoint, IH.
Qed.

Lemma index_one_checkpoint C cp h idx :
  index_one C (with_checkpoint cp idx) h = with_checkpoint cp (index_one C idx h).
Proof. unfold index_one. by rewrite index_block_checkpoint. Qed.

(** *** The reference index *)

Lemma index_upto_step C h : 0 <= h -> index_upto C h = index_one C (index_upto C (h - 1)) h.
Proof.
  intros Hh. unfold index_upto. replace (h - 1 + 1) with h by lia.
  rewrite seqZ_app, foldl_app by lia. by rewrite Z.add_0_l.
Qed.

Lemma index_upto_none C : index_upto C (-1) = empty_indexer.
Proof. done. Qed.

Lemma index_upto_fields C h :
  0 <= h -> last_height (index_upto C h) = h /\ last_hash (index_upto C h) = to_hex (C h).1
  /\ scanned_any (index_upto C h) = true /\ checkpoint (index_upto C h) = None.
Proof.
  intros Hh. assert (checkpoint (index_upto C h) = None) as Hcp.
  { unfold index_upto. assert (checkpoint empty_indexer = None) as He by done. revert He.
    generalize empty_indexer. induction (seqZ 0 (h + 1)) as [|k ks IH]; intros idx Hi; [done|]. cbn [foldl].
    apply IH. assert (with_checkpoint None idx = idx) as <- by (destruct idx; simpl in *; by subst).
    by rewrite index_one_checkpoint. }
  rewrite index_upto_step by done. split_and!; try done. by rewrite <- index_upto_step.
Qed.

Lemma index_upto_agree A B h : agree A B h -> index_upto A h = index_upto B h.
Proof.
  intros Hab. unfold index_upto.
  assert (Forall (λ k, A k = B k) (seqZ 0 (h + 1))) as Hf.
  { apply Forall_seqZ. intros k Hk. apply Hab. lia. }
  generalize empty_indexer. induction Hf as [|k ks Hk _ IH]; intros idx; [done|]. cbn [foldl].
  unfold index_one at 2 4. rewrite Hk. apply IH.
Qed.

(** *** The invariant *)

Lemma synced_empty C : synced C empty_indexer.
Proof. by split. Qed.

Lemma synced_last_hash C idx : synced C idx -> scanned_any idx = true -> last_hash idx = to_hex (C (last_height idx)).1.
Proof.
  intros [Hh Hs _] Hsc. rewrite Hsc in Hs.
  change (last_hash idx) with (last_hash (with_checkpoint None idx)). rewrite Hs. by apply index_upto_fields.
Qed.

Lemma agree_le A B h k : agree A B h -> k <= h -> agree A B k.
Proof. intros Ha Hk j Hj. apply Ha. lia. Qed.

Lemma synced_agree A B idx : agree A B (last_height idx) -> synced A idx -> synced B idx.
Proof.
  intros Ha [Hh Hs Hc]. split; [done| |].
  - rewrite Hs. destruct (scanned_any idx); [|done]. by apply index_upto_agree.
  - intros h hash snap Hcp. destruct (Hc _ _ _ Hcp) as (Hsc & Hle & -> & ->).
    rewrite (Ha h) by lia. split_and!; try done; try lia.
    f_equal. apply index_upto_agree. apply agree_le with (last_height idx); [done|lia].
Qed.

(** The next height to scan. *)
Definition next_height (idx : Indexer) : Z := if scanned_any idx then last_height idx + 1 else 0.

Lemma synced_next C idx : synced C idx -> with_checkpoint None idx = index_upto C (next_height idx - 1).
Proof. intros [_ Hs _]. rewrite Hs. unfold next_height. destruct (scanned_any idx); f_equal; lia. Qed.

(** One step of the scan extends the index by the next block. *)
Lemma scan_step_synced C tip idx :
  synced C idx ->
  let idx' := scan_step tip (next_height idx) (C (next_height idx)).1 (C (next_height idx)).2 idx in
  synced C idx' /\ scanned_any idx' = true /\ last_height idx' = next_height idx.
Proof.
  intros Hs. set (h := next_height idx). cbv zeta. unfold scan_step.
  change (with_last_hash (to_hex (C h).1) (index_block (C h).2 h idx)) with (index_one C idx h).
  assert (0 <= h) as Hh by (unfold h, next_height; pose proof (synced_height _ _ Hs); destruct (scanned_any idx); lia).
  assert (with_checkpoint None (index_one C idx h) = index_upto C h) as Hone.
  { rewrite <- index_one_checkpoint, (synced_next C idx Hs). fold h. by rewrite <- index_upto_step. }
  assert (checkpoint (index_one C idx h) = checkpoint idx) as Hcp.
  { transitivity (checkpoint (index_one C (with_checkpoint (checkpoint idx) idx) h)); [by destruct idx|].
    by rewrite index_one_checkpoint. }
  destruct (_ && _) eqn:Hcond; cbn [with_checkpoint scanned_any last_height index_one with_last_hash index_block with_scanned].
  - split; [|done]. split; cbn; [done|exact Hone|].
    intros ? ? ? [= <- <- <-]. split_and!; [done|lia|lia|done|].
    change (snapshot (index_one C idx h)) with (snapshot (with_checkpoint None (index_one C idx h))).
    by rewrite Hone.
  - split; [|done]. split; [done|exact Hone|].
    intros ch hash snap Hc. rewrite Hcp in Hc. destruct (synced_checkpoint _ _ Hs _ _ _ Hc) as (Hsc & Hle & -> & ->).
    split_and!; try done; try lia. cbn. unfold h, next_height. rewrite Hsc. lia.
Qed.

(** A node whose answers are those of one chain. *)
Definition answers_from (C : chain_view) (fetch : Z -> result string (Hash256 * Block)) : Prop :=
  forall h r, fetch h = Ok r -> r = C h.

Lemma scan_loop_synced C fetch tip n idx applied :
  answers_from C fetch -> synced C idx ->
  let p := scan_loop fetch tip (seqZ (next_height idx) (Z.of_nat n)) applied idx in
  synced C p.1
  /\ (forall m, p.2 = Ok m -> next_height p.1 = next_height idx + Z.of_nat n)
  /\ ((forall h, next_height idx <= h < next_height idx + Z.of_nat n -> fetch h = Ok (C h)) ->
        exists m, p.2 = Ok m).
Proof.
  intros Hf. revert idx applied. induction n as [|n IH]; intros idx applied Hs; cbv zeta.
  { rewrite seqZ_nil by lia. cbn. split_and!; [done|intros _ _; lia|eauto]. }
  rewrite seqZ_cons by lia. replace (Z.pred (Z.of_nat (S n))) with (Z.of_nat n) by lia.
  cbn [scan_loop]. unfold mbind, stateful_bind, lift_result, modify.
  destruct (fetch (next_height idx)) as [[hash block]|e] eqn:Hfetch.
  - pose proof (Hf _ _ Hfetch) as Hc.
    destruct (scan_step_synced C tip idx Hs) as (Hs' & Hsc & Hlh). rewrite <- Hc in Hs', Hsc, Hlh.
    cbn [fst snd] in Hs', Hsc, Hlh.
    assert (next_height (scan_step tip (next_height idx) hash block idx) = next_height idx + 1) as Hn
      by (unfold next_height at 1; by rewrite Hsc, Hlh).
    specialize (IH _ (add64 applied 1) Hs'). cbv zeta in IH. rewrite Hn in IH.
    replace (Z.succ (next_height idx)) with (next_height idx + 1) by lia.
    destruct IH as (IH1 & IH2 & IH3). split_and!; [exact IH1| |].
    + intros m Hm. rewrite (IH2 m Hm). lia.
    + intros Hall. apply IH3. intros h Hh. apply Hall. lia.
  - split_and!; [done|done|]. intros Hall. rewrite Hall in Hfetch by lia. discriminate.
Qed.

(** The reorganisation check moves the invariant to the new chain. *)
Lemma check_reorg_synced A B fetch idx :
  answers_from B fetch -> hash_binds A B -> A 0 = B 0 -> synced A idx ->
  let p := check_reorg fetch idx in
  match p.2 with
  | Ok _ => synced B p.1 /\ next_height p.1 <= next_height idx
  | Err _ => p.1 = idx
  end
  /\ ((forall h, 0 <= h <= last_height idx -> fetch h = Ok (B h)) -> p.2 = Ok ()).
Proof.
  intros Hf Hbind H0 Hs. cbv zeta. pose proof (synced_height _ _ Hs) as Hh.
  unfold check_reorg, mbind, stateful_bind, get_state, lift_result, put_state, mret, stateful_ret.
  destruct (scanned_any idx) eqn:Hsc; cbn [andb].
  2: { cbn. split; [|done]. split; [|lia]. split; [done| |].
       - rewrite (synced_state _ _ Hs), Hsc. done.
       - intros ? ? ? Hc. destruct (synced_checkpoint _ _ Hs _ _ _ Hc) as [? _]. congruence. }
  destruct (Z.ltb_spec 0 (last_height idx)) as [Hpos|Hz].
  2: { cbn. split; [|done]. split; [|lia]. apply (synced_agree A B); [|done].
       intros k Hk. by replace k with 0 by lia. }
  destruct (fetch (last_height idx)) as [[hash blk]|e] eqn:Hfe; cbn [fst snd].
  2: { split; [done|]. intros Hall. rewrite Hall in Hfe by lia. discriminate. }
  unfold needs_rebuild. rewrite Hsc, (proj2 (Z.ltb_lt _ _) Hpos). cbn [andb].
  pose proof (Hf _ _ Hfe) as HB. case_bool_decide as Heq; cbn [negb fst snd].
  { split; [|done]. split; [|lia]. apply (synced_agree A B); [|done]. apply Hbind; [lia|].
    by rewrite <- (synced_last_hash _ _ Hs Hsc), Heq, <- HB. }
  unfold try_rollback. destruct (checkpoint idx) as [[[ch chash] snap]|] eqn:Hcp.
  2: { cbn. split; [|done]. split; [apply synced_empty|]. unfold next_height. rewrite Hsc. cbn. lia. }
  destruct (synced_checkpoint _ _ Hs _ _ _ Hcp) as (_ & Hle & -> & ->).
  destruct (fetch ch) as [[canon blk']|e] eqn:Hfc; cbn [fst snd].
  2: { split; [done|]. intros Hall. rewrite Hall in Hfc by lia. discriminate. }
  pose proof (Hf _ _ Hfc) as HBc. case_bool_decide as Heqc; cbn [fst snd].
  - split; [|done].
    assert (agree A B ch) as Hag.
    { apply Hbind; [lia|]. by rewrite <- Heqc, <- HBc. }
    destruct (index_upto_fields A ch) as (Hlh & _ & Hsa & Hnone); [lia|].
    assert (last_height (restore (snapshot (index_upto A ch)) idx) = ch) as Hlr by done.
    split; [|unfold next_height; rewrite Hlr, Hsc; cbn; lia].
    apply (synced_agree A B); [by rewrite Hlr|]. split; [rewrite Hlr; lia| |].
    + rewrite Hlr. cbn [scanned_any restore]. destruct (index_upto A ch) eqn:E. cbn in *. by subst.
    + intros h2 hash2 snap2 Hc2. cbn [checkpoint restore] in Hc2. rewrite Hcp in Hc2. injection Hc2 as <- <- <-.
      rewrite Hlr. split_and!; [done|lia|lia|done|done].
  - split; [|done]. split; [apply synced_empty|]. unfold next_height. rewrite Hsc. cbn. lia.
Qed.
End Indexer.

(** C29: A scan is a rebuild. Let the index follow chain [A] and let the node now
    serve chain [B], reorganised at any depth above the common genesis. If the
    node answers for every height, the scan succeeds and leaves exactly the
    ledger, outpoint index, history, height and hash that indexing [B] from
    genesis to the tip gives, whether it extended the index, rolled back to the
    checkpoint or rebuilt. If the node fails part way, the index still follows
    [A] or [B], so the next scan recovers. *)
Theorem scan_is_rebuild `{Crypto} A B fetch tip idx :
  synced A idx -> hash_binds A B -> A 0 = B 0 -> answers_from B fetch ->
  last_height idx <= tip < U64_MAX ->
  ((forall h, 0 <= h <= tip -> fetch h = Ok (B h)) ->
     exists idx' n, scan fetch tip idx = (idx', Ok n) /\ synced B idx' /\ with_checkpoint None idx' = index_upto B tip)
  /\ (forall idx' e, scan fetch tip idx = (idx', Err e) -> synced A idx' \/ synced B idx').
Proof.
  intros Hs Hbind H0 Hf Htip. pose proof (synced_height _ _ Hs) as Hh.
  destruct (check_reorg_synced A B fetch idx Hf Hbind H0 Hs) as [Hc Hcok].
  unfold scan, mbind, stateful_bind, get_state.
  destruct (check_reorg fetch idx) as [idx1 [[]|e1]]; cbn [fst snd] in *.
  2: { split; [|intros idx' e [= <- <-]; subst; by left].
       intros Hall. discriminate Hcok. intros h Hr. apply Hall. lia. }
  destruct Hc as [Hs1 Hn1]. pose proof (synced_height _ _ Hs1).
  assert (0 <= next_height idx1 <= tip + 1) as Hb.
  { revert Hn1. unfold next_height. destruct (scanned_any idx), (scanned_any idx1); lia. }
  assert ((if scanned_any idx1 then add64 (last_height idx1) 1 else 0) = next_height idx1) as Hst.
  { revert Hb. unfold next_height. destruct (scanned_any idx1); [|done]. intros. apply add64_small. u64_lia. }
  rewrite Hst.
  destruct (scan_loop_synced B fetch tip (Z.to_nat (tip - next_height idx1 + 1)) idx1 0 Hf Hs1) as (L1 & L2 & L3).
  rewrite Z2Nat.id in L1, L2, L3 by lia.
  destruct (scan_loop fetch tip (seqZ (next_height idx1) (tip - next_height idx1 + 1)) 0 idx1) as [idx2 r] eqn:Hl.
  cbn [fst snd] in *. split.
  - intros Hall. destruct L3 as [m ->]; [intros h Hr; apply Hall; lia|].
    exists idx2, m. split_and!; [done|done|]. rewrite (synced_next B idx2 L1), (L2 m eq_refl). f_equal. lia.
  - intros idx' e [= <- _]. by right.
Qed.

(** ** The ledger the index serves *)
Section Ledger.
Context `{Crypto}.

Lemma record_history_state h t src dest op idx : ix_state (record_history h t src dest op idx) = ix_state idx.
Proof. unfold record_history. by destruct op. Qed.

Lemma index_tx_state h idx tx :
  ix_state (index_tx h idx tx) =
  match extract_asset_op tx, resolve_source idx tx with
  | Some op, Some src => (apply (ix_state idx) (hash_bytes (tx_id tx)) h src (resolve_dest tx op) op).1
  | _, _ => ix_state idx
  end.
Proof.
  unfold index_tx, index_op. destruct (extract_asset_op tx) as [op|]; [|done].
  destruct (resolve_source idx tx) as [src|]; [|done].
  destruct (apply _ _ _ _ _ _) as [st r]. case_bool_decide; [|done].
  cbn [record_outputs with_outpoints ix_state fst]. by rewrite record_history_state.
Qed.

Lemma index_tx_ledger h idx tx :
  tx_ok tx -> ledger_ok (ix_state idx) -> ledger_ok (ix_state (index_tx h idx tx)).
Proof.
  intros Htx Hst. rewrite index_tx_state. destruct (extract_asset_op tx) as [op|] eqn:Hop; [|done].
  destruct (resolve_source idx tx) as [src|]; [|done]. apply apply_ok; [done|].
  by apply extracted_amounts_ok in Hop.
Qed.

(** The blocks of a chain are made of values of their types. *)
Definition chain_ok (C : chain_view) : Prop := forall h, Forall tx_ok (transactions (C h).2).

Lemma index_one_ledger C idx h :
  chain_ok C -> ledger_ok (ix_state idx) -> ledger_ok (ix_state (index_one C idx h)).
Proof.
  intros Hc. unfold index_one, index_block. cbn [ix_state with_last_hash with_scanned].
  specialize (Hc h). revert idx. induction Hc as [|tx txs Htx _ IH]; intros idx Hst; [done|].
  cbn [foldl]. apply IH. by apply index_tx_ledger.
Qed.

Lemma index_upto_ledger C h : chain_ok C -> ledger_ok (ix_state (index_upto C h)).
Proof.
  intros Hc. unfold index_upto. assert (ledger_ok (ix_state empty_indexer)) as Hst by apply ledger_empty.
  revert Hst. generalize empty_indexer. induction (seqZ 0 (h + 1)) as [|k ks IH]; intros idx Hst; [done|].
  cbn [foldl]. apply IH. by apply index_one_ledger.
Qed.

Lemma note_nil c m : note c m = [] -> c = false.
Proof. by destruct c. Qed.

(** What an empty list of mismatches means for the asset. *)
Lemma verified_transfer tx terms :
  verify_settlement tx terms = [] ->
  extract_asset_op tx = Some (transfer_op terms) /\ resolve_dest tx (transfer_op terms) = Some (buyer_addr terms).
Proof.
  unfold verify_settlement. destruct (fee_split _ _ _ _) as [f r].
  intros Hv. apply app_eq_nil in Hv as [Hc Hv]. apply app_eq_nil in Hv as [Ht _].
  apply note_nil, negb_false_iff in Hc, Ht.
  destruct (outputs tx) as [|o outs] eqn:Ho; [done|]. cbn [head is_buyer_carrier] in Hc.
  apply andb_true_iff in Hc as [_ Hc]. apply bool_decide_eq_true in Hc. split.
  - destruct (extract_asset_op tx) as [[| |d]|]; try done. cbn [is_terms_transfer] in Ht.
    apply andb_true_iff in Ht as [[Hid Ha]%andb_true_iff Hd].
    apply bool_decide_eq_true in Hid. apply Z.eqb_eq in Ha, Hd. unfold transfer_op. destruct d. cbn in *. by subst.
  - unfold transfer_op, resolve_dest. cbn. by rewrite Ho.
Qed.
End Ledger.

(** C30: A verified settlement executes. If [verify_settlement] finds nothing
    wrong with a transaction and the seller, whose output its first input
    spends, holds the units, then indexing the transaction moves exactly the
    agreed amount of the asset from the seller to the buyer and no other
    balance changes. *)
Theorem verified_settlement_executes `{Crypto} idx h tx terms info :
  ledger_ok (ix_state idx) -> tx_ok tx ->
  verify_settlement tx terms = [] -> resolve_source idx tx = Some (seller_addr terms) ->
  seller_addr terms <> buyer_addr terms ->
  assets (ix_state idx) !! terms_asset_id terms = Some info -> kind info = Fungible ->
  0 < terms_amount terms <= ft_balance (ix_state idx) (seller_addr terms) (terms_asset_id terms) ->
  let st' := ix_state (index_tx h idx tx) in
  forall addr a, ft_balance st' addr a =
    ft_balance (ix_state idx) addr a
    + (if decide (a = terms_asset_id terms /\ addr = buyer_addr terms) then terms_amount terms else 0)
    - (if decide (a = terms_asset_id terms /\ addr = seller_addr terms) then terms_amount terms else 0).
Proof.
  intros Hst Htx Hv Hsrc Hne Hi Hk Hamt st' addr a. subst st'.
  destruct (verified_transfer tx terms Hv) as [Hop Hdest].
  rewrite index_tx_state, Hop, Hsrc, Hdest. unfold transfer_op. cbn [apply]. unfold apply_transfer. cbn [asset_id amount].
  rewrite Hi, Hk, (proj2 (Z.eqb_neq _ _)), (proj2 (Z.ltb_ge _ _)) by lia. cbn [fst].
  unfold ft_balance at 1. cbn [ft_balances].
  destruct (transfer_checked (ix_state idx) (seller_addr terms)
    {| asset_id := terms_asset_id terms; amount := terms_amount terms; dest_output_index := 0 |} info)
    as [Hc Hn]; cbn [asset_id amount] in *; try done; [lia|apply (extracted_amounts_ok tx (transfer_op terms) Htx Hop)|].
  change (credit _ _ _) with (moved (ft_balances (ix_state idx)) (seller_addr terms) (buyer_addr terms)
    (terms_asset_id terms) (terms_amount terms)).
  rewrite moved_balance by (done || apply (balances_nonneg _ Hst)). unfold ft_balance.
  destruct (decide (terms_asset_id terms = a)) as [<-|Hna].
  - repeat case_decide; naive_solver lia.
  - rewrite !decide_False by naive_solver. lia.
Qed.

(** The index is sound: in the ledger of an index that follows a chain,
    however it got there, every fungible asset's balances add up to its supply
    and every NFT has an owner. *)
Theorem followed_ledger_sound `{Crypto} C idx :
  chain_ok C -> synced C idx -> ledger_ok (ix_state idx).
Proof.
  intros Hc Hs. change (ix_state idx) with (ix_state (with_checkpoint None idx)).
  rewrite (synced_state _ _ Hs). by apply index_upto_ledger.
Qed.

Lemma synced_index_upto `{Crypto} C h : 0 <= h -> synced C (index_upto C h).
Proof.
  intros Hh. destruct (index_upto_fields C h Hh) as (Hl & _ & Hs & Hn). split.
  - by rewrite Hl.
  - rewrite Hs, Hl. destruct (index_upto C h). cbn in *. by subst.
  - intros ? ? ? Hc. by rewrite Hn in Hc.
Qed.

(** ** A reorganisation of depth two, and a sale *)
Module Followed.
#[local] Existing Instance Market.market_crypto.
Definition issue_op : AssetOp :=
  Issue {| ticker := "GOLD"; decimals := 0; supply := 100; asset_name := "Gold"; flags := 0 |}.
Definition block_at (txs : list Transaction) (h : Z) : Block := {|
  header := {| version := 1; chain_id := "test"; height := h; previous_hash := ZERO; merkle_root_field := ZERO;
               timestamp_seconds := 0; leading_zero_bits_field := 0; nonce := 0 |};
  transactions := txs |}.

(** The old chain and the one that replaces it from height 2 on. *)
Definition old_chain : chain_view := λ h, (mkHash (le_bytes 8 h), block_at [] h).
Definition new_chain : chain_view := λ h,
  if h <? 2 then old_chain h else (mkHash (1 :: le_bytes 8 h), block_at [Market.tx] h).

Lemma hashes_bind : hash_binds old_chain new_chain.
Proof.
  intros h Hh. unfold new_chain at 1. destruct (Z.ltb_spec h 2) as [Hlt|Hge].
  - intros _ k Hk. unfold new_chain. by rewrite (proj2 (Z.ltb_lt k 2)) by lia.
  - intros He. exfalso. apply (f_equal String.length) in He.
    change (String.length (hex_lower (le_bytes 8 h)) = String.length (hex_lower (1 :: le_bytes 8 h))) in He.
    rewrite !length_hex_lower in He. cbn [length] in He. lia.
Qed.

Lemma new_chain_ok : chain_ok new_chain.
Proof.
  intros h. unfold new_chain. destruct (h <? 2); [constructor|]. apply Forall_singleton. by_compute.
Qed.

(** The seller's ledger: 100 units, and the outpoint the sale spends. *)
Definition seller_index : Indexer := {|
  ix_state := (apply empty_assets (replicate 32 7) 1 (Market.addr 1) None issue_op).1;
  ix_outpoints := {[ outpoint_key (mkHash (replicate 32 1)) 0 := Market.addr 1 ]};
  ix_history := ∅; last_height := 1; last_hash := ""; scanned_any := true; checkpoint := None |}.

Lemma seller_ledger : ledger_ok (ix_state seller_index).
Proof. apply apply_ok; [apply ledger_empty|by_compute]. Qed.

Lemma sale_verifies : verify_settlement Market.tx Market.terms = [].
Proof. vm_compute. reflexivity. Qed.
End Followed.

Lemma scan_is_rebuild_witness :
  exists idx' n,
    scan (H := Market.market_crypto) (λ h, Ok (Followed.new_chain h)) 5
      (index_upto (H := Market.market_crypto) Followed.old_chain 3) = (idx', Ok n)
    /\ with_checkpoint None idx' = index_upto (H := Market.market_crypto) Followed.new_chain 5.
Proof.
  destruct (@scan_is_rebuild Market.market_crypto Followed.old_chain Followed.new_chain
    (λ h, Ok (Followed.new_chain h)) 5 (index_upto (H := Market.market_crypto) Followed.old_chain 3)) as [Hok _].
  - apply synced_index_upto. lia.
  - exact Followed.hashes_bind.
  - reflexivity.
  - intros h r Hr. injection Hr as <-. reflexivity.
  - rewrite (proj1 (index_upto_fields Followed.old_chain 3 ltac:(lia))). unfold U64_MAX. lia.
  - destruct Hok as (idx' & n & H1 & _ & H2); [reflexivity|]. exists idx', n. exact (conj H1 H2).
Defined.

Lemma verified_settlement_executes_witness :
  let st' := ix_state (index_tx (H := Market.market_crypto) 2 Followed.seller_index Market.tx) in
  ft_balance st' (Market.addr 2) (replicate 32 7) = 5 /\ ft_balance st' (Market.addr 1) (replicate 32 7) = 95.
Proof.
  pose proof (@verified_settlement_executes Market.market_crypto Followed.seller_index 2 Market.tx Market.terms
    {| kind := Fungible; info_ticker := "GOLD"; info_name := "Gold"; info_decimals := 0; info_supply := 100;
       issuer := Market.addr 1; info_royalty_bps := 0; info_royalty_addr := ""; info_uri := "";
       info_content_hash := replicate 32 0; mint_height := 1 |}
    Followed.seller_ledger ltac:(by_compute) Followed.sale_verifies ltac:(vm_compute; reflexivity)
    ltac:(by_compute) ltac:(vm_compute; reflexivity) eq_refl ltac:(by_compute)) as Hx.
  split.
  - rewrite (Hx (Market.addr 2) (replicate 32 7)). vm_compute. reflexivity.
  - rewrite (Hx (Market.addr 1) (replicate 32 7)). vm_compute. reflexivity.
Defined.

Lemma followed_ledger_sound_witness :
  ledger_ok (ix_state (index_upto (H := Market.market_crypto) Followed.new_chain 5)).
Proof.
  apply (@followed_ledger_sound Market.market_crypto Followed.new_chain _ Followed.new_chain_ok).
  apply synced_index_upto. lia.
Defined.
