(* ===== verification/Store.v ===== *)
(** * The indexer's snapshot ([tensorium-indexer/src/store.rs])

    The mirror of the index with text keys that is written to disk, and its
    round trip. The JSON text itself ([serde_json]) and the file are not
    modelled: the snapshot is the value they carry. *)

From S2P Require Import Prelude Crypto Hash AssetCodec AssetState Indexer.

Local Open Scope Z_scope.

(** [s.rsplit_once(c)]: split at the last [c]. *)
Fixpoint rsplit_once (c : Ascii.ascii) (s : string) : option (string * string) :=
  match s with
  | EmptyString => None
  | String x s =>
      match rsplit_once c s with
      | Some (a, b) => Some (String x a, b)
      | None => if Ascii.eqb x c then Some (EmptyString, s) else None
      end
  end.

(** Pairs of digits; an odd length leaves a pair that [get] does not find. *)
Fixpoint unhex_pairs (s : string) : option bytes :=
  match s with
  | EmptyString => Some []
  | String c (String d s) =>
      match hex_pair c d, unhex_pairs s with
      | Some b, Some bs => Some (b :: bs)
      | _, _ => None
      end
  | String _ EmptyString => None
  end.

Definition unhex32 (s : string) : option bytes :=
  match unhex_pairs s with
  | Some bs => if (length bs =? 32)%nat then Some bs else None
  | None => None
  end.

Record AssetInfoJson := {
  json_kind : string;
  json_ticker : string;
  json_name : string;
  json_decimals : Z;
  json_supply : Z;
  json_issuer : string;
  json_royalty_bps : Z;
  json_royalty_addr : string;
  json_uri : string;
  json_content_hash : string;
  json_mint_height : Z;
}.

Record Snapshot := {
  s_last_height : Z;
  s_last_hash : string;
  s_scanned_any : bool;
  s_assets : gmap string AssetInfoJson;
  s_ft_balances : gmap string Z;
  s_nft_owner : gmap string string;
  s_outpoints : gmap string string;
  s_history : gmap string (list HistoryEntry);
}.

(** A map rebuilt entry by entry under new keys, in the order of an iterator. *)
Definition rekey `{Countable K} {A B} (enc : K -> string) (f : A -> B) (l : list (K * A)) : gmap string B :=
  foldl (λ m '(k, v), <[enc k := f v]> m) ∅ l.

(** Entries whose key parses are inserted, the others are skipped. *)
Definition reload `{Countable K} {A B} (dec : string -> option K) (g : B -> A) (m : gmap K A)
    (l : list (string * B)) : gmap K A :=
  foldl (λ m '(s, v), match dec s with Some k => <[k := g v]> m | None => m end) m l.

(** The key of a balance and its parser. *)
Definition bar : Ascii.ascii := ascii_of_byte 124.
Definition parse_balance_key (key : string) : option (string * bytes) :=
  match rsplit_once bar key with
  | Some (addr, id_hex) => match unhex32 id_hex with Some id => Some (addr, id) | None => None end
  | None => None
  end.

Section Store.
Context `{Crypto}.

Definition hex32 (b : bytes) : string := to_hex (mkHash b).

Definition balance_key (k : string * bytes) : string := String.append k.1 (String bar (hex32 k.2)).

Definition info_to_json (info : AssetInfo) : AssetInfoJson := {|
  json_kind := match kind info with Fungible => "ft" | NonFungible => "nft" end;
  json_ticker := info_ticker info; json_name := info_name info; json_decimals := info_decimals info;
  json_supply := info_supply info; json_issuer := issuer info; json_royalty_bps := info_royalty_bps info;
  json_royalty_addr := info_royalty_addr info; json_uri := info_uri info;
  json_content_hash := hex32 (info_content_hash info); json_mint_height := mint_height info |}.

Definition info_of_json (info : AssetInfoJson) : AssetInfo := {|
  kind := if bool_decide (json_kind info = "nft"%string) then NonFungible else Fungible;
  info_ticker := json_ticker info; info_name := json_name info; info_decimals := json_decimals info;
  info_supply := json_supply info; issuer := json_issuer info; info_royalty_bps := json_royalty_bps info;
  info_royalty_addr := json_royalty_addr info; info_uri := json_uri info;
  info_content_hash := default (replicate 32 0) (unhex32 (json_content_hash info));
  mint_height := json_mint_height info |}.

Context `{!IterOrder bytes AssetInfo} `{!IterOrder (string * bytes) Z} `{!IterOrder bytes string}.
Context `{!IterOrder string AssetInfoJson} `{!IterOrder string Z} `{!IterOrder string string}.

Definition from_indexer (idx : Indexer) : Snapshot := {|
  s_last_height := last_height idx;
  s_last_hash := last_hash idx;
  s_scanned_any := scanned_any idx;
  s_assets := rekey hex32 info_to_json (iter (assets (ix_state idx)));
  s_ft_balances := rekey balance_key id (iter (ft_balances (ix_state idx)));
  s_nft_owner := rekey hex32 id (iter (nft_owner (ix_state idx)));
  s_outpoints := ix_outpoints idx;
  s_history := ix_history idx;
|}.

Definition apply_to (self : Snapshot) (idx : Indexer) : Indexer := {|
  ix_state := {|
    assets := reload unhex32 info_of_json (assets (ix_state idx)) (iter (s_assets self));
    ft_balances := reload parse_balance_key id (ft_balances (ix_state idx)) (iter (s_ft_balances self));
    nft_owner := reload unhex32 id (nft_owner (ix_state idx)) (iter (s_nft_owner self)) |};
  ix_outpoints := s_outpoints self;
  ix_history := s_history self;
  last_height := s_last_height self;
  last_hash := s_last_hash self;
  scanned_any := s_scanned_any self;
  checkpoint := checkpoint idx;
|}.
End Store.

(** * The snapshot round trip

    What the indexer saves, it loads back, whatever the order of its maps. *)

From S2P Require Import Settlement IndexerFacts.

(** ** The round trip *)

Lemma rsplit_once_none c s : (forall x, x ∈ String.list_ascii_of_string s -> x <> c) -> rsplit_once c s = None.
Proof.
  induction s as [|x s IH]; intros Hc; [done|]. cbn [rsplit_once]. cbn in Hc.
  rewrite IH by (intros y Hy; apply Hc; set_solver).
  destruct (Ascii.eqb_spec x c) as [->|]; [|done]. exfalso. by apply (Hc c); [set_solver|].
Qed.

Lemma rsplit_once_app c a b :
  (forall x, x ∈ String.list_ascii_of_string b -> x <> c) ->
  rsplit_once c (String.append a (String c b)) = Some (a, b).
Proof.
  intros Hb. induction a as [|x a IH].
  - change (String.append "" (String c b)) with (String c b). cbn [rsplit_once].
    rewrite rsplit_once_none by exact Hb. by destruct (Ascii.eqb_spec c c).
  - change (String.append (String x a) (String c b)) with (String x (String.append a (String c b))).
    cbn [rsplit_once]. by rewrite IH.
Qed.

Lemma hex_digit_not_bar n : 0 <= n < 16 -> hex_digit n <> bar.
Proof.
  intros Hn E. apply (f_equal byte_of_ascii) in E. unfold hex_digit, bar in E.
  rewrite !byte_of_ascii_of_byte in E by (unfold is_u8; destruct (n <? 10); lia).
  destruct (Z.ltb_spec n 10); lia.
Qed.

Lemma hex_lower_no_bar bs x : bytes_ok bs -> x ∈ String.list_ascii_of_string (hex_lower bs) -> x <> bar.
Proof.
  induction 1 as [|b bs Hb _ IH]; cbn [hex_lower String.list_ascii_of_string]; [set_solver|].
  unfold is_u8 in Hb. pose proof (Z.mod_pos_bound b 16).
  assert (0 <= b / 16 < 16) by (split; [apply Z.div_pos; lia|apply Z.div_lt_upper_bound; lia]).
  intros [->|[->|Hx]%elem_of_cons]%elem_of_cons; [apply hex_digit_not_bar; lia..|by apply IH].
Qed.

Lemma unhex_pairs_lower bs : bytes_ok bs -> unhex_pairs (hex_lower bs) = Some bs.
Proof.
  induction 1 as [|b bs Hb _ IH]; [done|]. cbn [hex_lower unhex_pairs]. by rewrite hex_pair_digits, IH.
Qed.

(** An identifier of the type [[u8; 32]]. *)
Definition id_ok (b : bytes) : Prop := length b = 32%nat /\ bytes_ok b.

Section Rekey.
Context `{Countable K} {A B : Type} (enc : K -> string) (dec : string -> option K) (f : A -> B) (g : B -> A).
Context `{!IterOrder K A} `{!IterOrder string B}.

Lemma reload_omap (m : gmap K A) (l : list (string * B)) :
  reload dec g m l
  = foldl (λ m '(k, v), <[k := v]> m) m (omap (λ '(s, v), k ← dec s; Some (k, g v)) l).
Proof.
  unfold reload. revert m; induction l as [|[s v] l IH]; intros m; [done|]. cbn [foldl omap list_omap].
  destruct (dec s) as [k|]; cbn; apply IH.
Qed.

(** Writing a map under parseable keys and reading it back gives the map. *)
Lemma rekey_reload (m : gmap K A) :
  map_Forall (λ k v, dec (enc k) = Some k /\ g (f v) = v) m ->
  reload dec g ∅ (iter (rekey enc f (iter m))) = m.
Proof.
  intros Hm. rewrite reload_omap.
  assert (Forall (λ '(k, v), dec (enc k) = Some k /\ g (f v) = v) (iter m)) as Hf.
  { apply map_Forall_to_list in Hm. rewrite iter_perm. eapply Forall_impl; [exact Hm|]. by intros []. }
  set (l := (λ '(k, v), (enc k, f v)) <$> iter m).
  assert (rekey enc f (iter m) = foldl (λ m '(s, b), <[s := b]> m) ∅ l) as ->.
  { unfold rekey, l. generalize (∅ : gmap string B). induction (iter m) as [|[k v] kvs IH]; intros acc; [done|].
    cbn [foldl fmap list_fmap]. inversion Hf; subst. by apply IH. }
  assert (omap (λ '(s, b), k ← dec s; Some (k, g b)) l = iter m) as Hl.
  { unfold l. induction Hf as [|[k v] kvs [Hd Hg] _ IH]; [done|]. csimpl. rewrite Hd. cbn. rewrite Hg. by f_equal. }
  assert (NoDup (iter m).*1) as Hnd by (rewrite iter_perm; apply NoDup_fst_map_to_list).
  assert (NoDup l.*1) as Hnl.
  { apply (NoDup_fmap_1 dec). unfold l. rewrite <- !list_fmap_compose.
    replace ((dec ∘ (fst ∘ λ '(k, v), (enc k, f v))) <$> iter m) with (Some <$> (iter m).*1); [by apply NoDup_fmap_2; [apply _|]|].
    rewrite <- list_fmap_compose. clear -Hf. induction Hf as [|[k v] kvs [Hd _] _ IH]; [done|]. csimpl. by rewrite Hd, IH. }
  rewrite (foldl_insert_union l), (right_id_L ∅ (∪)) by done.
  assert (omap (λ '(s, b), k ← dec s; Some (k, g b)) (iter (list_to_map l : gmap string B)) ≡ₚ iter m) as Hp.
  { rewrite <- Hl. apply omap_Permutation. rewrite iter_perm. by apply map_to_list_to_map. }
  rewrite foldl_insert_union, (right_id_L ∅ (∪)) by (by rewrite Hp).
  rewrite (list_to_map_proper _ (iter m)); [|by rewrite Hp|done].
  rewrite (list_to_map_proper _ (map_to_list m)); [apply list_to_map_to_list|done|apply iter_perm].
Qed.
End Rekey.

Section RoundTrip.
Context `{Crypto} `{!CryptoLaws _}.
Context `{!IterOrder bytes AssetInfo} `{!IterOrder (string * bytes) Z} `{!IterOrder bytes string}.
Context `{!IterOrder string AssetInfoJson} `{!IterOrder string Z} `{!IterOrder string string}.

Lemma unhex32_hex32 b : id_ok b -> unhex32 (hex32 b) = Some b.
Proof.
  intros [Hl Hb]. unfold unhex32, hex32, to_hex. cbn [hash_bytes].
  rewrite hex_encode_lower, unhex_pairs_lower by done. by rewrite Hl.
Qed.

Lemma parse_balance_key_spec k : id_ok k.2 -> parse_balance_key (balance_key k) = Some k.
Proof.
  destruct k as [addr b]. intros Hb. unfold parse_balance_key, balance_key. cbn [fst snd].
  rewrite rsplit_once_app; [by rewrite unhex32_hex32|].
  intros x. unfold hex32, to_hex. cbn [hash_bytes]. rewrite hex_encode_lower. by apply hex_lower_no_bar, Hb.
Qed.

Lemma info_json_roundtrip info : id_ok (info_content_hash info) -> info_of_json (info_to_json info) = info.
Proof.
  intros Hc. unfold info_of_json, info_to_json. cbn. rewrite unhex32_hex32 by done. cbn. by destruct info as [[]].
Qed.

(** The ids of an index have the type [[u8; 32]]. *)
Definition ids_ok (st : AssetState) : Prop :=
  map_Forall (λ id info, id_ok id /\ id_ok (info_content_hash info)) (assets st)
  /\ map_Forall (λ k _, id_ok k.2) (ft_balances st)
  /\ map_Forall (λ id _, id_ok id) (nft_owner st).
End RoundTrip.

(** Saving the index and loading it into a fresh indexer restores it in
    full: the asset descriptions, every balance (whatever characters the holder's
    address has, the separator included), every owner, the outpoints, the history
    and the position in the chain. Only the checkpoint, which is not saved, is
    lost. This holds for every iteration order of the hash maps on both sides. *)
Theorem snapshot_roundtrip `{Crypto} `{!CryptoLaws _}
    `{!IterOrder bytes AssetInfo} `{!IterOrder (string * bytes) Z} `{!IterOrder bytes string}
    `{!IterOrder string AssetInfoJson} `{!IterOrder string Z} `{!IterOrder string string} idx :
  ids_ok (ix_state idx) ->
  apply_to (from_indexer idx) empty_indexer = with_checkpoint None idx.
Proof.
  intros (Ha & Hb & Hn). unfold apply_to, from_indexer, with_checkpoint, empty_indexer, empty_assets.
  cbn [s_assets s_ft_balances s_nft_owner s_outpoints s_history s_last_height s_last_hash s_scanned_any
       ix_state assets ft_balances nft_owner checkpoint].
  rewrite !rekey_reload; [by destruct idx as [[]]|..].
  - intros id owner Ho. split; [|done]. apply unhex32_hex32. by apply (Hn _ _ Ho).
  - intros k v Hk. split; [|done]. apply parse_balance_key_spec. by apply (Hb _ _ Hk).
  - intros id info Hi. destruct (Ha _ _ Hi). split; [by apply unhex32_hex32|by apply info_json_roundtrip].
Qed.

Module Saved.
#[local] Existing Instance Market.market_crypto.

(** A fungible balance held under an address that contains the separator, and an NFT. *)
Definition index : Indexer :=
  with_state {| assets := assets (ix_state Followed.seller_index);
                ft_balances := <[("a|b"%string, replicate 32 7) := 3]> (ft_balances (ix_state Followed.seller_index));
                nft_owner := {[ replicate 32 200 := "carol"%string ]} |} Followed.seller_index.

Lemma index_ids : ids_ok (ix_state index).
Proof. split_and!; by_compute. Qed.
End Saved.

Lemma snapshot_roundtrip_witness :
  ft_balance (ix_state
    (@apply_to (trie_order string AssetInfoJson) (trie_order string Z) (trie_order string string)
       (@from_indexer Market.market_crypto (trie_order bytes AssetInfo) (trie_order (string * bytes) Z)
          (trie_order bytes string) Saved.index) empty_indexer)) "a|b" (replicate 32 7) = 3.
Proof.
  rewrite (@snapshot_roundtrip Market.market_crypto Market.market_laws
    (trie_order bytes AssetInfo) (trie_order (string * bytes) Z) (trie_order bytes string)
    (trie_order string AssetInfoJson) (trie_order string Z) (trie_order string string) Saved.index Saved.index_ids).
  vm_compute. reflexivity.
Defined.
