(* ===== verification/PoolAccounting.v ===== *)
(** * Pool accounting ([tensorium-pool/src/accounting.rs])

    The window of accepted shares, the PPLNS split of a block reward and the
    ledger of what miners are owed. Loading and saving the ledger as JSON is not
    modelled; the floating-point percentage of the window statistics is left out. *)

From S2P Require Import Prelude.

Local Open Scope Z_scope.

Definition POOL_FEE_BPS : Z := 500.
Definition PPLNS_DEFAULT_N : nat := Z.to_nat 4096.

Record ShareRecord := {
  wallet_address : string;
  worker_name : string;
  share_diff_bits : Z;
  submitted_at_unix : Z;
}.

(** [1u64 << self.share_diff_bits] *)
Definition weight (s : ShareRecord) : Z := shl64 1 (share_diff_bits s).

Record ShareWindow := { window_n : nat; shares : list ShareRecord }.

Definition new_window (n : nat) : ShareWindow := {| window_n := n; shares := [] |}.

(** [pop_front] when full, then [push_back]. *)
Definition window_push (share : ShareRecord) (self : ShareWindow) : ShareWindow := {|
  window_n := window_n self;
  shares := (if (window_n self <=? length (shares self))%nat then drop 1 (shares self) else shares self)
              ++ [share] |}.

Definition total_weight (self : ShareWindow) : Z := sat_sum (weight <$> shares self).

(** [*m.entry(addr).or_default() += w] *)
Definition add_weight (m : gmap string Z) (s : ShareRecord) : gmap string Z :=
  <[wallet_address s := add64 (default 0 (m !! wallet_address s)) (weight s)]> m.
Definition miner_weights (self : ShareWindow) : gmap string Z := foldl add_weight ∅ (shares self).

(** ** Payout entries *)

Record PayoutEntry := {
  block_height : Z;
  entry_block_hash : string;
  miner_address : string;
  gross_reward_atoms : Z;
  pool_fee_atoms : Z;
  net_payout_atoms : Z;
  paid_out : bool;
}.

(** [(net, fee)] *)
Definition split_fee (gross fee_bps : Z) : Z * Z :=
  let fee := sat_mul64 gross fee_bps / 10000 in
  (sat_sub64 gross fee, fee).

Definition new_entry (height : Z) (hash miner : string) (gross : Z) : PayoutEntry :=
  let '(net, fee) := split_fee gross POOL_FEE_BPS in
  {| block_height := height; entry_block_hash := hash; miner_address := miner;
     gross_reward_atoms := gross; pool_fee_atoms := fee; net_payout_atoms := net; paid_out := false |}.

(** [e.paid_out = true] *)
Definition set_paid (e : PayoutEntry) : PayoutEntry := {|
  block_height := block_height e; entry_block_hash := entry_block_hash e; miner_address := miner_address e;
  gross_reward_atoms := gross_reward_atoms e; pool_fee_atoms := pool_fee_atoms e;
  net_payout_atoms := net_payout_atoms e; paid_out := true |}.

Record PayoutLedger := { entries : list PayoutEntry; share_window : ShareWindow }.

Definition empty_ledger : PayoutLedger := {| entries := []; share_window := new_window PPLNS_DEFAULT_N |}.

Definition with_entries (es : list PayoutEntry) (self : PayoutLedger) : PayoutLedger :=
  {| entries := es; share_window := share_window self |}.

Definition push (entry : PayoutEntry) (self : PayoutLedger) : PayoutLedger :=
  with_entries (entries self ++ [entry]) self.

Definition push_share (share : ShareRecord) (self : PayoutLedger) : PayoutLedger :=
  {| entries := entries self; share_window := window_push share (share_window self) |}.

(** [!e.paid_out && e.miner_address == miner] *)
Definition owed_to (miner : string) (e : PayoutEntry) : bool :=
  negb (paid_out e) && bool_decide (miner_address e = miner).

Definition total_fee_atoms (self : PayoutLedger) : Z := sat_sum (pool_fee_atoms <$> entries self).

Definition pending_atoms (self : PayoutLedger) (miner : string) : Z :=
  sat_sum (net_payout_atoms <$> filter (owed_to miner) (entries self)).

(** The loop of [payable_atoms_up_to]; the [break] returns what was reached. *)
Fixpoint payable_loop (miner : string) (max_atoms payable : Z) (es : list PayoutEntry) : Z :=
  match es with
  | [] => payable
  | e :: es =>
      if negb (owed_to miner e) then payable_loop miner max_atoms payable es
      else
        let next := sat_add64 payable (net_payout_atoms e) in
        if max_atoms <? next then payable else payable_loop miner max_atoms next es
  end.
Definition payable_atoms_up_to (self : PayoutLedger) (miner : string) (max_atoms : Z) : Z :=
  payable_loop miner max_atoms 0 (entries self).

Definition mark_paid (miner : string) (self : PayoutLedger) : PayoutLedger :=
  with_entries ((λ e, if bool_decide (miner_address e = miner) then set_paid e else e) <$> entries self) self.

(** The loop of [mark_paid_up_to]: the entries after it and the atoms marked. *)
Fixpoint mark_loop (miner : string) (amount marked : Z) (es : list PayoutEntry) : list PayoutEntry * Z :=
  match es with
  | [] => ([], marked)
  | e :: es =>
      if negb (owed_to miner e) then
        let '(es, total) := mark_loop miner amount marked es in (e :: es, total)
      else if amount <=? marked then (e :: es, marked)
      else
        let '(es, total) := mark_loop miner amount (sat_add64 marked (net_payout_atoms e)) es in
        (set_paid e :: es, total)
  end.
Definition mark_paid_up_to (miner : string) (amount : Z) (self : PayoutLedger) : PayoutLedger * Z :=
  let '(es, marked) := mark_loop miner amount 0 (entries self) in (with_entries es self, marked).

Record LedgerStats := {
  blocks_found : Z;
  total_gross_atoms : Z;
  stats_total_fee_atoms : Z;
  total_pending_net_atoms : Z;
}.

Definition stats (self : PayoutLedger) : LedgerStats := {|
  blocks_found := Z.of_nat (size (list_to_set (entry_block_hash <$> entries self) : gset string));
  total_gross_atoms := sat_sum (gross_reward_atoms <$> entries self);
  stats_total_fee_atoms := total_fee_atoms self;
  total_pending_net_atoms := sat_sum (net_payout_atoms <$> filter (λ e, negb (paid_out e)) (entries self)) |}.

(** ** The split of a reward *)

(** [sort_by(|a, b| key(b).cmp(&key(a)))]: descending and stable. *)
Fixpoint insert_desc {A} (key : A -> Z) (x : A) (l : list A) : list A :=
  match l with
  | [] => [x]
  | y :: l => if key y <=? key x then x :: y :: l else y :: insert_desc key x l
  end.
Definition sort_desc {A} (key : A -> Z) (l : list A) : list A := foldr (insert_desc key) [] l.

(** [(gross as u128 * w as u128 / total as u128) as u64] *)
Definition proportional (gross w total : Z) : Z := (gross * w / total) mod U64_MOD.

Record MinerWindowEntry := { mw_address : string; mw_shares : nat; mw_weight : Z }.

Section Split.
Context `{!IterOrder string Z}.

Definition pplns_split (self : PayoutLedger) (gross : Z) (fallback_addr : string) : list (string * Z) :=
  let weights := miner_weights (share_window self) in
  let total := total_weight (share_window self) in
  if (total =? 0) || bool_decide (weights = ∅) then [(fallback_addr, gross)]
  else
    sort_desc snd
      (filter (λ p : string * Z, (0 <? p.2) = true)
        ((λ '(addr, w), (addr, proportional gross w total)) <$> iter weights)).

(** The entries of the window statistics, without the percentage. *)
Definition window_miners (self : PayoutLedger) : list MinerWindowEntry :=
  sort_desc mw_weight
    ((λ '(addr, w), {| mw_address := addr;
                       mw_shares := length (filter (λ s, wallet_address s = addr) (shares (share_window self)));
                       mw_weight := w |}) <$> iter (miner_weights (share_window self))).
End Split.

(** * Pool accounting: fair splits and exact payments *)

(** ** Sorting *)
Section Sort.
Context {A : Type} (key : A -> Z).

Lemma insert_desc_perm x l : insert_desc key x l ≡ₚ x :: l.
Proof.
  induction l as [|y l IH]; cbn [insert_desc]; [done|]. destruct (key y <=? key x); [done|].
  rewrite IH. apply Permutation_swap.
Qed.

Lemma sort_desc_perm l : sort_desc key l ≡ₚ l.
Proof. induction l as [|x l IH]; cbn; [done|]. by rewrite insert_desc_perm, IH. Qed.
End Sort.

(** ** Weights *)

(** The specification: the weight of a miner's own shares. *)
Definition own_weight (addr : string) (l : list ShareRecord) : Z :=
  sumZ (weight <$> filter (λ s, wallet_address s = addr) l).

Lemma weight_pos s : 0 <= share_diff_bits s < 64 -> weight s = 2 ^ share_diff_bits s /\ 0 < weight s < U64_MOD.
Proof.
  intros Hb. unfold weight, shl64. rewrite (Z.mod_small (share_diff_bits s)) by lia.
  rewrite Z.shiftl_1_l.
  assert (0 < 2 ^ share_diff_bits s) by (apply Z.pow_pos_nonneg; lia).
  assert (2 ^ share_diff_bits s <= 2 ^ 63) by (apply Z.pow_le_mono_r; lia).
  change (2 ^ 63) with 9223372036854775808 in *. rewrite Z.mod_small by u64_lia. u64_lia.
Qed.

Lemma weight_nonneg s : 0 <= weight s.
Proof. unfold weight, shl64. apply Z.mod_pos_bound. unfold U64_MOD. lia. Qed.

Lemma weights_nonneg l : Forall (Z.le 0) (weight <$> l).
Proof. apply Forall_fmap, Forall_true. intros s. apply weight_nonneg. Qed.

Lemma own_weight_cons addr s l :
  own_weight addr (s :: l) = (if decide (wallet_address s = addr) then weight s else 0) + own_weight addr l.
Proof. unfold own_weight. rewrite filter_cons. by case_decide. Qed.

Lemma own_weight_nonneg addr l : 0 <= own_weight addr l.
Proof. apply sumZ_nonneg, weights_nonneg. Qed.

Lemma own_weight_absent addr l : addr ∉ wallet_address <$> l -> own_weight addr l = 0.
Proof.
  induction l as [|s l IH]; [done|]. csimpl. rewrite own_weight_cons. intros Hn.
  rewrite decide_False by set_solver. rewrite IH; set_solver.
Qed.

Lemma own_weight_le addr l : own_weight addr l <= sumZ (weight <$> l).
Proof.
  induction l as [|s l IH]; [done|]. rewrite own_weight_cons. csimpl. pose proof (weight_nonneg s).
  case_decide; lia.
Qed.

(** The map of the fold: totals per miner, nothing lost. *)
Lemma fold_weights (l : list ShareRecord) (m : gmap string Z) :
  map_Forall (λ _ w, 0 <= w) m -> map_sum id m + sumZ (weight <$> l) < U64_MOD ->
  let m' := foldl add_weight m l in
  (forall addr, m' !! addr = if decide (addr ∈ wallet_address <$> l)
                             then Some (default 0 (m !! addr) + own_weight addr l) else m !! addr)
  /\ map_sum id m' = map_sum id m + sumZ (weight <$> l).
Proof.
  revert m; induction l as [|s l IH]; intros m Hm Hb; cbv zeta.
  { split; [|cbn; lia]. intros addr. rewrite decide_False; [done|]. csimpl. set_solver. }
  csimpl in *. pose proof (weight_nonneg s). pose proof (sumZ_nonneg _ (weights_nonneg l)).
  assert (0 <= default 0 (m !! wallet_address s) <= map_sum id m) as Hd.
  { pose proof (map_sum_delete id m (wallet_address s)) as Hdel. unfold value_or_0 in Hdel.
    assert (0 <= map_sum id (delete (wallet_address s) m)).
    { apply map_sum_nonneg. by apply map_Forall_delete. }
    destruct (m !! wallet_address s) eqn:E; cbn in *; [|lia]. pose proof (Hm _ _ E). cbn in *. lia. }
  assert (add_weight m s = <[wallet_address s := default 0 (m !! wallet_address s) + weight s]> m) as Hadd.
  { unfold add_weight. rewrite add64_small; [done|]. lia. }
  assert (map_sum id (add_weight m s) = map_sum id m + weight s) as Hsum.
  { rewrite Hadd, map_sum_insert. unfold value_or_0. destruct (m !! wallet_address s); cbn; lia. }
  destruct (IH (add_weight m s)) as [IH1 IH2].
  { rewrite Hadd. apply map_Forall_insert_2; [lia|done]. }
  { lia. }
  split; [|lia]. intros addr. rewrite IH1, own_weight_cons, Hadd.
  destruct (decide (wallet_address s = addr)) as [<-|Hne].
  - rewrite lookup_insert_eq. cbn. rewrite (decide_True (P := _ ∈ _ :: _)) by set_solver.
    case_decide as Hin; [f_equal; lia|]. f_equal. rewrite own_weight_absent by done. lia.
  - rewrite lookup_insert_ne by done. case_decide; case_decide; set_solver.
Qed.

(** A window whose weights add up within the width, as the difficulty bounds of
    the pool guarantee. *)
Definition window_exact (w : ShareWindow) : Prop := sumZ (weight <$> shares w) < U64_MAX.

Lemma miner_weights_spec w :
  window_exact w ->
  (forall addr, miner_weights w !! addr =
     if decide (addr ∈ wallet_address <$> shares w) then Some (own_weight addr (shares w)) else None)
  /\ map_sum id (miner_weights w) = sumZ (weight <$> shares w)
  /\ total_weight w = sumZ (weight <$> shares w).
Proof.
  intros Hw. unfold window_exact in Hw.
  destruct (fold_weights (shares w) ∅) as [H1 H2].
  { apply map_Forall_empty. }
  { rewrite map_sum_empty. unfold U64_MAX in Hw. unfold U64_MOD. lia. }
  split_and!.
  - intros addr. unfold miner_weights. by rewrite H1, lookup_empty.
  - unfold miner_weights. by rewrite H2, map_sum_empty.
  - unfold total_weight. rewrite sat_sum_spec by apply weights_nonneg. lia.
Qed.

(** Flooring each part loses less than one unit per part. *)
Lemma floor_parts gross total (ws : list Z) :
  0 < total -> 
  0 <= gross * sumZ ws - total * sumZ ((λ w, gross * w / total) <$> ws) <= (total - 1) * Z.of_nat (length ws).
Proof.
  intros Ht. induction ws as [|w ws IH]; csimpl; [lia|].
  pose proof (Z.div_mod (gross * w) total) as Hd. pose proof (Z.mod_pos_bound (gross * w) total Ht). 
  rewrite Nat2Z.inj_succ. nia.
Qed.

Lemma floor_parts_dust gross total (ws : list Z) :
  0 < total -> sumZ ws = total -> ws <> [] ->
  0 <= gross - sumZ ((λ w, gross * w / total) <$> ws) < Z.of_nat (length ws).
Proof.
  intros Ht Hs Hne. pose proof (floor_parts gross total ws Ht) as Hf. rewrite Hs in Hf.
  assert (0 < Z.of_nat (length ws)) by (destruct ws; [done|cbn; lia]). nia.
Qed.

(** Dropping the zero parts keeps the sum. *)
Lemma sum_drop_zero (l : list (string * Z)) :
  Forall (λ p, 0 <= p.2) l -> sumZ (filter (λ p : string * Z, (0 <? p.2) = true) l).*2 = sumZ l.*2.
Proof.
  induction 1 as [|[a g] l Hg _ IH]; [done|]. rewrite filter_cons. cbn [snd] in *.
  destruct (Z.ltb_spec 0 g); [rewrite decide_True by done|rewrite decide_False by done]; csimpl; lia.
Qed.

Lemma NoDup_keys_filter (P : string * Z -> Prop) `{!forall p, Decision (P p)} (l : list (string * Z)) :
  NoDup l.*1 -> NoDup (filter P l).*1.
Proof.
  induction l as [|p l IH]; [done|]. csimpl. intros [Hp Hl]%NoDup_cons. rewrite filter_cons.
  case_decide; [|by apply IH]. csimpl. apply NoDup_cons. split; [|by apply IH].
  intros [q [Hq Hin]]%list_elem_of_fmap. apply Hp. apply list_elem_of_fmap. exists q.
  split; [done|]. by apply list_elem_of_filter in Hin as [_ Hin].
Qed.

Section Split.
Context `{!IterOrder string Z}.

Lemma proportional_exact gross w total :
  0 <= gross < U64_MOD -> 0 <= w <= total -> 0 < total ->
  proportional gross w total = gross * w / total /\ 0 <= gross * w / total <= gross.
Proof.
  intros Hg Hw Ht. assert (0 <= gross * w / total <= gross) as Hr.
  { split; [apply Z.div_pos; nia|]. apply Z.div_le_upper_bound; nia. }
  unfold proportional. rewrite Z.mod_small; [done|lia].
Qed.

(** The parts before sorting and filtering. *)
Lemma split_parts w gross :
  window_exact w -> 0 <= gross < U64_MOD -> 0 < total_weight w ->
  (λ '(addr, wt), (addr, proportional gross wt (total_weight w))) <$> iter (miner_weights w)
  = (λ '(addr, wt), (addr, gross * wt / total_weight w)) <$> iter (miner_weights w).
Proof.
  intros Hw Hg Ht. destruct (miner_weights_spec w Hw) as (Hl & Hs & Htot). apply list_fmap_ext.
  intros i [addr wt] Hi. f_equal. apply proportional_exact; [done| |done].
  apply list_elem_of_lookup_2 in Hi. rewrite iter_perm, elem_of_map_to_list, Hl in Hi. case_decide; [|done].
  injection Hi as <-. split; [apply own_weight_nonneg|]. rewrite Htot. apply own_weight_le.
Qed.
End Split.

Lemma pplns_split_spec `{!IterOrder string Z} ledger gross fallback :
  window_exact (share_window ledger) -> 0 <= gross < U64_MOD -> 0 < total_weight (share_window ledger) ->
  let splits := pplns_split ledger gross fallback in
  NoDup splits.*1
  /\ (forall addr g, (addr, g) ∈ splits <->
        g = gross * own_weight addr (shares (share_window ledger)) / total_weight (share_window ledger) /\ 0 < g)
  /\ 0 <= gross - sumZ splits.*2 < Z.of_nat (size (miner_weights (share_window ledger))).
Proof.
  intros Hw Hg Ht splits. subst splits. unfold pplns_split.
  destruct (miner_weights_spec _ Hw) as (Hl & Hs & Htot).
  set (W := miner_weights (share_window ledger)) in *. set (T := total_weight (share_window ledger)) in *.
  rewrite (proj2 (Z.eqb_neq _ _)), bool_decide_false by (lia || (intros HW; rewrite HW, map_sum_empty in Hs; lia)).
  cbn [orb]. subst W T. rewrite split_parts by done.
  set (W := miner_weights (share_window ledger)) in *. set (T := total_weight (share_window ledger)) in *.
  set (parts := (λ '(addr, wt), (addr, gross * wt / T)) <$> iter W).
  assert (parts.*1 = (iter W).*1) as Hp1.
  { unfold parts. rewrite <- list_fmap_compose. apply list_fmap_ext. by intros i []. }
  assert (NoDup parts.*1) as Hnd by (rewrite Hp1, iter_perm; apply NoDup_fst_map_to_list).
  assert (parts.*2 = (λ w, gross * w / T) <$> (iter W).*2) as Hp2.
  { unfold parts. rewrite <- !list_fmap_compose. apply list_fmap_ext. by intros i []. }
  assert (Forall (Z.le 0) (iter W).*2) as Hnn.
  { apply Forall_fmap, Forall_forall. intros [a wt] Hi. rewrite iter_perm, elem_of_map_to_list, Hl in Hi.
    case_decide; [|done]. injection Hi as <-. apply own_weight_nonneg. }
  assert (Forall (λ p, 0 <= p.2) parts) as Hpn.
  { cut (Forall (Z.le 0) parts.*2); [by rewrite Forall_fmap|]. rewrite Hp2. apply Forall_fmap.
    eapply Forall_impl; [exact Hnn|]. intros x Hx. apply Z.div_pos; [nia|done]. }
  assert (sumZ (iter W).*2 = T) as HsumW.
  { rewrite Htot, <- Hs. unfold map_sum. rewrite list_fmap_id. by rewrite iter_perm. }
  refine (conj _ (conj _ _)).
  - rewrite (sort_desc_perm snd). by apply NoDup_keys_filter.
  - intros addr g. rewrite sort_desc_perm, list_elem_of_filter. cbn [snd]. rewrite Z.ltb_lt.
    unfold parts. rewrite list_elem_of_fmap. split.
    + intros [Hpos ([a wt] & [= -> ->] & Hi)]. split; [|done].
      rewrite iter_perm, elem_of_map_to_list, Hl in Hi. case_decide; [|done]. by injection Hi as <-.
    + intros [-> Hpos]. split; [done|]. exists (addr, own_weight addr (shares (share_window ledger))). split; [done|].
      rewrite iter_perm, elem_of_map_to_list, Hl. rewrite decide_True; [done|].
      destruct (decide (addr ∈ wallet_address <$> shares (share_window ledger))) as [|Hn]; [done|]. exfalso.
      rewrite own_weight_absent, Z.mul_0_r, Z.div_0_l in Hpos by (done || lia). lia.
  - rewrite (sort_desc_perm snd), sum_drop_zero, Hp2 by done.
    rewrite <- length_map_to_list, <- iter_perm, <- (length_fmap snd).
    apply floor_parts_dust; [done|done|]. intros E. rewrite E in HsumW. cbn in HsumW. lia.
Qed.

(** The PPLNS split is fair and loses only rounding dust. For a window
    within the width that has weight, every miner with shares in it gets
    exactly the floor of its share of the reward (when that is not zero), each
    miner appears once, nobody else appears, and the undistributed rest is less
    than one atom per miner. *)
Theorem pplns_split_fair `{!IterOrder string Z} ledger gross fallback :
  window_exact (share_window ledger) -> 0 <= gross < U64_MOD -> 0 < total_weight (share_window ledger) ->
  let splits := pplns_split ledger gross fallback in
  NoDup splits.*1
  /\ (forall addr g, (addr, g) ∈ splits <->
        g = gross * own_weight addr (shares (share_window ledger)) / total_weight (share_window ledger) /\ 0 < g)
  /\ 0 <= gross - sumZ splits.*2 < Z.of_nat (size (miner_weights (share_window ledger))).
Proof. exact (pplns_split_spec ledger gross fallback). Qed.
