(* ===== verification/PoolPayout.v ===== *)
(** * The payout scheduler ([tensorium-pool/src/payout.rs])

    One cycle: the miners that are due, the mature balance of the treasury and
    one payment per miner through the external wallet command. The commands and
    the node are arguments; their outputs are given as text. Other threads append
    to the ledger whenever the cycle does not hold its lock: while the wallet and the
    node are asked, before a payment and during one. The appended entries are arguments too.
    Writing the ledger file is not modelled. *)

From S2P Require Import Prelude Mempool PoolAccounting.

Local Open Scope Z_scope.

(** [std::process::Output], as far as it is read. *)
Record CommandOutput := { success : bool; stdout : string; stderr : string }.

(** [s.trim().is_empty()] for ASCII text. *)
Definition is_space (c : Ascii.ascii) : bool :=
  let n := byte_of_ascii c in (n =? 32) || ((9 <=? n) && (n <=? 13)).
Definition blank (s : string) : bool := forallb is_space (String.list_ascii_of_string s).

(** [msg.contains(pat)]; the patterns neither begin nor end with white space, so
    trimming [msg] first makes no difference. *)
Definition contains (msg pat : string) : bool :=
  match String.index 0 pat msg with Some _ => true | None => false end.

Definition error_text (o : CommandOutput) : string := if blank (stderr o) then stdout o else stderr o.

(** A UTXO of the node's answer: its value and whether it is mature. *)
Definition mature_atoms (utxos : list (Z * bool)) : Z :=
  sat_sum (filter (λ u : Z * bool, u.2 = true) utxos).*1.

(** The outside world during one cycle. [None] is a command that could not be run.
    [early_arrivals] are the entries other threads append between the sum of the balances
    and the loop, [arrivals_before] those appended before the lock of
    [payable_atoms_up_to] for a miner, [arrivals] those appended before that of
    [mark_paid_up_to]. *)
Record Outside := {
  wallet_addr : option string;
  wallet_utxos : option (list (Z * bool));
  send_command : string -> Z -> option CommandOutput;
  broadcast_command : string -> Z -> option CommandOutput;
  early_arrivals : list PayoutEntry;
  arrivals_before : string -> list PayoutEntry;
  arrivals : string -> list PayoutEntry;
}.

(** What the [push]es of other threads do to the ledger. *)
Definition appended (es : list PayoutEntry) (ledger : PayoutLedger) : PayoutLedger :=
  with_entries (entries ledger ++ es) ledger.

(** The outcome of the two commands of [pay_miner]. *)
Inductive PayOutcome := Broadcast | AlreadyQueued | Conflicting | NotPaid.

Definition pay_outcome (w : Outside) (miner : string) (payable : Z) : PayOutcome :=
  match send_command w miner payable with
  | Some o =>
      if success o then
        match broadcast_command w miner payable with
        | Some b =>
            if success b then Broadcast
            else if contains (error_text b) "already in the mempool" then AlreadyQueued
            else if contains (error_text b) "conflicts" || contains (error_text b) "conflict" then Conflicting
            else NotPaid
        | None => NotPaid
        end
      else NotPaid
  | None => NotPaid
  end.

(** [pay_miner]: the ledger after it and the atoms spent, fee included. *)
Definition pay_miner (w : Outside) (ledger : PayoutLedger) (miner : string) (payable : Z) :
    PayoutLedger * option Z :=
  let ledger := appended (arrivals w miner) ledger in
  match pay_outcome w miner payable with
  | Broadcast | AlreadyQueued =>
      ((mark_paid_up_to miner payable ledger).1, Some (sat_add64 payable MIN_RELAY_FEE_ATOMS))
  | Conflicting | NotPaid => (ledger, None)
  end.

(** The balances of the cycle: [*entry.or_default() += net] over the unpaid entries. *)
Definition add_pending (m : gmap string Z) (e : PayoutEntry) : gmap string Z :=
  if paid_out e then m
  else <[miner_address e := add64 (default 0 (m !! miner_address e)) (net_payout_atoms e)]> m.

(** The loop over the miners due. The last component lists the payments made. *)
Fixpoint pay_loop (w : Outside) (due : list (string * Z)) (ledger : PayoutLedger) (spendable : Z)
    (paid : list (string * Z)) : PayoutLedger * list (string * Z) :=
  match due with
  | [] => (ledger, paid)
  | (miner, _) :: due =>
      if spendable <=? MIN_RELAY_FEE_ATOMS then (ledger, paid)
      else
        let ledger := appended (arrivals_before w miner) ledger in
        let payable := payable_atoms_up_to ledger miner (sat_sub64 spendable MIN_RELAY_FEE_ATOMS) in
        if payable =? 0 then pay_loop w due ledger spendable paid
        else
          match pay_miner w ledger miner payable with
          | (ledger, Some spent) =>
              pay_loop w due ledger (sat_sub64 spendable spent) (paid ++ [(miner, payable)])
          | (ledger, None) => pay_loop w due ledger spendable paid
          end
  end.

Section Cycle.
Context `{!IterOrder string Z}.

Definition due_miners (threshold : Z) (ledger : PayoutLedger) : list (string * Z) :=
  filter (λ p : string * Z, (threshold <=? p.2) = true) (iter (foldl add_pending ∅ (entries ledger))).

Definition run_cycle (w : Outside) (threshold : Z) (ledger : PayoutLedger) :
    PayoutLedger * list (string * Z) :=
  let due := due_miners threshold ledger in
  if bool_decide (due = []) then (ledger, [])
  else
    let ledger := appended (early_arrivals w) ledger in
    match wallet_addr w, wallet_utxos w with
    | Some _, Some utxos => pay_loop w due ledger (mature_atoms utxos) []
    | _, _ => (ledger, [])
    end.
End Cycle.

(** * Payouts: what is marked as paid is exactly what was sent *)

(** What a miner is owed, exactly. *)
Definition unpaid (miner : string) (es : list PayoutEntry) : Z :=
  sumZ (net_payout_atoms <$> filter (owed_to miner) es).

(** Amounts that fit the width together. *)
Definition entries_ok (es : list PayoutEntry) : Prop :=
  Forall (λ e, 0 <= net_payout_atoms e) es /\ sumZ (net_payout_atoms <$> es) < U64_MAX.

#[export] Instance entries_ok_dec es : Decision (entries_ok es).
Proof. unfold entries_ok; apply _. Defined.

Lemma unpaid_cons miner e es :
  unpaid miner (e :: es) = (if owed_to miner e then net_payout_atoms e else 0) + unpaid miner es.
Proof.
  unfold unpaid. rewrite filter_cons.
  destruct (owed_to miner e) eqn:E; destruct (decide _) as [D|D]; rewrite ?E in D; [done|by destruct D|by destruct D|done].
Qed.

Lemma unpaid_app miner es es' : unpaid miner (es ++ es') = unpaid miner es + unpaid miner es'.
Proof. unfold unpaid. by rewrite filter_app, fmap_app, sumZ_app. Qed.

Lemma unpaid_bounds miner es :
  Forall (λ e, 0 <= net_payout_atoms e) es -> 0 <= unpaid miner es <= sumZ (net_payout_atoms <$> es).
Proof.
  induction 1 as [|e es He _ IH]; [done|]. rewrite unpaid_cons. csimpl. destruct (owed_to miner e); lia.
Qed.

Lemma pending_is_unpaid ledger miner :
  entries_ok (entries ledger) -> pending_atoms ledger miner = unpaid miner (entries ledger).
Proof.
  intros [Hn Hs]. pose proof (unpaid_bounds miner _ Hn) as Hu. unfold pending_atoms, unpaid in *.
  rewrite sat_sum_spec; [lia|]. apply Forall_fmap, Forall_forall. intros e [_ He]%list_elem_of_filter.
  rewrite Forall_forall in Hn. by apply Hn.
Qed.

(** *** The two loops agree *)

Lemma payable_loop_ge miner max p es :
  Forall (λ e, 0 <= net_payout_atoms e) es -> p + sumZ (net_payout_atoms <$> es) < U64_MAX ->
  p <= payable_loop miner max p es <= p + unpaid miner es.
Proof.
  intros Hn; revert p; induction Hn as [|e es He Hn IH]; intros p Hb; cbn [payable_loop].
  { unfold unpaid. cbn. lia. }
  rewrite unpaid_cons. csimpl in Hb. pose proof (unpaid_bounds miner es Hn).
  destruct (owed_to miner e) eqn:E; cbn [negb].
  - rewrite sat_add64_small by lia. destruct (_ <? _); [lia|].
    specialize (IH (p + net_payout_atoms e)). lia.
  - specialize (IH p). lia.
Qed.

Lemma payable_loop_le miner max p es : p <= max -> payable_loop miner max p es <= max.
Proof.
  revert p; induction es as [|e es IH]; intros p Hp; cbn [payable_loop]; [done|].
  destruct (owed_to miner e); cbn [negb]; [|by apply IH].
  destruct (Z.ltb_spec max (sat_add64 p (net_payout_atoms e))); [done|]. apply IH. lia.
Qed.

Lemma mark_loop_done miner amount marked es :
  amount <= marked -> mark_loop miner amount marked es = (es, marked).
Proof.
  intros Hle. induction es as [|e es IH]; cbn [mark_loop]; [done|].
  rewrite IH. destruct (owed_to miner e); cbn [negb]; [|done]. by rewrite (proj2 (Z.leb_le _ _)).
Qed.

(** One entry is marked or kept. *)
Definition marked_entry (miner : string) (e e' : PayoutEntry) : Prop :=
  e' = e \/ (owed_to miner e = true /\ e' = set_paid e).

Lemma Forall2_refl_marked miner es : Forall2 (marked_entry miner) es es.
Proof. induction es; constructor; [by left|done]. Qed.

Lemma owed_to_set_paid miner e : owed_to miner (set_paid e) = false.
Proof. done. Qed.

Lemma owed_to_other m m' e : owed_to m e = true -> m' <> m -> owed_to m' e = false.
Proof.
  unfold owed_to. intros [_ Hm]%andb_true_iff Hne. apply bool_decide_eq_true in Hm.
  rewrite bool_decide_false by congruence. apply andb_false_r.
Qed.

(** Marking what [payable_atoms_up_to] found marks exactly that, with further
    entries behind or not. *)
Lemma mark_loop_payable miner max p es arr :
  Forall (λ e, 0 <= net_payout_atoms e) es -> p + sumZ (net_payout_atoms <$> es) < U64_MAX ->
  let amount := payable_loop miner max p es in
  exists es', mark_loop miner amount p (es ++ arr) = (es' ++ arr, amount)
    /\ Forall2 (marked_entry miner) es es'
    /\ forall m, unpaid m es' = unpaid m es - (if decide (m = miner) then amount - p else 0).
Proof.
  intros Hn; revert p; induction Hn as [|e es He Hn IH]; intros p Hb; cbv zeta; cbn [payable_loop app].
  { exists []. rewrite mark_loop_done by lia. split; [done|]. split; [constructor|]. intros m. case_decide; lia. }
  csimpl in Hb. cbn [mark_loop]. destruct (owed_to miner e) eqn:E; cbn [negb].
  - rewrite sat_add64_small by (pose proof (unpaid_bounds miner es Hn); lia).
    assert (Hkeep : forall amount, amount = p ->
      exists es', (if amount <=? p then (e :: es ++ arr, p)
                   else let '(es1, total) := mark_loop miner amount (p + net_payout_atoms e) (es ++ arr) in
                        (set_paid e :: es1, total)) = (es' ++ arr, amount)
        /\ Forall2 (marked_entry miner) (e :: es) es'
        /\ forall m, unpaid m es' = unpaid m (e :: es) - (if decide (m = miner) then amount - p else 0)).
    { intros amount ->. rewrite Z.leb_refl. exists (e :: es). split; [done|]. split; [apply Forall2_refl_marked|].
      intros m. case_decide; lia. }
    destruct (Z.ltb_spec max (p + net_payout_atoms e)); [by apply Hkeep|].
    set (amount := payable_loop miner max (p + net_payout_atoms e) es) in *.
    assert (p + net_payout_atoms e <= amount) as Hge by (apply payable_loop_ge; [done|lia]).
    destruct (Z.leb_spec amount p) as [Hle|Hgt].
    + destruct (Hkeep amount) as (es' & Hes' & Hrest); [lia|]. rewrite (proj2 (Z.leb_le _ _)) in Hes' by lia. eauto.
    + destruct (IH (p + net_payout_atoms e)) as (es' & Hes' & Hf & Hu); [lia|]. fold amount in Hes', Hu.
      rewrite Hes'. exists (set_paid e :: es'). split; [done|]. split; [constructor; [by right|done]|].
      intros m. rewrite !unpaid_cons, owed_to_set_paid, Hu. case_decide as Hm.
      * subst m. rewrite E. lia.
      * rewrite (owed_to_other miner m e) by done. lia.
  - destruct (IH p) as (es' & -> & Hf & Hu); [lia|]. exists (e :: es'). split; [done|]. split; [constructor; [by left|done]|].
    intros m. rewrite !unpaid_cons, Hu. lia.
Qed.

(** ** A cycle *)

(** An entry is kept or goes from unpaid to paid. *)
Definition flag_only (e e' : PayoutEntry) : Prop := e' = e \/ (paid_out e = false /\ e' = set_paid e).

#[export] Instance flag_only_preorder : PreOrder flag_only.
Proof.
  split; [by left|]. intros e1 e2 e3 [->|[H1 ->]] [->|[H2 ->]]; unfold flag_only; naive_solver.
Qed.

Lemma Forall2_refl_flag es : Forall2 flag_only es es.
Proof. induction es; constructor; [by left|done]. Qed.

Lemma marked_flag_only miner es es' : Forall2 (marked_entry miner) es es' -> Forall2 flag_only es es'.
Proof.
  intros Hf. eapply Forall2_impl; [exact Hf|]. intros e e' [->|[Ho ->]]; [by left|right].
  split; [|done]. unfold owed_to in Ho. by destruct (paid_out e).
Qed.

Lemma flag_only_nets es es' :
  Forall2 flag_only es es' -> net_payout_atoms <$> es' = net_payout_atoms <$> es.
Proof. induction 1 as [|e e' es es' He _ IH]; csimpl; [done|]. rewrite IH. by destruct He as [->|[_ ->]]. Qed.

Lemma nets_nonneg es : Forall (λ e, 0 <= net_payout_atoms e) es <-> Forall (Z.le 0) (net_payout_atoms <$> es).
Proof. rewrite Forall_fmap. done. Qed.

Lemma flag_only_ok es es' : Forall2 flag_only es es' -> entries_ok es -> entries_ok es'.
Proof.
  intros Hf [Hn Hs]. unfold entries_ok. rewrite (flag_only_nets _ _ Hf). split; [|done].
  apply nets_nonneg. rewrite (flag_only_nets _ _ Hf). by apply nets_nonneg.
Qed.

Definition paid_to (m : string) (l : list (string * Z)) : Z := sumZ (filter (λ p, p.1 = m) l).*2.

Lemma paid_to_nil m : paid_to m [] = 0.
Proof. done. Qed.

Lemma paid_to_cons m k a l : paid_to m ((k, a) :: l) = (if decide (k = m) then a else 0) + paid_to m l.
Proof. unfold paid_to. rewrite filter_cons. cbn [fst]. by case_decide. Qed.

(** The entries other threads may append while a list of miners is paid, and in a whole cycle. *)
Definition arriving (w : Outside) (miners : list string) : list PayoutEntry :=
  miners ≫= λ miner, arrivals_before w miner ++ arrivals w miner.
Definition cycle_arrivals (w : Outside) (miners : list string) : list PayoutEntry :=
  early_arrivals w ++ arriving w miners.

Lemma entries_ok_app_l es es' : entries_ok (es ++ es') -> entries_ok es.
Proof.
  intros [Hn Hs]. apply Forall_app in Hn as [Hn Hn']. rewrite fmap_app, sumZ_app in Hs. split; [done|].
  assert (0 <= sumZ (net_payout_atoms <$> es')) by (apply sumZ_nonneg; by apply nets_nonneg). lia.
Qed.

Lemma entries_ok_skip es es1 es2 : entries_ok (es ++ es1 ++ es2) -> entries_ok (es ++ es2).
Proof.
  intros [Hn Hs]. rewrite !Forall_app in Hn. destruct Hn as (Hn & Hn1 & Hn2).
  rewrite !fmap_app, !sumZ_app in Hs. split; [by apply Forall_app|].
  assert (0 <= sumZ (net_payout_atoms <$> es1)) by (apply sumZ_nonneg; by apply nets_nonneg).
  rewrite fmap_app, sumZ_app. lia.
Qed.

Definition was_sent (w : Outside) (p : string * Z) : Prop :=
  0 < p.2 /\ (pay_outcome w p.1 p.2 = Broadcast \/ pay_outcome w p.1 p.2 = AlreadyQueued).

(** What the loop did: the payments, what arrived meanwhile, and the ledger. *)
Record paid_exactly (w : Outside) (due : list (string * Z)) (es es' : list PayoutEntry) (spendable : Z)
    (new : list (string * Z)) (arrived : list PayoutEntry) : Prop := {
  payments_due : new.*1 `sublist_of` due.*1;
  payments_sent : Forall (was_sent w) new;
  payments_affordable : sumZ ((λ p : string * Z, p.2 + MIN_RELAY_FEE_ATOMS) <$> new) <= spendable;
  entries_flagged : Forall2 flag_only (es ++ arrived) es';
  balances_reduced m : unpaid m es' = unpaid m (es ++ arrived) - paid_to m new;
}.

Lemma pay_miner_spec w ledger miner payable max :
  entries_ok (entries ledger ++ arrivals w miner) ->
  payable = payable_atoms_up_to ledger miner max ->
  let '(ledger', r) := pay_miner w ledger miner payable in
  Forall2 flag_only (entries ledger ++ arrivals w miner) (entries ledger')
  /\ match r with
     | Some spent =>
         spent = sat_add64 payable MIN_RELAY_FEE_ATOMS
         /\ (pay_outcome w miner payable = Broadcast \/ pay_outcome w miner payable = AlreadyQueued)
         /\ forall m, unpaid m (entries ledger') =
              unpaid m (entries ledger ++ arrivals w miner) - (if decide (m = miner) then payable else 0)
     | None => entries ledger' = entries ledger ++ arrivals w miner
     end.
Proof.
  intros Hok ->. pose proof (entries_ok_app_l _ _ Hok) as [Hn Hs].
  destruct (mark_loop_payable miner max 0 (entries ledger) (arrivals w miner) Hn) as (es' & Hm & Hf & Hu); [lia|].
  assert (Forall2 flag_only (entries ledger ++ arrivals w miner) (es' ++ arrivals w miner)) as Hff.
  { apply Forall2_app; [by eapply marked_flag_only|]. apply Forall2_refl_flag. }
  assert (forall m, unpaid m (es' ++ arrivals w miner) = unpaid m (entries ledger ++ arrivals w miner)
            - (if decide (m = miner) then payable_loop miner max 0 (entries ledger) else 0)) as Huu.
  { intros m. rewrite !unpaid_app, Hu, Z.sub_0_r. lia. }
  unfold pay_miner, mark_paid_up_to, payable_atoms_up_to. cbn [appended entries with_entries]. rewrite Hm.
  destruct (pay_outcome w miner _) eqn:Ho; cbn [appended entries with_entries fst].
  - split; [exact Hff|]. split; [done|]. split; [by left|exact Huu].
  - split; [exact Hff|]. split; [done|]. split; [by right|exact Huu].
  - split; [apply Forall2_refl_flag|done].
  - split; [apply Forall2_refl_flag|done].
Qed.

Lemma entries_ok_sublist es es1 es2 : es2 `sublist_of` es1 -> entries_ok (es ++ es1) -> entries_ok (es ++ es2).
Proof.
  intros Hs. revert es. induction Hs as [|e l1 l2 Hs IH|e l1 l2 Hs IH]; intros es Hok; [done|..].
  - rewrite cons_middle, app_assoc in Hok |- *. by apply IH.
  - rewrite cons_middle in Hok. apply IH. by eapply entries_ok_skip.
Qed.

Lemma sat_sub64_spent spendable payable :
  0 <= payable <= sat_sub64 spendable MIN_RELAY_FEE_ATOMS -> MIN_RELAY_FEE_ATOMS < spendable < U64_MAX ->
  sat_sub64 spendable (sat_add64 payable MIN_RELAY_FEE_ATOMS) = spendable - (payable + MIN_RELAY_FEE_ATOMS)
  /\ 0 <= spendable - (payable + MIN_RELAY_FEE_ATOMS).
Proof. unfold MIN_RELAY_FEE_ATOMS. u64_lia. Qed.

Lemma payable_bounds ledger miner max :
  entries_ok (entries ledger) -> 0 <= max -> 0 <= payable_atoms_up_to ledger miner max <= max.
Proof.
  intros [Hn Hs] Hm. unfold payable_atoms_up_to. split; [|by apply payable_loop_le].
  apply payable_loop_ge; [done|lia].
Qed.

(** What arrives before a payment arrives during the loop. *)
Lemma arrived_first w due es before meanwhile later spendable (paid paid' : list (string * Z)) es' :
  (exists new arrived, paid' = paid ++ new /\ arrived `sublist_of` meanwhile ++ later
     /\ paid_exactly w due (es ++ before) es' spendable new arrived) ->
  exists new arrived, paid' = paid ++ new /\ arrived `sublist_of` (before ++ meanwhile) ++ later
    /\ paid_exactly w due es es' spendable new arrived.
Proof.
  intros (new & arrived & H1 & H2 & [P1 P2 P3 P4 P5]). exists new, (before ++ arrived). split; [done|].
  rewrite <- !app_assoc in *. split; [by apply sublist_app|]. split; try done.
Qed.

Lemma pay_loop_spec w due ledger spendable paid :
  entries_ok (entries ledger ++ arriving w due.*1) -> 0 <= spendable < U64_MAX ->
  exists new arrived,
    (pay_loop w due ledger spendable paid).2 = paid ++ new
    /\ arrived `sublist_of` arriving w due.*1
    /\ paid_exactly w due (entries ledger) (entries (pay_loop w due ledger spendable paid).1) spendable new arrived.
Proof.
  revert ledger spendable paid. induction due as [|[miner owed] due IH]; intros ledger spendable paid Hok Hsp.
  { exists [], []. cbn. split; [by rewrite app_nil_r|]. split; [done|]. split; cbn; try done; [lia|..].
    - rewrite app_nil_r. apply Forall2_refl_flag.
    - intros m. rewrite app_nil_r. unfold paid_to. cbn. lia. }
  assert (arriving w ((miner, owed) :: due).*1 = (arrivals_before w miner ++ arrivals w miner) ++ arriving w due.*1) as Harr by done.
  rewrite Harr in *. cbn [pay_loop].
  destruct (Z.leb_spec spendable MIN_RELAY_FEE_ATOMS) as [Hle|Hgt].
  { exists [], []. cbn. split; [by rewrite app_nil_r|]. split; [apply sublist_nil_l|].
    split; cbn; try done; [apply sublist_nil_l|lia|..].
    - rewrite app_nil_r. apply Forall2_refl_flag.
    - intros m. rewrite app_nil_r. unfold paid_to. cbn. lia. }
  apply arrived_first. rewrite <- !app_assoc, app_assoc in Hok.
  change (entries ledger ++ arrivals_before w miner) with (entries (appended (arrivals_before w miner) ledger)) in *.
  generalize dependent (appended (arrivals_before w miner) ledger). clear ledger Harr. intros ledger Hok.
  assert (Hskip : exists new arrived,
    (pay_loop w due ledger spendable paid).2 = paid ++ new /\ arrived `sublist_of` arrivals w miner ++ arriving w due.*1
    /\ paid_exactly w ((miner, owed) :: due) (entries ledger) (entries (pay_loop w due ledger spendable paid).1)
         spendable new arrived).
  { destruct (IH ledger spendable paid) as (new & arrived & H1 & H2 & [P1 P2 P3 P4 P5]); [by eapply entries_ok_skip|done|].
    exists new, arrived. split; [done|]. split; [by apply sublist_inserts_l|]. split; try done. by apply sublist_cons. }
  set (max := sat_sub64 spendable MIN_RELAY_FEE_ATOMS).
  assert (0 <= max) as Hmax by (unfold max, sat_sub64; lia).
  destruct (Z.eqb_spec (payable_atoms_up_to ledger miner max) 0) as [Hz|Hz]; [exact Hskip|].
  assert (entries_ok (entries ledger ++ arrivals w miner)) as Hok1
    by (rewrite app_assoc in Hok; by eapply entries_ok_app_l).
  pose proof (payable_bounds ledger miner max (entries_ok_app_l _ _ Hok1) Hmax) as Hpay.
  pose proof (pay_miner_spec w ledger miner _ max Hok1 eq_refl) as Hspec.
  set (payable := payable_atoms_up_to ledger miner max) in *.
  destruct (pay_miner w ledger miner payable) as [ledger1 [spent|]].
  - destruct Hspec as (Hf & -> & Hsent & Hu).
    destruct (sat_sub64_spent spendable payable Hpay) as [Hsub Hsub0]; [lia|]. rewrite Hsub.
    destruct (IH ledger1 (spendable - (payable + MIN_RELAY_FEE_ATOMS)) (paid ++ [(miner, payable)]))
      as (new & arrived & H1 & H2 & [P1 P2 P3 P4 P5]).
    { apply (flag_only_ok ((entries ledger ++ arrivals w miner) ++ arriving w due.*1)); [|by rewrite <- app_assoc].
      apply Forall2_app; [done|apply Forall2_refl_flag]. }
    { unfold MIN_RELAY_FEE_ATOMS in *. lia. }
    exists ((miner, payable) :: new), (arrivals w miner ++ arrived). rewrite H1, <- app_assoc.
    split; [done|]. split; [by apply sublist_app|]. split.
    + csimpl. by apply sublist_skip.
    + constructor; [split; [cbn; lia|exact Hsent]|done].
    + csimpl. lia.
    + rewrite app_assoc. transitivity (entries ledger1 ++ arrived); [|done].
      apply Forall2_app; [done|apply Forall2_refl_flag].
    + intros m. rewrite P5, paid_to_cons, app_assoc, !(unpaid_app m _ arrived), Hu.
      destruct (decide (m = miner)), (decide (miner = m)); subst; try done; lia.
  - destruct Hspec as [Hf He].
    destruct (IH ledger1 spendable paid) as (new & arrived & H1 & H2 & [P1 P2 P3 P4 P5]); [by rewrite He, <- app_assoc|done|].
    rewrite He, <- app_assoc in P4, P5. exists new, (arrivals w miner ++ arrived).
    split; [done|]. split; [by apply sublist_app|]. split; try done. by apply sublist_cons.
Qed.

Lemma mature_nonneg utxos : Forall (λ u : Z * bool, 0 <= u.1) utxos -> 0 <= mature_atoms utxos.
Proof.
  intros Hn. assert (Forall (Z.le 0) (filter (λ u : Z * bool, u.2 = true) utxos).*1) as Hf.
  { apply Forall_fmap, Forall_forall. intros u [_ Hu]%list_elem_of_filter. rewrite Forall_forall in Hn. by apply Hn. }
  unfold mature_atoms. rewrite sat_sum_spec by done. pose proof (sumZ_nonneg _ Hf). unfold U64_MAX. lia.
Qed.

Lemma appended_nil ledger : appended [] ledger = ledger.
Proof. unfold appended. rewrite app_nil_r. by destruct ledger. Qed.

(** C36: A payout cycle pays exactly. Whatever the wallet command and the node
    answer, and whatever entries other threads append from the sum of the balances to the last
    payment, while the amounts together fit 64 bits: no miner is paid
    twice in the cycle; each recorded payment was broadcast or already queued;
    the payments and their fees stay within the mature balance of the treasury;
    entries only go from unpaid to paid; and every miner's pending balance drops
    by exactly what was sent to it, so nothing is marked paid that was not sent
    and nothing sent stays owed. *)
Theorem payout_cycle_exact `{!IterOrder string Z} w threshold ledger :
  entries_ok (entries ledger ++ cycle_arrivals w (due_miners threshold ledger).*1) ->
  (forall utxos, wallet_utxos w = Some utxos -> mature_atoms utxos < U64_MAX /\ Forall (λ u, 0 <= u.1) utxos) ->
  let '(ledger', paid) := run_cycle w threshold ledger in
  NoDup paid.*1 /\ Forall (was_sent w) paid
  /\ (paid <> [] -> exists utxos, wallet_utxos w = Some utxos
        /\ sumZ ((λ p : string * Z, p.2 + MIN_RELAY_FEE_ATOMS) <$> paid) <= mature_atoms utxos)
  /\ exists arrived, arrived `sublist_of` cycle_arrivals w (due_miners threshold ledger).*1
       /\ Forall2 flag_only (entries ledger ++ arrived) (entries ledger')
       /\ forall m, pending_atoms ledger' m
                    = pending_atoms (with_entries (entries ledger ++ arrived) ledger) m - paid_to m paid.
Proof.
  intros Hok Hm. set (due := due_miners threshold ledger) in *.
  assert (forall es, es `sublist_of` cycle_arrivals w due.*1 ->
    NoDup ([] : list (string * Z)).*1 /\ Forall (was_sent w) []
    /\ (([] : list (string * Z)) <> [] -> exists utxos, wallet_utxos w = Some utxos
          /\ sumZ ((λ p : string * Z, p.2 + MIN_RELAY_FEE_ATOMS) <$> []) <= mature_atoms utxos)
    /\ exists arrived, arrived `sublist_of` cycle_arrivals w due.*1
         /\ Forall2 flag_only (entries ledger ++ arrived) (entries (appended es ledger))
         /\ forall m, pending_atoms (appended es ledger) m
              = pending_atoms (with_entries (entries ledger ++ arrived) ledger) m - paid_to m []) as Hnone.
  { intros es Hes. split; [constructor|]. split; [constructor|]. split; [done|]. exists es. split; [done|].
    split; [apply Forall2_refl_flag|]. intros m. by rewrite paid_to_nil, Z.sub_0_r. }
  unfold run_cycle. fold due. case_bool_decide.
  { specialize (Hnone [] (sublist_nil_l _)). by rewrite appended_nil in Hnone. }
  specialize (Hnone (early_arrivals w) (sublist_inserts_r _ _ _ (reflexivity _))).
  destruct (wallet_addr w); [|exact Hnone]. destruct (wallet_utxos w) as [utxos|] eqn:Hw; [|exact Hnone].
  clear Hnone. destruct (Hm utxos eq_refl) as [Hlt Hnn].
  pose proof (mature_nonneg utxos Hnn) as Hge.
  unfold cycle_arrivals in *. rewrite app_assoc in Hok.
  destruct (pay_loop_spec w due (appended (early_arrivals w) ledger) (mature_atoms utxos) [] Hok)
    as (new & arrived & H1 & H2 & [P1 P2 P3 P4 P5]); [lia|].
  destruct (pay_loop w due (appended (early_arrivals w) ledger) (mature_atoms utxos) []) as [ledger' paid]. cbn [fst snd app] in *. subst paid.
  split.
  { eapply sublist_NoDup; [|exact P1]. unfold due, due_miners. apply NoDup_keys_filter.
    rewrite iter_perm. apply NoDup_fst_map_to_list. }
  split; [done|]. split; [eauto|]. exists (early_arrivals w ++ arrived). split; [by apply sublist_app|].
  cbn [appended with_entries entries] in P4, P5, Hok. rewrite <- app_assoc in P4, P5, Hok. split; [done|]. intros m.
  assert (entries_ok (entries ledger ++ early_arrivals w ++ arrived)) as Hok2
    by (eapply entries_ok_sublist; [|exact Hok]; by apply sublist_app).
  rewrite !pending_is_unpaid; [apply P5|exact Hok2|by eapply flag_only_ok].
Qed.

(** ** A pool with two miners *)
Module Pool.
Definition share (addr : string) (bits : Z) : ShareRecord := {|
  wallet_address := addr; worker_name := "rig"; share_diff_bits := bits; submitted_at_unix := 0 |}.
Definition window : ShareWindow := {|
  window_n := 4; shares := [share "alice" 21; share "bob" 20; share "alice" 20] |}.
Definition ledger : PayoutLedger := {|
  entries := [new_entry 7 "h7" "alice" 1000000000; new_entry 7 "h7" "bob" 600000000;
              new_entry 8 "h8" "alice" 900000000];
  share_window := window |}.

(** Bob's broadcast is refused; blocks are found while the node is asked, before Bob is paid and
    while Alice is. *)
Definition ok_output : CommandOutput := {| success := true; stdout := "ok"; stderr := "" |}.
Definition outside : Outside := {|
  wallet_addr := Some "treasury"%string;
  wallet_utxos := Some [(2000000000, true); (900000000, false)];
  send_command := λ _ _, Some ok_output;
  broadcast_command := λ miner _,
    if bool_decide (miner = "bob"%string)
    then Some {| success := false; stdout := ""; stderr := "tx conflicts with a pending tx" |} else Some ok_output;
  early_arrivals := [new_entry 9 "h9" "alice" 200000000];
  arrivals_before := λ miner, if bool_decide (miner = "bob"%string) then [new_entry 10 "h10" "bob" 300000000] else [];
  arrivals := λ miner, if bool_decide (miner = "alice"%string) then [new_entry 9 "h9" "bob" 100000000] else [] |}.

Lemma entries_fit :
  entries_ok (entries ledger ++ cycle_arrivals outside (due_miners (IterOrder0 := trie_order string Z) 500000000 ledger).*1).
Proof. by_compute. Qed.

Lemma utxos_fit us :
  wallet_utxos outside = Some us -> mature_atoms us < U64_MAX /\ Forall (λ u, 0 <= u.1) us.
Proof. intros [= <-]. split; by_compute. Qed.

Lemma cycle_result :
  let p := run_cycle (IterOrder0 := trie_order string Z) outside 500000000 ledger in
  pending_atoms p.1 "alice" = 0 /\ p.2 = [("alice"%string, 1995000000)].
Proof. split; vm_compute; reflexivity. Qed.
End Pool.

Lemma payout_cycle_exact_witness :
  let '(ledger', paid) := run_cycle (IterOrder0 := trie_order string Z) Pool.outside 500000000 Pool.ledger in
  Forall (was_sent Pool.outside) paid /\ pending_atoms ledger' "alice" = 0 /\ paid = [("alice"%string, 1995000000)].
Proof.
  pose proof (@payout_cycle_exact (trie_order string Z) Pool.outside 500000000 Pool.ledger
    Pool.entries_fit Pool.utxos_fit) as Hc.
  pose proof Pool.cycle_result as [Hp Hr]. revert Hc Hp Hr.
  destruct (run_cycle Pool.outside 500000000 Pool.ledger) as [ledger' paid].
  intros (_ & Hs & _) Hp Hr. exact (conj Hs (conj Hp Hr)).
Defined.

Lemma pplns_split_fair_witness :
  let splits := pplns_split (IterOrder0 := trie_order string Z) Pool.ledger 1000000 "alice" in
  NoDup splits.*1 /\ ("alice"%string, 750000) ∈ splits /\ 0 <= 1000000 - sumZ splits.*2 < 2.
Proof.
  destruct (@pplns_split_fair (trie_order string Z) Pool.ledger 1000000 "alice"
    ltac:(vm_compute; reflexivity) ltac:(by_compute) ltac:(vm_compute; reflexivity)) as (H1 & H2 & H3).
  split; [exact H1|]. split; [|exact H3]. apply H2. by_compute.
Defined.
