(* ===== verification/Json.v ===== *)
(** * JSON values ([serde_json])

    The servers read their requests and the node's answers as [serde_json::Value].
    The crate is a parameter of the model: the class [Json] has the accessors the
    sources call, with their documented results. An instance with the usual
    constructors, whose texts are looked up in a table, serves the examples. *)

From S2P Require Import Prelude.

Local Open Scope Z_scope.

Class Json := {
  json : Type;
  (** [Value::Null] *)
  json_null : json;
  (** [v.is_null()] *)
  is_null : json -> bool;
  (** [serde_json::from_str(text).ok()] *)
  json_parse : string -> option json;
  (** [v.as_object()], [v.as_array()], [v.as_str()], [v.as_u64()], [v.as_bool()] *)
  as_object : json -> option (gmap string json);
  as_array : json -> option (list json);
  as_str : json -> option string;
  as_u64 : json -> option Z;
  as_bool : json -> option bool;
}.

Class JsonLaws (J : Json) : Prop := {
  as_u64_range (v : json) n : as_u64 v = Some n -> is_u64 n;
  null_is_null : is_null json_null = true;
  null_object : as_object json_null = None;
  null_array : as_array json_null = None;
  null_str : as_str json_null = None;
  null_u64 : as_u64 json_null = None;
}.

Section Access.
Context `{Json}.

(** [v.get(key)] *)
Definition json_get (v : json) (key : string) : option json := as_object v ≫= λ o, o !! key.
(** [v[key]] and [v[i]]: [Null] for what is not there. *)
Definition json_field (v : json) (key : string) : json := default json_null (json_get v key).
Definition json_index (v : json) (i : nat) : json := default json_null (as_array v ≫= λ l, l !! i).
(** [v[key] = ..] reaches into an object or makes one of [Null]; it panics on anything else. *)
Definition indexable (v : json) : bool := is_null v || bool_decide (is_Some (as_object v)).
End Access.

Notation "v .[ key ]" := (json_field v key) (at level 2, left associativity, format "v .[ key ]").

(** ** A concrete instance *)
Module Tree.
Inductive value :=
| Null
| Bool (b : bool)
| Number (n : Z)
| Text (s : string)
| Arr (l : list value)
| Obj (fields : list (string * value)).

(** Values with numbers that fit, texts given by a table. *)
Definition tree_json (texts : gmap string value) : Json := {|
  json := value;
  json_null := Null;
  is_null v := match v with Null => true | _ => false end;
  json_parse s := texts !! s;
  as_object v := match v with Obj l => Some (list_to_map l) | _ => None end;
  as_array v := match v with Arr l => Some l | _ => None end;
  as_str v := match v with Text s => Some s | _ => None end;
  as_u64 v := match v with Number n => if decide (is_u64 n) then Some n else None | _ => None end;
  as_bool v := match v with Bool b => Some b | _ => None end;
|}.

Lemma tree_laws texts : JsonLaws (tree_json texts).
Proof.
  split; try done. intros [] n'; cbn; try done. case_decide; [|done]. by intros [= <-].
Qed.
End Tree.
