(* ===== verification/Stratum.v ===== *)
(** * The Stratum server of the pool ([tensorium-pool/src/stratum.rs])

    The shared state, share difficulty, the check of a submitted nonce, the jobs
    fetched from the node and the poller that caches and broadcasts them. The
    handler of one connection is in [StratumConn]. *)

From S2P Require Import Prelude Crypto Hash Block Json PoolAccounting.

Local Open Scope Z_scope.

Definition VARDIFF_WINDOW_SECS : Z := 60.
Definition VARDIFF_TARGET_MIN : Z := 15.
Definition VARDIFF_TARGET_MAX : Z := 60.
Definition VARDIFF_MIN_BITS : Z := 16.
Definition VARDIFF_MAX_BITS : Z := 40.

Record StratumJob := {
  job_id : string;
  job_chain_id : string;
  job_height : Z;
  job_previous_hash : bytes;
  job_merkle_root : bytes;
  epoch_seed : bytes;
  timestamp : Z;
  difficulty_bits : Z;
  job_version : Z;
}.

(** The connection id is the key of the map; the peer's address is only printed. *)
Record WorkerSession := {
  worker : string;
  session_wallet : string;
  authorized_at_unix : Z;
  last_seen_at_unix : Z;
  accepted_shares : Z;
  rejected_shares : Z;
  last_submit_result : string;
  worker_bits : Z;
  vardiff_window_shares : Z;
  vardiff_window_start : Z;
}.

(** The addresses of the node, the treasury and the ledger file are left out. A
    job sender is the queue of the jobs its connection has not read yet. *)
Record StratumState := {
  current_job : option StratumJob;
  initial_bits : Z;
  workers : gmap string WorkerSession;
  shares_accepted : Z;
  shares_rejected : Z;
  stratum_blocks_found : Z;
  job_senders : gmap string (list StratumJob);
  job_template_cache : gmap string string;
  ledger : PayoutLedger;
}.

(** ** Difficulty *)

(** [while d > 1 { d >>= 1; b += 1; }]; a [u64] takes at most 63 rounds. *)
Fixpoint bits_loop (fuel : nat) (d b : Z) : Z :=
  match fuel with
  | O => b
  | S fuel => if d <=? 1 then b else bits_loop fuel (Z.shiftr d 1) (b + 1)
  end.
Definition diff_to_bits (diff : Z) : Z := if diff <=? 1 then 0 else bits_loop 64 diff 0.

Definition bits_to_diff (bits : Z) : Z := shl64 1 bits.

(** The counter is a [u8]: it wraps to 0 on the all-zero hash. *)
Fixpoint zero_bits_loop (bs : bytes) (bits : Z) : Z :=
  match bs with
  | [] => bits
  | b :: bs => if b =? 0 then zero_bits_loop bs ((bits + 8) mod 256)
               else (bits + u8_leading_zeros b) mod 256
  end.
Definition share_zero_bits (hash : bytes) : Z := zero_bits_loop hash 0.

(** ** Field updates of the two records *)
Definition set_session (bits window_shares window_start seen acc rej : Z) (outcome : string)
    (s : WorkerSession) : WorkerSession := {|
  worker := worker s; session_wallet := session_wallet s; authorized_at_unix := authorized_at_unix s;
  last_seen_at_unix := seen; accepted_shares := acc; rejected_shares := rej;
  last_submit_result := outcome; worker_bits := bits; vardiff_window_shares := window_shares;
  vardiff_window_start := window_start |}.

Definition with_workers (m : gmap string WorkerSession) (s : StratumState) : StratumState := {|
  current_job := current_job s; initial_bits := initial_bits s; workers := m;
  shares_accepted := shares_accepted s; shares_rejected := shares_rejected s;
  stratum_blocks_found := stratum_blocks_found s; job_senders := job_senders s;
  job_template_cache := job_template_cache s; ledger := ledger s |}.
Definition with_senders (m : gmap string (list StratumJob)) (s : StratumState) : StratumState := {|
  current_job := current_job s; initial_bits := initial_bits s; workers := workers s;
  shares_accepted := shares_accepted s; shares_rejected := shares_rejected s;
  stratum_blocks_found := stratum_blocks_found s; job_senders := m;
  job_template_cache := job_template_cache s; ledger := ledger s |}.
Definition with_counts (acc rej found : Z) (s : StratumState) : StratumState := {|
  current_job := current_job s; initial_bits := initial_bits s; workers := workers s;
  shares_accepted := acc; shares_rejected := rej; stratum_blocks_found := found;
  job_senders := job_senders s; job_template_cache := job_template_cache s; ledger := ledger s |}.
Definition with_job (job : StratumJob) (cache : gmap string string) (s : StratumState) : StratumState := {|
  current_job := Some job; initial_bits := initial_bits s; workers := workers s;
  shares_accepted := shares_accepted s; shares_rejected := shares_rejected s;
  stratum_blocks_found := stratum_blocks_found s; job_senders := job_senders s;
  job_template_cache := cache; ledger := ledger s |}.
Definition with_ledger (l : PayoutLedger) (s : StratumState) : StratumState := {|
  current_job := current_job s; initial_bits := initial_bits s; workers := workers s;
  shares_accepted := shares_accepted s; shares_rejected := shares_rejected s;
  stratum_blocks_found := stratum_blocks_found s; job_senders := job_senders s;
  job_template_cache := job_template_cache s; ledger := l |}.

(** [StratumState::new] *)
Definition new_stratum (share_diff : Z) (l : PayoutLedger) : StratumState := {|
  current_job := None; initial_bits := diff_to_bits share_diff; workers := ∅;
  shares_accepted := 0; shares_rejected := 0; stratum_blocks_found := 0;
  job_senders := ∅; job_template_cache := ∅; ledger := l |}.

(** ** Nonce texts *)

(** [s.trim_start_matches("0x")] *)
Fixpoint trim_0x (s : string) : string :=
  match s with
  | String c (String d rest) =>
      if Ascii.eqb c (ascii_of_byte 48) && Ascii.eqb d (ascii_of_byte 120) then trim_0x rest else s
  | _ => s
  end.

(** A byte inside a UTF-8 character: a slice must not begin or end before one. *)
Definition continuation (c : Ascii.ascii) : bool :=
  let n := byte_of_ascii c in (128 <=? n) && (n <? 192).
Definition on_boundary (s : string) : bool :=
  match s with String c _ => negb (continuation c) | EmptyString => true end.

(** The loop over the first [n] pairs; a slice off a character boundary panics. *)
Fixpoint nonce_pairs (n : nat) (s : string) : outcome (option bytes) :=
  match n, s with
  | S n, String c (String d rest) =>
      if negb (on_boundary s && on_boundary rest) then Panic
      else match hex_pair c d with
           | Some b => r ← nonce_pairs n rest; Done (option_map (cons b) r)
           | None => Done None
           end
  | _, _ => Done (Some [])
  end.

Definition le_hex_to_u64 (s : string) : outcome (option Z) :=
  r ← nonce_pairs 8 (trim_0x s); Done (option_map le_val r).

Section Stratum.
Context `{Crypto} `{Json} `{!IterOrder string Z}.

(** ** Jobs *)

Definition job_header (job : StratumJob) (n : Z) : BlockHeader := {|
  version := job_version job; chain_id := job_chain_id job; height := job_height job;
  previous_hash := mkHash (job_previous_hash job); merkle_root_field := mkHash (job_merkle_root job);
  timestamp_seconds := timestamp job; leading_zero_bits_field := difficulty_bits job; nonce := n |}.

(** [(zeros, is_share, is_block)] *)
Definition validate_share (job : StratumJob) (nonce_hex : string) (worker_diff_bits : Z) :
    outcome (option (Z * bool * bool)) :=
  n ← le_hex_to_u64 nonce_hex;
  Done (option_map (λ n,
    let zeros := share_zero_bits (hash_bytes (pow_hash (job_header job n) (mkHash (epoch_seed job)))) in
    (zeros, worker_diff_bits <=? zeros, difficulty_bits job <=? zeros)) n).

Definition parse_byte_array (v : json) : option bytes :=
  arr ← as_array v;
  if (length arr <? 32)%nat then None
  else mapM (λ x, (λ n, n mod 256) <$> as_u64 x) (take 32 arr).

(** [hdr[key]] on a map panics when the key is missing. *)
Definition header_field (hdr : gmap string json) (key : string) : outcome json :=
  match hdr !! key with Some v => Done v | None => Panic end.

(** [e?] in a function that returns an option. *)
Definition question {A B} (m : option A) (f : A -> outcome (option B)) : outcome (option B) :=
  match m with Some a => f a | None => Done None end.

(** [ms] is the millisecond of the clock. *)
Definition parse_job_response (ms : Z) (resp : string) : outcome (option (StratumJob * string)) :=
  question (json_parse resp) (λ v,
  question (as_object (v.["template"].["header"])) (λ hdr,
  f ← header_field hdr "chain_id"; question (as_str f) (λ chain,
  f ← header_field hdr "height"; question (as_u64 f) (λ h,
  f ← header_field hdr "leading_zero_bits"; question (as_u64 f) (λ bits,
  f ← header_field hdr "timestamp_seconds"; question (as_u64 f) (λ ts,
  f ← header_field hdr "version";
  let ver := default 1 (as_u64 f) mod U32_MOD in
  question ((hdr !! "previous_hash") ≫= parse_byte_array) (λ prev,
  question ((hdr !! "merkle_root") ≫= parse_byte_array) (λ mroot,
  question (json_get v "epoch_seed" ≫= parse_byte_array) (λ seed,
  Done (Some ({| job_id := "h" +:+ dec_string h +:+ "-" +:+ dec_string ms;
                 job_chain_id := chain; job_height := h; job_previous_hash := prev;
                 job_merkle_root := mroot; epoch_seed := seed; timestamp := ts;
                 difficulty_bits := bits mod 256; job_version := ver |}, resp))))))))))).

Definition gross_from_template (raw : string) : Z :=
  default 0 (v ← json_parse raw;
    as_u64 ((json_index (json_index (v.["template"].["transactions"]) 0).["outputs"] 0).["value_atoms"])).

(** What is sent to [/submitblock]: the cached template with the nonce set, or a
    body with the fields of the job and no transactions. *)
Inductive Submission :=
| FromTemplate (template : json) (n : Z)
| Fallback (job : StratumJob) (n : Z).

(** Can [v["template"]["header"]["nonce"]] be assigned? After it there is a ["template"], so the
    inner fallback is never taken. *)
Definition nonce_assignable (v : json) : bool :=
  indexable v && indexable (v.["template"]) && indexable (v.["template"].["header"]).

Definition submission (job : StratumJob) (n : Z) (raw_template : option string) : outcome Submission :=
  match raw_template ≫= json_parse with
  | Some v => if nonce_assignable v then Done (FromTemplate v n) else Panic
  | None => Done (Fallback job n)
  end.

(** [submit_block] of the Stratum server: the node, or [None] for an address without a port,
    which is given up before the body is made. *)
Definition stratum_submit (node : option (Submission -> bool)) (job : StratumJob) (n : Z)
    (raw_template : option string) : outcome bool :=
  match node with
  | Some accepts => body ← submission job n raw_template; Done (accepts body)
  | None => Done false
  end.

(** ** The poller *)

(** [retain(|k, _| Some(k) == keep)], then the insertion of the new template. *)
Definition cache_template (job : StratumJob) (raw : string) (s : StratumState) : gmap string string :=
  let cache := job_template_cache s in
  let cache := if (2 <=? size cache)%nat
               then filter (λ kv, Some kv.1 = (job_id <$> current_job s)) cache else cache in
  <[job_id job := raw]> cache.

(** [alive] tells whose receiver still exists: the others are pruned. *)
Definition broadcast (alive : string -> bool) (job : StratumJob) (s : StratumState) : StratumState :=
  with_senders ((λ q, q ++ [job]) <$> filter (λ kv, alive kv.1 = true) (job_senders s)) s.

Definition new_job (alive : string -> bool) (job : StratumJob) (raw : string) (s : StratumState) : StratumState :=
  broadcast alive job (with_job job (cache_template job raw s) s).

(** One round of [run_job_poller], with its local [last_height]. *)
Definition poll (alive : string -> bool) (fetched : option (StratumJob * string))
    (last_height : Z) (s : StratumState) : Z * StratumState :=
  match fetched with
  | Some (job, raw) =>
      if job_height job =? last_height then (last_height, s)
      else (job_height job, new_job alive job raw s)
  | None => (last_height, s)
  end.

(** The accept loop registers the connection. *)
Definition connect (connection_id : string) (s : StratumState) : StratumState :=
  with_senders (<[connection_id := []]> (job_senders s)) s.

Definition cleanup (connection_id : string) (s : StratumState) : StratumState :=
  with_senders (delete connection_id (job_senders s)) (with_workers (delete connection_id (workers s)) s).
End Stratum.
