(* ===== verification/StratumConn.v ===== *)
(** * One Stratum connection ([handle_stratum_conn] in [tensorium-pool/src/stratum.rs])

    Every lock section of the handler is a definition of its own;
    [handle_line] runs them in the order of the code, and before each of them
    the other threads may change the shared state ([others]). The socket is a
    predicate [send] that tells, from what was written for this line, whether a
    message can be written; the clock is read once per line. Jobs that arrive
    while the queue is drained count as queued before. *)

From S2P Require Import Prelude Crypto Hash Block Json PoolAccounting Stratum.

Local Open Scope Z_scope.

(** ** Control of the connection loop *)

(** [Closed]: the socket failed, the handler cleans up and ends. [Crashed]: the
    thread panicked, nothing is cleaned up. *)
Inductive Stop := Closed | Crashed.

Definition lift_outcome {S A} (o : outcome A) : stateful S Stop A :=
  lift_result (match o with Done a => Ok a | Panic => Err Crashed end).

(** Where the handler gives the lock back and other threads may act. *)
Inductive Gap :=
| BeforeDrain | BeforeNotify | BeforeAuthorize | BeforeSubmit | BeforeStale | BeforeTemplate
| BeforeReward | BeforeFound | BeforeCount | BeforeName | BeforeCredit | BeforeResend
| BeforeReject | BeforePong.

(** What the handler writes to its client. *)
Inductive Message `{Json} :=
| SubscribeReply (id : json)
| AuthorizeReply (id : json)
| SetDifficulty (diff : Z)
| Notify (job : StratumJob) (worker_diff : Z)
| Ping
| SubmitReply (id : json) (reply : string) (error : option string).

(** One item of [reader.lines()]: a line, a read timeout (is a ping due?) or the
    end of the connection. *)
Inductive Line :=
| Received (text : string)
| Timeout (ping_due : bool)
| Ended.

(** [auth.splitn(2, '.')]: the wallet and the worker name. *)
Fixpoint split_auth (s : string) : string * option string :=
  match s with
  | EmptyString => (EmptyString, None)
  | String c rest =>
      if Ascii.eqb c (ascii_of_byte 46) then (EmptyString, Some rest)
      else let '(a, b) := split_auth rest in (String c a, b)
  end.

(** ** The lock sections *)
Section Sections.
Context `{Crypto} `{Json} `{!IterOrder string Z} (connection_id : string) (now : Z).

(** The difficulty of this worker, the initial one when it is not registered. *)
Definition own_bits (s : StratumState) : Z :=
  match workers s !! connection_id with Some w => worker_bits w | None => initial_bits s end.

Definition own_name (s : StratumState) : string :=
  match workers s !! connection_id with Some w => worker w | None => "unknown" end.

(** [if let Some(w) = s.workers.get_mut(&connection_id)] *)
Definition update_own (f : WorkerSession -> WorkerSession) (s : StratumState) : StratumState :=
  match workers s !! connection_id with
  | Some w => with_workers (<[connection_id := f w]> (workers s)) s
  | None => s
  end.

Definition take_queue (s : StratumState) : StratumState * list StratumJob :=
  match job_senders s !! connection_id with
  | Some q => (with_senders (<[connection_id := []]> (job_senders s)) s, q)
  | None => (s, [])
  end.

Definition new_session (wname wallet : string) (bits : Z) : WorkerSession := {|
  worker := wname; session_wallet := wallet; authorized_at_unix := now; last_seen_at_unix := now;
  accepted_shares := 0; rejected_shares := 0; last_submit_result := "authorized";
  worker_bits := bits; vardiff_window_shares := 0; vardiff_window_start := now |}.

Definition register (wname wallet : string) (s : StratumState) : StratumState :=
  with_workers (<[connection_id := new_session wname wallet (initial_bits s)]> (workers s)) s.

Definition count_stale (s : StratumState) : StratumState :=
  update_own (λ w, set_session (worker_bits w) (vardiff_window_shares w) (vardiff_window_start w)
                     (last_seen_at_unix w) (accepted_shares w) (add64 (rejected_shares w) 1) "rejected-stale" w)
    (with_counts (shares_accepted s) (add64 (shares_rejected s) 1) (stratum_blocks_found s) s).

Definition count_rejected (s : StratumState) : StratumState :=
  update_own (λ w, set_session (worker_bits w) (vardiff_window_shares w) (vardiff_window_start w)
                     now (accepted_shares w) (add64 (rejected_shares w) 1) "rejected" w)
    (with_counts (shares_accepted s) (add64 (shares_rejected s) 1) (stratum_blocks_found s) s).

(** The new difficulty for a rate of [spm] shares per minute. *)
Definition adjust_bits (old spm : Z) : Z :=
  if VARDIFF_TARGET_MAX <? spm then Z.min ((old + 1) mod 256) VARDIFF_MAX_BITS
  else if spm <? VARDIFF_TARGET_MIN then Z.max (Z.max (old - 1) 0) VARDIFF_MIN_BITS
  else old.

(** An accepted share of a session: the update and the new difficulty, if it changed. *)
Definition vardiff (is_block : bool) (w : WorkerSession) : WorkerSession * option Z :=
  let outcome := if is_block then "block" else "accepted" in
  let count := add64 (vardiff_window_shares w) 1 in
  let elapsed := Z.max (sat_sub64 now (vardiff_window_start w)) 1 in
  let acc := add64 (accepted_shares w) 1 in
  if VARDIFF_WINDOW_SECS <=? elapsed then
    let spm := sat_mul64 count 60 / elapsed in
    let new_bits := adjust_bits (worker_bits w) spm in
    (set_session new_bits 0 now now acc (rejected_shares w) outcome w,
     if new_bits =? worker_bits w then None else Some new_bits)
  else (set_session (worker_bits w) count (vardiff_window_start w) now acc (rejected_shares w) outcome w, None).

Definition count_accepted (is_block : bool) (s : StratumState) : StratumState * option Z :=
  let s := with_counts (add64 (shares_accepted s) 1) (shares_rejected s) (stratum_blocks_found s) s in
  match workers s !! connection_id with
  | Some w => let '(w, change) := vardiff is_block w in
              (with_workers (<[connection_id := w]> (workers s)) s, change)
  | None => (s, None)
  end.

Definition new_share (wallet wname : string) (bits : Z) : ShareRecord :=
  {| wallet_address := wallet; worker_name := wname; share_diff_bits := bits; submitted_at_unix := now |}.

Definition credit (share : ShareRecord) (s : StratumState) : StratumState :=
  with_ledger (push_share share (ledger s)) s.

(** The reward of an accepted block: the winning share, the split, one entry each. *)
Definition reward (share : ShareRecord) (height : Z) (hash : string) (gross : Z) (l : PayoutLedger) :
    PayoutLedger :=
  let l := push_share share l in
  foldl (λ l '(addr, g), push (new_entry height hash addr g) l) l (pplns_split l gross (wallet_address share)).

Definition credit_block (share : ShareRecord) (height : Z) (hash : string) (gross : Z) (s : StratumState) :
    StratumState :=
  with_ledger (reward share height hash gross (ledger s)) s.

Definition count_block (s : StratumState) : StratumState :=
  with_counts (shares_accepted s) (shares_rejected s) (add64 (stratum_blocks_found s) 1) s.

Definition touch : StratumState -> StratumState :=
  update_own (λ w, set_session (worker_bits w) (vardiff_window_shares w) (vardiff_window_start w)
                     now (accepted_shares w) (rejected_shares w) (last_submit_result w) w).

Definition cached_template (job : StratumJob) (submitted_id : string) (s : StratumState) : option string :=
  match job_template_cache s !! job_id job with
  | Some raw => Some raw
  | None => job_template_cache s !! submitted_id
  end.
End Sections.

(** ** The handler *)

Record Conn `{Json} := {
  shared : StratumState;
  authorized : bool;
  conn_wallet : string;
  last_job_id : string;
  outbox : list Message;
}.

Section Handler.
Context `{Crypto} `{Json} `{!IterOrder string Z}.
Context (connection_id : string) (now : Z).
Context (send : list Message -> Message -> bool).
(** Does the node accept the submission? [None] if its address has no port. *)
Context (node : option (Submission -> bool)).
Context (others : Gap -> StratumState -> StratumState).

Definition handler (A : Type) : Type := stateful Conn Stop A.

Definition with_shared (s : StratumState) (c : Conn) : Conn := {|
  shared := s; authorized := authorized c; conn_wallet := conn_wallet c;
  last_job_id := last_job_id c; outbox := outbox c |}.
Definition with_identity (auth : bool) (wallet : string) (c : Conn) : Conn := {|
  shared := shared c; authorized := auth; conn_wallet := wallet;
  last_job_id := last_job_id c; outbox := outbox c |}.
Definition with_last_job (jid : string) (c : Conn) : Conn := {|
  shared := shared c; authorized := authorized c; conn_wallet := conn_wallet c;
  last_job_id := jid; outbox := outbox c |}.
Definition with_outbox (out : list Message) (c : Conn) : Conn := {|
  shared := shared c; authorized := authorized c; conn_wallet := conn_wallet c;
  last_job_id := last_job_id c; outbox := out |}.

(** A lock section: what the others did since the last one, then [f]. *)
Definition section {A} (g : Gap) (f : StratumState -> StratumState * A) : handler A := λ c,
  let '(s, a) := f (others g (shared c)) in (with_shared s c, Ok a).
Definition locked (g : Gap) (f : StratumState -> StratumState) : handler () :=
  section g (λ s, (f s, ())).
Definition peek {A} (g : Gap) (f : StratumState -> A) : handler A := section g (λ s, (s, f s)).

(** [if !send_line(..) { return or break }] *)
Definition emit (m : Message) : handler () := λ c,
  if send (outbox c) m then (with_outbox (outbox c ++ [m]) c, Ok ()) else (c, Err Closed).
(** [send_line(..);] with the result ignored. *)
Definition emit_ignored (m : Message) : handler () := λ c,
  ((if send (outbox c) m then with_outbox (outbox c ++ [m]) c else c), Ok ()).

(** The loop over the queued jobs. *)
Fixpoint notify_jobs (jobs : list StratumJob) : handler () :=
  match jobs with
  | [] => mret ()
  | job :: jobs =>
      c ← get_state;
      (if authorized c then
         bits ← peek BeforeNotify (own_bits connection_id);
         _ ← emit (Notify job (bits_to_diff bits));
         modify (with_last_job (job_id job))
       else mret ());;
      notify_jobs jobs
  end.
Definition drain : handler () := jobs ← section BeforeDrain (take_queue connection_id); notify_jobs jobs.

Definition authorize (id params : json) : handler () :=
  let '(wallet, wname) := split_auth (default EmptyString (as_str (json_index params 0))) in
  _ ← modify (λ c, with_identity (authorized c) wallet c);
  start ← section BeforeAuthorize (λ s,
    let s := register connection_id now (default "default" wname) wallet s in
    (s, (initial_bits s, current_job s)));
  let '(bits, maybe_job) := start in
  _ ← modify (λ c, with_identity true wallet c);
  _ ← emit (AuthorizeReply id);
  _ ← emit (SetDifficulty (bits_to_diff bits));
  match maybe_job with
  | Some job => _ ← emit (Notify job (bits_to_diff bits)); modify (with_last_job (job_id job))
  | None => mret ()
  end.

(** The branch [if is_block]. *)
Definition found_block (job : StratumJob) (nonce_hex submitted_id : string) (bits : Z) : handler () :=
  n ← lift_outcome (le_hex_to_u64 nonce_hex);
  let n := default 0 n in
  found ← peek BeforeTemplate (λ s, (cached_template job submitted_id s, own_name connection_id s));
  let '(raw, wname) := found in
  c ← get_state;
  accepted ← lift_outcome (stratum_submit node job n raw);
  (if (accepted : bool) then
     locked BeforeReward
       (credit_block (new_share now (conn_wallet c) wname bits) (job_height job)
          (hex_lower (hash_bytes (header_hash (job_header job n))))
          (match raw with Some raw => gross_from_template raw | None => 0 end))
   else mret ());;
  locked BeforeFound count_block.

Definition accept_share (id : json) (job : StratumJob) (nonce_hex submitted_id : string) (bits : Z)
    (is_block : bool) : handler () :=
  _ ← (if is_block then found_block job nonce_hex submitted_id bits else mret ());
  change ← section BeforeCount (count_accepted connection_id now is_block);
  c ← get_state;
  _ ← (if is_block then mret ()
       else
         wname ← peek BeforeName (own_name connection_id);
         locked BeforeCredit (credit (new_share now (conn_wallet c) wname bits)));
  _ ← (match change with
       | Some new_bits =>
           _ ← emit (SetDifficulty (bits_to_diff new_bits));
           maybe_job ← peek BeforeResend current_job;
           match maybe_job with
           | Some job => emit (Notify job (bits_to_diff new_bits))
           | None => mret ()
           end
       | None => mret ()
       end);
  emit (SubmitReply id "accepted" None).

Definition submit (id params : json) : handler () :=
  c ← get_state;
  if negb (authorized c) then mret ()
  else
    let submitted_id := default EmptyString (as_str (params.["job_id"])) in
    let nonce_hex := default "0" (as_str (params.["nonce"])) in
    view ← peek BeforeSubmit (λ s, (current_job s, own_bits connection_id s));
    match view with
    | (None, _) => emit (SubmitReply id "rejected" None)
    | (Some job, bits) =>
        if negb (bool_decide (job_id job = submitted_id)) && negb (bool_decide (submitted_id = last_job_id c)) then
          _ ← locked BeforeStale (count_stale connection_id);
          emit_ignored (SubmitReply id "rejected" (Some "stale"))
        else
          verdict ← lift_outcome (validate_share job nonce_hex bits);
          match verdict with
          | Some (_, true, is_block) => accept_share id job nonce_hex submitted_id bits is_block
          | _ => _ ← locked BeforeReject (count_rejected connection_id now);
                 emit (SubmitReply id "rejected" None)
          end
    end.

Definition dispatch (msg : json) : handler () :=
  let method := default EmptyString (as_str (msg.["method"])) in
  let id := msg.["id"] in
  if bool_decide (method = "mining.subscribe") then emit (SubscribeReply id)
  else if bool_decide (method = "mining.authorize") then authorize id (msg.["params"])
  else if bool_decide (method = "mining.submit") then submit id (msg.["params"])
  else if bool_decide (method = "mining.pong") then locked BeforePong (touch connection_id now)
  else mret ().

(** One iteration of the read loop. *)
Definition handle_line (line : Line) : handler () :=
  _ ← drain;
  match line with
  | Ended => lift_result (Err Closed)
  | Timeout ping_due => c ← get_state; if authorized c && ping_due then emit Ping else mret ()
  | Received text =>
      if bool_decide (text = EmptyString) then mret ()
      else match json_parse text with Some msg => dispatch msg | None => mret () end
  end.

(** The loop ends on [Closed], after the cleanup; a panic skips it. The flag
    tells whether the loop goes on. *)
Definition serve_line (line : Line) (c : Conn) : Conn * bool :=
  match handle_line line (with_outbox [] c) with
  | (c, Ok _) => (c, true)
  | (c, Err Closed) => (with_shared (cleanup connection_id (shared c)) c, false)
  | (c, Err Crashed) => (c, false)
  end.
End Handler.

(** * The share check agrees with consensus

    The nonce text, the zero count and the verdict of [validate_share] against
    the proof-of-work check of the node; the bounds of the difficulty helpers. *)

(** ** Zero bits *)
Lemma u8_leading_zeros_range b : is_u8 b -> b <> 0 -> 0 <= u8_leading_zeros b <= 7.
Proof.
  unfold is_u8, u8_leading_zeros. intros Hb Hn. rewrite (proj2 (Z.eqb_neq b 0)) by done.
  pose proof (Z.log2_nonneg b). assert (Z.log2 b < 8); [|lia]. apply Z.log2_lt_pow2; lia.
Qed.

(** The [u8] counter is the consensus count unless all bytes are zero. *)
Lemma zero_bits_loop_spec bs a :
  bytes_ok bs -> 0 <= a -> a + 8 * Z.of_nat (length bs) <= 256 -> Exists (λ b, b <> 0) bs ->
  zero_bits_loop bs a = leading_zero_bits_of bs a.
Proof.
  intros Hb; revert a; induction Hb as [|b bs Hb _ IH]; intros a Ha Hlen Hex; [inversion Hex|].
  cbn [zero_bits_loop leading_zero_bits_of]. cbn [length] in Hlen. rewrite Nat2Z.inj_succ in Hlen.
  destruct (Z.eqb_spec b 0) as [->|Hne].
  - apply Exists_cons in Hex as [Hex|Hex]; [done|].
    assert (0 < Z.of_nat (length bs)) by (destruct bs; [inversion Hex|cbn [length]; lia]).
    rewrite Z.mod_small by lia. apply IH; [lia|lia|done].
  - pose proof (u8_leading_zeros_range b Hb Hne). rewrite Z.mod_small; lia.
Qed.

Lemma share_zero_bits_spec h :
  hash_ok h -> h <> ZERO -> share_zero_bits (hash_bytes h) = leading_zero_bits h.
Proof.
  intros [Hl Hb] Hz. apply zero_bits_loop_spec; [done|lia|lia|].
  apply Exists_exists. destruct h as [bs]. cbn [hash_bytes] in *.
  destruct (decide (Forall (λ b, b = 0) bs)) as [Hall|Hn].
  - exfalso. apply Hz. unfold ZERO. f_equal. rewrite <- Hl. clear -Hall.
    induction Hall as [|b l -> _ IH]; [done|]. cbn. by f_equal.
  - apply not_Forall_Exists in Hn; [|apply _]. by apply Exists_exists in Hn.
Qed.

(** The wrap-around: the best of all hashes counts as no work. *)
Lemma share_zero_bits_wraps : share_zero_bits (hash_bytes ZERO) = 0 /\ leading_zero_bits ZERO = 256.
Proof. by vm_compute. Qed.

(** ** Nonce texts *)
Lemma hex_digit_plain n : 0 <= n < 16 -> continuation (hex_digit n) = false.
Proof.
  intros Hn. unfold continuation, hex_digit.
  rewrite byte_of_ascii_of_byte by (unfold is_u8; destruct (n <? 10); lia).
  destruct (n <? 10) eqn:E; apply andb_false_intro1, Z.leb_gt; lia.
Qed.

Lemma hex_digit_range b : is_u8 b -> 0 <= b / 16 < 16 /\ 0 <= b mod 16 < 16.
Proof. unfold is_u8. intros. split; [|apply Z.mod_pos_bound; lia]. split; [apply Z.div_pos; lia|apply Z.div_lt_upper_bound; lia]. Qed.

Lemma hex_lower_boundary bs : bytes_ok bs -> on_boundary (hex_lower bs) = true.
Proof.
  destruct 1 as [|b bs Hb _]; [done|]. cbn. rewrite hex_digit_plain; [done|]. by apply hex_digit_range.
Qed.

Lemma nonce_pairs_lower bs : bytes_ok bs -> nonce_pairs (length bs) (hex_lower bs) = Done (Some bs).
Proof.
  induction 1 as [|b bs Hb Hbs IH]; [done|]. cbn [length nonce_pairs hex_lower].
  rewrite (hex_lower_boundary bs) by done. cbn [on_boundary].
  rewrite hex_digit_plain by by apply hex_digit_range. cbn [negb andb].
  rewrite hex_pair_digits by done. rewrite IH. done.
Qed.

(** A lower-case digit is never the [x] of a prefix. *)
Lemma trim_0x_lower bs : bytes_ok bs -> trim_0x (hex_lower bs) = hex_lower bs.
Proof.
  destruct 1 as [|b bs Hb _]; [done|]. cbn [hex_lower trim_0x].
  destruct (hex_digit_range b Hb) as [_ Hd].
  assert (Ascii.eqb (hex_digit (b mod 16)) (ascii_of_byte 120) = false) as ->; [|by rewrite andb_false_r].
  apply Ascii.eqb_neq. intros E. apply (f_equal byte_of_ascii) in E. unfold hex_digit in E.
  rewrite !byte_of_ascii_of_byte in E by (unfold is_u8; destruct (b mod 16 <? 10); lia).
  destruct (b mod 16 <? 10); lia.
Qed.

(** The text a miner sends for a nonce. *)
Definition nonce_text (n : Z) : string := hex_lower (le_bytes 8 n).

Lemma nonce_text_parses n : is_u64 n -> le_hex_to_u64 (nonce_text n) = Done (Some n).
Proof.
  intros Hn. unfold le_hex_to_u64, nonce_text. rewrite trim_0x_lower by apply le_bytes_ok.
  rewrite <- (length_le_bytes 8 n) at 1. rewrite nonce_pairs_lower by apply le_bytes_ok.
  cbn [mbind outcome_bind option_map]. rewrite le_val_le_bytes. rewrite Z.mod_small; [done|]. exact Hn.
Qed.

(** ** Difficulty *)
Lemma bits_loop_spec fuel d b :
  1 <= d < 2 ^ (Z.of_nat fuel) -> bits_loop fuel d b = b + Z.log2 d.
Proof.
  revert d b. induction fuel as [|fuel IH]; intros d b Hd.
  { cbn in Hd. lia. }
  cbn [bits_loop]. destruct (Z.leb_spec d 1).
  - assert (d = 1) as -> by lia. cbn. lia.
  - rewrite Nat2Z.inj_succ, Z.pow_succ_r in Hd by lia. rewrite Z.shiftr_div_pow2, Z.pow_1_r by lia.
    rewrite IH by (split; [apply Z.div_le_lower_bound; lia|apply Z.div_lt_upper_bound; lia]).
    assert (1 <= Z.log2 d) by (apply Z.log2_le_pow2; lia).
    pose proof (Z.log2_shiftr d 1) as E. rewrite Z.shiftr_div_pow2, Z.pow_1_r in E by lia. lia.
Qed.

Lemma diff_to_bits_log2 diff : is_u64 diff -> diff_to_bits diff = Z.log2 diff.
Proof.
  intros [H1 H2]. unfold diff_to_bits. destruct (Z.leb_spec diff 1).
  - assert (diff = 0 \/ diff = 1) as [-> | ->] by lia; done.
  - rewrite bits_loop_spec; [lia|]. split; [lia|]. exact H2.
Qed.

Lemma diff_to_bits_range diff : is_u64 diff -> 0 <= diff_to_bits diff <= 63.
Proof.
  intros H. rewrite diff_to_bits_log2 by done. destruct H as [H1 H2]. split; [apply Z.log2_nonneg|].
  destruct (decide (diff = 0)) as [->|]; [done|]. assert (Z.log2 diff < 64); [|lia].
  apply Z.log2_lt_pow2; [lia|]. exact H2.
Qed.

(** ** The verdict *)
Section Verdict.
Context `{Crypto}.

Definition work_hash (job : StratumJob) (n : Z) : Hash256 :=
  pow_hash (job_header job n) (mkHash (epoch_seed job)).

Lemma validate_share_text job n bits :
  is_u64 n ->
  validate_share job (nonce_text n) bits
  = let zeros := share_zero_bits (hash_bytes (work_hash job n)) in
    Done (Some (zeros, bits <=? zeros, difficulty_bits job <=? zeros)).
Proof. intros Hn. unfold validate_share. by rewrite nonce_text_parses. Qed.

Lemma work_hash_ok `{!CryptoLaws _} job n : hash_ok (work_hash job n).
Proof. unfold work_hash, pow_hash, TensorHash.pow_hash. split; cbn [hash_bytes]; auto with crypto. Qed.

(** The pool and the node judge a nonce alike. For the text of any 64-bit
    nonce whose proof-of-work hash is not the all-zero one, [validate_share]
    succeeds, reports a block exactly when the header of the job with that nonce
    meets the work the consensus rules demand of it, and reports a share exactly
    when the consensus zero count reaches the difficulty of the worker. *)
Theorem pool_verdict_is_consensus `{!CryptoLaws _} job n bits :
  is_u64 n -> work_hash job n <> ZERO ->
  validate_share job (nonce_text n) bits
  = Done (Some (leading_zero_bits (work_hash job n),
                hash_meets_work (work_hash job n) bits,
                header_meets_work (job_header job n) (mkHash (epoch_seed job)))).
Proof.
  intros Hn Hz. rewrite validate_share_text by done. cbv zeta.
  by rewrite share_zero_bits_spec by (apply work_hash_ok || done).
Qed.
End Verdict.
