(* ===== verification/StratumInv.v ===== *)
(** * Invariants of the Stratum server under any interleaving

    The lock sections of all connections and of the poller as a step relation
    on the shared state, the invariant every step keeps, and the proof that a
    connection's handler only ever makes such steps, whatever the others do. *)

From S2P Require Import Prelude Crypto Hash Block Json PoolAccounting Stratum StratumConn.
From stdpp Require Import relations.

Local Open Scope Z_scope.

(** The difficulties a worker can have, from the initial one. *)
Definition bits_between (init b : Z) : Prop :=
  Z.min init VARDIFF_MIN_BITS <= b <= Z.max init VARDIFF_MAX_BITS.

Section Inv.
Context `{Crypto} `{Json} `{!IterOrder string Z}.

(** [bits] was checked: a nonce of some job has so many zeros. *)
Definition verified (bits : Z) : Prop :=
  exists job nonce_hex zeros is_block, validate_share job nonce_hex bits = Done (Some (zeros, true, is_block)).

(** One lock section of one thread. *)
Inductive stratum_step (s : StratumState) : StratumState -> Prop :=
| step_connect id : stratum_step s (connect id s)
| step_cleanup id : stratum_step s (cleanup id s)
| step_take id : stratum_step s (take_queue id s).1
| step_register id now wname wallet : stratum_step s (register id now wname wallet s)
| step_stale id : stratum_step s (count_stale id s)
| step_rejected id now : stratum_step s (count_rejected id now s)
| step_accepted id now is_block : stratum_step s (count_accepted id now is_block s).1
| step_credit now wallet wname bits :
    bits_between (initial_bits s) bits -> verified bits ->
    stratum_step s (credit (new_share now wallet wname bits) s)
| step_block now wallet wname bits height hash gross :
    bits_between (initial_bits s) bits -> verified bits ->
    stratum_step s (credit_block (new_share now wallet wname bits) height hash gross s)
| step_count_block : stratum_step s (count_block s)
| step_touch id now : stratum_step s (touch id now s)
| step_poll alive job raw ms :
    parse_job_response ms raw = Done (Some (job, raw)) -> stratum_step s (new_job alive job raw s).

(** A ledger entry whose fee and net are the split of its gross. *)
Definition entry_split (e : PayoutEntry) : Prop :=
  (net_payout_atoms e, pool_fee_atoms e) = split_fee (gross_reward_atoms e) POOL_FEE_BPS.

Definition share_sound (init : Z) (sh : ShareRecord) : Prop :=
  bits_between init (share_diff_bits sh) /\ verified (share_diff_bits sh).

(** The current job is in the cache, as the text it was parsed from. *)
Definition job_cached (s : StratumState) : Prop :=
  forall job, current_job s = Some job ->
    exists raw ms, job_template_cache s !! job_id job = Some raw
                   /\ parse_job_response ms raw = Done (Some (job, raw)).

Record stratum_ok (init : Z) (n : nat) (s : StratumState) : Prop := {
  ok_initial : initial_bits s = init;
  ok_workers : map_Forall (λ _ w, bits_between init (worker_bits w)) (workers s);
  ok_window_size : window_n (share_window (ledger s)) = n;
  ok_window : (length (shares (share_window (ledger s))) <= n)%nat;
  ok_shares : Forall (share_sound init) (shares (share_window (ledger s)));
  ok_entries : Forall entry_split (entries (ledger s));
  ok_cached : job_cached s;
  ok_cache_size : (size (job_template_cache s) <= 2)%nat;
}.

(** A text a job was parsed from can be sent back: the body of a found block is made without a panic. *)
Lemma parsed_template_sends `{!JsonLaws _} ms raw job job' n :
  parse_job_response ms raw = Done (Some (job, raw)) ->
  exists v, json_parse raw = Some v /\ submission job' n (Some raw) = Done (FromTemplate v n).
Proof.
  unfold parse_job_response, question. destruct (json_parse raw) as [v|] eqn:Hv; [|done].
  destruct (as_object (v.["template"].["header"])) as [hdr|] eqn:Hh; [|done]. intros _. exists v. split; [done|].
  assert (forall (w : json) key o, as_object (w.[key]) = Some o -> indexable w = true) as Hix.
  { intros w key o. unfold json_field, json_get, indexable. destruct (as_object w) as [ow|]; [by rewrite orb_true_r|].
    cbn [mbind option_bind default]. by rewrite null_object. }
  assert (indexable (v.["template"]) = true) as Ht by by eapply Hix.
  assert (indexable (v.["template"].["header"]) = true) as Hd by (unfold indexable; by rewrite Hh, orb_true_r).
  assert (indexable v = true) as Hw.
  { unfold json_field at 1, json_get at 1 in Hh. destruct (as_object (v.["template"])) as [ot|] eqn:Ho; [by eapply Hix|].
    cbn [mbind option_bind default] in Hh. by rewrite null_object in Hh. }
  unfold submission. cbn [mbind option_bind]. rewrite Hv. unfold nonce_assignable. by rewrite Hw, Ht, Hd.
Qed.

Lemma current_job_sends `{!JsonLaws _} init n s job job' k :
  stratum_ok init n s -> current_job s = Some job ->
  exists raw v, job_template_cache s !! job_id job = Some raw /\ submission job' k (Some raw) = Done (FromTemplate v k).
Proof.
  intros Hok Hj. destruct (ok_cached _ _ _ Hok _ Hj) as (raw & ms & Hc & Hp).
  destruct (parsed_template_sends ms raw job job' k Hp) as (v & _ & Hs). by exists raw, v.
Qed.

Lemma bits_between_self init : bits_between init init.
Proof. unfold bits_between. lia. Qed.

Lemma adjust_bits_between init old spm :
  0 <= init <= 63 -> bits_between init old -> bits_between init (adjust_bits old spm).
Proof.
  unfold bits_between, adjust_bits, VARDIFF_MIN_BITS, VARDIFF_MAX_BITS. intros Ho Hb.
  repeat case_match; Z.div_mod_to_equations; lia.
Qed.

(** A session update that keeps the difficulty in bounds keeps the invariant. *)
Lemma workers_ok_update init id f s :
  (forall w, bits_between init (worker_bits w) -> bits_between init (worker_bits (f w))) ->
  map_Forall (λ _ w, bits_between init (worker_bits w)) (workers s) ->
  map_Forall (λ _ w, bits_between init (worker_bits w)) (workers (update_own id f s)).
Proof.
  intros Hf Hw. unfold update_own. destruct (workers s !! id) as [w|] eqn:E; [|done].
  apply map_Forall_insert_2; [apply Hf, (Hw id w E)|done].
Qed.

Lemma update_own_frame id f s :
  initial_bits (update_own id f s) = initial_bits s /\ ledger (update_own id f s) = ledger s
  /\ current_job (update_own id f s) = current_job s
  /\ job_template_cache (update_own id f s) = job_template_cache s
  /\ job_senders (update_own id f s) = job_senders s.
Proof. unfold update_own. by destruct (workers s !! id). Qed.

Lemma ok_update_own init n id f s :
  (forall w, bits_between init (worker_bits w) -> bits_between init (worker_bits (f w))) ->
  stratum_ok init n s -> stratum_ok init n (update_own id f s).
Proof.
  intros Hf []. destruct (update_own_frame id f s) as (E1 & E2 & E3 & E4 & _).
  split; rewrite ?E1, ?E2, ?E4; try done; [by apply workers_ok_update|].
  unfold job_cached. by rewrite E3, E4.
Qed.

(** The parts of the state the invariant reads. *)
Lemma ok_frame init n s s' :
  initial_bits s' = initial_bits s -> workers s' = workers s -> ledger s' = ledger s ->
  current_job s' = current_job s -> job_template_cache s' = job_template_cache s ->
  stratum_ok init n s -> stratum_ok init n s'.
Proof.
  intros E1 E2 E3 E4 E5 []. split; rewrite ?E1, ?E2, ?E3, ?E5; try done.
  unfold job_cached. by rewrite E4, E5.
Qed.

Lemma ok_ledger init n s l :
  stratum_ok init n s -> window_n (share_window l) = n ->
  (length (shares (share_window l)) <= n)%nat -> Forall (share_sound init) (shares (share_window l)) ->
  Forall entry_split (entries l) -> stratum_ok init n (with_ledger l s).
Proof. intros []. by split. Qed.

Lemma ok_accepted init n id now is_block s :
  0 <= init <= 63 -> stratum_ok init n s -> stratum_ok init n (count_accepted id now is_block s).1.
Proof.
  intros Hi Hok. unfold count_accepted.
  set (s1 := with_counts _ _ _ s).
  assert (stratum_ok init n s1) as Hok1 by by eapply ok_frame; [..|exact Hok].
  clearbody s1. cbn. destruct (workers s1 !! id) as [w|] eqn:E; [|done].
  destruct (vardiff now is_block w) as [w' change] eqn:Ev.
  assert (bits_between init (worker_bits w)) as Hb by exact (ok_workers _ _ _ Hok1 id w E).
  assert (bits_between init (worker_bits w')).
  { unfold vardiff in Ev. case_match; injection Ev as <- <-; cbn; [by apply adjust_bits_between|done]. }
  destruct Hok1. split; try done. cbn. by apply map_Forall_insert_2.
Qed.

(** Pushing a share keeps the window within its size. *)
Lemma window_push_ok n (P : ShareRecord -> Prop) share w :
  window_n w = n -> (0 < n)%nat -> (length (shares w) <= n)%nat -> Forall P (shares w) -> P share ->
  window_n (window_push share w) = n /\ (length (shares (window_push share w)) <= n)%nat
  /\ Forall P (shares (window_push share w)).
Proof.
  intros Hn Hpos Hl Hs Hp. unfold window_push. cbn. split; [done|]. rewrite Hn. split.
  - rewrite length_app. cbn. destruct (Nat.leb_spec n (length (shares w))); rewrite ?length_drop; lia.
  - apply Forall_app. split; [|by constructor]. case_match; [by apply Forall_drop|done].
Qed.

Lemma new_entry_split height hash addr g : entry_split (new_entry height hash addr g).
Proof. unfold entry_split, new_entry. by destruct (split_fee g POOL_FEE_BPS) as [net fee] eqn:E. Qed.

(** The entries of a reward, in the order of the split. *)
Lemma reward_entries share height hash gross l :
  reward share height hash gross l
  = with_entries (entries l ++ ((λ p : string * Z, new_entry height hash p.1 p.2)
                     <$> pplns_split (push_share share l) gross (wallet_address share)))
      (push_share share l).
Proof.
  unfold reward. generalize (pplns_split (push_share share l) gross (wallet_address share)).
  change (entries l) with (entries (push_share share l)). generalize (push_share share l). clear l.
  intros l sp. revert l. induction sp as [|[a g] sp IH]; intros l; cbn [foldl fmap list_fmap].
  - rewrite app_nil_r. by destruct l.
  - rewrite IH. unfold push, with_entries. cbn. by rewrite <- app_assoc.
Qed.

Lemma ok_credit init n share s :
  (0 < n)%nat -> share_sound init share -> stratum_ok init n s -> stratum_ok init n (credit share s).
Proof.
  intros Hn Hsh Hok. destruct (window_push_ok n (share_sound init) share (share_window (ledger s))) as (H1 & H2 & H3);
    try apply Hok; try done. apply ok_ledger; try done. apply Hok.
Qed.

Lemma ok_credit_block init n share height hash gross s :
  (0 < n)%nat -> share_sound init share -> stratum_ok init n s ->
  stratum_ok init n (credit_block share height hash gross s).
Proof.
  intros Hn Hsh Hok. unfold credit_block. rewrite reward_entries.
  destruct (window_push_ok n (share_sound init) share (share_window (ledger s))) as (H1 & H2 & H3);
    try apply Hok; try done. apply ok_ledger; try done. cbn.
  apply Forall_app. split; [apply Hok|]. apply Forall_fmap, Forall_true. intros p. apply new_entry_split.
Qed.

Lemma cache_template_lookup job raw s : cache_template job raw s !! job_id job = Some raw.
Proof. apply lookup_insert_eq. Qed.

Lemma cache_template_size job raw s :
  (size (job_template_cache s) <= 2)%nat -> (size (cache_template job raw s) <= 2)%nat.
Proof.
  intros Hs. unfold cache_template. cbv zeta. set (m := if (2 <=? _)%nat then _ else _).
  assert (size m <= 1)%nat as Hm.
  { subst m. destruct (Nat.leb_spec 2 (size (job_template_cache s))); [|lia].
    destruct (current_job s) as [j|]; cbn [fmap option_fmap option_map].
    - transitivity (size (filter (λ kv : string * string, kv.1 = job_id j) (job_template_cache s))).
      { apply map_subseteq_size, map_filter_subseteq_ext. intros i x _. by intros [= ->]. }
      etransitivity; [apply map_subseteq_size
        with (m2 := match job_template_cache s !! job_id j with Some x => {[ job_id j := x ]} | None => ∅ end)|].
      + apply map_subseteq_spec. intros k x [Hx Hk]%map_lookup_filter_Some. cbn in Hk. subst k.
        rewrite Hx. by rewrite lookup_singleton_eq.
      + destruct (job_template_cache s !! job_id j); [by rewrite map_size_singleton|rewrite map_size_empty; lia].
    - rewrite (proj2 (map_empty_filter _ _)); [rewrite map_size_empty; lia|]. by intros k x _. }
  destruct (m !! job_id job) eqn:E; [rewrite map_size_insert_Some by done; lia|].
  rewrite map_size_insert_None by done. lia.
Qed.

Lemma ok_new_job init n alive job raw ms s :
  parse_job_response ms raw = Done (Some (job, raw)) -> stratum_ok init n s ->
  stratum_ok init n (new_job alive job raw s).
Proof.
  intros Hp []. split; try done.
  - intros j [= <-]. exists raw, ms. split; [|done]. apply cache_template_lookup.
  - cbn. by apply cache_template_size.
Qed.

(** Every lock section keeps the invariant. *)
Lemma step_ok init n s s' :
  0 <= init <= 63 -> (0 < n)%nat -> stratum_ok init n s -> stratum_step s s' -> stratum_ok init n s'.
Proof.
  intros Hi Hn Hok Hstep. pose proof (ok_initial _ _ _ Hok) as Hinit.
  destruct Hstep; try (by eapply ok_frame; [..|exact Hok]).
  - destruct Hok. split; try done. cbn. by apply map_Forall_delete.
  - unfold take_queue. destruct (job_senders s !! id); [|done]. by eapply ok_frame; [..|exact Hok].
  - destruct Hok. split; try done. cbn. apply map_Forall_insert_2; [|done]. cbn. rewrite Hinit. apply bits_between_self.
  - apply ok_update_own; [done|]. by eapply ok_frame; [..|exact Hok].
  - apply ok_update_own; [done|]. by eapply ok_frame; [..|exact Hok].
  - by apply ok_accepted.
  - apply ok_credit; [done| |done]. rewrite Hinit in *. by split.
  - apply ok_credit_block; [done| |done]. rewrite Hinit in *. by split.
  - by apply ok_update_own.
  - by eapply ok_new_job.
Qed.

Lemma steps_ok init n s s' :
  0 <= init <= 63 -> (0 < n)%nat -> stratum_ok init n s -> rtc stratum_step s s' -> stratum_ok init n s'.
Proof. intros Hi Hn Hok. induction 1; [done|]. eauto using step_ok. Qed.

(** The ledger the server starts from: empty, or saved by an earlier run. *)
Record ledger_sound (init : Z) (n : nat) (l : PayoutLedger) : Prop := {
  sound_size : window_n (share_window l) = n;
  sound_length : (length (shares (share_window l)) <= n)%nat;
  sound_shares : Forall (share_sound init) (shares (share_window l));
  sound_entries : Forall entry_split (entries l);
}.

Lemma new_stratum_ok diff l n :
  ledger_sound (diff_to_bits diff) n l -> stratum_ok (diff_to_bits diff) n (new_stratum diff l).
Proof.
  intros []. split; try done. cbn. rewrite map_size_empty. lia.
Qed.
End Inv.

(** ** The handler only makes steps *)
Section Refine.
Context `{Crypto} `{Json} `{!IterOrder string Z}.
Context (init : Z) (n : nat) (Hinit : 0 <= init <= 63) (Hn : (0 < n)%nat).
Context (connection_id : string) (now : Z) (send : list Message -> Message -> bool) (node : option (Submission -> bool)).
Context (others : Gap -> StratumState -> StratumState).
Context (Hothers : forall g s, rtc stratum_step s (others g s)).

(** From a good state, [m] makes steps of the relation and returns a value in [Q]. *)
Definition safe {A} (m : handler A) (Q : A -> Prop) : Prop := forall c,
  stratum_ok init n (shared c) ->
  rtc stratum_step (shared c) (shared (m c).1) /\ forall a, (m c).2 = Ok a -> Q a.

Lemma safe_bind {A B} (m : handler A) (f : A -> handler B) (Q : A -> Prop) (R : B -> Prop) :
  safe m Q -> (forall a, Q a -> safe (f a) R) -> safe (m ≫= f) R.
Proof.
  intros Hm Hf c Hc. destruct (Hm c Hc) as [Hs Hq]. unfold mbind, stateful_bind.
  destruct (m c) as [c1 [a|e]]; cbn [fst snd] in *; [|by split].
  destruct (Hf a (Hq a eq_refl) c1) as [Hs2 Hr]; [by eapply steps_ok|].
  split; [by etransitivity|done].
Qed.

Lemma safe_ret {A} (a : A) (Q : A -> Prop) : Q a -> safe (mret a) Q.
Proof. intros Ha c _. split; [done|]. by intros ? [= <-]. Qed.

Lemma safe_get : safe get_state (λ _, True).
Proof. by intros c _. Qed.

Lemma safe_modify f : (forall c, shared (f c) = shared c) -> safe (modify f) (λ _, True).
Proof. intros Hf c _. cbn. by rewrite Hf. Qed.

Lemma safe_lift {A} (r : result Stop A) (Q : A -> Prop) : (forall a, r = Ok a -> Q a) -> safe (lift_result r) Q.
Proof. by intros Hr c _. Qed.

Lemma safe_emit m : safe (emit send m) (λ _, True).
Proof. intros c _. unfold emit. destruct (send _ _); (split; [|by intros]); cbn; try apply rtc_refl. Qed.

Lemma safe_emit_ignored m : safe (emit_ignored send m) (λ _, True).
Proof. intros c _. unfold emit_ignored. cbn. by destruct (send _ _). Qed.

Lemma safe_section {A} g (f : StratumState -> StratumState * A) (Q : A -> Prop) :
  (forall s, stratum_ok init n s -> rtc stratum_step s (f s).1 /\ Q (f s).2) -> safe (section others g f) Q.
Proof.
  intros Hf c Hc. assert (stratum_ok init n (others g (shared c))) as Ho by by eapply steps_ok.
  destruct (Hf _ Ho) as [Hs Hq]. unfold section.
  destruct (f (others g (shared c))) as [s a]. cbn in *. split; [etransitivity; [apply Hothers|exact Hs]|]. intros a0 E. injection E as <-. exact Hq.
Qed.

Lemma safe_locked g f : (forall s, stratum_ok init n s -> stratum_step s (f s)) -> safe (locked others g f) (λ _, True).
Proof. intros Hf. apply safe_section. intros s Hs. split; [|done]. by apply rtc_once, Hf. Qed.

Lemma safe_peek {A} g (f : StratumState -> A) (Q : A -> Prop) :
  (forall s, stratum_ok init n s -> Q (f s)) -> safe (peek others g f) Q.
Proof. intros Hf. apply safe_section. intros s Hs. by split; [|apply Hf]. Qed.

Lemma own_bits_between s : stratum_ok init n s -> bits_between init (own_bits connection_id s).
Proof.
  intros Hs. unfold own_bits. destruct (workers s !! connection_id) eqn:E; [by eapply (ok_workers _ _ _ Hs)|].
  rewrite (ok_initial _ _ _ Hs). apply bits_between_self.
Qed.

Lemma safe_notify_jobs jobs : safe (notify_jobs connection_id send others jobs) (λ _, True).
Proof.
  induction jobs as [|job jobs IH]; [by apply safe_ret|].
  eapply safe_bind; [apply safe_get|]. intros c _. eapply (safe_bind _ _ (λ _, True)); [|intros; apply IH].
  destruct (authorized c); [|by apply safe_ret].
  eapply safe_bind; [by apply (safe_peek _ _ (λ _, True))|]. intros bits _.
  eapply safe_bind; [apply safe_emit|]. intros _ _. by apply safe_modify.
Qed.

Lemma safe_drain : safe (drain connection_id send others) (λ _, True).
Proof.
  eapply (safe_bind _ _ (λ _, True)); [|intros; apply safe_notify_jobs].
  apply safe_section. intros s _. split; [|done]. apply rtc_once, step_take.
Qed.

Lemma safe_authorize id params : safe (authorize connection_id now send others id params) (λ _, True).
Proof.
  unfold authorize. destruct (split_auth _) as [wallet wname].
  eapply safe_bind; [by apply safe_modify|]. intros _ _.
  eapply (safe_bind _ _ (λ _, True)).
  { apply safe_section. intros s _. split; [|done]. apply rtc_once, step_register. }
  intros [bits maybe_job] _. eapply safe_bind; [by apply safe_modify|]. intros _ _.
  eapply safe_bind; [apply safe_emit|]. intros _ _. eapply safe_bind; [apply safe_emit|]. intros _ _.
  destruct maybe_job; [|by apply safe_ret].
  eapply safe_bind; [apply safe_emit|]. intros _ _. by apply safe_modify.
Qed.

Lemma safe_found_block job nonce_hex submitted_id bits :
  bits_between init bits -> verified bits ->
  safe (found_block connection_id now node others job nonce_hex submitted_id bits) (λ _, True).
Proof.
  intros Hb Hv. unfold found_block. eapply (safe_bind _ _ (λ _, True)); [by apply safe_lift|]. intros nn _.
  eapply (safe_bind _ _ (λ _, True)); [by apply safe_peek|]. intros [raw wname] _.
  eapply safe_bind; [apply safe_get|]. intros c _.
  eapply (safe_bind _ _ (λ _, True)); [by apply safe_lift|]. intros accepted _. eapply (safe_bind _ _ (λ _, True)).
  - destruct accepted; [|by apply safe_ret]. apply safe_locked. intros s Hs. apply step_block; [|done].
    by rewrite (ok_initial _ _ _ Hs).
  - intros _ _. apply safe_locked. intros s _. apply step_count_block.
Qed.

Lemma safe_accept_share id job nonce_hex submitted_id bits is_block :
  bits_between init bits -> verified bits ->
  safe (accept_share connection_id now send node others id job nonce_hex submitted_id bits is_block) (λ _, True).
Proof.
  intros Hb Hv. unfold accept_share. eapply (safe_bind _ _ (λ _, True)).
  { destruct is_block; [by apply safe_found_block|by apply safe_ret]. }
  intros _ _. eapply (safe_bind _ _ (λ _, True)).
  { apply safe_section. intros s _. split; [|done]. apply rtc_once, step_accepted. }
  intros change _. eapply safe_bind; [apply safe_get|]. intros c _. eapply (safe_bind _ _ (λ _, True)).
  { destruct is_block; [by apply safe_ret|]. eapply (safe_bind _ _ (λ _, True)); [by apply safe_peek|].
    intros wname _. apply safe_locked. intros s Hs. apply step_credit; [|done]. by rewrite (ok_initial _ _ _ Hs). }
  intros _ _. eapply (safe_bind _ _ (λ _, True)); [|intros; apply safe_emit].
  destruct change as [new_bits|]; [|by apply safe_ret].
  eapply safe_bind; [apply safe_emit|]. intros _ _. eapply (safe_bind _ _ (λ _, True)); [by apply safe_peek|].
  intros [j|] _; [apply safe_emit|by apply safe_ret].
Qed.

Lemma safe_submit id params : safe (submit connection_id now send node others id params) (λ _, True).
Proof.
  unfold submit. eapply safe_bind; [apply safe_get|]. intros c _. destruct (negb (authorized c)); [by apply safe_ret|].
  eapply (safe_bind _ _ (λ v, bits_between init v.2)); [apply safe_peek; apply own_bits_between|].
  intros [[job|] bits] Hb; cbn [snd] in Hb; [|apply safe_emit]. case_match.
  { eapply safe_bind; [apply safe_locked; intros s _; apply step_stale|]. intros _ _. apply safe_emit_ignored. }
  set (hex := default "0" _). eapply (safe_bind _ _ (λ v, validate_share job hex bits = Done v)).
  { apply safe_lift. intros a. by destruct (validate_share job hex bits); intros [= ->]. }
  intros v Hv. assert (safe (_ ← locked others BeforeReject (count_rejected connection_id now);
    emit send (SubmitReply id "rejected" None)) (λ _, True)) as Hrej.
  { eapply safe_bind; [apply safe_locked; intros s _; apply step_rejected|]. intros _ _. apply safe_emit. }
  destruct v as [[[z [|]] is_block]|]; [|done|done].
  apply safe_accept_share; [done|]. by exists job, hex, z, is_block.
Qed.

Lemma safe_handle_line line : safe (handle_line connection_id now send node others line) (λ _, True).
Proof.
  eapply safe_bind; [apply safe_drain|]. intros _ _. destruct line as [text|due|].
  - case_bool_decide; [by apply safe_ret|]. destruct (json_parse text) as [msg|]; [|by apply safe_ret].
    unfold dispatch. repeat (case_bool_decide; [|]).
    + apply safe_emit.
    + apply safe_authorize.
    + apply safe_submit.
    + apply safe_locked. intros s _. apply step_touch.
    + by apply safe_ret.
  - eapply safe_bind; [apply safe_get|]. intros c _. case_match; [apply safe_emit|by apply safe_ret].
  - by apply safe_lift.
Qed.

Lemma serve_line_steps line c :
  stratum_ok init n (shared c) ->
  rtc stratum_step (shared c) (shared (serve_line connection_id now send node others line c).1).
Proof.
  intros Hc. unfold serve_line.
  destruct (safe_handle_line line (with_outbox [] c)) as [Hs _]; [done|].
  destruct (handle_line _ _ _ _ _ line (with_outbox [] c)) as [c' [u|[|]]]; cbn in *; try done.
  eapply rtc_r; [exact Hs|]. apply step_cleanup.
Qed.
End Refine.
