(* ===== verification/StratumProps.v ===== *)
(** * What the Stratum server guarantees

    The share window and the jobs in every reachable state, the accounting of a
    block's reward, and two ways the handler departs from its intention. *)

From S2P Require Import Prelude Crypto Hash Block Json PoolAccounting Stratum StratumConn StratumInv.
From stdpp Require Import relations.

Local Open Scope Z_scope.

Section Reachable.
Context `{Crypto} `{Json} `{!IterOrder string Z}.

Lemma share_weight sh init :
  0 <= init <= 51 -> bits_between init (share_diff_bits sh) ->
  weight sh = 2 ^ share_diff_bits sh /\ 1 <= weight sh <= 2 ^ 51.
Proof.
  unfold bits_between, VARDIFF_MIN_BITS, VARDIFF_MAX_BITS. intros Hi Hb.
  assert (0 <= share_diff_bits sh <= 51) as Hr by lia. unfold weight, shl64.
  rewrite (Z.mod_small (share_diff_bits sh)), Z.shiftl_1_l by lia.
  assert (2 ^ 0 <= 2 ^ share_diff_bits sh <= 2 ^ 51) as Hp by (split; apply Z.pow_le_mono_r; lia).
  rewrite Z.mod_small by (unfold U64_MOD; lia). lia.
Qed.

Lemma window_weight init l :
  0 <= init <= 51 -> Forall (share_sound init) l -> (length l <= PPLNS_DEFAULT_N)%nat ->
  sumZ (weight <$> l) <= 2 ^ 51 * Z.of_nat (length l).
Proof.
  intros Hi Hl _. induction Hl as [|sh l [Hb _] _ IH]; [done|]. csimpl.
  destruct (share_weight sh init Hi Hb). lia.
Qed.

Lemma window_ok_exact init s :
  0 <= init <= 51 -> stratum_ok init PPLNS_DEFAULT_N s -> window_exact (share_window (ledger s)).
Proof.
  intros Hi Hok. unfold window_exact.
  pose proof (window_weight init (shares (share_window (ledger s))) Hi (ok_shares _ _ _ Hok) (ok_window _ _ _ Hok)).
  pose proof (ok_window _ _ _ Hok). unfold PPLNS_DEFAULT_N in *.
  assert (Z.of_nat (length (shares (share_window (ledger s)))) <= 4096) by lia.
  unfold U64_MAX. nia.
Qed.

(** C34: The share window is sound in every state the server reaches. For an
    initial difficulty of at most 51 bits and any interleaving of the lock
    sections of all connections and of the poller: every worker's difficulty
    stays between the vardiff bounds (or the initial value); the window never
    exceeds 4096 shares; each share in it was checked against a nonce at exactly
    the difficulty it is weighted with, and weighs 2 to that power; the total
    stays within 64 bits, so the reward split is exact; and the template of the
    current job is cached, with at most one other. *)
Theorem share_window_sound diff l s :
  is_u64 diff -> diff_to_bits diff <= 51 -> ledger_sound (diff_to_bits diff) PPLNS_DEFAULT_N l ->
  rtc stratum_step (new_stratum diff l) s ->
  let window := shares (share_window (ledger s)) in
  map_Forall (λ _ w, Z.min (diff_to_bits diff) 16 <= worker_bits w <= Z.max (diff_to_bits diff) 40) (workers s)
  /\ (length window <= 4096)%nat
  /\ Forall (λ sh, verified (share_diff_bits sh) /\ weight sh = 2 ^ share_diff_bits sh) window
  /\ total_weight (share_window (ledger s)) = sumZ (weight <$> window)
  /\ job_cached s /\ (size (job_template_cache s) <= 2)%nat.
Proof.
  intros Hd Hb Hl Hs. pose proof (diff_to_bits_range diff Hd).
  assert (0 < PPLNS_DEFAULT_N)%nat as Hn by (unfold PPLNS_DEFAULT_N; lia).
  assert (stratum_ok (diff_to_bits diff) PPLNS_DEFAULT_N s) as Hok
    by (eapply steps_ok; [lia|exact Hn|by apply new_stratum_ok|exact Hs]).
  pose proof (window_ok_exact _ s (conj (proj1 H1) Hb) Hok) as Hex. destruct Hok as [_ Hw _ Hwin Hsh _ Hc Hcs]. cbv zeta.
  refine (conj Hw (conj _ (conj _ (conj _ (conj Hc Hcs))))).
  - unfold PPLNS_DEFAULT_N in Hwin. exact Hwin.
  - eapply Forall_impl; [exact Hsh|]. intros sh [Hsb Hv]. split; [done|].
    destruct (share_weight sh (diff_to_bits diff)) as [E _]; [lia|exact Hsb|exact E].
  - by apply miner_weights_spec.
Qed.

(** C33: The handler of a connection stays within the protocol. Whatever the line,
    the socket, the node and the other threads do, one iteration of the read
    loop changes the shared state only by the lock sections of the server, and
    leaves it in the invariant. *)
Theorem handler_refines_protocol init connection_id now send node others line c :
  0 <= init <= 63 -> (forall g s, rtc stratum_step s (others g s)) ->
  stratum_ok init PPLNS_DEFAULT_N (shared c) ->
  let c' := (serve_line connection_id now send node others line c).1 in
  rtc stratum_step (shared c) (shared c') /\ stratum_ok init PPLNS_DEFAULT_N (shared c').
Proof.
  intros Hi Ho Hc c'. assert (0 < PPLNS_DEFAULT_N)%nat as Hn by (unfold PPLNS_DEFAULT_N; lia).
  assert (rtc stratum_step (shared c) (shared c')) as Hs by by apply (serve_line_steps init PPLNS_DEFAULT_N).
  split; [exact Hs|]. by eapply steps_ok.
Qed.

Lemma reward_shares share height hash gross l :
  share_window (reward share height hash gross l) = window_push share (share_window l).
Proof. by rewrite reward_entries. Qed.

Lemma split_sum gross bps : 0 <= bps <= 10000 -> 0 <= gross < U64_MOD / 10000 ->
  split_fee gross bps = (gross - gross * bps / 10000, gross * bps / 10000).
Proof.
  intros Hb Hg. change (U64_MOD / 10000) with 1844674407370955 in Hg.
  unfold split_fee, sat_mul64, sat_sub64. rewrite Z.min_l by (unfold U64_MAX; nia).
  rewrite Z.max_l; [done|]. apply Z.le_0_sub, Z.div_le_upper_bound; nia.
Qed.

(** C35: The reward of a block is shared out exactly. When the pool books a block
    that a verified share found, in any state the invariant allows and for a
    gross reward of up to eighteen million coins: the old ledger entries stay, the new ones are for
    this block, unpaid, one for each miner whose part of the window (the winning
    share included) is worth an atom; each is the exact floor of that part, five
    per cent of it are the fee and the rest is owed; and the parts add up to the
    reward less a rounding loss below one atom per miner. *)
Theorem block_reward_booked init s share height hash gross :
  0 <= init <= 51 -> stratum_ok init PPLNS_DEFAULT_N s -> share_sound init share ->
  0 <= gross < U64_MOD / 10000 ->
  let window := share_window (ledger (credit_block share height hash gross s)) in
  exists new, entries (ledger (credit_block share height hash gross s)) = entries (ledger s) ++ new
  /\ NoDup (miner_address <$> new)
  /\ Forall (λ e, block_height e = height /\ entry_block_hash e = hash /\ paid_out e = false
       /\ gross_reward_atoms e = gross * own_weight (miner_address e) (shares window) / total_weight window
       /\ 0 < gross_reward_atoms e
       /\ pool_fee_atoms e = gross_reward_atoms e * 500 / 10000
       /\ net_payout_atoms e + pool_fee_atoms e = gross_reward_atoms e) new
  /\ 0 <= gross - sumZ (gross_reward_atoms <$> new) < Z.of_nat (size (miner_weights window)).
Proof.
  intros Hi Hok Hsh Hg window. subst window. cbn [credit_block with_ledger ledger].
  rewrite reward_shares, reward_entries. cbn [entries with_entries].
  assert (0 < PPLNS_DEFAULT_N)%nat as Hn by (unfold PPLNS_DEFAULT_N; lia).
  pose proof (window_ok_exact init (credit share s) Hi (ok_credit init _ share s Hn Hsh Hok)) as Hex.
  cbn [credit with_ledger ledger push_share share_window] in Hex.
  set (w := window_push share (share_window (ledger s))) in *. set (l := push_share share (ledger s)).
  assert (0 < total_weight w) as Ht.
  { destruct (miner_weights_spec w Hex) as (_ & _ & ->). destruct (share_weight share init Hi (proj1 Hsh)) as [_ Hw].
    unfold w, window_push. cbn [shares]. rewrite fmap_app, sumZ_app. csimpl.
    pose proof (sumZ_nonneg _ (weights_nonneg
      (if (window_n (share_window (ledger s)) <=? length (shares (share_window (ledger s))))%nat
       then drop 1 (shares (share_window (ledger s))) else shares (share_window (ledger s))))). lia. }
  destruct (pplns_split_spec l gross (wallet_address share) Hex) as (H1' & H2' & H3'); [|done|].
  { change (U64_MOD / 10000) with 1844674407370955 in Hg. unfold U64_MOD. lia. }
  change (share_window l) with w in *. set (sp := pplns_split l gross (wallet_address share)) in *.
  exists ((λ p : string * Z, new_entry height hash p.1 p.2) <$> sp).
  assert (forall p : string * Z, miner_address (new_entry height hash p.1 p.2) = p.1
    /\ gross_reward_atoms (new_entry height hash p.1 p.2) = p.2) as Hf by done.
  refine (conj eq_refl (conj _ (conj _ _))).
  - rewrite <- list_fmap_compose. exact H1'.
  - apply Forall_fmap, Forall_forall. intros [a g] Hin. apply H2' in Hin as [-> Hpos].
    unfold new_entry, compose. cbn [fst snd]. set (g := gross * own_weight a (shares w) / total_weight w) in *.
    assert (g <= gross).
    { unfold g. apply Z.div_le_upper_bound; [lia|].
      destruct (miner_weights_spec w Hex) as (_ & _ & ->).
      assert (own_weight a (shares w) <= sumZ (weight <$> shares w)) by apply own_weight_le.
      nia. }
    rewrite split_sum by (unfold POOL_FEE_BPS; lia). cbn. split_and!; try done; try lia.
  - rewrite <- list_fmap_compose. exact H3'.
Qed.
End Reachable.

(** ** Submissions one after the other

    A connection alone with the server: no other thread acts, every write succeeds. *)
Section Alone.
Context `{Crypto} `{Json} `{!IterOrder string Z}.
Context (connection_id : string) (now : Z) (node : option (Submission -> bool)).

Definition alone (_ : Gap) (s : StratumState) : StratumState := s.
Definition connected (_ : list Message) (_ : Message) : bool := true.

Definition serve (line : Line) (c : Conn) : Conn * bool :=
  serve_line connection_id now connected node alone line c.

(** The line is a [mining.submit] of the nonce for the job. *)
Record submits (text : string) (job : StratumJob) (nonce_hex : string) (id : json) : Prop := {
  submits_nonempty : text <> EmptyString;
  submits_message : exists msg, json_parse text = Some msg
    /\ as_str (msg.["method"]) = Some "mining.submit" /\ msg.["id"] = id
    /\ as_str (msg.["params"].["job_id"]) = Some (job_id job)
    /\ as_str (msg.["params"].["nonce"]) = Some nonce_hex;
}.

(** The connection has authorized and works on the current job. *)
Record ready (job : StratumJob) (w : WorkerSession) (c : Conn) : Prop := {
  ready_authorized : authorized c = true;
  ready_queue : job_senders (shared c) !! connection_id = Some [];
  ready_job : current_job (shared c) = Some job;
  ready_session : workers (shared c) !! connection_id = Some w;
}.

Lemma with_shared_id c : with_shared (shared c) c = c.
Proof. by destruct c. Qed.

Lemma drain_empty c :
  job_senders (shared c) !! connection_id = Some [] -> drain connection_id connected alone c = (c, Ok ()).
Proof.
  intros Hq. unfold drain, mbind, stateful_bind, section, take_queue, alone. rewrite Hq, insert_id by done.
  cbn. unfold with_senders. destruct c as [[] ? ? ? ?]. done.
Qed.

(** What a submission of a ready connection runs. *)
Definition verdict_handler (id : json) (job : StratumJob) (nonce_hex : string) (bits : Z) : handler () :=
  verdict ← lift_outcome (validate_share job nonce_hex bits);
  match verdict with
  | Some (_, true, is_block) =>
      accept_share connection_id now connected node alone id job nonce_hex (job_id job) bits is_block
  | _ => _ ← locked alone BeforeReject (count_rejected connection_id now);
         emit connected (SubmitReply id "rejected" None)
  end.

Lemma submit_handler text job nonce_hex id w c :
  submits text job nonce_hex id -> ready job w c ->
  handle_line connection_id now connected node alone (Received text) c
  = verdict_handler id job nonce_hex (worker_bits w) c.
Proof.
  intros [Hne (msg & Hp & Hm & Hi & Hj & Hn)] [Ha Hq Hjob Hw].
  unfold handle_line. unfold mbind at 1, stateful_bind at 1. rewrite drain_empty by done.
  rewrite bool_decide_false, Hp by done. unfold dispatch. rewrite Hm, Hi. cbn [default].
  rewrite !bool_decide_false, bool_decide_true by done.
  unfold submit. unfold mbind at 1, stateful_bind at 1. cbn [get_state]. rewrite Ha. cbn [negb].
  rewrite Hj, Hn. cbn [default]. unfold mbind at 1, stateful_bind at 1, peek, section, alone. rewrite Hjob.
  unfold own_bits. rewrite Hw, with_shared_id. rewrite bool_decide_true by done. done.
Qed.

(** The session after a share accepted within its vardiff window. *)
Definition counted (w : WorkerSession) : WorkerSession :=
  set_session (worker_bits w) (add64 (vardiff_window_shares w) 1) (vardiff_window_start w) now
    (add64 (accepted_shares w) 1) (rejected_shares w) "accepted" w.

Definition in_window (w : WorkerSession) : Prop := sat_sub64 now (vardiff_window_start w) < VARDIFF_WINDOW_SECS.

Lemma count_accepted_quick w s :
  workers s !! connection_id = Some w -> in_window w ->
  count_accepted connection_id now false s
  = (with_workers (<[connection_id := counted w]> (workers s))
       (with_counts (add64 (shares_accepted s) 1) (shares_rejected s) (stratum_blocks_found s) s), None).
Proof.
  intros Hw Hq. unfold count_accepted. cbn [workers with_counts]. rewrite Hw. unfold vardiff.
  rewrite (proj2 (Z.leb_gt _ _)); [done|]. unfold in_window, VARDIFF_WINDOW_SECS in *. lia.
Qed.

Definition own_share (c : Conn) (w : WorkerSession) : ShareRecord :=
  new_share now (conn_wallet c) (worker w) (worker_bits w).

(** An accepted share: the window grows by it and the connection is as ready as before. *)
Lemma accepted_line text job nonce_hex id w c z :
  submits text job nonce_hex id -> ready job w c -> in_window w ->
  validate_share job nonce_hex (worker_bits w) = Done (Some (z, true, false)) ->
  exists c', serve (Received text) c = (c', true) /\ ready job (counted w) c'
    /\ conn_wallet c' = conn_wallet c
    /\ ledger (shared c') = push_share (own_share c w) (ledger (shared c))
    /\ outbox c' = [SubmitReply id "accepted" None].
Proof.
  intros Hs Hr Hq Hv. unfold serve, serve_line.
  rewrite (submit_handler _ _ _ _ w _ Hs) by (destruct Hr; by split).
  unfold verdict_handler. rewrite Hv. destruct Hr as [Ha Hqu Hjob Hw].
  unfold accept_share, mbind, stateful_bind, mret, stateful_ret, lift_outcome, lift_result, section, alone.
  cbn [shared with_outbox]. rewrite (count_accepted_quick w) by done.
  unfold get_state, peek, locked, section, emit, connected, alone, own_name.
  cbn. rewrite lookup_insert_eq. cbn. eexists. split; [done|].
  split; [split; cbn; [done|done|done|apply lookup_insert_eq]|]. done.
Qed.

(** The same line again and again. *)
Definition resubmit (k : nat) (text : string) (c : Conn) : Conn :=
  Nat.iter k (λ c, (serve (Received text) c).1) c.

Lemma resubmit_ledger text job nonce_hex id z share k w c :
  submits text job nonce_hex id -> ready job w c -> in_window w ->
  validate_share job nonce_hex (worker_bits w) = Done (Some (z, true, false)) ->
  share = own_share c w ->
  ledger (shared (resubmit k text c)) = Nat.iter k (push_share share) (ledger (shared c))
  /\ conn_wallet (resubmit k text c) = conn_wallet c
  /\ exists w', ready job w' (resubmit k text c) /\ in_window w' /\ worker_bits w' = worker_bits w /\ worker w' = worker w.
Proof.
  intros Hs Hr Hq Hv Hsh. induction k as [|k (IH1 & IH2 & w' & IH3 & IH4 & IH5 & IH6)]; [by eauto 10|].
  change (resubmit (S k) text c) with (serve (Received text) (resubmit k text c)).1.
  destruct (accepted_line text job nonce_hex id w' (resubmit k text c) z) as (c' & E & Hr' & Hw' & Hl & _);
    [done|done|done|by rewrite IH5|]. rewrite E. cbn [fst]. split.
  { rewrite Hl, IH1. unfold own_share in *. rewrite IH2, IH5, IH6, <- Hsh. done. }
  split; [congruence|]. exists (counted w'). split; [done|]. done.
Qed.
End Alone.

(** ** A window full of one share *)
Section Full.

Lemma push_iter_shares n share k l :
  window_n (share_window l) = n -> (0 < n)%nat -> (length (shares (share_window l)) <= n)%nat ->
  window_n (share_window (Nat.iter k (push_share share) l)) = n
  /\ exists rest, shares (share_window (Nat.iter k (push_share share) l)) = rest ++ replicate (k `min` n)%nat share
       /\ (length rest + k `min` n <= n)%nat.
Proof.
  intros Hn Hpos Hl. induction k as [|k [IHn (rest & IH & IHl)]].
  { split; [done|]. exists (shares (share_window l)). rewrite Nat.min_0_l, app_nil_r. split; [done|lia]. }
  cbn [Nat.iter nat_rect]. fold (Nat.iter k (push_share share) l). set (l' := Nat.iter k (push_share share) l) in *.
  split; [done|]. cbn [push_share share_window window_push shares]. rewrite IHn, IH.
  rewrite length_app, length_replicate.
  assert (forall j, replicate j share ++ [share] = replicate (S j) share) as Hsnoc
    by (intros j; by rewrite replicate_S_end).
  destruct (Nat.leb_spec n (length rest + k `min` n)).
  - destruct rest as [|x rest]; cbn [length] in *.
    + exists []. assert (k `min` n = n)%nat as -> by lia. assert (S k `min` n = n)%nat as -> by lia.
      destruct n as [|n]; [lia|]. cbn [app replicate drop]. rewrite drop_0, Hsnoc. split; [done|cbn; lia].
    + exists rest. cbn [app drop]. rewrite drop_0, <- app_assoc, Hsnoc.
      assert ((S k `min` n = S (k `min` n))%nat) as -> by lia. split; [done|lia].
  - exists rest. rewrite <- app_assoc, Hsnoc. assert ((S k `min` n = S (k `min` n))%nat) as -> by lia. split; [done|lia].
Qed.

Lemma push_iter_full n share k l :
  window_n (share_window l) = n -> (0 < n)%nat -> (length (shares (share_window l)) <= n)%nat -> (n <= k)%nat ->
  shares (share_window (Nat.iter k (push_share share) l)) = replicate n share.
Proof.
  intros Hn Hpos Hl Hk. destruct (push_iter_shares n share k l Hn Hpos Hl) as [_ (rest & -> & Hr)].
  rewrite Nat.min_r in Hr |- * by done. destruct rest; [done|cbn in Hr; lia].
Qed.

Lemma replicate_weight n share :
  sumZ (weight <$> replicate n share) = Z.of_nat n * weight share
  /\ forall addr, own_weight addr (replicate n share)
       = if decide (wallet_address share = addr) then Z.of_nat n * weight share else 0.
Proof.
  induction n as [|n [IH1 IH2]]; [split; [cbn; lia|intros addr; case_decide; cbn; lia]|].
  cbn [replicate]. split; [csimpl; rewrite IH1; lia|]. intros addr. rewrite own_weight_cons, IH2. case_decide; lia.
Qed.

(** A window of one miner pays everything to it. *)
Lemma sole_miner_split `{!IterOrder string Z} n share l gross fallback :
  shares (share_window l) = replicate n share -> (0 < n)%nat -> 0 < weight share ->
  Z.of_nat n * weight share < U64_MAX -> 0 < gross < U64_MOD ->
  pplns_split l gross fallback = [(wallet_address share, gross)].
Proof.
  intros Hsh Hn Hw Hb Hg. destruct (replicate_weight n share) as [Hsum Hown].
  assert (window_exact (share_window l)) as Hex by (unfold window_exact; by rewrite Hsh, Hsum).
  destruct (miner_weights_spec _ Hex) as (_ & _ & Ht). rewrite Hsh, Hsum in Ht.
  destruct (pplns_split_spec l gross fallback Hex) as (Hnd & Hin & _); [lia|nia|].
  rewrite Hsh, Ht in Hin. apply Permutation_singleton_r, NoDup_Permutation.
  - by eapply NoDup_fmap_1.
  - apply NoDup_singleton.
  - intros [a g]. rewrite Hin, Hown, list_elem_of_singleton. case_decide as Ha.
    + subst a. rewrite Z.div_mul by nia. split; [by intros [-> _]|intros [= ->]; split; [done|lia]].
    + rewrite Z.mul_0_r, Z.div_0_l by nia. split; [lia|congruence].
Qed.
End Full.

Section Departures.
Context `{Crypto} `{Json} `{!IterOrder string Z}.
Context (connection_id : string) (now : Z) (node : option (Submission -> bool)).

(** A single nonce can be credited without end. The handler does not
    remember the nonces it accepted: a connection that sends the same valid share
    again and again within one vardiff window is credited each time, and once it
    has been sent as often as the window is long, the reward of the next block goes to its
    wallet alone, whatever the other miners had contributed. *)
Theorem replayed_nonce_takes_reward text job nonce_hex id w c z k gross fallback :
  submits text job nonce_hex id -> ready connection_id job w c -> in_window now w ->
  validate_share job nonce_hex (worker_bits w) = Done (Some (z, true, false)) ->
  window_n (share_window (ledger (shared c))) = PPLNS_DEFAULT_N ->
  (length (shares (share_window (ledger (shared c)))) <= PPLNS_DEFAULT_N)%nat ->
  0 <= worker_bits w <= 51 -> 0 < gross < U64_MOD -> (PPLNS_DEFAULT_N <= k)%nat ->
  pplns_split (ledger (shared (resubmit connection_id now node k text c))) gross fallback
  = [(conn_wallet c, gross)].
Proof.
  intros Hs Hr Hq Hv Hn Hl Hb Hg Hk. assert (0 < PPLNS_DEFAULT_N)%nat as Hpos by (unfold PPLNS_DEFAULT_N; lia).
  destruct (resubmit_ledger connection_id now node text job nonce_hex id z _ k w c Hs Hr Hq Hv eq_refl) as [Hled _].
  set (share := own_share now c w) in *.
  destruct (weight_pos share) as [Hw Hwr]; [cbn; lia|].
  assert (weight share <= 2 ^ 51) by (rewrite Hw; apply Z.pow_le_mono_r; cbn; lia).
  apply (sole_miner_split PPLNS_DEFAULT_N share); [|done|lia| |done].
  - rewrite Hled. by apply push_iter_full.
  - unfold PPLNS_DEFAULT_N, U64_MAX. rewrite Z2Nat.id by lia. nia.
Qed.

(** A valid block below the share difficulty is thrown away. When the
    worker's difficulty is above the network's, as vardiff allows, a nonce whose
    header meets the work of the network but not the share difficulty is answered
    with [rejected]: the node is never asked, whatever it would answer, no block is
    counted and nothing is credited. *)
Theorem low_difficulty_block_dropped `{!CryptoLaws _} text job n id w c :
  submits text job (nonce_text n) id -> ready connection_id job w c -> is_u64 n ->
  work_hash job n <> ZERO -> difficulty_bits job <= leading_zero_bits (work_hash job n) < worker_bits w ->
  header_meets_work (job_header job n) (mkHash (epoch_seed job)) = true
  /\ exists c', serve connection_id now node (Received text) c = (c', true)
       /\ outbox c' = [SubmitReply id "rejected" None]
       /\ ledger (shared c') = ledger (shared c)
       /\ stratum_blocks_found (shared c') = stratum_blocks_found (shared c).
Proof.
  intros Hs Hr Hn Hz [H1' H2']. split; [by apply Z.leb_le|]. unfold serve, serve_line.
  rewrite (submit_handler connection_id now node _ _ _ _ w _ Hs) by (destruct Hr; by split).
  unfold verdict_handler. rewrite validate_share_text by done. cbv zeta.
  rewrite share_zero_bits_spec by (apply work_hash_ok || done).
  rewrite (proj2 (Z.leb_gt (worker_bits w) _)) by done.
  destruct Hr as [Ha Hqu Hjob Hw]. unfold count_rejected, update_own, mbind, stateful_bind, lift_outcome, lift_result,
    locked, section, alone, emit, connected. cbn. rewrite Hw. cbn. by eexists.
Qed.

(** A nonce text that is cut inside a character kills the thread of the
    connection: its worker and its job sender stay registered. *)
Lemma malformed_nonce_leaks text job nonce_hex id w c :
  submits text job nonce_hex id -> ready connection_id job w c -> le_hex_to_u64 nonce_hex = Panic ->
  exists c', serve connection_id now node (Received text) c = (c', false)
    /\ workers (shared c') !! connection_id = Some w /\ job_senders (shared c') !! connection_id = Some [].
Proof.
  intros Hs Hr Hp. unfold serve, serve_line.
  rewrite (submit_handler connection_id now node _ _ _ _ w _ Hs) by (destruct Hr; by split).
  unfold verdict_handler, validate_share. rewrite Hp. destruct Hr as [Ha Hqu Hjob Hw]. by eexists.
Qed.
End Departures.
