(* ===== verification/StratumWitness.v ===== *)
(** * The Stratum theorems at concrete inputs

    One miner on one job: the template the poller fetched, the authorization and
    the submissions of a nonce, with the toy hash functions. *)

From S2P Require Import Prelude Crypto Hash Block Json PoolAccounting Stratum StratumConn StratumInv StratumProps.
From stdpp Require Import relations.

Local Open Scope Z_scope.

Module Stage.
Import Tree.

Definition hash_field (b : Z) : value := Arr (replicate 32 (Number b)).
Definition header_value : value := Obj [
  ("version", Number 1); ("chain_id", Text "tensorium-testnet-0"); ("height", Number 7);
  ("previous_hash", hash_field 17); ("merkle_root", hash_field 34);
  ("timestamp_seconds", Number 1780000000); ("leading_zero_bits", Number 40); ("nonce", Number 0)].
Definition coinbase_value : value :=
  Obj [("outputs", Arr [Obj [("value_atoms", Number 1523557865)]])].
Definition template_value : value := Obj [
  ("epoch_seed", hash_field 7);
  ("template", Obj [("header", header_value); ("transactions", Arr [coinbase_value])])].
Definition submit_value : value := Obj [
  ("method", Text "mining.submit"); ("id", Number 4);
  ("params", Obj [("job_id", Text "h7-250"); ("nonce", Text (nonce_text 5))])].
Definition authorize_value : value := Obj [
  ("method", Text "mining.authorize"); ("id", Number 2); ("params", Arr [Text "txm1alice.rig1"])].
Definition texts : gmap string value :=
  {[ "template" := template_value; "submit" := submit_value; "authorize" := authorize_value ]}.

#[export] Instance stage_crypto : Crypto := toy_crypto.
#[export] Instance stage_json : Json := tree_json texts.
#[export] Instance stage_order : IterOrder string Z := trie_order string Z.
#[export] Instance stage_laws : CryptoLaws stage_crypto := toy_laws.

Definition job : StratumJob := {|
  job_id := "h7-250"; job_chain_id := "tensorium-testnet-0"; job_height := 7;
  job_previous_hash := replicate 32 17; job_merkle_root := replicate 32 34;
  epoch_seed := replicate 32 7; timestamp := 1780000000; difficulty_bits := 40; job_version := 1 |}.

Lemma template_parses : parse_job_response 250 "template" = Done (Some (job, "template")).
Proof. by vm_compute. Qed.

Definition accepts : option (Submission -> bool) := Some (λ _, true).

(** The server after the first poll, and a connection that then authorizes. *)
Definition s0 : StratumState := new_job (λ _, true) job "template" (new_stratum 1 empty_ledger).
Definition s1 : StratumState := connect "c1" s0.
Definition c1 : Conn :=
  {| shared := s1; authorized := false; conn_wallet := ""; last_job_id := ""; outbox := [] |}.
Definition c2 : Conn := (serve "c1" 1000 accepts (Received "authorize") c1).1.
Definition c3 : Conn := (serve "c1" 1010 accepts (Received "submit") c2).1.

Definition session : WorkerSession := new_session 1000 "rig1" "txm1alice" 0.

Lemma c2_ready : ready "c1" job session c2.
Proof. split; vm_compute; reflexivity. Qed.

Lemma submit_line : submits "submit" job (nonce_text 5) (Number 4).
Proof. split; [done|]. exists submit_value. split_and!; vm_compute; reflexivity. Qed.

Lemma share_valid : exists z, validate_share job (nonce_text 5) 0 = Done (Some (z, true, false)).
Proof. eexists. vm_compute. reflexivity. Qed.

Lemma empty_sound : ledger_sound (diff_to_bits 1) PPLNS_DEFAULT_N empty_ledger.
Proof. split; [done|cbn; lia|constructor|constructor]. Qed.

Lemma alone_steps g s : rtc stratum_step s (alone g s).
Proof. apply rtc_refl. Qed.

Lemma s1_reached : rtc stratum_step (new_stratum 1 empty_ledger) s1.
Proof.
  eapply rtc_l; [eapply (step_poll _ (λ _, true)), template_parses|]. apply rtc_once, step_connect.
Qed.

Lemma start_ok : stratum_ok 0 PPLNS_DEFAULT_N (new_stratum 1 empty_ledger).
Proof. apply (new_stratum_ok 1), empty_sound. Qed.

Lemma n_pos : (0 < PPLNS_DEFAULT_N)%nat.
Proof. unfold PPLNS_DEFAULT_N. lia. Qed.

Lemma s1_ok : stratum_ok 0 PPLNS_DEFAULT_N s1.
Proof. exact (steps_ok 0 _ _ _ ltac:(lia) n_pos start_ok s1_reached). Qed.

Lemma c2_reached : rtc stratum_step s1 (shared c2).
Proof. exact (serve_line_steps 0 _ ltac:(lia) n_pos _ _ _ _ _ alone_steps _ c1 s1_ok). Qed.

Lemma c2_ok : stratum_ok 0 PPLNS_DEFAULT_N (shared c2).
Proof. exact (steps_ok 0 _ _ _ ltac:(lia) n_pos s1_ok c2_reached). Qed.

Lemma c3_reached : rtc stratum_step (new_stratum 1 empty_ledger) (shared c3).
Proof.
  etransitivity; [exact s1_reached|]. etransitivity; [exact c2_reached|].
  exact (serve_line_steps 0 _ ltac:(lia) n_pos _ _ _ _ _ alone_steps _ c2 c2_ok).
Qed.

Lemma c3_window : wallet_address <$> shares (share_window (ledger (shared c3))) = ["txm1alice"].
Proof. by vm_compute. Qed.
End Stage.
Import Stage.

Lemma pool_verdict_is_consensus_witness :
  is_u64 5 /\ work_hash job 5 <> ZERO
  /\ validate_share job (nonce_text 5) 0
     = Done (Some (leading_zero_bits (work_hash job 5), hash_meets_work (work_hash job 5) 0,
                   header_meets_work (job_header job 5) (mkHash (epoch_seed job)))).
Proof.
  assert (is_u64 5) as Hn by (unfold is_u64, U64_MOD; lia).
  assert (work_hash job 5 <> ZERO) as Hz by by_compute.
  split; [exact Hn|]. split; [exact Hz|]. exact (pool_verdict_is_consensus job 5 0 Hn Hz).
Defined.

Lemma share_window_sound_witness :
  wallet_address <$> shares (share_window (ledger (shared c3))) = ["txm1alice"]
  /\ Forall (λ sh, verified (share_diff_bits sh) /\ weight sh = 2 ^ share_diff_bits sh)
       (shares (share_window (ledger (shared c3)))).
Proof.
  split; [exact c3_window|].
  assert (is_u64 1) as Hn by (unfold is_u64, U64_MOD; lia).
  destruct (share_window_sound 1 empty_ledger (shared c3) Hn ltac:(vm_compute; congruence) empty_sound c3_reached)
    as (_ & _ & Hsh & _). exact Hsh.
Defined.

Lemma handler_refines_protocol_witness :
  stratum_ok 0 PPLNS_DEFAULT_N (shared (serve_line "c1" 1010 connected accepts alone (Received "submit") c2).1).
Proof.
  assert (0 <= 0 <= 63) as Hi by lia.
  exact (proj2 (handler_refines_protocol 0 "c1" 1010 connected accepts alone (Received "submit") c2 Hi alone_steps c2_ok)).
Defined.

Lemma block_reward_booked_witness :
  exists new, entries (ledger (credit_block (new_share 1020 "txm1bob" "rig2" 0) 7 "00" 1523557865 (shared c3))) = new
  /\ NoDup (miner_address <$> new) /\ 0 <= 1523557865 - sumZ (gross_reward_atoms <$> new) < 2.
Proof.
  assert (0 <= 0 <= 51) as Hi by lia.
  assert (0 <= 1523557865 < U64_MOD / 10000) as Hg by by_compute.
  assert (share_sound 0 (new_share 1020 "txm1bob" "rig2" 0)) as Hsh.
  { split; [split; by vm_compute|]. destruct share_valid as [z Hz]. exists job, (nonce_text 5), z, false. exact Hz. }
  assert (stratum_ok 0 PPLNS_DEFAULT_N (shared c3)) as Hok
    by exact (steps_ok 0 _ _ _ ltac:(lia) n_pos start_ok c3_reached).
  destruct (block_reward_booked 0 (shared c3) (new_share 1020 "txm1bob" "rig2" 0) 7 "00" 1523557865 Hi Hok Hsh Hg)
    as (new & E & Hnd & _ & Hb).
  exists new. split; [exact E|]. split; [exact Hnd|].
  replace (Z.of_nat (size _)) with 2 in Hb by (vm_compute; reflexivity). exact Hb.
Defined.

Lemma replayed_nonce_takes_reward_witness :
  pplns_split (ledger (shared (resubmit "c1" 1010 accepts 4096 "submit" c2))) 1523557865 "treasury"
  = [("txm1alice", 1523557865)].
Proof.
  destruct share_valid as [z Hz].
  assert (in_window 1010 session) as Hq by by vm_compute.
  assert (0 < 1523557865 < U64_MOD) as Hg by (unfold U64_MOD; lia).
  exact (replayed_nonce_takes_reward "c1" 1010 accepts "submit" job (nonce_text 5) (Tree.Number 4) session c2 z
           4096 1523557865 "treasury" submit_line c2_ready Hq Hz eq_refl ltac:(vm_compute; lia) ltac:(cbn; lia) Hg
           (Nat.le_refl 4096)).
Defined.

Module EasyNetwork.
Definition easy_job : StratumJob := {|
  job_id := "h7-250"; job_chain_id := "tensorium-testnet-0"; job_height := 7;
  job_previous_hash := replicate 32 17; job_merkle_root := replicate 32 34;
  epoch_seed := replicate 32 7; timestamp := 1780000000; difficulty_bits := 0; job_version := 1 |}.
Definition hard_session : WorkerSession := new_session 1000 "rig1" "txm1alice" 40.
Definition easy : Conn := {|
  shared := with_senders {[ "c1" := [] ]} (with_workers {[ "c1" := hard_session ]}
              (with_job easy_job ∅ (new_stratum 1099511627776 empty_ledger)));
  authorized := true; conn_wallet := "txm1alice"; last_job_id := "h7-250"; outbox := [] |}.

Lemma easy_ready : ready "c1" easy_job hard_session easy.
Proof. split; vm_compute; reflexivity. Qed.

Lemma easy_submits : submits "submit" easy_job (nonce_text 5) (Tree.Number 4).
Proof. split; [done|]. exists submit_value. split_and!; vm_compute; reflexivity. Qed.

Lemma easy_zeros : 0 <= leading_zero_bits (work_hash easy_job 5) < 40.
Proof. by_compute. Qed.
End EasyNetwork.
Import EasyNetwork.

Lemma low_difficulty_block_dropped_witness :
  header_meets_work (job_header easy_job 5) (mkHash (epoch_seed easy_job)) = true
  /\ exists c', serve "c1" 1010 accepts (Received "submit") easy = (c', true)
       /\ outbox c' = [SubmitReply (Tree.Number 4) "rejected" None].
Proof.
  assert (is_u64 5) as Hn by (unfold is_u64, U64_MOD; lia).
  assert (work_hash easy_job 5 <> ZERO) as Hz by by_compute.
  destruct (low_difficulty_block_dropped "c1" 1010 accepts "submit" easy_job 5 (Tree.Number 4) hard_session easy
              easy_submits easy_ready Hn Hz easy_zeros) as [Hw (c' & E & Ho & _)].
  split; [exact Hw|]. exists c'. split; [exact E|exact Ho].
Defined.
