(* ===== verification/Node.v ===== *)
(** * The node's peer-to-peer side ([tensorium-node/src/main.rs])

    The ban list, the handshake, the acceptance of a peer's block or
    transaction, and one message of an inbound connection. The files the node
    keeps (database, mempool, ban list) are the fields of [Node]; the database is
    opened for every message, and [opens] is the error text when it cannot be.
    Sockets, threads and the JSON text of the messages are not modelled. *)

From S2P Require Import Prelude Crypto Hash Chain Block Validation Utxo Mempool State.

Local Open Scope Z_scope.

Definition P2P_PROTOCOL_VERSION : Z := 1.
Definition SYNC_BATCH_SIZE : nat := 50.
Definition BAN_THRESHOLD : Z := 100.
Definition BAN_DURATION_SECS : Z := 3600.
Definition SCORE_INVALID_BLOCK : Z := 20.
Definition SCORE_INVALID_TX : Z := 10.
Definition SCORE_INVALID_MSG : Z := 2.
Definition SCORE_BAD_HANDSHAKE : Z := 100.

(** ** The ban list *)
Record BanEntry := { score : Z; banned_until : option Z }.
Abbreviation BanList := (gmap string BanEntry).

Definition sat_add32 (a b : Z) : Z := Z.min (a + b) (U32_MOD - 1).

(** [e.banned_until.map_or(false, |until| until > now)] *)
Definition ban_active (e : BanEntry) (now : Z) : bool :=
  match banned_until e with Some u => now <? u | None => false end.

Definition is_banned (self : BanList) (ip : string) (now : Z) : bool :=
  match self !! ip with Some e => ban_active e now | None => false end.

(** The list after the violation, and whether a new ban was imposed. *)
Definition record (ip : string) (points now : Z) (self : BanList) : BanList * bool :=
  let e := default {| score := 0; banned_until := None |} (self !! ip) in
  let total := sat_add32 (score e) points in
  if negb (ban_active e now) && (BAN_THRESHOLD <=? total) then
    (<[ip := {| score := total; banned_until := Some (add64 now BAN_DURATION_SECS) |}]> self, true)
  else (<[ip := {| score := total; banned_until := banned_until e |}]> self, false).

Definition unban (ip : string) (self : BanList) : BanList := delete ip self.

(** [retain(|_, e| e.banned_until.map_or(true, |u| u > now))] *)
Definition prune_expired (now : Z) (self : BanList) : BanList :=
  filter (λ ke, (match banned_until ke.2 with Some u => now <? u | None => true end) = true) self.

Definition record_violation (ip : string) (points now : Z) (self : BanList) : BanList * bool :=
  record ip points now (prune_expired now self).

(** ** The texts of the errors *)
Definition utxo_error_text (e : UtxoError) : string :=
  match e with
  | MissingInput => "transaction spends an output that does not exist"
  | DuplicateInput => "transaction spends the same output more than once"
  | MissingCoinbase => "coinbase transaction is missing"
  | CoinbaseOutputTooHigh => "coinbase output exceeds block reward plus transaction fees"
  | InvalidTxSignature => "transaction signature is invalid"
  | ImmatureCoinbaseSpend => "coinbase output is not mature enough to spend"
  | OutputExceedsInput => "transaction outputs exceed inputs (would inflate supply)"
  end.
Definition validation_error_text (e : ValidationError) : string :=
  match e with
  | WrongChainId => "block chain id does not match consensus params"
  | WrongHeight => "block height is not the expected next height"
  | WrongPreviousHash => "previous hash does not match parent"
  | FutureTimestamp => "block timestamp is too far in the future"
  | InvalidMerkleRoot => "block merkle root is invalid"
  | InvalidProofOfWork => "block proof-of-work is invalid"
  | UnexpectedDifficulty => "block declares an unexpected difficulty (consensus retarget mismatch)"
  | V_MissingCoinbase => "coinbase transaction is missing"
  | FirstTransactionNotCoinbase => "first transaction must be coinbase"
  end.
Definition state_error_text (e : StateError) : string :=
  match e with
  | GenesisAlreadyExists => "chain state already has a genesis block"
  | MissingGenesis => "chain state has no genesis block"
  | MiningFailed => "mining failed before nonce limit"
  | S_AlreadyKnown => "block is already known"
  | UnknownParent => "block's parent is not known"
  | S_Validation e => validation_error_text e
  | S_Utxo e => utxo_error_text e
  end.
Definition mempool_error_text (e : MempoolError) : string :=
  match e with
  | CoinbaseNotAllowed => "coinbase transactions are not allowed in the mempool"
  | M_AlreadyKnown => "transaction is already in the mempool"
  | PendingConflict => "transaction conflicts with a transaction already in the mempool"
  | FeeTooLow fee min => "transaction fee " +:+ dec_string fee +:+ " atoms is below minimum relay fee "
                           +:+ dec_string min +:+ " atoms"
  | MempoolFull fee max => "mempool is full (" +:+ dec_string max +:+ " txs); fee " +:+ dec_string fee
                             +:+ " does not exceed the lowest-fee entry"
  | InvalidTransaction e => utxo_error_text e
  end.

(** [msg.contains(pat)] *)
Definition contains_text (msg pat : string) : bool :=
  match String.index 0 pat msg with Some _ => true | None => false end.

Definition is_bannable_block_error (reason : string) : bool :=
  negb (contains_text reason "already known") && negb (contains_text reason "parent").
Definition is_bannable_tx_error (reason : string) : bool :=
  contains_text reason "signature" || contains_text reason "invalid".

(** ** Handshake *)
Record P2pHello := {
  protocol : string;
  hello_version : Z;
  hello_chain_id : string;
  node_id : string;
  hello_height : Z;
  hello_tip_hash : Hash256;
}.

Inductive HelloError := UnsupportedProtocol | UnsupportedVersion | HelloWrongChain.

Definition validate_hello (hello : P2pHello) (params : ConsensusParams) : result HelloError () :=
  reject_if (negb (bool_decide (protocol hello = "tensorium-p2p"))) UnsupportedProtocol;;
  reject_if (negb (hello_version hello =? P2P_PROTOCOL_VERSION)) UnsupportedVersion;;
  reject_if (negb (bool_decide (hello_chain_id hello = p_chain_id params))) HelloWrongChain;;
  Ok ().

Inductive P2pMsg :=
| NewBlock (block : Block)
| Ack (height : Z) (hash : Hash256)
| Reject (reason : string)
| NewTx (tx : Transaction)
| TxAck (txid : Hash256)
| TxReject (txid : Hash256) (reason : string)
| GetBlocks (from_height : Z)
| Blocks (blocks : list Block).

(** ** The node *)
Record Node := { node_db : Db; node_mempool : Mempool; node_bans : BanList }.

Definition with_bans (bans : BanList) (n : Node) : Node :=
  {| node_db := node_db n; node_mempool := node_mempool n; node_bans := bans |}.
Definition with_chain (s : ChainState) (pool : Mempool) (n : Node) : Node :=
  {| node_db := db s; node_mempool := pool; node_bans := node_bans n |}.

(** [state.height().unwrap_or(0)] *)
Definition height_or_0 (s : ChainState) : Z := default 0 (height_cache s).

Section Node.
Context `{Crypto} `{!IterOrder OutPoint UtxoEntry} `{!IterOrder string MempoolEntry}.

Definition local_hello (id : string) (s : ChainState) (params : ConsensusParams) : P2pHello := {|
  protocol := "tensorium-p2p"; hello_version := P2P_PROTOCOL_VERSION; hello_chain_id := p_chain_id params;
  node_id := id;
  hello_height := match tip_cache s with Some t => height (header t) | None => 0 end;
  hello_tip_hash := match tip_cache s with Some t => block_hash t | None => ZERO end |}.

(** The set holds just the outpoints [tx] spends. *)
Definition seed_utxos_for_tx (s : ChainState) (tx : Transaction) : UtxoSet :=
  foldl (λ set i,
    match utxo_lookup (db s) (previous_output i) with
    | Some e => <[previous_output i := e]> set
    | None => set
    end) ∅ (inputs tx).

(** One candidate: errors leave the mempool as it was. *)
Definition requeue_tx (s : ChainState) (params : ConsensusParams) (acc : Mempool * Z) (tx : Transaction) :
    Mempool * Z :=
  match add (seed_utxos_for_tx s tx) params tx (height_or_0 s) acc.1 with
  | (pool, Ok _) => (pool, acc.2 + 1)
  | (pool, Err _) => (pool, acc.2)
  end.
Definition requeue_reorged_transactions (s : ChainState) (params : ConsensusParams) (pool : Mempool) :
    ChainState * (Mempool * Z) :=
  let '(s, candidates) := take_reorg_requeue_candidates s in
  (s, foldl (requeue_tx s params) (pool, 0) candidates).

Definition accept_peer_block (opens : option string) (params : ConsensusParams) (block : Block) (now : Z)
    (n : Node) : Node * result string (Z * Hash256) :=
  match opens with
  | Some e => (n, Err e)
  | None =>
      match submit_block params block now (open_db (node_db n)) with
      | (s, Ok _) =>
          let pool := remove_confirmed block (node_mempool n) in
          let '(s, (pool, _)) := requeue_reorged_transactions s params pool in
          (with_chain s pool n, Ok (height (header block), block_hash block))
      | (s, Err S_AlreadyKnown) =>
          (with_chain s (node_mempool n) n, Ok (height (header block), block_hash block))
      | (s, Err e) => (with_chain s (node_mempool n) n, Err (state_error_text e))
      end
  end.

Definition accept_peer_tx (opens : option string) (params : ConsensusParams) (tx : Transaction)
    (n : Node) : Node * result string () :=
  match opens with
  | Some e => (n, Err e)
  | None =>
      match ensure_utxo_synced params (open_db (node_db n)) with
      | (s, Err e) => (with_chain s (node_mempool n) n, Err (state_error_text e))
      | (s, Ok _) =>
          match add (seed_utxos_for_tx s tx) params tx (height_or_0 s) (node_mempool n) with
          | (pool, Ok _) => (with_chain s pool n, Ok ())
          | (_, Err e) => (with_chain s (node_mempool n) n, Err (mempool_error_text e))
          end
      end
  end.

(** The answer to [GetBlocks]. *)
Definition blocks_from (d : Db) (from_height : Z) : list Block :=
  take SYNC_BATCH_SIZE (filter (λ b, (from_height <=? height (header b)) = true) (canonical_blocks d)).

(** [if record_violation(..) { break; }]: the flag tells whether the loop goes on. *)
Definition penalise (ip : string) (points now : Z) (reply : option P2pMsg) (n : Node) :
    Node * option P2pMsg * bool :=
  let '(bans, banned) := record_violation ip points now (node_bans n) in
  (with_bans bans n, reply, negb banned).

(** One iteration of the message loop; [None] is a line that does not parse. *)
Definition handle_message (opens : option string) (params : ConsensusParams) (ip : string) (now : Z)
    (msg : option P2pMsg) (n : Node) : Node * option P2pMsg * bool :=
  match msg with
  | None => penalise ip SCORE_INVALID_MSG now None n
  | Some (NewBlock block) =>
      match accept_peer_block opens params block now n with
      | (n, Ok (h, hash)) => (n, Some (Ack h hash), true)
      | (n, Err reason) =>
          if is_bannable_block_error reason then penalise ip SCORE_INVALID_BLOCK now (Some (Reject reason)) n
          else (n, Some (Reject reason), true)
      end
  | Some (NewTx tx) =>
      match accept_peer_tx opens params tx n with
      | (n, Ok _) => (n, Some (TxAck (tx_id tx)), true)
      | (n, Err reason) =>
          if is_bannable_tx_error reason then penalise ip SCORE_INVALID_TX now (Some (TxReject (tx_id tx) reason)) n
          else (n, Some (TxReject (tx_id tx) reason), true)
      end
  | Some (GetBlocks from_height) =>
      (n, Some (Blocks (match opens with None => blocks_from (node_db n) from_height | Some _ => [] end)), true)
  | Some (Ack _ _ | Reject _ | TxAck _ | TxReject _ _ | Blocks _) => penalise ip SCORE_INVALID_MSG now None n
  end.

(** The handshake of an inbound connection: the hello line may be missing or not
    parse ([None]). [Some] is the answer of a connection that goes on. *)
Definition handshake (opens : option string) (params : ConsensusParams) (id ip : string) (now : Z)
    (hello : option P2pHello) (n : Node) : Node * option P2pHello :=
  match hello with
  | None => ((penalise ip SCORE_INVALID_MSG now None n).1.1, None)
  | Some hello =>
      match validate_hello hello params with
      | Err _ => ((penalise ip SCORE_BAD_HANDSHAKE now None n).1.1, None)
      | Ok _ => match opens with
                | None => (n, Some (local_hello id (open_db (node_db n)) params))
                | Some _ => (n, None)
                end
      end
  end.

(** The accept loop: too many peers or a banned address are turned away. *)
Definition MAX_INBOUND_PEERS : Z := 64.
Definition admits (peers : Z) (ip : string) (now : Z) (n : Node) : bool :=
  (peers <? MAX_INBOUND_PEERS) && negb (is_banned (node_bans n) ip now).
End Node.
