(* ===== verification/NodeRpc.v ===== *)
(** * The node's RPC handlers ([handle_rpc_stream] in [tensorium-node/src/main.rs])

    The endpoints that change the state or build something: block templates,
    block and transaction submission, asset transactions, UTXO queries, and the
    admin gate of [/unban]. The read-only endpoints are in [NodeServe]. A failure is its HTTP status and the beginning of its text; the asset
    indexer is an argument. Requests are given parsed; broadcasting is not modelled. *)

From S2P Require Import Prelude Crypto Hash Chain ScriptVM ScriptStandard Block Validation Utxo Mempool State AssetCodec Json Node.

Local Open Scope Z_scope.

Inductive RpcFailure := Fail (code : Z) (text : string).

(** What [rpc_state] answers when the database cannot be opened. The error is also
    returned, and [serve_rpc] writes a second response with status 500. *)
Definition node_busy : RpcFailure := Fail 503 "node busy".

(** ** The admin gate *)

(** [constant_time_eq]: the differences of all bytes are accumulated. *)
Fixpoint diff_bytes (a b : bytes) (diff : Z) : Z :=
  match a, b with
  | x :: a, y :: b => diff_bytes a b (Z.lor diff (Z.lxor x y))
  | _, _ => diff
  end.
Definition constant_time_eq (a b : bytes) : bool :=
  (length a =? length b)%nat && (diff_bytes a b 0 =? 0).

(** [token] is the environment variable, [provided] the [X-Admin-Token] header. *)
Definition admin_authorized (token provided : option string) : bool :=
  match token with
  | Some t =>
      if bool_decide (t = EmptyString) then false
      else match provided with
           | Some p => constant_time_eq (bytes_of_string p) (bytes_of_string t)
           | None => false
           end
  | None => false
  end.

(** [/unban/<ip>]: the answer is whether the address was listed. *)
Definition rpc_unban (token provided : option string) (ip : string) (n : Node) : Node * result RpcFailure bool :=
  if negb (admin_authorized token provided) then (n, Err (Fail 403 "admin endpoint"))
  else if bool_decide (ip = EmptyString) then (n, Err (Fail 404 "missing ip"))
  else (with_bans (unban ip (node_bans n)) n, Ok (bool_decide (is_Some (node_bans n !! ip)))).

Record Submitted := { accepted : bool; sub_height : Z; sub_hash : Hash256; canonical : option bool }.

(** [BuildAssetTxRequest] *)
Inductive BuildAssetTxRequest :=
| ReqIssue (from ticker : string) (decimals supply : Z) (name : string)
| ReqNftMint (from : string) (collection_id : option string) (royalty_bps : Z) (royalty_addr uri content_hash : string)
| ReqTransfer (from to asset_id : string) (amount : Z).

Definition ASSET_CARRIER_ATOMS : Z := 1000.

Section Rpc.
Context `{Crypto} `{!IterOrder OutPoint UtxoEntry} `{!IterOrder string MempoolEntry}.

(** [rpc_state(..)?] followed by [ensure_utxo_synced(..)?]. *)
Definition synced_state (opens : option string) (params : ConsensusParams) (n : Node) :
    Node * result RpcFailure ChainState :=
  match opens with
  | Some _ => (n, Err node_busy)
  | None =>
      match ensure_utxo_synced params (open_db (node_db n)) with
      | (s, Ok _) => (with_chain s (node_mempool n) n, Ok s)
      | (s, Err e) => (with_chain s (node_mempool n) n, Err (Fail 500 (state_error_text e)))
      end
  end.

(** ** [/getblocktemplate/<miner>] *)

(** The loop over the candidates: the stale ones are skipped. *)
Definition template_step (s : ChainState) (params : ConsensusParams) (acc : list Transaction * Z) (tx : Transaction) :
    list Transaction * Z :=
  match validate_transaction (seed_utxos_for_tx s tx) tx (height_or_0 s) params with
  | Ok fee => (acc.1 ++ [tx], sat_add64 acc.2 fee)
  | Err _ => acc
  end.
Definition template_txs (s : ChainState) (params : ConsensusParams) (pool : Mempool) : list Transaction * Z :=
  foldl (template_step s params) ([], 0) (select_for_block pool).1.

Definition rpc_getblocktemplate (opens : option string) (params : ConsensusParams) (miner : string) (now : Z)
    (n : Node) : Node * result RpcFailure (Block * Hash256) :=
  if bool_decide (miner = EmptyString) then (n, Err (Fail 404 "missing miner address"))
  else
    match synced_state opens params n with
    | (n, Err e) => (n, Err e)
    | (n, Ok s) =>
        let '(txs, fees) := template_txs s params (node_mempool n) in
        match candidate_block_with_mempool s params now miner txs fees with
        | Ok b => (n, Ok (b, epoch_seed_for_height (db s) (height (header b))))
        | Err e => (n, Err (Fail 500 (state_error_text e)))
        end
    end.

(** ** [/submitblock] *)
Definition rpc_submitblock (opens : option string) (params : ConsensusParams) (block : Block) (now : Z)
    (n : Node) : Node * result RpcFailure Submitted :=
  match opens with
  | Some _ => (n, Err node_busy)
  | None =>
      match submit_block params block now (open_db (node_db n)) with
      | (s, Ok b) =>
          let pool := remove_confirmed b (node_mempool n) in
          let '(s, (pool, _)) := requeue_reorged_transactions s params pool in
          (with_chain s pool n, Ok {| accepted := true; sub_height := height (header b); sub_hash := block_hash b;
                                      canonical := Some (bool_decide (tip_hash s = block_hash b)) |})
      | (s, Err S_AlreadyKnown) =>
          (with_chain s (node_mempool n) n,
           Ok {| accepted := true; sub_height := height (header block); sub_hash := block_hash block;
                 canonical := None |})
      | (s, Err e) => (with_chain s (node_mempool n) n, Err (Fail 500 (state_error_text e)))
      end
  end.

(** ** [/sendrawtransaction]: the answer is the id and the size of the mempool. *)
Definition rpc_sendrawtransaction (opens : option string) (params : ConsensusParams) (tx : Transaction)
    (n : Node) : Node * result RpcFailure (Hash256 * Z) :=
  match synced_state opens params n with
  | (n, Err e) => (n, Err e)
  | (n, Ok s) =>
      match add (seed_utxos_for_tx s tx) params tx (height_or_0 s) (node_mempool n) with
      | (pool, Ok _) => (with_chain s pool n, Ok (tx_id tx, pool_len pool))
      | (_, Err e) => (n, Err (Fail 500 (mempool_error_text e)))
      end
  end.

(** ** [/getutxos/<address or script>] *)
Definition is_mature (params : ConsensusParams) (tip_height : Z) (e : UtxoEntry) : bool :=
  negb (coinbase_output e) || (sat_add64 (created_height e) (coinbase_maturity_blocks params) <=? tip_height).

(** [param.starts_with("txm1")]: an address, else a script in hexadecimal. *)
Definition script_of_param (param : string) : result RpcFailure bytes :=
  if starts_with (bytes_of_string param) (bytes_of_string "txm1")
  then map_err (p2pkh_from_address param) (λ _, Fail 400 "invalid address")
  else ok_or (hex_decode param) (Fail 400 "invalid hex").

Definition rpc_getutxos (opens : option string) (params : ConsensusParams) (param : string) (n : Node) :
    Node * result RpcFailure (list (OutPoint * UtxoEntry * bool)) :=
  if bool_decide (param = EmptyString) then (n, Err (Fail 400 "missing param"))
  else
    match script_of_param param with
    | Err e => (n, Err e)
    | Ok script =>
        match synced_state opens params n with
        | (n, Err e) => (n, Err e)
        | (n, Ok s) =>
            (n, Ok ((λ p, (p, is_mature params (height_or_0 s) p.2)) <$> utxos_for_script (db s) script))
        end
    end.

(** ** [/buildAssetTx] *)

(** [hex::decode(s)] of exactly 32 bytes. *)
Definition hash_param (s : string) (what : string) : result RpcFailure bytes :=
  match hex_decode s with
  | Some bs => if (length bs =? 32)%nat then Ok bs else Err (Fail 400 what)
  | None => Err (Fail 400 what)
  end.

(** The sender, the operation and the destination. [check] is [indexer_check_transfer]. *)
Definition asset_request (check : string -> string -> Z -> result string bool) (req : BuildAssetTxRequest) :
    result RpcFailure (string * AssetOp * option (string * Z)) :=
  match req with
  | ReqIssue from ticker decimals supply name =>
      reject_if (8 <? Z.of_nat (String.length ticker)) (Fail 400 "ticker must be <= 8 bytes");;
      reject_if (32 <? Z.of_nat (String.length name)) (Fail 400 "name must be <= 32 bytes");;
      reject_if (18 <? decimals) (Fail 400 "decimals must be <= 18");;
      reject_if (supply =? 0) (Fail 400 "supply must be > 0");;
      Ok (from, Issue {| ticker := ticker; decimals := decimals; supply := supply; asset_name := name; flags := 0 |}, None)
  | ReqNftMint from collection bps addr uri content =>
      reject_if (10000 <? bps) (Fail 400 "royalty_bps must be <= 10000");;
      reject_if (200 <? Z.of_nat (String.length uri)) (Fail 400 "uri must be <= 200 bytes");;
      content ← hash_param content "content_hash must be 32 bytes (64 hex chars)";
      collection ← match collection with
                   | Some s => hash_param s "collection_id must be 32 bytes (64 hex chars)"
                   | None => Ok (replicate 32 0)
                   end;
      Ok (from, NftMint {| collection_id := collection; royalty_bps := bps; royalty_addr := addr;
                           uri := uri; content_hash := content |}, None)
  | ReqTransfer from to asset amount =>
      reject_if (amount =? 0) (Fail 400 "amount must be > 0");;
      asset_bytes ← hash_param asset "asset_id must be 32 bytes (64 hex chars)";
      match check from asset amount with
      | Ok true => Ok (from, Transfer {| asset_id := asset_bytes; amount := amount; dest_output_index := 0 |},
                       Some (to, ASSET_CARRIER_ATOMS))
      | Ok false => Err (Fail 400 "insufficient asset balance or not the NFT owner")
      | Err e => Err (Fail 503 ("asset index unavailable: " +:+ e))
      end
  end.

(** The loop over the UTXOs of the sender: the inputs taken and their sum. *)
Fixpoint take_inputs (params : ConsensusParams) (tip_height needed : Z) (utxos : list (OutPoint * UtxoEntry))
    (ins : list TxInput) (total : Z) : list TxInput * Z :=
  match utxos with
  | [] => (ins, total)
  | (o, e) :: utxos =>
      if negb (is_mature params tip_height e) then take_inputs params tip_height needed utxos ins total
      else
        let ins := ins ++ [ {| previous_output := o; signature_script := [] |} ] in
        let total := sat_add64 total (value_atoms (output e)) in
        if needed <=? total then (ins, total) else take_inputs params tip_height needed utxos ins total
  end.

Definition build_error_text (e : BuildError) : string :=
  match e with
  | InsufficientBalance _ _ => "insufficient balance"
  | InvalidRecipient => "invalid recipient address"
  | InvalidChange => "invalid change address"
  end.

Definition rpc_build_asset_tx (opens : option string) (params : ConsensusParams)
    (check : string -> string -> Z -> result string bool) (req : BuildAssetTxRequest) (n : Node) :
    Node * result RpcFailure (Transaction * AssetOp) :=
  match (r ← asset_request check req;
         script ← map_err (p2pkh_from_address r.1.1) (λ _, Fail 400 "invalid 'from' address");
         Ok (r, script)) with
  | Err e => (n, Err e)
  | Ok ((from, op, dest), script) =>
      match synced_state opens params n with
      | (n, Err e) => (n, Err e)
      | (n, Ok s) =>
          let needed := sat_add64 (match dest with Some (_, a) => a | None => 0 end) MIN_RELAY_FEE_ATOMS in
          let '(ins, total) := take_inputs params (height_or_0 s) needed (utxos_for_script (db s) script) [] 0 in
          if total <? needed then (n, Err (Fail 400 "insufficient mature balance"))
          else
            match build_outputs op dest from total MIN_RELAY_FEE_ATOMS with
            | Ok outs => (n, Ok (payment ins outs, op))
            | Err e => (n, Err (Fail 400 (build_error_text e)))
            end
      end
  end.
End Rpc.

(** ** [indexer_check_transfer], on the indexer's answer *)
Section Check.
Context `{Json}.

(** The NFTs first, then the first fungible balance of the asset. *)
Definition transfer_allowed (v : json) (asset : string) (amount : Z) : bool :=
  let nfts := default [] (json_get v "nfts" ≫= as_array) in
  if existsb (λ id, bool_decide (as_str id = Some asset)) nfts then amount =? 1
  else
    match List.find (λ ft, bool_decide ((json_get ft "asset_id" ≫= as_str) = Some asset))
            (default [] (json_get v "fungible" ≫= as_array)) with
    | Some ft => amount <=? default 0 (json_get ft "amount" ≫= as_u64)
    | None => false
    end.

Definition indexer_check_transfer (fetch : string -> result string string) (from asset : string) (amount : Z) :
    result string bool :=
  body ← fetch from;
  v ← ok_or (json_parse body) "bad indexer response"%string;
  Ok (transfer_allowed v asset amount).
End Check.
