(* ===== verification/NodeHttp.v ===== *)
(** * The node's HTTP server ([tensorium-node/src/main.rs])

    Reading a request from the socket, its parsing, the read-only endpoints, the
    dispatch of [handle_rpc_stream], and the guard of the bind address. The reads of the socket
    are a list of chunks; [serde]'s parsers of the bodies are the record [Bodies]; an answer is a
    value of [Answer], the text of its JSON is not modelled. *)

From S2P Require Import Prelude Numeral Crypto Hash Chain ScriptVM ScriptStandard Block Validation Utxo Mempool State AssetCodec.
From S2P Require Import Json Node NodeRpc.

Local Open Scope Z_scope.

(** ** Text *)
Definition CRLF2 : bytes := [13; 10; 13; 10].

(** [a.eq_ignore_ascii_case(b)] *)
Definition ascii_lower (b : Z) : Z := if (65 <=? b) && (b <=? 90) then b + 32 else b.
Definition eq_ignore_ascii_case (a b : bytes) : bool := bool_decide (ascii_lower <$> a = ascii_lower <$> b).

(** [s.split_once(c)] on bytes *)
Fixpoint split_byte (c : Z) (bs : bytes) : option (bytes * bytes) :=
  match bs with
  | [] => None
  | b :: bs =>
      if b =? c then Some ([], bs)
      else match split_byte c bs with Some (l, r) => Some (b :: l, r) | None => None end
  end.

(** [s.lines()]: a line ends with a newline, an optional carriage return before it is dropped. *)
Definition strip_cr (line : bytes) : bytes :=
  match reverse line with 13 :: line' => reverse line' | _ => line end.
Fixpoint lines_from (cur bs : bytes) : list bytes :=
  match bs with
  | [] => match cur with [] => [] | _ => [reverse cur] end
  | b :: bs => if b =? 10 then strip_cr (reverse cur) :: lines_from [] bs else lines_from (b :: cur) bs
  end.
Definition lines (bs : bytes) : list bytes := lines_from [] bs.

(** [s.split_whitespace()]; one step per byte is enough. *)
Fixpoint words_from (fuel : nat) (cur bs : bytes) : list bytes :=
  let done := match cur with [] => [] | _ => [reverse cur] end in
  match fuel, bs with
  | S fuel, b :: bs' =>
      match strip_one white_space bs with
      | Some rest => done ++ words_from fuel [] rest
      | None => words_from fuel (b :: cur) bs'
      end
  | _, _ => done
  end.
Definition split_whitespace (bs : bytes) : list bytes := words_from (length bs) [] bs.

(** [buf.windows(4).position(|w| w == b"\r\n\r\n")] *)
Fixpoint header_end (buf : bytes) : option nat :=
  if starts_with buf CRLF2 then Some O
  else match buf with [] => None | _ :: buf => S <$> header_end buf end.

(** [s.split_once("\r\n\r\n")] *)
Definition split_head (bs : bytes) : option (bytes * bytes) :=
  (λ n, (take n bs, drop (n + 4) bs)) <$> header_end bs.

(** ** Reading a request *)
Definition MAX_REQUEST_BYTES : Z := 8 * 1024 * 1024.

(** A header that ends the search: the first for which [f] answers. *)
Definition find_header {A} (f : bytes -> bytes -> option A) (ls : list bytes) : option A :=
  head (omap (λ line, split_byte 58 line ≫= λ p, f p.1 p.2) ls).

Definition content_length_header : bytes := bytes_of_string "content-length".
Definition parse_content_length (headers : bytes) : option Z :=
  find_header (λ name value,
    if eq_ignore_ascii_case name content_length_header
    then parse_uint U64_MAX (string_of_bytes (trim_bytes value)) else None) (lines headers).

(** [expected_total], once the headers are there; the sum wraps. *)
Definition total_expected (e : nat) (buffer : bytes) : Z :=
  add64 (Z.of_nat (e + 4))
    (default 0 (parse_content_length (bytes_of_string (from_utf8_lossy (take e buffer))))).

(** The loop over the reads; no more reads: the peer closed. *)
Fixpoint read_loop (reads : list (result string bytes)) (buffer : bytes) (expected : option Z) : result string bytes :=
  match reads with
  | [] => Ok buffer
  | Err _ :: _ => Err "failed to read request"%string
  | Ok [] :: _ => Ok buffer
  | Ok chunk :: reads =>
      let buffer := buffer ++ chunk in
      if MAX_REQUEST_BYTES <? Z.of_nat (length buffer) then Err "request too large"%string
      else
        match expected with
        | None =>
            match header_end buffer with
            | Some e =>
                let cl := default 0 (parse_content_length (bytes_of_string (from_utf8_lossy (take e buffer)))) in
                let total := total_expected e buffer in
                if cl =? 0 then Ok buffer
                else if total <=? Z.of_nat (length buffer) then Ok buffer
                else read_loop reads buffer (Some total)
            | None => read_loop reads buffer None
            end
        | Some total => if total <=? Z.of_nat (length buffer) then Ok buffer else read_loop reads buffer expected
        end
  end.
Definition read_http_request (reads : list (result string bytes)) : result string string :=
  buffer ← read_loop reads [] None;
  ok_or (from_utf8 buffer) "request was not valid UTF-8"%string.

(** ** Parsing it *)
Record ParsedHttpRequest := { method : string; path : string; body : string }.

Definition parse_http_request (request : string) : option ParsedHttpRequest :=
  let bs := bytes_of_string request in
  line ← head (lines bs);
  match split_whitespace line with
  | m :: p :: _ => Some {| method := string_of_bytes m; path := string_of_bytes p;
                           body := match split_head bs with Some (_, b) => string_of_bytes b | None => EmptyString end |}
  | _ => None
  end.

(** The first header of that name, after the request line. *)
Definition header_value (request name : string) : option string :=
  let bs := bytes_of_string request in
  let head := match split_head bs with Some (h, _) => h | None => bs end in
  find_header (λ k v, if eq_ignore_ascii_case (trim_bytes k) (bytes_of_string name)
                      then Some (string_of_bytes (trim_bytes v)) else None) (drop 1 (lines head)).

(** [path.trim_start_matches(pat)] *)
Definition trim_start_matches (pat s : string) : string :=
  string_of_bytes (strip_front (String.length s) [bytes_of_string pat] (bytes_of_string s)).
Definition has_prefix (s pat : string) : bool := starts_with (bytes_of_string s) (bytes_of_string pat).

(** ** The guard of the bind address *)

(** [bind.rsplit_once(':').map(|(host, _)| host).unwrap_or(bind)] *)
Definition bind_host (bind : bytes) : bytes :=
  match split_byte 58 (reverse bind) with Some (_, host) => reverse host | None => bind end.
(** [trim_matches(['[', ']'])] *)
Fixpoint trim_brackets (bs : bytes) : bytes :=
  match bs with b :: bs' => if (b =? 91) || (b =? 93) then trim_brackets bs' else bs | [] => [] end.
Definition trim_brackets_both (bs : bytes) : bytes := reverse (trim_brackets (reverse (trim_brackets bs))).

(** [allow] is the variable [TENSORIUM_RPC_ALLOW_PUBLIC]. *)
Definition ensure_safe_rpc_bind (allow : option string) (bind : string) : result string () :=
  let host := string_of_bytes (trim_brackets_both (bind_host (bytes_of_string bind))) in
  let loopback := bool_decide (host ∈ ["127.0.0.1"; "localhost"; "::1"]%string) in
  let explicitly_allowed :=
    match allow with
    | Some v => bool_decide (v = "1"%string) || eq_ignore_ascii_case (bytes_of_string v) (bytes_of_string "true")
    | None => false
    end in
  reject_if (negb loopback && negb explicitly_allowed) "refusing public RPC bind"%string.

(** ** Lines of the peer-to-peer protocol *)

(** The loop of [read_p2p_line] over the bytes of the stream; the rest of the stream is left. *)
Fixpoint read_line_from (max : Z) (stream buf : bytes) : result string (bytes * bytes) :=
  match stream with
  | [] => Err "peer closed connection"%string
  | b :: stream =>
      if b =? 10 then Ok (buf, stream)
      else
        let buf := buf ++ [b] in
        if max <? Z.of_nat (length buf) then Err "p2p message too large"%string
        else read_line_from max stream buf
  end.
Definition read_p2p_line (max : Z) (stream : bytes) : result string (string * bytes) :=
  '(buf, rest) ← read_line_from max stream [];
  line ← ok_or (from_utf8 buf) "p2p invalid utf8"%string;
  Ok (line, rest).

(** [configured_peers]: the variables [TENSORIUM_PEERS] and [TENSORIUM_NO_DEFAULT_SEEDS], and the built-in list. *)
Fixpoint split_on (fuel : nat) (c : Z) (bs : bytes) : list bytes :=
  match fuel, split_byte c bs with
  | S fuel, Some (l, r) => l :: split_on fuel c r
  | _, _ => [bs]
  end.
Definition configured_peers (peers no_seeds : option string) (seeds : list string) : list string :=
  let raw := bytes_of_string (default EmptyString peers) in
  let manual := string_of_bytes <$> filter (λ s, s <> []) (trim_bytes <$> split_on (length raw) 44 raw) in
  match manual, no_seeds with
  | _ :: _, _ => manual
  | [], Some _ => []
  | [], None => seeds
  end.

(** * The node's HTTP server: a request is read whole

    However the socket splits a request, the server reads exactly it, and finds its
    method, path and body. *)

(** ** The end of the headers *)

Lemma starts_short bs p : (length bs < length p)%nat -> starts_with bs p = false.
Proof. intros Hl. unfold starts_with. apply bool_decide_eq_false. intros E. apply (f_equal length) in E. rewrite length_take in E. lia. Qed.

Lemma header_end_short buf : (length buf < 4)%nat -> header_end buf = None.
Proof.
  induction buf as [|b buf IH]; intros Hl; [done|]. cbn [header_end]. rewrite starts_short by done.
  rewrite IH; [done|]. cbn [length] in Hl. lia.
Qed.

Lemma starts_prefix bs cs p : (length p <= length bs)%nat -> starts_with (bs ++ cs) p = starts_with bs p.
Proof. intros Hl. unfold starts_with. by rewrite take_app_le. Qed.

(** A prefix of a text shows the end of the headers as soon as it has it. *)
Lemma header_end_prefix e buf rest :
  header_end (buf ++ rest) = Some e ->
  header_end buf = if decide (e + 4 <= length buf)%nat then Some e else None.
Proof.
  revert e; induction buf as [|b buf IH]; intros e He; [by rewrite decide_False by (cbn; lia)|].
  destruct (decide (4 <= length (b :: buf))%nat) as [Hl|Hl].
  - cbn [app header_end] in He |- *. rewrite <- (starts_prefix (b :: buf) rest) by done. cbn [app].
    destruct (starts_with (b :: buf ++ rest) CRLF2).
    + injection He as <-. by rewrite decide_True by done.
    + destruct (header_end (buf ++ rest)) as [e'|]; [|done]. injection He as <-.
      rewrite (IH e' eq_refl). cbn [length]. repeat case_decide; (done || lia).
  - rewrite header_end_short by lia. rewrite decide_False by lia. done.
Qed.

(** ** Reading *)
Section Read.
Context (h body : bytes) (text : string).
Definition request_bytes : bytes := h ++ CRLF2 ++ body.
Context (Hend : header_end request_bytes = Some (length h)).
Context (Hcl : default 0 (parse_content_length (bytes_of_string (from_utf8_lossy h))) = Z.of_nat (length body)).
Context (Hmax : Z.of_nat (length request_bytes) <= MAX_REQUEST_BYTES).

Definition expected_at (buffer : bytes) : option Z :=
  if decide (length h + 4 <= length buffer)%nat then Some (Z.of_nat (length request_bytes)) else None.

Lemma request_length : length request_bytes = (length h + 4 + length body)%nat.
Proof. unfold request_bytes. rewrite !length_app. cbn [CRLF2 length]. lia. Qed.

Lemma prefix_whole buffer rest :
  buffer ++ rest = request_bytes -> (length request_bytes <= length buffer)%nat -> buffer = request_bytes.
Proof.
  intros Hp Hl. rewrite <- Hp, length_app in Hl. destruct rest; [by rewrite app_nil_r in Hp|cbn [length] in Hl; lia].
Qed.

Lemma read_loop_whole chunks reads buffer :
  Forall (λ c, c <> []) chunks -> buffer ++ mjoin chunks = request_bytes -> buffer <> request_bytes ->
  read_loop ((Ok <$> chunks) ++ reads) buffer (expected_at buffer) = Ok request_bytes.
Proof using Hend Hcl Hmax.
  intros Hc; revert buffer; induction Hc as [|c chunks Hne Hc IH]; intros buffer Hp Hn.
  { cbn in Hp. by rewrite app_nil_r in Hp. }
  assert ((buffer ++ c) ++ mjoin chunks = request_bytes) as Hp' by (rewrite <- Hp; cbn; by rewrite <- app_assoc).
  assert (Z.of_nat (length (buffer ++ c)) <= Z.of_nat (length request_bytes)) as Hle.
  { rewrite <- Hp', (length_app (buffer ++ c)). lia. }
  pose proof (header_end_prefix (length h) (buffer ++ c) (mjoin chunks)) as He. rewrite Hp' in He. specialize (He Hend).
  assert (forall total, total = Z.of_nat (length request_bytes) -> (length h + 4 <= length (buffer ++ c))%nat ->
    (if total <=? Z.of_nat (length (buffer ++ c)) then Ok (buffer ++ c)
     else read_loop ((Ok <$> chunks) ++ reads) (buffer ++ c) (Some total)) = Ok request_bytes) as Hgo.
  { intros total -> Hl. destruct (Z.leb_spec (Z.of_nat (length request_bytes)) (Z.of_nat (length (buffer ++ c)))).
    - f_equal. eapply prefix_whole; [exact Hp'|lia].
    - rewrite <- (IH (buffer ++ c) Hp'); [unfold expected_at; by rewrite decide_True by done|].
      intros E. rewrite E in *. lia. }
  cbn [fmap list_fmap app read_loop]. destruct c as [|x c]; [done|]. set (c' := x :: c) in *.
  rewrite (proj2 (Z.ltb_ge _ _)) by lia. unfold expected_at.
  destruct (decide (length h + 4 <= length buffer)%nat) as [Hl|Hl].
  - apply Hgo; [done|]. rewrite length_app. lia.
  - rewrite He. destruct (decide (length h + 4 <= length (buffer ++ c'))%nat) as [Hl'|Hl'].
    + assert (take (length h) (buffer ++ c') = h) as Htake.
      { transitivity (take (length h) request_bytes); [|apply take_app_length].
        rewrite <- Hp'. symmetry. apply take_app_le. lia. }
      unfold total_expected. rewrite Htake, Hcl. pose proof request_length as Hlen.
      rewrite add64_small by (rewrite Hlen in Hmax; unfold MAX_REQUEST_BYTES, U64_MOD in *; lia).
      destruct (Z.eqb_spec (Z.of_nat (length body)) 0) as [Hz|Hz].
      * f_equal. eapply prefix_whole; [exact Hp'|lia].
      * apply Hgo; [lia|done].
    + rewrite <- (IH (buffer ++ c') Hp'); [unfold expected_at; by rewrite decide_False by done|].
      intros E. rewrite E, request_length in Hl'. lia.
Qed.
End Read.

(** ** The request line *)

Lemma lines_first cur l rest :
  Forall (λ b, b <> 10) l -> head (lines_from cur (l ++ 10 :: rest)) = Some (strip_cr (reverse cur ++ l)).
Proof.
  intros Hl; revert cur; induction Hl as [|b l Hb _ IH]; intros cur; cbn [app lines_from]; [by rewrite app_nil_r|].
  rewrite (proj2 (Z.eqb_neq _ _)) by done. rewrite IH, reverse_cons. by rewrite <- app_assoc.
Qed.

Lemma strip_cr_snoc l : strip_cr (l ++ [13]) = l.
Proof. unfold strip_cr. rewrite reverse_snoc. apply reverse_involutive. Qed.

Lemma white_invisible : Forall (λ p, match p with c :: _ => ~ visible c | [] => False end) white_space.
Proof. unfold white_space, visible. repeat constructor; intros []; lia. Qed.

Lemma words_visible w n cur bs :
  Forall visible w -> words_from (length w + n) cur (w ++ bs) = words_from n (reverse w ++ cur) bs.
Proof.
  intros Hw; revert cur; induction Hw as [|b w Hb _ IH]; intros cur; [done|]. cbn [length app Nat.add words_from].
  rewrite (strip_one_visible _ _ _ white_invisible Hb), IH, reverse_cons. by rewrite <- app_assoc.
Qed.

Lemma words_space n cur bs : words_from (S n) (reverse cur) (32 :: bs) = (match reverse cur with [] => [] | _ => [cur] end) ++ words_from n [] bs.
Proof. cbn [words_from]. change (strip_one white_space (32 :: bs)) with (Some bs). destruct (reverse cur) eqn:E; [done|]. by rewrite <- E, reverse_involutive. Qed.

Lemma two_words m p v :
  Forall visible m -> m <> [] -> Forall visible p -> p <> [] ->
  exists ws, split_whitespace (m ++ 32 :: p ++ 32 :: v) = m :: p :: ws.
Proof.
  intros Hm Hme Hp Hpe. unfold split_whitespace.
  replace (length (m ++ 32 :: p ++ 32 :: v)) with (length m + S (length p + S (length v)))%nat
    by (rewrite !length_app; cbn [length]; rewrite length_app; cbn [length]; lia).
  assert (forall w : bytes, w <> [] -> match reverse w with [] => [] | _ => [w] end = [w]) as Hne.
  { intros w Hw. destruct (reverse w) eqn:E; [|done]. apply (f_equal reverse) in E. rewrite reverse_involutive in E. done. }
  rewrite words_visible, app_nil_r, words_space, Hne by done. cbn [app].
  rewrite words_visible, app_nil_r, words_space, Hne by done. by eexists.
Qed.

(** C27: Every request is read whole and understood. Let a request have a visible method and path, its
    first empty line after its headers, and a [Content-Length] that is the
    length of its body (none counts as zero), and let it be valid UTF-8 of at most 8 MiB. However the
    socket cuts it into chunks, and whatever would be read after it, the server reads exactly its text, without
    waiting for more, and its method, path and body are those of the request. *)
Theorem request_read_whole m p v hs body text chunks reads :
  let h := m ++ 32 :: p ++ 32 :: v ++ hs in
  Forall visible m -> m <> [] -> Forall visible p -> p <> [] -> Forall (λ b, b <> 10) v ->
  (hs = [] \/ exists hs', hs = 13 :: 10 :: hs') ->
  header_end (h ++ CRLF2 ++ body) = Some (length h) ->
  default 0 (parse_content_length (bytes_of_string (from_utf8_lossy h))) = Z.of_nat (length body) ->
  Z.of_nat (length (h ++ CRLF2 ++ body)) <= MAX_REQUEST_BYTES -> from_utf8 (h ++ CRLF2 ++ body) = Some text ->
  Forall (λ c, c <> []) chunks -> Forall bytes_ok chunks -> mjoin chunks = h ++ CRLF2 ++ body ->
  read_http_request ((Ok <$> chunks) ++ reads) = Ok text
  /\ parse_http_request text = Some {| method := string_of_bytes m; path := string_of_bytes p; NodeHttp.body := string_of_bytes body |}.
Proof.
  intros h Hm Hme Hp Hpe Hv Hhs Hend Hcl Hmax Hutf Hne Hok Hjoin. split.
  - unfold read_http_request.
    assert (read_loop ((Ok <$> chunks) ++ reads) [] (expected_at h body []) = Ok (request_bytes h body)) as Hr.
    { apply read_loop_whole; try done. intros E. apply (f_equal length) in E. rewrite request_length in E. cbn [length] in E. lia. }
    unfold expected_at in Hr. rewrite decide_False in Hr by (cbn [length]; lia). rewrite Hr. cbn [mbind result_bind].
    unfold request_bytes. by rewrite Hutf.
  - assert (bytes_of_string text = h ++ CRLF2 ++ body) as Hb.
    { unfold from_utf8 in Hutf. destruct (utf8_valid _ _); [|done]. injection Hutf as <-.
      apply bytes_of_string_of_bytes. rewrite <- Hjoin. clear -Hok. induction Hok; [constructor|]. by apply Forall_app. }
    unfold parse_http_request, split_head. rewrite Hb, Hend. cbn [fmap option_fmap option_map].
    assert (drop (length h + 4) (h ++ CRLF2 ++ body) = body) as -> by by rewrite drop_app_add.
    assert (exists rest, h ++ CRLF2 ++ body = (m ++ 32 :: p ++ 32 :: v ++ [13]) ++ 10 :: rest) as [rest Hrest].
    { unfold h, CRLF2. destruct Hhs as [-> | [hs' ->]]; eexists; rewrite <- ?app_assoc; cbn [app]; rewrite <- ?app_assoc;
        cbn [app]; rewrite <- ?app_assoc; reflexivity. }
    unfold lines. rewrite Hrest, lines_first.
    + cbn [reverse rev_append app].
      replace (m ++ 32 :: p ++ 32 :: v ++ [13]) with ((m ++ 32 :: p ++ 32 :: v) ++ [13])
        by (rewrite <- app_assoc; cbn [app]; rewrite <- app_assoc; reflexivity).
      rewrite strip_cr_snoc. cbn [mbind option_bind]. destruct (two_words m p v) as [ws ->]; try done.
    + assert (forall w, Forall visible w -> Forall (λ b, b <> 10) w) as Hvis.
      { intros w Hw. eapply Forall_impl; [exact Hw|]. unfold visible. intros b Hvb. lia. }
      repeat first [apply Forall_app; split | apply Forall_cons; split]; auto; try lia; constructor.
Qed.

Module Posted.
Definition hs : bytes := 13 :: 10 :: bytes_of_string "Content-Length: 2".
Definition m : bytes := bytes_of_string "POST".
Definition p : bytes := bytes_of_string "/submitblock".
Definition v : bytes := bytes_of_string "HTTP/1.1".
Definition h : bytes := m ++ 32 :: p ++ 32 :: v ++ hs.
Definition whole : bytes := h ++ CRLF2 ++ bytes_of_string "{}".
End Posted.

Lemma request_read_whole_witness :
  read_http_request ((Ok <$> [take 30 Posted.whole; drop 30 Posted.whole]) ++ [Err "reset"%string])
    = Ok (string_of_bytes Posted.whole)
  /\ parse_http_request (string_of_bytes Posted.whole)
     = Some {| method := string_of_bytes Posted.m; path := string_of_bytes Posted.p;
               NodeHttp.body := string_of_bytes (bytes_of_string "{}") |}.
Proof.
  apply (request_read_whole Posted.m Posted.p Posted.v Posted.hs (bytes_of_string "{}") (string_of_bytes Posted.whole)
           [take 30 Posted.whole; drop 30 Posted.whole] [Err "reset"%string]).
  1, 3: unfold visible; vm_compute; repeat constructor; discriminate.
  1, 2: discriminate.
  2: right; exists (bytes_of_string "Content-Length: 2"); reflexivity.
  1: vm_compute; repeat constructor; discriminate.
  1, 2, 4, 7: vm_compute; reflexivity.
  1: vm_compute; discriminate.
  1: repeat constructor; discriminate.
  by_compute.
Defined.
