(* ===== verification/NodeFacts.v ===== *)
(** * What the node promises its peers and its miners *)

From S2P Require Import Prelude Crypto Hash Chain Validation ScriptVM Block BlockFacts Utxo Mempool MempoolFacts.
From S2P Require Import Storage State StateDb StateChain StateInv StateProps StateSubmit AssetCodec Node NodeRpc.

Local Open Scope Z_scope.

(** ** Disjoint transactions *)

(** Every outpoint is spent by one transaction of the list at most. *)
Fixpoint spends_apart (txs : list Transaction) : Prop :=
  match txs with
  | [] => True
  | tx :: txs => (forall op, op ∈ input_outpoints tx -> op ∉ spent_outpoints txs) /\ spends_apart txs
  end.

Lemma spent_outpoints_app l k : spent_outpoints (l ++ k) = spent_outpoints l ++ spent_outpoints k.
Proof. unfold spent_outpoints. by rewrite bind_app. Qed.

Lemma spends_apart_snoc l tx :
  spends_apart (l ++ [tx]) <-> spends_apart l /\ forall op, op ∈ input_outpoints tx -> op ∉ spent_outpoints l.
Proof.
  induction l as [|x l IH]; cbn [app spends_apart]; [cbn; set_solver|].
  rewrite IH, spent_outpoints_app, spent_outpoints_cons. unfold spent_outpoints at 2. cbn [mbind list_bind].
  rewrite app_nil_r. fold (input_outpoints tx) (input_outpoints x). set_solver.
Qed.

Lemma spends_apart_sublist l k : l `sublist_of` k -> spends_apart k -> spends_apart l.
Proof.
  induction 1 as [|x l k Hs IH|x l k Hs IH]; cbn [spends_apart]; [done| |by intros [_ ?]; apply IH].
  intros [Hd Hk]. split; [|by apply IH]. intros op Hop Hin. apply (Hd op Hop).
  unfold spent_outpoints in *. apply list_elem_of_bind in Hin as (tx & Htx & Hin). apply list_elem_of_bind.
  exists tx. split; [done|]. by eapply elem_of_sublist.
Qed.

Lemma spends_apart_nodup l :
  spends_apart l -> Forall (λ tx, NoDup (input_outpoints tx)) l -> NoDup (spent_outpoints l).
Proof.
  induction l as [|tx l IH]; [intros; apply NoDup_nil_2|]. intros [Hd Ha] [Hn Hl]%Forall_cons.
  rewrite spent_outpoints_cons. apply NoDup_app. split_and!; [done|done|by apply IH].
Qed.

(** The mempool's selection never picks two spenders of one output. *)
Lemma select_loop_apart entries spent selected fees :
  spends_apart selected -> (forall op, op ∈ spent_outpoints selected -> op ∈ spent) ->
  spends_apart (select_loop entries spent selected fees).1.
Proof.
  revert spent selected fees; induction entries as [|e es IH]; intros spent selected fees Ha Hs; [done|].
  cbn [select_loop]. destruct (spends_any spent (entry_tx e)) eqn:Hc; [by apply IH|].
  apply IH.
  - apply spends_apart_snoc. split; [done|]. intros op Hop Hin. by eapply (proj1 (spends_any_false _ _) Hc op Hop), Hs.
  - intros op. rewrite spent_outpoints_app. unfold spent_outpoints at 2. cbn [mbind list_bind]. rewrite app_nil_r.
    fold (input_outpoints (entry_tx e)). set_solver.
Qed.

Section Template.
Context `{Crypto} `{!IterOrder OutPoint UtxoEntry} `{!IterOrder string MempoolEntry}.

Lemma seeded_lookup s tx i :
  i ∈ inputs tx -> seed_utxos_for_tx s tx !! previous_output i = cf_utxo (db s) !! previous_output i.
Proof.
  intros Hi. change (seed_utxos_for_tx s tx) with (seed_utxos (db s) [tx]). rewrite seed_utxos_spec, decide_True; [done|].
  unfold spent_outpoints. cbn [mbind list_bind]. rewrite app_nil_r. by apply list_elem_of_fmap_2.
Qed.

(** Validation against the seed is validation against the whole set. *)
Lemma seeded_valid s params h tx fee :
  validate_transaction (seed_utxos_for_tx s tx) tx h params = Ok fee <->
  NoDup (previous_output <$> inputs tx) /\ tx_valid (cf_utxo (db s)) params h tx /\ fee = tx_fee (cf_utxo (db s)) tx.
Proof.
  rewrite validate_transaction_Ok. split; intros (Hnd & Hv & Hfee).
  - destruct (tx_valid_frame _ (cf_utxo (db s)) _ _ _ (λ i Hi, seeded_lookup s tx i Hi) Hv) as [Hv' Hf].
    split_and!; [done|done|congruence].
  - destruct (tx_valid_frame _ (seed_utxos_for_tx s tx) _ _ _ (λ i Hi, eq_sym (seeded_lookup s tx i Hi)) Hv) as [Hv' Hf].
    split_and!; [done|done|congruence].
Qed.

(** The transactions of a template: apart, valid, with the fees they pay. *)
Lemma template_txs_spec s params pool :
  let '(txs, fees) := template_txs s params pool in
  spends_apart txs
  /\ Forall (λ tx, NoDup (input_outpoints tx) /\ tx_valid (cf_utxo (db s)) params (height_or_0 s) tx) txs
  /\ fees = sat_sum (tx_fee (cf_utxo (db s)) <$> txs).
Proof.
  unfold template_txs. assert (spends_apart (select_for_block pool).1) as Ha by (apply select_loop_apart; [done|cbn; set_solver]).
  generalize dependent (select_for_block pool).1. intros chosen Ha.
  assert (forall l txs fees, txs ++ l `sublist_of` chosen ->
    Forall (λ tx, NoDup (input_outpoints tx) /\ tx_valid (cf_utxo (db s)) params (height_or_0 s) tx) txs ->
    fees = sat_sum (tx_fee (cf_utxo (db s)) <$> txs) ->
    let '(txs', fees') := foldl (template_step s params) (txs, fees) l in
    spends_apart txs'
    /\ Forall (λ tx, NoDup (input_outpoints tx) /\ tx_valid (cf_utxo (db s)) params (height_or_0 s) tx) txs'
    /\ fees' = sat_sum (tx_fee (cf_utxo (db s)) <$> txs')) as Hgo; [|by apply (Hgo chosen [] 0)].
  induction l as [|tx l IH]; intros txs fees Hsub Hv Hf; cbn [foldl].
  { rewrite app_nil_r in Hsub. split_and!; [by eapply spends_apart_sublist|done|done]. }
  unfold template_step at 2. cbn [fst snd].
  destruct (validate_transaction (seed_utxos_for_tx s tx) tx (height_or_0 s) params) as [fee|e] eqn:E.
  - apply seeded_valid in E as (Hnd & Hval & ->). apply IH.
    + by rewrite <- app_assoc.
    + apply Forall_app. split; [done|]. by constructor.
    + subst fees. rewrite fmap_app. unfold sat_sum. by rewrite foldl_app.
  - apply IH; [|done|done]. etransitivity; [|exact Hsub]. apply sublist_app; [done|]. by constructor.
Qed.

Lemma coinbase_is_coinbase n reward miner : is_coinbase (coinbase n reward miner) = true.
Proof. unfold is_coinbase. cbn [coinbase make_tx inputs payload]. rewrite bool_decide_true by done. by apply bool_decide_true. Qed.

Lemma coinbase_value n reward miner : 0 <= reward <= U64_MAX -> total_output_atoms (coinbase n reward miner) = reward.
Proof.
  intros Hr. unfold total_output_atoms, coinbase, make_tx. cbn [outputs].
  destruct (Z.eqb_spec reward 0) as [->|Hne]; [done|]. unfold sat_sum. csimpl. unfold sat_add64. lia.
Qed.

Lemma has_genesis_premint_above params n : n <> 0 -> has_genesis_premint params n = false.
Proof. intros Hn. unfold has_genesis_premint. by rewrite (proj2 (Z.eqb_neq _ 0)). Qed.

Lemma candidate_coinbase params t now miner txs fees :
  next_height (Some t) <> 0 ->
  transactions (candidate params (Some t) now miner txs fees)
  = coinbase (next_height (Some t)) (sat_add64 (reward_at_height params (next_height (Some t))) fees) miner :: txs.
Proof.
  intros Hn. unfold candidate. by rewrite has_genesis_premint_above.
Qed.

(** Mining a template: the header with a nonce. *)
Definition mined (k : Z) (b : Block) : Block := {| header := with_nonce k (header b); transactions := transactions b |}.

(** The template's transactions and coinbase pass the UTXO rules at the tip. *)
Lemma template_block_applies s params t now miner bits k pool :
  next_height (Some t) <> 0 -> height_or_0 s <= next_height (Some t) ->
  (forall h, 0 <= reward_at_height params h <= U64_MAX) ->
  let c := candidate params (Some t) now miner (template_txs s params pool).1 (template_txs s params pool).2 in
  exists set, apply_block params (mined k {| header := with_bits bits (header c); transactions := transactions c |})
                (cf_utxo (db s)) = (set, Ok ()).
Proof.
  intros Hn Hh Hr. pose proof (template_txs_spec s params pool) as Ht.
  destruct (template_txs s params pool) as [txs fees]. destruct Ht as (Ha & Hv & Hf). cbn [fst snd].
  eexists. apply apply_block_spec. unfold mined. cbn [header transactions with_nonce with_bits].
  rewrite candidate_coinbase by done. cbn [tail]. split; cbn [header transactions tail head height].
  - apply spends_apart_nodup; [done|]. eapply Forall_impl; [exact Hv|]. by intros tx [? _].
  - eapply Forall_impl; [exact Hv|]. intros tx [_ Htx]. eapply tx_valid_later; [|exact Htx]. exact Hh.
  - eexists. split; [done|]. rewrite coinbase_value.
    + unfold max_coinbase_atoms. unfold candidate at 1. cbn [header height].
      rewrite has_genesis_premint_above by exact Hn. by rewrite <- Hf.
    + specialize (Hr (next_height (Some t))). unfold sat_add64.
      assert (0 <= fees); [|lia]. rewrite Hf. unfold sat_sum.
      rewrite foldl_sat_add64; [|apply Forall_fmap, Forall_true; intros tx; unfold tx_fee, sat_sub64; cbn; lia|unfold U64_MAX; lia].
      assert (0 <= sumZ (tx_fee (cf_utxo (db s)) <$> txs)); [|unfold U64_MAX; lia].
      apply sumZ_nonneg, Forall_fmap, Forall_true. intros tx. unfold tx_fee, sat_sub64. cbn. lia.
  - reflexivity.
Qed.

Lemma mined_template_valid d params t now later miner bits k txs fees seed :
  next_height (Some t) <> 0 ->
  now <= later -> 0 <= later + max_future_block_time_seconds params < U64_MOD -> 0 <= max_future_block_time_seconds params ->
  let c := candidate params (Some t) now miner txs fees in
  let b := mined k {| header := with_bits bits (header c); transactions := transactions c |} in
  header_meets_work (header b) seed = true -> bits = expected_leading_zero_bits_for d params (Some t) ->
  validate_block params (Some t) b later (expected_leading_zero_bits_for d params (Some t)) seed = Ok ().
Proof.
  intros Hn Hl Hfut Hfut0 c b Hpow ->.
  apply validate_block_child; try done.
  - change (timestamp_seconds (header b)) with now. rewrite add64_small; lia.
  - change (transactions b) with (transactions c). unfold c. rewrite candidate_coinbase by done.
    eexists. split; [done|]. apply coinbase_is_coinbase.
Qed.

Lemma tip_next_height params s t :
  state_ok params s -> tip_cache s = Some t -> Z.of_nat (size (cf_blocks (db s))) < U64_MAX ->
  next_height (Some t) = height (header t) + 1 /\ 0 <= height (header t) /\ height_cache s = Some (height (header t)).
Proof.
  intros Hok Ht Hsize. destruct (state_ok_tip _ _ _ Hok Ht) as (l & Htip & Ha). destruct Hok as [[Hk _ _] _].
  pose proof (ancestry_length _ _ _ Hk Ha) as Hlen. pose proof (ancestry_tip_height _ _ _ _ Ha) as Hh.
  split_and!; [|lia|apply Htip]. cbn [next_height]. simpl in Hlen.
  rewrite add64_small; unfold U64_MAX, U64_MOD in *; lia.
Qed.

(** The submission of a mined template to a state that still has the tip. *)
Lemma mined_template_submits s params t now later miner pool k :
  let c := candidate params (Some t) now miner (template_txs s params pool).1 (template_txs s params pool).2 in
  let b := mined k {| header := with_bits (expected_leading_zero_bits_for (db s) params (Some t)) (header c);
                      transactions := transactions c |} in
  state_ok params s -> synced s -> tip_cache s = Some t ->
  now <= later -> 0 <= later + max_future_block_time_seconds params < U64_MOD -> 0 <= max_future_block_time_seconds params ->
  (forall h, 0 <= reward_at_height params h <= U64_MAX) ->
  header_meets_work (header b) (epoch_seed_for_height (db s) (height (header b))) = true ->
  block_hash b <> ZERO -> cf_blocks (db s) !! block_hash b = None ->
  Z.of_nat (size (cf_blocks (db s))) < U64_MAX -> chain_work (db s) (tip_hash s) < U128_MAX ->
  exists s', submit_block params b later s = (s', Ok b) /\ last_disconnected s' = []
    /\ tip_ok params s' b (b :: t :: tail (reverse (canonical_blocks (db s)))).
Proof.
  intros c b Hok Hsy Ht Hl Hfut Hfut0 Hr Hpow Hnz Hnew Hsize Hmax.
  destruct (tip_next_height _ _ _ Hok Ht Hsize) as (Hn & Hh0 & Hhc).
  destruct (state_ok_tip _ _ _ Hok Ht) as (l & Htip & Hanc).
  rewrite (state_ok_canonical _ _ _ _ Hok Htip), reverse_involutive. cbn [tail].
  assert (acceptable params b later s t) as Hacc.
  { split; [done..|]. split.
    - change (previous_hash (header b)) with (block_hash t). unfold get_block_by_hash.
      by destruct (ancestry_tip _ _ _ Hanc) as (? & ? & [= <- <-] & ?).
    - apply mined_template_valid; try done. lia. }
  destruct (acceptable_ancestry _ _ _ _ _ (proj1 Hok) Hacc) as (Hbs' & _ & lp & Hlp & Hb).
  assert (lp = t :: l) as -> by (by eapply ancestry_det).
  destruct (submit_extend_spec params b later s t t (t :: l) Hok Htip Hsy Hacc) as (s' & Hsub & Htip' & _ & _ & _ & Hld).
  - apply (heavier_total params _ _ t (t :: l) (b :: t :: l)); [done|by apply stored_tip_ok|done|].
    rewrite (chain_work_total _ _ (t :: l)) in Hmax.
    + change (total_work (b :: t :: l)) with (block_work b + total_work (t :: l)). pose proof (block_work_pos b) as Hw.
      revert Hmax Hw. generalize (block_work b) (total_work (t :: l)). clear. intros. lia.
    + apply Hok.
    + unfold tip_hash. by rewrite Ht.
  - done.
  - apply template_block_applies; [lia| |done]. unfold height_or_0. rewrite Hhc. rewrite Hn. cbn. lia.
  - by exists s'.
Qed.

(** C12: A mined template is accepted. Let the node hand out a template at a time
    when its database is good, whatever is in its mempool. When a miner finds a
    nonce whose header meets the work under the epoch seed handed out with it, and submits
    the block later while the tip is still the same, the node accepts it as the new
    tip: every transaction of the template was valid at the tip, no output is spent
    twice, the coinbase pays no more than the reward and the fees, and the difficulty and the
    Merkle root are the ones validation asks for. *)
Theorem mined_template_accepted params miner now later n n1 b seed k :
  state_ok params (open_db (node_db n)) -> 
  0 <= now <= later -> later + max_future_block_time_seconds params < U64_MOD -> 0 <= max_future_block_time_seconds params ->
  (forall h, 0 <= reward_at_height params h <= U64_MAX) ->
  rpc_getblocktemplate None params miner now n = (n1, Ok (b, seed)) ->
  header_meets_work (header (mined k b)) seed = true ->
  block_hash (mined k b) <> ZERO -> cf_blocks (node_db n) !! block_hash (mined k b) = None ->
  Z.of_nat (size (cf_blocks (node_db n))) < U64_MAX ->
  chain_work (node_db n) (tip_hash (open_db (node_db n))) < U128_MAX ->
  exists n2, rpc_submitblock None params (mined k b) later n1
    = (n2, Ok {| accepted := true; sub_height := height (header b); sub_hash := block_hash (mined k b);
                 canonical := Some true |})
    /\ tip_cache (open_db (node_db n2)) = Some (mined k b).
Proof.
  intros Hok Hnow Hfut Hfut0 Hr Hrpc Hpow Hnz Hnew Hsize Hmax. unfold rpc_getblocktemplate, synced_state in Hrpc.
  case_bool_decide; [done|].
  destruct (ensure_utxo_synced params (open_db (node_db n))) as [s [[]|e]] eqn:Hsync; [|done].
  destruct (ensure_synced_spec _ _ _ _ Hok Hsync) as (Hs & Hbl & Htc & Hsy). rewrite open_db_db in Hbl.
  set (pool := node_mempool (with_chain s (node_mempool n) n)) in *.
  destruct (template_txs s params pool) as [txs fees] eqn:Htx.
  unfold candidate_block_with_mempool in Hrpc. destruct (tip_cache s) as [t|] eqn:Ht; [|done].
  cbn [ok_or mbind result_bind] in Hrpc. apply pair_equal_spec in Hrpc as [<- Hrpc].
  apply (f_equal (λ r, match r with Ok x => x | Err _ => (b, seed) end)) in Hrpc. cbn beta iota in Hrpc.
  apply pair_equal_spec in Hrpc as [<- <-].
  destruct (state_ok_tip _ _ _ Hs Ht) as (l & Htip & Hanc). destruct (open_db_tip _ _ _ _ Htip) as [Htip1 Hdb1].
  pose proof (open_db_ok _ _ Hs) as Hok1.
  assert (template_txs (open_db (db s)) params pool = (txs, fees)) as Htx1.
  { rewrite <- Htx. unfold template_txs, template_step, seed_utxos_for_tx, height_or_0.
    by rewrite Hdb1, (tip_height_cached _ _ _ _ Htip1), (tip_height_cached _ _ _ _ Htip). }
  pose proof (mined_template_submits (open_db (db s)) params t now later miner pool k) as Hsub.
  rewrite Htx1, Hdb1 in Hsub. cbv zeta in Hsub. cbn [fst snd] in Hsub.
  destruct Hsub as (s' & Hsub & Hld & Htip'); try done.
  - intros t'. rewrite (tip_cached _ _ _ _ Htip1). intros [= <-]. rewrite Hdb1. by apply Hsy.
  - apply Htip1.
  - lia.
  - lia.
  - by rewrite Hbl.
  - by rewrite Hbl.
  - unfold tip_hash in Hmax |- *. rewrite (tip_cached _ _ _ _ Htip1). rewrite <- Htc in Hmax.
    by rewrite (chain_work_blocks _ (node_db n)).
  - unfold rpc_submitblock. change (node_db (with_chain s (node_mempool n) n)) with (db s). rewrite Hsub.
    unfold requeue_reorged_transactions, take_reorg_requeue_candidates. rewrite Hld. cbn [mbind list_bind].
    change (tip_hash (with_disconnected [] s')) with (tip_hash s').
    match type of Htip' with tip_ok _ _ ?x _ => 
      assert (tip_hash s' = block_hash x) as -> by (unfold tip_hash; by rewrite (tip_cached _ _ _ _ Htip')) end.
    rewrite bool_decide_true by done. eexists. split; [reflexivity|].
    cbn [foldl node_db with_chain db with_disconnected]. destruct (open_db_tip _ _ _ _ Htip') as [Htip2 _]. apply Htip2.
Qed.
End Template.
