(* ===== verification/NodeBanFacts.v ===== *)
(** * The ban list and the safety of peer messages

    When an address is banned, what a peer's messages may change, and the one
    error of the node itself that is held against its peers. *)

From S2P Require Import Prelude Crypto Hash Chain Block Validation Utxo Mempool Storage State StateDb StateChain.
From S2P Require Import StateInv StateProps StateSubmit Node NodeFacts.

Local Open Scope Z_scope.

(** ** Banning *)

(** Violations in the order they are recorded: address, points and time. *)
Definition record_all (l : list (string * Z * Z)) (bans : BanList) : BanList :=
  foldl (λ bans v, (record_violation v.1.1 v.1.2 v.2 bans).1) bans l.

(** The points held against [ip]. *)
Definition points_of (ip : string) (l : list (string * Z * Z)) : Z :=
  sumZ ((λ v, if decide (v.1.1 = ip) then v.1.2 else 0) <$> l).

(** What the entry of an address says of the points [p] it got from [t0] on. *)
Definition entry_says (t0 p : Z) (e : option BanEntry) : Prop :=
  match e with
  | None => p = 0
  | Some e =>
      score e = Z.min p (U32_MOD - 1)
      /\ match banned_until e with Some u => BAN_THRESHOLD <= p /\ t0 + BAN_DURATION_SECS <= u | None => p < BAN_THRESHOLD end
  end.

Lemma prune_lookup now bans ip t0 p :
  now < t0 + BAN_DURATION_SECS -> entry_says t0 p (bans !! ip) -> prune_expired now bans !! ip = bans !! ip.
Proof.
  intros Hnow He. unfold prune_expired. destruct (bans !! ip) as [e|] eqn:Hip.
  - apply map_lookup_filter_Some_2; [done|]. cbn [snd]. cbn [entry_says] in He.
    destruct (banned_until e) as [u|]; [|done]. apply Z.ltb_lt. lia.
  - by apply map_lookup_filter_None_2; left.
Qed.

Lemma record_other ip ip' points now bans : ip <> ip' -> (record ip points now bans).1 !! ip' = bans !! ip'.
Proof. intros Hne. unfold record. case_match; cbn [fst]; by rewrite lookup_insert_ne. Qed.

Lemma record_says t0 p ip points now bans :
  0 <= p -> 0 <= points -> 0 <= t0 <= now -> now < t0 + BAN_DURATION_SECS -> t0 + 2 * BAN_DURATION_SECS < U64_MOD ->
  entry_says t0 p (bans !! ip) -> entry_says t0 (p + points) ((record ip points now bans).1 !! ip).
Proof.
  intros Hp Hpts Ht Hnow Hfit He. unfold record, sat_add32.
  set (e := default {| score := 0; banned_until := None |} (bans !! ip)).
  assert (score e = Z.min p (U32_MOD - 1) /\ match banned_until e with
    | Some u => BAN_THRESHOLD <= p /\ t0 + BAN_DURATION_SECS <= u | None => p < BAN_THRESHOLD end) as [Hs Hu].
  { unfold e. destruct (bans !! ip) as [e'|]; cbn in He |- *; [done|]. subst p. by split. }
  rewrite Hs. unfold ban_active, BAN_THRESHOLD, BAN_DURATION_SECS, U32_MOD, U64_MOD in *.
  destruct (banned_until e) as [u|].
  - rewrite (proj2 (Z.ltb_lt now u)) by lia. cbn [negb andb fst]. rewrite lookup_insert_eq. cbn.
    unfold BAN_THRESHOLD, BAN_DURATION_SECS, U32_MOD. lia.
  - cbn [negb andb]. destruct (Z.leb_spec 100 (Z.min (Z.min p (4294967296 - 1) + points) (4294967296 - 1)));
      cbn [fst]; rewrite lookup_insert_eq; cbn;
      unfold BAN_THRESHOLD, BAN_DURATION_SECS, U32_MOD; rewrite ?add64_small by (unfold U64_MOD; lia); lia.
Qed.

Lemma record_all_says t0 t l p ip bans :
  Forall (λ v, 0 <= v.1.2 /\ t0 <= v.2 <= t) l -> 0 <= p -> 0 <= t0 -> t < t0 + BAN_DURATION_SECS ->
  t0 + 2 * BAN_DURATION_SECS < U64_MOD -> entry_says t0 p (bans !! ip) ->
  entry_says t0 (p + points_of ip l) (record_all l bans !! ip).
Proof.
  intros Hl. revert p bans. induction Hl as [|[[ip' pts] now] l [Hpts Hnow] Hl IH]; intros p bans Hp Ht0 Ht Hfit He.
  { cbn. by rewrite Z.add_0_r. }
  cbn [record_all foldl]. unfold points_of. csimpl. cbn [fst snd] in *.
  assert (prune_expired now bans !! ip = bans !! ip) as Hprune by (eapply prune_lookup; [|done]; lia).
  rewrite Z.add_assoc. apply IH; [case_decide; lia|done..|]. unfold record_violation.
  case_decide as Hip; [subst ip'|].
  - apply record_says; try done; [lia..|]. by rewrite Hprune.
  - by rewrite record_other, Hprune, Z.add_0_r by done.
Qed.

(** The ban policy. Whatever violations all peers commit within less than
    an hour, an address that had no record is banned at the end exactly when
    its own violations add up to the threshold: no ban is lifted early or by others' behaviour,
    and nobody is banned for the violations of another address. *)
Theorem ban_policy bans l ip t0 t :
  bans !! ip = None -> Forall (λ v, 0 <= v.1.2 /\ t0 <= v.2 <= t) l ->
  0 <= t0 -> t < t0 + BAN_DURATION_SECS -> t0 + 2 * BAN_DURATION_SECS < U64_MOD ->
  is_banned (record_all l bans) ip t = true <-> BAN_THRESHOLD <= points_of ip l.
Proof.
  intros Hip Hl Ht0 Ht Hfit. pose proof (record_all_says t0 t l 0 ip bans Hl) as He.
  rewrite Hip, Z.add_0_l in He. specialize (He ltac:(lia) Ht0 Ht Hfit eq_refl).
  unfold is_banned, ban_active. destruct (record_all l bans !! ip) as [e|]; cbn [entry_says] in He.
  - destruct He as [_ He]. destruct (banned_until e) as [u|]; [|lia].
    rewrite Z.ltb_lt. unfold BAN_DURATION_SECS in *. lia.
  - rewrite He. unfold BAN_THRESHOLD. by split.
Qed.

(** ** What a message changes *)
Section Safety.
Context `{Crypto} `{!IterOrder OutPoint UtxoEntry} `{!IterOrder string MempoolEntry}.

Definition node_ok (params : ConsensusParams) (n : Node) : Prop := state_ok params (open_db (node_db n)).
Definition node_work (n : Node) : Z := chain_work (node_db n) (tip_hash (open_db (node_db n))).

(** A step of the node: good states stay good, blocks are never lost, and the
    work of the tip does not fall. *)
Record node_step (params : ConsensusParams) (n n' : Node) : Prop := {
  step_good : node_ok params n';
  step_keeps : cf_blocks (node_db n) ⊆ cf_blocks (node_db n');
  step_work : node_work n <= node_work n';
}.

Lemma reopen_tip_hash params s : state_ok params s -> tip_hash (open_db (db s)) = tip_hash s.
Proof.
  intros [_ [[Ht _ He]|(t & l & Htip)]].
  - rewrite He. unfold tip_hash. by rewrite Ht.
  - unfold tip_hash. destruct (open_db_tip _ _ _ _ Htip) as [Htip' _].
    by rewrite (tip_cached _ _ _ _ Htip), (tip_cached _ _ _ _ Htip').
Qed.

Lemma node_step_refl params n : node_ok params n -> node_step params n n.
Proof. by split. Qed.

Lemma node_step_trans params n1 n2 n3 : node_step params n1 n2 -> node_step params n2 n3 -> node_step params n1 n3.
Proof. intros [? ? ?] [? ? ?]. split; [done|by etransitivity|lia]. Qed.

(** A state reached from the opened database becomes the node's. *)
Lemma node_step_state params n n' s :
  node_ok params n -> state_ok params s -> cf_blocks (node_db n) ⊆ cf_blocks (db s) ->
  chain_work (db s) (tip_hash (open_db (node_db n))) <= chain_work (db s) (tip_hash s) ->
  node_db n' = db s -> node_step params n n'.
Proof.
  intros Hn Hs Hsub Hw Hn'. split; unfold node_ok, node_work.
  - rewrite Hn'. by apply open_db_ok.
  - by rewrite Hn'.
  - rewrite Hn', (reopen_tip_hash _ _ Hs). etransitivity; [|exact Hw].
    rewrite <- (open_db_db (node_db n)) at 1. erewrite chain_work_grows; [reflexivity|exact Hn|exact Hs|by rewrite open_db_db].
Qed.

Lemma submit_node_step params n n' b now s r :
  node_ok params n -> Z.of_nat (size (cf_blocks (node_db n))) < U64_MAX -> block_hash b <> ZERO ->
  submit_block params b now (open_db (node_db n)) = (s, r) -> node_db n' = db s -> node_step params n n'.
Proof.
  intros Hn Hsize Hnz Hsub Hn'. pose proof (submit_block_step params b now (open_db (node_db n))) as Hst.
  rewrite Hsub in Hst. cbn [fst snd] in Hst.
  apply submit_step_ok in Hst as (Hs & Hin & _ & Hcase); [|done|by rewrite open_db_db|done].
  rewrite open_db_db in Hin. eapply node_step_state; [done|exact Hs|done| |done].
  destruct Hcase as [[Ht _]|(_ & Ht & _ & Hw)].
  - unfold tip_hash at 2. rewrite Ht. reflexivity.
  - unfold tip_hash at 2. rewrite Ht. lia.
Qed.

Lemma sync_node_step params n n' s r :
  node_ok params n -> ensure_utxo_synced params (open_db (node_db n)) = (s, r) -> node_db n' = db s ->
  node_step params n n'.
Proof.
  intros Hn Hs Hn'. destruct (ensure_synced_spec _ _ _ _ Hn Hs) as (Hok & Hbl & Htc & _). rewrite open_db_db in Hbl.
  eapply node_step_state; [done|exact Hok|by rewrite Hbl| |done]. unfold tip_hash. by rewrite Htc.
Qed.

Lemma accept_peer_block_step opens params b now n :
  node_ok params n -> Z.of_nat (size (cf_blocks (node_db n))) < U64_MAX -> block_hash b <> ZERO ->
  node_step params n (accept_peer_block opens params b now n).1
  /\ node_bans (accept_peer_block opens params b now n).1 = node_bans n.
Proof.
  intros Hn Hsize Hnz. unfold accept_peer_block. destruct opens; [by split; [apply node_step_refl|]|].
  destruct (submit_block params b now (open_db (node_db n))) as [s [b'|e]] eqn:Hsub.
  - unfold requeue_reorged_transactions. cbn [take_reorg_requeue_candidates].
    destruct (foldl _ _ _) as [pool k]. split; [|done]. by eapply submit_node_step.
  - destruct e; (split; [by eapply submit_node_step|done]).
Qed.

Lemma accept_peer_tx_step opens params tx n :
  node_ok params n -> node_step params n (accept_peer_tx opens params tx n).1
  /\ node_bans (accept_peer_tx opens params tx n).1 = node_bans n.
Proof.
  intros Hn. unfold accept_peer_tx. destruct opens; [by split; [apply node_step_refl|]|].
  destruct (ensure_utxo_synced params (open_db (node_db n))) as [s [u|e]] eqn:Hs.
  - destruct (add _ _ _ _ _) as [pool [?|?]]; (split; [by eapply sync_node_step|done]).
  - split; [by eapply sync_node_step|done].
Qed.

Lemma penalise_other ip ip' points now later reply n :
  ip <> ip' -> now <= later ->
  is_banned (node_bans (penalise ip points now reply n).1.1) ip' later = is_banned (node_bans n) ip' later
  /\ node_db (penalise ip points now reply n).1.1 = node_db n.
Proof.
  intros Hne Hlater. unfold penalise, record_violation.
  pose proof (record_other ip ip' points now (prune_expired now (node_bans n)) Hne) as Ho.
  destruct (record _ _ _ _) as [bans banned]. cbn [fst] in *. split; [|done].
  unfold is_banned. cbn [with_bans node_bans]. rewrite Ho. unfold prune_expired, ban_active.
  destruct (node_bans n !! ip') as [e|] eqn:He.
  - destruct (banned_until e) as [u|] eqn:Hu.
    + destruct (Z.ltb_spec now u) as [Hlt|Hge].
      * rewrite (map_lookup_filter_Some_2 _ _ _ e); [by rewrite Hu|done|]. cbn [snd].
        rewrite Hu. by apply Z.ltb_lt.
      * rewrite map_lookup_filter_None_2; [symmetry; apply Z.ltb_ge; lia|]. right. intros e' [= <-]%(eq_trans (eq_sym He)). cbn [snd].
        rewrite Hu. intros ?%Z.ltb_lt. lia.
    + rewrite (map_lookup_filter_Some_2 _ _ _ e); [by rewrite Hu|done|]. cbn [snd]. by rewrite Hu.
  - by rewrite map_lookup_filter_None_2 by by left.
Qed.

Lemma node_step_db params n n1 n2 : node_step params n n1 -> node_db n2 = node_db n1 -> node_step params n n2.
Proof. intros [Hg Hk Hw] E. split; unfold node_ok, node_work; by rewrite E. Qed.

Lemma penalised_step params ip ip' points now later reply n n1 :
  ip <> ip' -> now <= later -> node_step params n n1 -> node_bans n1 = node_bans n ->
  node_step params n (penalise ip points now reply n1).1.1
  /\ is_banned (node_bans (penalise ip points now reply n1).1.1) ip' later = is_banned (node_bans n) ip' later.
Proof.
  intros Hne Hlater Hst Hb. destruct (penalise_other ip ip' points now later reply n1 Hne Hlater) as [Hban Hdb]. rewrite Hb in Hban.
  split; [by eapply node_step_db|done].
Qed.

(** Peers cannot harm the node. Whatever one message of a connection says,
    and whether the database can be opened or not, the node stays in a good
    state, keeps every block it has, never moves to a chain with less work, and bans
    or unbans no address but the sender's, as seen at any later time. *)
Theorem peer_message_safe opens params ip now later msg n :
  now <= later -> node_ok params n -> Z.of_nat (size (cf_blocks (node_db n))) < U64_MAX ->
  match msg with Some (NewBlock b) => block_hash b <> ZERO | _ => True end ->
  node_step params n (handle_message opens params ip now msg n).1.1
  /\ forall ip', ip' <> ip ->
       is_banned (node_bans (handle_message opens params ip now msg n).1.1) ip' later = is_banned (node_bans n) ip' later.
Proof.
  intros Hlater Hn Hsize Hnz. pose proof (node_step_refl params n Hn) as Hrefl.
  assert (forall ip' points reply n1, ip' <> ip -> node_step params n n1 -> node_bans n1 = node_bans n ->
    is_banned (node_bans (penalise ip points now reply n1).1.1) ip' later = is_banned (node_bans n) ip' later) as Hother.
  { intros ip' points reply n1 Hne Hst Hb. by eapply penalised_step. }
  assert (forall points reply n1, node_step params n n1 -> node_step params n (penalise ip points now reply n1).1.1) as Hpen.
  { intros points reply n1 Hst. eapply node_step_db; [done|]. unfold penalise. by destruct (record_violation _ _ _ _). }
  destruct msg as [[b|h hash|reason|tx|txid|txid reason|from|blocks]|]; cbn [handle_message];
    try (split; [by apply Hpen|by intros; apply Hother]); [| |by split].
  - destruct (accept_peer_block_step opens params b now n Hn Hsize Hnz) as [Hst Hb].
    destruct (accept_peer_block opens params b now n) as [n1 [[h hash]|reason]]; cbn [fst snd] in *; [by rewrite <- Hb|].
    destruct (is_bannable_block_error reason); cbn [fst]; [split; [by apply Hpen|by intros; apply Hother]|by rewrite <- Hb].
  - destruct (accept_peer_tx_step opens params tx n Hn) as [Hst Hb].
    destruct (accept_peer_tx opens params tx n) as [n1 [u|reason]]; cbn [fst snd] in *; [by rewrite <- Hb|].
    destruct (is_bannable_tx_error reason); cbn [fst]; [split; [by apply Hpen|by intros; apply Hother]|by rewrite <- Hb].
Qed.
End Safety.
