(* ===== verification/NodeServe.v ===== *)
(** * The node's RPC server: dispatch ([handle_rpc_stream] and [serve_rpc] in [tensorium-node/src/main.rs])

    The read-only endpoints and the whole handler: from the reads of a connection to
    the node after the request and the answer. *)

From S2P Require Import Prelude Numeral Crypto Hash Chain ScriptVM ScriptStandard Block Validation Utxo Mempool State AssetCodec.
From S2P Require Import Json Node NodeRpc NodeHttp.

Local Open Scope Z_scope.

Record BanLine := { ban_ip : string; ban_score : Z; banned : bool; secs_remaining : option Z }.

(** What the endpoints answer with status 200. *)
Inductive Answer :=
| AHealth
| ABlockCount (chain_id : string) (height : option Z) (blocks : Z)
| ADifficulty (chain_id : string) (height bits : Z)
| ABlock (hash : Hash256) (block : Block)
| ATemplate (block : Block) (seed : Hash256)
| ASubmitted (s : Submitted)
| ASent (txid : Hash256) (mempool_size : Z)
| AMempool (txids : list string) (stats : FeeStats)
| AFees (tiers : FeeTiers)
| ABans (entries : list BanLine)
| AUnbanned (ip : string) (was_present : bool)
| AUtxos (param : string) (utxos : list (OutPoint * UtxoEntry * bool))
| AAssetTx (tx : Transaction) (op : AssetOp).

(** [serde_json::from_str] of the bodies, and [indexer_check_transfer]. *)
Record Bodies := {
  parse_block : string -> option Block;
  parse_transaction : string -> option Transaction;
  parse_asset_request : string -> option BuildAssetTxRequest;
  check_transfer : string -> string -> Z -> result string bool;
}.

(** The environment of a request: whether the database opens, the clock, the admin token. *)
Record RpcEnv := { db_opens : option string; clock : Z; admin_token : option string }.

Section Serve.
Context `{Crypto} `{!IterOrder OutPoint UtxoEntry} `{!IterOrder string MempoolEntry} `{!IterOrder string BanEntry}.
Context (params : ConsensusParams) (bodies : Bodies).

(** ** The read-only endpoints *)

(** [load_state]: its error is an error 500. *)
Definition rpc_getblockcount (env : RpcEnv) (n : Node) : result RpcFailure Answer :=
  match db_opens env with
  | Some e => Err (Fail 500 e)
  | None =>
      let s := open_db (node_db n) in Ok (ABlockCount (p_chain_id params) (height_cache s) (chain_block_count s))
  end.

Definition rpc_getdifficulty (env : RpcEnv) (n : Node) : result RpcFailure Answer :=
  match db_opens env with
  | Some _ => Err node_busy
  | None =>
      match tip_cache (open_db (node_db n)) with
      | Some t => Ok (ADifficulty (chain_id (header t)) (height (header t)) (leading_zero_bits_field (header t)))
      | None => Err (Fail 404 "chain state is empty")
      end
  end.

Definition rpc_getblock (env : RpcEnv) (height : string) (n : Node) : result RpcFailure Answer :=
  h ← ok_or (parse_u64 height) (Fail 500 "invalid block height");
  match db_opens env with
  | Some _ => Err node_busy
  | None =>
      match get_block_by_height (node_db n) h with
      | Some b => Ok (ABlock (block_hash b) b)
      | None => Err (Fail 404 "block not found")
      end
  end.

Definition rpc_getmempoolinfo (n : Node) : Answer := AMempool (iter (node_mempool n)).*1 (fee_stats (node_mempool n)).
Definition rpc_estimatefee (n : Node) : Answer := AFees (fee_tiers (node_mempool n)).

Definition ban_line (now : Z) (p : string * BanEntry) : BanLine := {|
  ban_ip := p.1; ban_score := score p.2; banned := ban_active p.2 now;
  secs_remaining := match banned_until p.2 with Some u => if now <? u then Some (u - now) else None | None => None end |}.
Definition rpc_getbanlist (env : RpcEnv) (n : Node) : Answer := ABans (ban_line (clock env) <$> iter (node_bans n)).

(** ** The dispatch *)

(** A handler that may change the node, with the answer it prints. *)
Definition answered {A} (f : A -> Answer) (r : Node * result RpcFailure A) : Node * result RpcFailure Answer :=
  (r.1, match r.2 with Ok a => Ok (f a) | Err e => Err e end).
Definition unchanged (n : Node) (r : result RpcFailure Answer) : Node * result RpcFailure Answer := (n, r).

(** A body that does not parse is answered with 400. *)
Definition with_body {A} (parse : string -> option A) (what body : string) (n : Node)
    (k : A -> Node * result RpcFailure Answer) : Node * result RpcFailure Answer :=
  match parse body with Some a => k a | None => (n, Err (Fail 400 what)) end.

Definition handle_get (env : RpcEnv) (request path : string) (n : Node) : Node * result RpcFailure Answer :=
  let under pat := trim_start_matches pat path in
  if bool_decide (path = "/health"%string) then unchanged n (Ok AHealth)
  else if bool_decide (path = "/getblockcount"%string) then unchanged n (rpc_getblockcount env n)
  else if bool_decide (path = "/getdifficulty"%string) then unchanged n (rpc_getdifficulty env n)
  else if has_prefix path "/getblock/" then unchanged n (rpc_getblock env (under "/getblock/"%string) n)
  else if has_prefix path "/getblocktemplate/" then
    answered (λ p, ATemplate p.1 p.2)
      (rpc_getblocktemplate (db_opens env) params (under "/getblocktemplate/"%string) (clock env) n)
  else if bool_decide (path = "/getmempoolinfo"%string) then unchanged n (Ok (rpc_getmempoolinfo n))
  else if bool_decide (path = "/estimatefee"%string) then unchanged n (Ok (rpc_estimatefee n))
  else if bool_decide (path = "/getbanlist"%string) then unchanged n (Ok (rpc_getbanlist env n))
  else if has_prefix path "/unban/" then
    let ip := under "/unban/"%string in
    answered (AUnbanned ip) (rpc_unban (admin_token env) (header_value request "x-admin-token") ip n)
  else if has_prefix path "/getutxos/" then
    let param := under "/getutxos/"%string in
    answered (AUtxos param) (rpc_getutxos (db_opens env) params param n)
  else (n, Err (Fail 404 "unknown RPC endpoint")).

Definition handle_post (env : RpcEnv) (path body : string) (n : Node) : Node * result RpcFailure Answer :=
  if bool_decide (path = "/submitblock"%string) then
    with_body (parse_block bodies) "invalid block" body n
      (λ b, answered ASubmitted (rpc_submitblock (db_opens env) params b (clock env) n))
  else if bool_decide (path = "/sendrawtransaction"%string) then
    with_body (parse_transaction bodies) "invalid transaction" body n
      (λ tx, answered (λ p, ASent p.1 p.2) (rpc_sendrawtransaction (db_opens env) params tx n))
  else if bool_decide (path = "/buildAssetTx"%string) then
    with_body (parse_asset_request bodies) "invalid request" body n
      (λ req, answered (λ p, AAssetTx p.1 p.2) (rpc_build_asset_tx (db_opens env) params (check_transfer bodies) req n))
  else (n, Err (Fail 404 "unknown RPC endpoint")).

Definition handle_request (env : RpcEnv) (request : string) (n : Node) : Node * result RpcFailure Answer :=
  match parse_http_request request with
  | None => (n, Err (Fail 500 "invalid HTTP request"))
  | Some r =>
      if bool_decide (method r = "GET"%string) then handle_get env request (path r) n
      else if bool_decide (method r = "POST"%string) then handle_post env (path r) (body r) n
      else (n, Err (Fail 404 "unknown RPC endpoint"))
  end.

(** One connection of [serve_rpc]. *)
Definition serve_connection (env : RpcEnv) (reads : list (result string bytes)) (n : Node) :
    Node * result RpcFailure Answer :=
  match read_http_request reads with
  | Err e => (n, Err (Fail 500 e))
  | Ok request => handle_request env request n
  end.
End Serve.

(** * The node's RPC server: what a connection can do

    No request harms the chain, and only the admin's token changes the ban list; and
    the blocks the server shows are the canonical chain. *)

From S2P Require Import StateDb.
From S2P Require Import StateChain StateInv StateProps StateSubmit NodeFacts NodeBanFacts.

(** ** The admin gate *)

Lemma diff_bytes_zero a b d : length a = length b -> diff_bytes a b d = 0 <-> d = 0 /\ a = b.
Proof.
  revert b d; induction a as [|x a IH]; intros [|y b] d Hl; [by cbn; naive_solver|done|done|].
  cbn [diff_bytes]. rewrite IH by (cbn in Hl; lia). rewrite Z.lor_eq_0_iff, Z.lxor_eq_0_iff. naive_solver.
Qed.

Lemma constant_time_eq_spec a b : constant_time_eq a b = true <-> a = b.
Proof.
  unfold constant_time_eq. rewrite andb_true_iff, Nat.eqb_eq, Z.eqb_eq. split.
  - intros [Hl Hd]. by apply diff_bytes_zero in Hd as [_ ?].
  - intros ->. split; [done|]. by apply diff_bytes_zero.
Qed.

(** The gate opens for the configured token, and only if one is configured. *)
Lemma admin_authorized_spec token provided :
  admin_authorized token provided = true <-> exists t, token = Some t /\ t <> EmptyString /\ provided = Some t.
Proof.
  unfold admin_authorized. destruct token as [t|]; [|split; [done|by intros (? & ? & _)]].
  case_bool_decide as Ht; [split; [done|naive_solver]|]. destruct provided as [p|]; [|split; [done|naive_solver]].
  rewrite constant_time_eq_spec. split.
  - intros E. apply (inj bytes_of_string) in E as ->. eauto.
  - intros (t' & [= <-] & _ & [= ->]). done.
Qed.

Section Serve.
Context `{Crypto} `{!IterOrder OutPoint UtxoEntry} `{!IterOrder string MempoolEntry} `{!IterOrder string BanEntry}.
Context (params : ConsensusParams) (bodies : Bodies).

(** A handler's step: the chain is safe, and the ban list as it was. *)
Definition harmless (n n' : Node) : Prop := node_step params n n' /\ node_bans n' = node_bans n.

Lemma harmless_refl n : node_ok params n -> harmless n n.
Proof. intros Hn. split; [by apply node_step_refl|done]. Qed.

Lemma synced_harmless opens n : node_ok params n -> harmless n (synced_state opens params n).1.
Proof.
  intros Hn. unfold synced_state. destruct opens; [by apply harmless_refl|].
  destruct (ensure_utxo_synced params (open_db (node_db n))) as [s [u|e]] eqn:Hs; (split; [by eapply sync_node_step|done]).
Qed.

Lemma harmless_pool n n1 s pool :
  harmless n n1 -> node_db n1 = db s -> harmless n (with_chain s pool n1).
Proof. intros [Hst Hb] Hdb. split; [by eapply node_step_db|done]. Qed.

Lemma synced_db opens n n1 s : synced_state opens params n = (n1, Ok s) -> node_db n1 = db s.
Proof. unfold synced_state. destruct opens; [done|]. destruct (ensure_utxo_synced _ _) as [s' [u|e]]; [|done]. by intros [= <- <-]. Qed.

Lemma submitblock_harmless opens b now n :
  node_ok params n -> Z.of_nat (size (cf_blocks (node_db n))) < U64_MAX -> block_hash b <> ZERO ->
  harmless n (rpc_submitblock opens params b now n).1.
Proof.
  intros Hn Hsize Hnz. unfold rpc_submitblock. destruct opens; [by apply harmless_refl|].
  destruct (submit_block params b now (open_db (node_db n))) as [s [b'|e]] eqn:Hsub.
  - unfold requeue_reorged_transactions. cbn [take_reorg_requeue_candidates].
    destruct (foldl _ _ _) as [pool k]. split; [|done]. by eapply submit_node_step.
  - destruct e; (split; [by eapply submit_node_step|done]).
Qed.

Lemma sendraw_harmless opens tx n : node_ok params n -> harmless n (rpc_sendrawtransaction opens params tx n).1.
Proof.
  intros Hn. unfold rpc_sendrawtransaction. pose proof (synced_harmless opens n Hn) as Hs.
  destruct (synced_state opens params n) as [n1 [s|e]] eqn:E; cbn [fst] in Hs; [|done].
  destruct (add _ _ _ _ _) as [pool [u|e]]; [|done]. cbn [fst]. apply harmless_pool; [done|by eapply synced_db].
Qed.

Lemma template_harmless opens miner now n : node_ok params n -> harmless n (rpc_getblocktemplate opens params miner now n).1.
Proof.
  intros Hn. unfold rpc_getblocktemplate. case_bool_decide; [by apply harmless_refl|].
  pose proof (synced_harmless opens n Hn) as Hs. destruct (synced_state opens params n) as [n1 [s|e]]; [|done].
  destruct (template_txs _ _ _). by destruct (candidate_block_with_mempool _ _ _ _ _ _).
Qed.

Lemma getutxos_harmless opens param n : node_ok params n -> harmless n (rpc_getutxos opens params param n).1.
Proof.
  intros Hn. unfold rpc_getutxos. case_bool_decide; [by apply harmless_refl|].
  destruct (script_of_param param); [|by apply harmless_refl].
  pose proof (synced_harmless opens n Hn) as Hs. by destruct (synced_state opens params n) as [n1 [s|e]].
Qed.

Lemma build_asset_harmless opens check req n : node_ok params n -> harmless n (rpc_build_asset_tx opens params check req n).1.
Proof.
  intros Hn. unfold rpc_build_asset_tx. destruct (mbind _ _) as [[[[from op] dest] script]|e]; [|by apply harmless_refl].
  pose proof (synced_harmless opens n Hn) as Hs. destruct (synced_state opens params n) as [n1 [s|e]]; [|done].
  destruct (take_inputs _ _ _ _ _ _) as [ins total]. destruct (total <? _); [done|]. by destruct (build_outputs _ _ _ _ _).
Qed.

Lemma answered_harmless {A} (f : A -> Answer) n r : harmless n r.1 -> harmless n (answered f r).1.
Proof. done. Qed.

Lemma with_body_harmless {A} (parse : string -> option A) what body n k :
  node_ok params n -> (forall a, parse body = Some a -> harmless n (k a).1) -> harmless n (with_body parse what body n k).1.
Proof. intros Hn Hk. unfold with_body. destruct (parse body) eqn:E; [by apply Hk|by apply harmless_refl]. Qed.

(** What a request does to the ban list. *)
Definition bans_allowed (env : RpcEnv) (request : string) (n n' : Node) : Prop :=
  node_bans n' = node_bans n
  \/ (exists t ip, admin_token env = Some t /\ t <> EmptyString /\ header_value request "x-admin-token" = Some t
      /\ node_bans n' = delete ip (node_bans n)).

Lemma harmless_allowed env request n n' :
  harmless n n' -> node_step params n n' /\ bans_allowed env request n n'.
Proof. intros [Hst Hb]. split; [done|by left]. Qed.

Lemma unban_allowed env request ip n :
  node_ok params n ->
  let n' := (rpc_unban (admin_token env) (header_value request "x-admin-token") ip n).1 in
  node_step params n n' /\ bans_allowed env request n n'.
Proof.
  intros Hn. unfold rpc_unban. destruct (admin_authorized _ _) eqn:Ha; cbn [negb].
  - apply admin_authorized_spec in Ha as (t & Ht & Hne & Hh).
    case_bool_decide; [by apply harmless_allowed, harmless_refl|]. split.
    + eapply node_step_db; [by apply node_step_refl|done].
    + right. exists t, ip. done.
  - by apply harmless_allowed, harmless_refl.
Qed.

Lemma handle_get_safe env request path n :
  node_ok params n ->
  let n' := (handle_get params env request path n).1 in node_step params n n' /\ bans_allowed env request n n'.
Proof.
  intros Hn. pose proof (harmless_allowed env request n n (harmless_refl n Hn)) as Hid. unfold handle_get.
  repeat (match goal with |- context [if ?c then _ else _] => destruct c; [try exact Hid|] end); try exact Hid.
  - apply harmless_allowed, answered_harmless. by apply template_harmless.
  - by apply unban_allowed.
  - apply harmless_allowed, answered_harmless. by apply getutxos_harmless.
Qed.

Lemma handle_post_safe env path body n :
  node_ok params n -> Z.of_nat (size (cf_blocks (node_db n))) < U64_MAX ->
  (forall b, parse_block bodies body = Some b -> block_hash b <> ZERO) ->
  harmless n (handle_post params bodies env path body n).1.
Proof.
  intros Hn Hsize Hnz. unfold handle_post.
  repeat case_bool_decide; [..|by apply harmless_refl]; apply with_body_harmless; try done.
  - intros b Hb. apply answered_harmless. apply submitblock_harmless; [done..|]. by apply Hnz.
  - intros tx _. apply answered_harmless. by apply sendraw_harmless.
  - intros req _. apply answered_harmless. by apply build_asset_harmless.
Qed.
End Serve.

(** C17: No connection to the RPC port harms the node. Whatever bytes it sends, in whatever pieces, the node
    stays in a good state, keeps every block it has and never moves to a chain with less work; and its
    ban list only changes by one removal, for a request that carries the configured, non-empty admin token. *)
Theorem rpc_connection_safe `{Crypto} `{!IterOrder OutPoint UtxoEntry} `{!IterOrder string MempoolEntry} `{!IterOrder string BanEntry}
    params bodies env reads n :
  node_ok params n -> Z.of_nat (size (cf_blocks (node_db n))) < U64_MAX ->
  (forall text b, parse_block bodies text = Some b -> block_hash b <> ZERO) ->
  let n' := (serve_connection params bodies env reads n).1 in
  node_step params n n'
  /\ (node_bans n' = node_bans n
      \/ exists request t ip, read_http_request reads = Ok request /\ admin_token env = Some t /\ t <> EmptyString
         /\ header_value request "x-admin-token" = Some t /\ node_bans n' = delete ip (node_bans n)).
Proof.
  intros Hn Hsize Hnz. unfold serve_connection. destruct (read_http_request reads) as [request|e].
  2: { split; [by apply node_step_refl|by left]. }
  assert (node_step params n (handle_request params bodies env request n).1
          /\ bans_allowed env request n (handle_request params bodies env request n).1) as [Hst Hb].
  { unfold handle_request. destruct (parse_http_request request) as [r|]; [|by apply harmless_allowed, harmless_refl].
    case_bool_decide; [by apply handle_get_safe|]. case_bool_decide; [|by apply harmless_allowed, harmless_refl].
    apply harmless_allowed, handle_post_safe; [done|done|]. intros b Hp. by eapply Hnz. }
  split; [exact Hst|]. destruct Hb as [?|(t & ip & ?)]; [by left|right]. exists request, t, ip. naive_solver.
Qed.
