(* ===== verification/Relay.v ===== *)
(** * Connections between nodes ([tensorium-node/src/main.rs])

    The whole life of an inbound connection ([handle_p2p_connection], with the admission of
    [serve_p2p]) and the client side that pushes a block or a transaction to a peer. The lines a
    connection delivers are given parsed, each with the time it is handled and
    whether the database can be opened then. *)

From S2P Require Import Prelude Crypto Hash Chain Block Utxo Mempool State Node.

Local Open Scope Z_scope.

(** ** The server side *)

(** A line of the message loop; [None] does not parse. *)
Record Line := { line_opens : option string; line_time : Z; line_msg : option P2pMsg }.

(** The first texts of [validate_hello]'s errors. *)
Definition hello_error_text (e : HelloError) : string :=
  match e with
  | UnsupportedProtocol => "unsupported P2P protocol"
  | UnsupportedVersion => "unsupported P2P version"
  | HelloWrongChain => "wrong chain_id"
  end.

Section Relay.
Context `{Crypto} `{!IterOrder OutPoint UtxoEntry} `{!IterOrder string MempoolEntry}.

(** The loop ends with the lines, or with a ban of the peer. The replies are listed. *)
Fixpoint message_loop (params : ConsensusParams) (ip : string) (lines : list Line) (n : Node) : Node * list P2pMsg :=
  match lines with
  | [] => (n, [])
  | l :: lines =>
      let '(n, reply, continue) := handle_message (line_opens l) params ip (line_time l) (line_msg l) n in
      let replies := match reply with Some r => [r] | None => [] end in
      if continue then let '(n, rest) := message_loop params ip lines n in (n, replies ++ rest)
      else (n, replies)
  end.

(** [id] is the name of this node, [hello] the first line. *)
Definition handle_p2p_connection (opens : option string) (params : ConsensusParams) (id ip : string) (now : Z)
    (hello : option P2pHello) (lines : list Line) (n : Node) : Node * option P2pHello * list P2pMsg :=
  match handshake opens params id ip now hello n with
  | (n, None) => (n, None, [])
  | (n, Some answer) => let '(n, replies) := message_loop params ip lines n in (n, Some answer, replies)
  end.

(** One turn of [serve_p2p]; [peers] connections are open. *)
Definition serve_p2p (peers : Z) (opens : option string) (params : ConsensusParams) (id ip : string) (now : Z)
    (hello : option P2pHello) (lines : list Line) (n : Node) : Node * option P2pHello * list P2pMsg :=
  if admits peers ip now n then handle_p2p_connection opens params id ip now hello lines n else (n, None, []).

(** ** The client side *)

(** A peer, as its two answers: to the hello, then to one message. *)
Record Peer := { answer_hello : P2pHello -> result string P2pHello; answer_msg : P2pMsg -> result string P2pMsg }.

(** The exchange of hellos, in [push_block_to_peer], [push_tx_to_peer] and [connect_peer]. *)
Definition connect_peer (params : ConsensusParams) (id : string) (s : ChainState) (peer : Peer) : result string P2pHello :=
  remote ← answer_hello peer (local_hello id s params);
  map_err (validate_hello remote params) hello_error_text;;
  Ok remote.

Definition push_block_to_peer (params : ConsensusParams) (id : string) (s : ChainState) (peer : Peer) (block : Block) :
    result string Z :=
  connect_peer params id s peer;;
  response ← answer_msg peer (NewBlock block);
  match response with
  | Ack height _ => Ok height
  | Reject reason => Err ("block rejected: " +:+ reason)
  | _ => Err "unexpected response"%string
  end.

Definition push_tx_to_peer (params : ConsensusParams) (id : string) (s : ChainState) (peer : Peer) (tx : Transaction) :
    result string Hash256 :=
  connect_peer params id s peer;;
  response ← answer_msg peer (NewTx tx);
  match response with
  | TxAck txid => Ok txid
  | TxReject _ reason => Err ("tx rejected: " +:+ reason)
  | _ => Err "unexpected response"%string
  end.

(** [broadcast_block_to_peers], [broadcast_tx_to_peers]: the results are only logged. *)
Definition broadcast_block_to_peers (params : ConsensusParams) (id : string) (s : ChainState) (peers : list Peer)
    (block : Block) : list (result string Z) := (λ p, push_block_to_peer params id s p block) <$> peers.
Definition broadcast_tx_to_peers (params : ConsensusParams) (id : string) (s : ChainState) (peers : list Peer)
    (tx : Transaction) : list (result string Hash256) := (λ p, push_tx_to_peer params id s p tx) <$> peers.
End Relay.

(** * What connections between nodes guarantee

    A whole inbound connection cannot harm the node; and a block that one of two nodes on the
    same chain accepts and pushes puts both on the same longer chain. *)

From S2P Require Import Validation Storage StateDb StateChain.
From S2P Require Import StateInv StateProps StateSubmit NodeRpc NodeFacts NodeBanFacts.

Section Relay.
Context `{Crypto} `{!IterOrder OutPoint UtxoEntry} `{!IterOrder string MempoolEntry}.

(** ** A whole connection *)

Lemma submit_blocks_size params b now s :
  state_ok params s -> Z.of_nat (size (cf_blocks (db s))) < U64_MAX -> block_hash b <> ZERO ->
  (size (cf_blocks (db (submit_block params b now s).1)) <= S (size (cf_blocks (db s))))%nat.
Proof.
  intros Hok Hsize Hnz. pose proof (submit_block_step params b now s) as Hst. revert Hst.
  generalize (submit_block params b now s).2. generalize (submit_block params b now s).1. intros s' r Hst.
  assert (forall s1 r1, ensure_utxo_synced params s = (s1, r1) -> cf_blocks (db s1) = cf_blocks (db s)) as Hsame.
  { intros s1 r1 Hs1. by destruct (ensure_synced_spec _ _ _ _ Hok Hs1) as (_ & ? & _). }
  assert (forall s1, cf_blocks (db s1) = cf_blocks (db s) ->
    (size (cf_blocks (db (stored b s1))) <= S (size (cf_blocks (db s))))%nat) as Hstored.
  { intros s1 E. cbn [stored db with_disconnected with_db cf_blocks set_blocks]. rewrite E, map_size_insert. case_match; cbn [id]; unfold id; lia. }
  destruct Hst as [Hk|s1 e Hk Hs1|s1 Hk Hs1 Hp|s1 p e Hk Hs1 Hp Hv|s1 p Hk Hs1 Hc Hw
    |s1 p s2 r Hk Hs1 Hc Hw Hprev Hext|s1 p s2 r Hk Hs1 Hc Hw Hprev Hext]; try (rewrite ?(Hsame _ _ Hs1); lia).
  - apply Hstored. by eapply Hsame.
  - destruct (stored_ok _ _ _ _ _ _ Hok Hsize Hnz Hk Hs1 Hc)
      as (t & l & lp & Hts & Ht1 & Hsync & Hbl & Hbs & Htip & Hcan & Hpp & Hlp & Hb).
    assert (lp = l) as ->.
    { assert (cf_blocks (db s1) !! block_hash b = None) as Hk1 by by rewrite Hbl.
      apply (ancestry_det _ _ _ _ (ancestry_store _ b _ _ Hk1 Hlp)). rewrite <- Hpp, Hprev. unfold tip_hash. rewrite Ht1. apply Htip. }
    destruct (extend_tip_spec _ _ _ _ _ _ _ Htip Hsync Hb Hext) as [-> _]. by apply Hstored.
  - destruct (stored_ok _ _ _ _ _ _ Hok Hsize Hnz Hk Hs1 Hc)
      as (t & l & lp & Hts & Ht1 & Hsync & Hbl & Hbs & Htip & Hcan & Hpp & Hlp & Hb).
    unfold tip_hash in Hext. rewrite Ht1 in Hext.
    destruct (reorganise_spec _ _ _ _ _ _ _ _ Hbs Htip Hb Hext) as [-> _]. by apply Hstored.
Qed.

(** Blocks of one message: their hash is not zero. *)
Definition plausible (msg : option P2pMsg) : Prop :=
  match msg with Some (NewBlock b) => block_hash b <> ZERO | _ => True end.

Lemma message_blocks_size opens params ip now msg n :
  node_ok params n -> Z.of_nat (size (cf_blocks (node_db n))) < U64_MAX -> plausible msg ->
  (size (cf_blocks (node_db (handle_message opens params ip now msg n).1.1)) <= S (size (cf_blocks (node_db n))))%nat.
Proof.
  intros Hn Hsize Hp.
  assert (forall points reply n1, node_db (penalise ip points now reply n1).1.1 = node_db n1) as Hpen.
  { intros points reply n1. unfold penalise. by destruct (record_violation _ _ _ _). }
  destruct msg as [[b|h hash|reason|tx|txid|txid reason|from|blocks]|]; cbn [handle_message];
    rewrite ?Hpen; try (cbn [fst]; lia).
  - assert (size (cf_blocks (node_db (accept_peer_block opens params b now n).1)) <= S (size (cf_blocks (node_db n))))%nat as Hb.
    { unfold accept_peer_block. destruct opens; [cbn [fst]; lia|].
      pose proof (submit_blocks_size params b now (open_db (node_db n)) Hn) as Hs. rewrite open_db_db in Hs.
      specialize (Hs Hsize Hp). destruct (submit_block _ _ _ _) as [s [b'|e]]; cbn [fst] in Hs |- *.
      - unfold requeue_reorged_transactions. cbn [take_reorg_requeue_candidates]. by destruct (foldl _ _ _).
      - by destruct e. }
    destruct (accept_peer_block opens params b now n) as [n1 [[h hash]|reason]]; cbn [fst] in *; [done|].
    destruct (is_bannable_block_error reason); [by rewrite Hpen|done].
  - assert (cf_blocks (node_db (accept_peer_tx opens params tx n).1) = cf_blocks (node_db n)) as Hb.
    { unfold accept_peer_tx. destruct opens; [done|].
      destruct (ensure_utxo_synced params (open_db (node_db n))) as [s [u|e]] eqn:Hs;
        destruct (ensure_synced_spec _ _ _ _ Hn Hs) as (_ & Hbl & _); rewrite open_db_db in Hbl.
      - by destruct (add _ _ _ _ _) as [pool [?|?]].
      - done. }
    destruct (accept_peer_tx opens params tx n) as [n1 [u|reason]]; cbn [fst] in *; [rewrite Hb; lia|].
    destruct (is_bannable_tx_error reason); cbn [fst]; rewrite ?Hpen, Hb; lia.
Qed.

(** What a part of a connection leaves: a step of the node, and no one else banned or unbanned. *)
Definition harmless (params : ConsensusParams) (ip : string) (later : Z) (n n' : Node) : Prop :=
  node_step params n n'
  /\ forall ip', ip' <> ip -> is_banned (node_bans n') ip' later = is_banned (node_bans n) ip' later.

Lemma harmless_trans params ip later n1 n2 n3 :
  harmless params ip later n1 n2 -> harmless params ip later n2 n3 -> harmless params ip later n1 n3.
Proof.
  intros [H1 H1'] [H2 H2']. split; [by eapply node_step_trans|]. intros ip' Hne. rewrite H2', H1' by done. done.
Qed.

Lemma message_loop_harmless params ip later lines n :
  node_ok params n -> Z.of_nat (size (cf_blocks (node_db n)) + length lines) < U64_MAX ->
  Forall (λ l, line_time l <= later /\ plausible (line_msg l)) lines ->
  harmless params ip later n (message_loop params ip lines n).1.
Proof.
  intros Hn Hsize Hl. revert n Hn Hsize. induction Hl as [|l lines [Ht Hp] _ IH]; intros n Hn Hsize.
  { split; [by apply node_step_refl|done]. }
  cbn [message_loop]. cbn [length] in Hsize.
  assert (Z.of_nat (size (cf_blocks (node_db n))) < U64_MAX) as Hroom by lia.
  pose proof (peer_message_safe (line_opens l) params ip (line_time l) later (line_msg l) n Ht Hn Hroom Hp) as Hsafe.
  pose proof (message_blocks_size (line_opens l) params ip (line_time l) (line_msg l) n Hn Hroom Hp) as Hgrow.
  destruct (handle_message _ _ _ _ _ _) as [[n1 reply] continue]. cbn [fst] in *. destruct continue; [|exact Hsafe].
  pose proof (IH n1 (step_good _ _ _ (proj1 Hsafe)) ltac:(lia)) as Hrest.
  destruct (message_loop params ip lines n1) as [n2 rest]. cbn [fst] in *. by eapply harmless_trans.
Qed.

Lemma handshake_harmless opens params id ip now later hello n :
  now <= later -> node_ok params n ->
  harmless params ip later n (handshake opens params id ip now hello n).1
  /\ node_db (handshake opens params id ip now hello n).1 = node_db n.
Proof.
  intros Hnow Hn. pose proof (node_step_refl params n Hn) as Hrefl.
  assert (forall points, harmless params ip later n (penalise ip points now None n).1.1
    /\ node_db (penalise ip points now None n).1.1 = node_db n) as Hpen.
  { intros points. split; [split|].
    - eapply node_step_db; [done|]. unfold penalise. by destruct (record_violation _ _ _ _).
    - intros ip' Hne. by apply penalise_other.
    - unfold penalise. by destruct (record_violation _ _ _ _). }
  unfold handshake. destruct hello as [hello|]; [|apply Hpen]. destruct (validate_hello hello params); [|apply Hpen].
  by destruct opens; cbn [fst]; (split; [split|]).
Qed.

(** C15: No connection harms the node. Whatever a peer sends from its first line to its last, valid or not,
    and however often the database cannot be opened in between, the node stays in a good state, keeps
    every block it has, never ends on a chain with less work, and at any later time every other address
    is banned or not as it was. A connection that is turned away changes nothing. *)
Theorem p2p_session_safe peers opens params id ip now later hello lines n :
  node_ok params n -> now <= later -> Z.of_nat (size (cf_blocks (node_db n)) + length lines) < U64_MAX ->
  Forall (λ l, line_time l <= later /\ plausible (line_msg l)) lines ->
  harmless params ip later n (serve_p2p peers opens params id ip now hello lines n).1.1.
Proof.
  intros Hn Hnow Hsize Hl. unfold serve_p2p. destruct (admits peers ip now n); [|by split; [apply node_step_refl|]].
  unfold handle_p2p_connection. destruct (handshake_harmless opens params id ip now later hello n Hnow Hn) as [Hh Hdb].
  destruct (handshake opens params id ip now hello n) as [n1 [answer|]]; cbn [fst] in *; [|exact Hh].
  pose proof (message_loop_harmless params ip later lines n1) as Hloop. rewrite Hdb in Hloop.
  specialize (Hloop (step_good _ _ _ (proj1 Hh)) Hsize Hl).
  destruct (message_loop params ip lines n1) as [n2 replies]. by eapply harmless_trans.
Qed.

(** ** Two nodes on the same chain *)

(** The canonical chain of a node is [l], newest block first, and its UTXO set is up to date. *)
Definition on_chain (params : ConsensusParams) (l : list Block) (n : Node) : Prop :=
  node_ok params n /\ synced (open_db (node_db n)) /\ exists t, tip_ok params (open_db (node_db n)) t l.

(** A node as the peer of another: its answers on one connection from [ip]. *)
Definition node_as_peer (opens : option string) (params : ConsensusParams) (id ip : string) (now : Z) (n : Node) : Peer := {|
  answer_hello h := ok_or (handshake opens params id ip now (Some h) n).2 "peer closed connection"%string;
  answer_msg m := ok_or (handle_message opens params ip now (Some m) n).1.2 "peer closed connection"%string |}.

Lemma hello_valid params id s : validate_hello (local_hello id s params) params = Ok ().
Proof. unfold validate_hello, local_hello. cbn. by rewrite !bool_decide_true. Qed.

(** The clock is the one thing a valid block asks of the time. *)
Lemma validate_block_at params p b now later bits seed :
  validate_block params p b now bits seed = Ok () ->
  timestamp_seconds (header b) <= add64 later (max_future_block_time_seconds params) ->
  validate_block params p b later bits seed = Ok ().
Proof.
  intros Hv Ht. rewrite <- Hv. unfold validate_block in *.
  repeat (apply bind_Ok in Hv as (? & ? & Hv)).
  rewrite (proj2 (Z.ltb_ge _ _) Ht). destruct (Z.ltb_spec (add64 now (max_future_block_time_seconds params))
    (timestamp_seconds (header b))); [|done].
  repeat match goal with H : reject_if _ _ = Ok _ |- _ => apply reject_if_Ok in H end. congruence.
Qed.

Lemma seed_agrees params d1 d2 s1 s2 t1 t2 l h :
  state_ok params s1 -> tip_ok params s1 t1 l -> db s1 = d1 -> state_ok params s2 -> tip_ok params s2 t2 l -> db s2 = d2 ->
  epoch_seed_for_height d1 h = epoch_seed_for_height d2 h.
Proof.
  intros Hok1 Ht1 <- Hok2 Ht2 <-. unfold epoch_seed_for_height. case_match; [done|].
  rewrite (canonical_lookup _ _ _ _ _ Hok1 Ht1) by by apply Z.mod_pos_bound.
  by rewrite (canonical_lookup _ _ _ _ _ Hok2 Ht2) by by apply Z.mod_pos_bound.
Qed.

Section Propagation.
Context (params : ConsensusParams) (nowA : Z) (sA : ChainState) (t : Block) (l : list Block) (b : Block).
Context (HA : state_ok params sA) (HtA : tip_ok params sA t l) (HsA : synced sA).
Context (Hnz : block_hash b <> ZERO) (Hprev : previous_hash (header b) = block_hash t).
Context (HrA : Z.of_nat (size (cf_blocks (db sA))) < U64_MAX).

Lemma parent_is_tip p : get_block_by_hash (db sA) (previous_hash (header b)) = Some p -> p = t.
Proof using Hprev HtA.
  intros Hp. destruct (ancestry_tip _ _ _ (tip_ancestry _ _ _ _ HtA)) as (t' & l' & El & Ht').
  pose proof (tip_head _ _ _ _ HtA) as Hhd. rewrite El in Hhd. injection Hhd as Hhd.
  unfold get_block_by_hash in Hp. congruence.
Qed.

(** What the first node made of the block. *)
Lemma adopted_spec sA' :
  submit_block params b nowA sA = (sA', Ok b) -> tip_cache sA' = Some b ->
  valid_child params sA b nowA t /\ tip_ok params sA' b (b :: l) /\ synced sA' /\ total_work l < U128_MAX.
Proof using All.
  intros Hsub Htip. pose proof (submit_block_step params b nowA sA) as Hst. rewrite Hsub in Hst. cbn [fst snd] in Hst.
  assert (forall s1, ensure_utxo_synced params sA = (s1, Ok ()) -> s1 = sA) as Hid.
  { intros s1. rewrite ensure_synced_id by done. by intros [= <-]. }
  inversion Hst as [|?|?|?|s1 p Hk Hs1 Hc Hw|s1 p s2 r Hk Hs1 Hc Hw Hpt Hext|s1 p s2 r Hk Hs1 Hc Hw Hpt Hext]; subst.
  - pose proof (Hid _ Hs1) as ->. exfalso. change (tip_cache (stored b sA)) with (tip_cache sA) in Htip.
    assert (b = t) as -> by (pose proof (tip_cached _ _ _ _ HtA); congruence).
    destruct (ancestry_tip _ _ _ (tip_ancestry _ _ _ _ HtA)) as (t' & l' & _ & Ht'). congruence.
  - pose proof (Hid _ Hs1) as ->. assert (p = t) as -> by (apply parent_is_tip, Hc).
    destruct (stored_ok _ _ _ _ _ _ HA HrA Hnz Hk Hs1 Hc)
      as (t' & l' & lp & Hts & _ & Hsync & _ & Hbs & Htip' & _ & Hpp & Hlp & Hb).
    assert (t' = t) as -> by (pose proof (tip_cached _ _ _ _ HtA); congruence).
    assert (lp = l) as -> by (eapply ancestry_det; [exact Hlp|apply HtA]).
    assert (l' = l) as ->.
    { eapply ancestry_det; [apply Htip'|]. apply ancestry_store; [done|apply HtA]. }
    destruct (extend_tip_spec _ _ _ _ _ _ _ Htip' Hsync Hb Hext) as [_ Hr].
    destruct r as [[]|e]; [|done]. destruct Hr as (Ht2 & Hs2 & _). split_and!; try done.
    apply (heavier_total params sA b t l (b :: l)) in Hw; [lia|done..].
  - pose proof (Hid _ Hs1) as ->. exfalso. apply Hpt. unfold tip_hash. by rewrite (tip_cached _ _ _ _ HtA).
Qed.

Context (nowB : Z) (sB : ChainState) (HB : state_ok params sB) (HtB : tip_ok params sB t l) (HsB : synced sB).
Context (Hact : 0 <= difficulty_retarget_activation_height params <= U64_MAX).
Context (HrB : Z.of_nat (size (cf_blocks (db sB))) < U64_MAX) (HnB : cf_blocks (db sB) !! block_hash b = None).
Context (Htime : timestamp_seconds (header b) <= add64 nowB (max_future_block_time_seconds params)).

(** So the second node takes it too. *)
Lemma peer_adopts sA' :
  submit_block params b nowA sA = (sA', Ok b) -> tip_cache sA' = Some b ->
  exists sB', submit_block params b nowB sB = (sB', Ok b) /\ tip_ok params sB' b (b :: l) /\ synced sB'
    /\ state_ok params sB' /\ cf_utxo (db sB') = cf_utxo (db sA').
Proof using All.
  intros Hsub Htip. destruct (adopted_spec sA' Hsub Htip) as ([Hp Hv] & Htip' & Hsy' & Hlight).
  destruct (ancestry_tip _ _ _ (tip_ancestry _ _ _ _ HtA)) as (t' & l' & El & HtbA).
  pose proof (tip_head _ _ _ _ HtA) as Hhd. rewrite El in Hhd. injection Hhd as ->.
  destruct (ancestry_tip _ _ _ (tip_ancestry _ _ _ _ HtB)) as (t' & l'' & El' & HtbB).
  pose proof (tip_head _ _ _ _ HtB) as Hhd. rewrite El' in Hhd. injection Hhd as ->.
  assert (acceptable params b nowB sB t) as Hacc.
  { split; [done..|]. split; [unfold get_block_by_hash; by rewrite Hprev|].
    pose proof (tip_ancestry _ _ _ _ HtA) as HanA. pose proof (tip_ancestry _ _ _ _ HtB) as HanB. rewrite El in HanA, HanB.
    rewrite (expected_bits_agree params (db sB) (db sA) t l'), (seed_agrees params (db sB) (db sA) sB sA t t l);
      [|done..| | | | | |].
    - by eapply validate_block_at.
    - apply HB.
    - apply HA.
    - done.
    - done.
    - done.
    - rewrite <- El. pose proof (ancestry_length _ _ _ (blocks_keyed _ (proj1 HA)) (tip_ancestry _ _ _ _ HtA)). lia. }
  destruct (acceptable_ancestry _ _ _ _ _ (proj1 HB) Hacc) as (Hbs & _ & lp & Hlp & Hlb).
  assert (lp = l) as -> by (eapply ancestry_det; [exact Hlp|apply HtB]).
  assert (cf_utxo (db sB) = cf_utxo (db sA)) as Hutxo.
  { pose proof (tip_utxo _ _ _ _ HtA (HsA _ (tip_cached _ _ _ _ HtA))).
    pose proof (tip_utxo _ _ _ _ HtB (HsB _ (tip_cached _ _ _ _ HtB))). congruence. }
  pose proof (tip_utxo _ _ _ _ Htip' (Hsy' _ Htip)) as Hrep.
  destruct (submit_extend_spec params b nowB sB t t l HB HtB HsB Hacc) as (sB' & Hsub' & HtB' & HsB' & HokB' & _ & _).
  - apply (heavier_total params sB b t l (b :: l)); [done|by apply stored_tip_ok|done|].
    change (total_work (b :: l)) with (block_work b + total_work l). pose proof (block_work_pos b). lia.
  - done.
  - unfold replay_utxo in Hrep. rewrite reverse_cons, replay_from_app in Hrep.
    apply bind_Ok in Hrep as (set & Hl & Hb). cbn [replay_from] in Hb.
    pose proof (tip_utxo _ _ _ _ HtB (HsB _ (tip_cached _ _ _ _ HtB))) as HlB. unfold replay_utxo in HlB.
    assert (set = cf_utxo (db sB)) as -> by congruence.
    destruct (apply_block params b (cf_utxo (db sB))) as [set' [[]|e]]; [by exists set'|done].
  - exists sB'. split_and!; try done.
    pose proof (tip_utxo _ _ _ _ HtB' (HsB' _ (tip_cached _ _ _ _ HtB'))). congruence.
Qed.
End Propagation.

Lemma on_chain_after params s b l n :
  state_ok params s -> tip_ok params s b l -> synced s -> node_db n = db s -> on_chain params l n.
Proof.
  intros Hok Htip Hsy E. destruct (open_db_tip _ _ _ _ Htip) as [Htip' Hdb]. unfold on_chain, node_ok. rewrite E.
  split; [by apply open_db_ok|]. split; [|by exists b]. intros u. rewrite (tip_cached _ _ _ _ Htip'), Hdb. intros [= <-].
  apply Hsy, Htip.
Qed.

Lemma submit_returns params b now s s' b' : submit_block params b now s = (s', Ok b') -> b' = b.
Proof.
  intros Hsub. pose proof (submit_block_step params b now s) as Hst. rewrite Hsub in Hst. cbn [fst snd] in Hst.
  remember (Ok b') as r eqn:Er. destruct Hst; try congruence;
    by apply bind_Ok in Er as (? & _ & [= ->]).
Qed.

(** An accepted submission that extends the chain becomes the tip, and the database is the state's. *)
Lemma rpc_submitted params b now n n' r t l :
  on_chain params (t :: l) n -> Z.of_nat (size (cf_blocks (node_db n))) < U64_MAX -> block_hash b <> ZERO ->
  rpc_submitblock None params b now n = (n', Ok r) -> canonical r = Some true ->
  exists s, submit_block params b now (open_db (node_db n)) = (s, Ok b) /\ tip_cache s = Some b /\ node_db n' = db s.
Proof.
  intros (Hok & Hsy & u & Htip) Hsize Hnz Hrpc Hcan. unfold rpc_submitblock in Hrpc.
  destruct (submit_block params b now (open_db (node_db n))) as [s [b'|e]] eqn:Hsub.
  - pose proof (submit_returns _ _ _ _ _ _ Hsub) as ->. exists s. unfold requeue_reorged_transactions in Hrpc.
    cbn [take_reorg_requeue_candidates] in Hrpc. destruct (foldl _ _ _) as [pool k]. injection Hrpc as <- <-.
    cbn [canonical] in Hcan. injection Hcan as Hcan. apply bool_decide_eq_true in Hcan.
    change (tip_hash (with_disconnected [] s)) with (tip_hash s) in Hcan. split_and!; [done| |done].
    pose proof (submit_block_step params b now (open_db (node_db n))) as Hst. rewrite Hsub in Hst. cbn [fst snd] in Hst.
    apply submit_step_ok in Hst as (_ & _ & _ & [[Ht _]|(_ & Ht & _)]); [|done|done|by rewrite open_db_db|done].
    exfalso. unfold tip_hash in Hcan. rewrite Ht, (tip_cached _ _ _ _ Htip) in Hcan.
    assert (is_Some (cf_blocks (db (open_db (node_db n))) !! block_hash b)) as Hk.
    { rewrite <- Hcan. destruct (ancestry_tip _ _ _ (tip_ancestry _ _ _ _ Htip)) as (? & ? & _ & ?). by eexists. }
    rewrite (submit_known_spec params b now _ Hk) in Hsub. done.
  - destruct e; try done. injection Hrpc as <- <-. done.
Qed.

(** A block that extends the chain disconnects none, so nothing is queued again. *)
Lemma extension_requeues_nothing params b now s s' t l pool :
  state_ok params s -> tip_ok params s t l -> Z.of_nat (size (cf_blocks (db s))) < U64_MAX -> block_hash b <> ZERO ->
  submit_block params b now s = (s', Ok b) -> tip_ok params s' b (b :: l) ->
  requeue_reorged_transactions s' params pool = (with_disconnected [] s', (pool, 0)).
Proof.
  intros Hok Htip Hr Hnz Hsub Htip'. assert (last_disconnected s' = []) as Hld.
  { apply elem_of_nil_inv. intros c Hc. apply (submit_disconnects _ _ _ _ _ Hok Hr Hnz Hsub) in Hc as [Hin Hout].
    destruct (submit_accepted _ _ _ _ _ Hok Hr Hnz Hsub) as [Hok' _].
    apply Hout. rewrite (state_ok_canonical _ _ _ _ Hok' Htip'). rewrite (state_ok_canonical _ _ _ _ Hok Htip) in Hin.
    rewrite elem_of_reverse in *. by apply list_elem_of_further. }
  unfold requeue_reorged_transactions, take_reorg_requeue_candidates. by rewrite Hld.
Qed.

(** What a block accepted by one node as its new tip does to both. *)
Lemma block_relayed params nowA nowB nA nB nA' t l b r :
  on_chain params (t :: l) nA -> on_chain params (t :: l) nB ->
  0 <= difficulty_retarget_activation_height params <= U64_MAX ->
  block_hash b <> ZERO -> previous_hash (header b) = block_hash t ->
  Z.of_nat (size (cf_blocks (node_db nA))) < U64_MAX -> Z.of_nat (size (cf_blocks (node_db nB))) < U64_MAX ->
  cf_blocks (node_db nB) !! block_hash b = None ->
  timestamp_seconds (header b) <= add64 nowB (max_future_block_time_seconds params) ->
  rpc_submitblock None params b nowA nA = (nA', Ok r) -> canonical r = Some true ->
  on_chain params (b :: t :: l) nA' /\ node_mempool nA' = remove_confirmed b (node_mempool nA)
  /\ exists sB, let nB' := with_chain sB (remove_confirmed b (node_mempool nB)) nB in
      accept_peer_block None params b nowB nB = (nB', Ok (height (header b), block_hash b))
      /\ on_chain params (b :: t :: l) nB' /\ cf_utxo (node_db nB') = cf_utxo (node_db nA').
Proof.
  intros HonA HonB Hact Hnz Hprev HrA HrB HnB Htime Hrpc Hcan.
  destruct (rpc_submitted _ _ _ _ _ _ _ _ HonA HrA Hnz Hrpc Hcan) as (sA & HsubA & HtcA & HdbA).
  destruct HonA as (HokA & HsyA & u & HtA). destruct HonB as (HokB & HsyB & v & HtB).
  pose proof (tip_head _ _ _ _ HtA) as [= <-]. pose proof (tip_head _ _ _ _ HtB) as [= <-].
  assert (Z.of_nat (size (cf_blocks (db (open_db (node_db nA))))) < U64_MAX) as HrA' by by rewrite open_db_db.
  assert (Z.of_nat (size (cf_blocks (db (open_db (node_db nB))))) < U64_MAX) as HrB' by by rewrite open_db_db.
  destruct (submit_accepted _ _ _ _ _ HokA HrA' Hnz HsubA) as [HokA' _].
  destruct (adopted_spec params nowA _ t (t :: l) b HokA HtA HsyA Hnz Hprev HrA' sA HsubA HtcA) as (_ & HtA' & HsyA' & _).
  destruct (peer_adopts params nowA _ t (t :: l) b HokA HtA HsyA Hnz Hprev HrA' nowB _
    HokB HtB HsyB Hact HrB' ltac:(by rewrite open_db_db) Htime sA HsubA HtcA) as (sB & HsubB & HtB' & HsyB' & HokB' & Hutxo).
  split; [exact (on_chain_after _ _ _ _ _ HokA' HtA' HsyA' HdbA)|]. split.
  - unfold rpc_submitblock in Hrpc. rewrite HsubA in Hrpc.
    rewrite (extension_requeues_nothing _ _ _ _ _ _ _ _ HokA HtA HrA' Hnz HsubA HtA') in Hrpc. by injection Hrpc as <- _.
  - exists (with_disconnected [] sB). split_and!.
    + unfold accept_peer_block. rewrite HsubB.
      by rewrite (extension_requeues_nothing _ _ _ _ _ _ _ _ HokB HtB HrB' Hnz HsubB HtB').
    + by apply (on_chain_after params sB b).
    + rewrite HdbA. exact Hutxo.
Qed.

(** C11: Relayed blocks keep nodes in step. Let two nodes be on the same chain. When one accepts, over its
    RPC server, a block that extends the chain and becomes its tip, and pushes it to the other, which has
    not seen it and whose clock does not find it too far in the future, the push is acknowledged with the
    block's height: both nodes are then on the same chain, longer by that block, with the same UTXO set,
    and no address is penalised. *)
Theorem relayed_block_adopted params id id' ip nowA nowB nA nB nA' t l b :
  on_chain params (t :: l) nA -> on_chain params (t :: l) nB ->
  0 <= difficulty_retarget_activation_height params <= U64_MAX ->
  block_hash b <> ZERO -> previous_hash (header b) = block_hash t ->
  Z.of_nat (size (cf_blocks (node_db nA))) < U64_MAX -> Z.of_nat (size (cf_blocks (node_db nB))) < U64_MAX ->
  cf_blocks (node_db nB) !! block_hash b = None ->
  timestamp_seconds (header b) <= add64 nowB (max_future_block_time_seconds params) ->
  rpc_submitblock None params b nowA nA
  = (nA', Ok {| accepted := true; sub_height := height (header b); sub_hash := block_hash b; canonical := Some true |}) ->
  let peer := node_as_peer None params id' ip nowB nB in
  let nB' := (handle_message None params ip nowB (Some (NewBlock b)) nB).1.1 in
  push_block_to_peer params id (open_db (node_db nA')) peer b = Ok (height (header b))
  /\ on_chain params (b :: t :: l) nA' /\ on_chain params (b :: t :: l) nB'
  /\ cf_utxo (node_db nB') = cf_utxo (node_db nA') /\ node_bans nB' = node_bans nB.
Proof.
  intros HonA HonB Hact Hnz Hprev HrA HrB HnB Htime Hrpc.
  destruct (block_relayed _ _ _ _ _ _ _ _ _ _ HonA HonB Hact Hnz Hprev HrA HrB HnB Htime Hrpc eq_refl)
    as (HonA' & _ & sB & Hacc & HonB' & Hutxo).
  intros peer nB'. assert (nB' = with_chain sB _ nB) as -> by (unfold nB'; cbn [handle_message]; by rewrite Hacc).
  split_and!; try done.
  unfold push_block_to_peer, connect_peer, peer. cbn [node_as_peer answer_hello answer_msg handshake].
  rewrite hello_valid. cbn [ok_or snd mbind result_bind]. rewrite hello_valid. cbn [map_err mbind result_bind handle_message].
  by rewrite Hacc.
Qed.
End Relay.
