(* ===== verification/TxRelay.v ===== *)
(** * From one node's pool into the chain of both

    A transaction that one of two nodes on the same chain accepts and relays, a template of the
    other that holds it, and the mined block relayed back: [Relay], [NodeRpc] and [Mempool] together. *)

From S2P Require Import Prelude Crypto Hash Chain Validation ScriptVM Block Utxo UtxoSupply Mempool MempoolFacts Storage.
From S2P Require Import State StateDb StateChain StateInv StateProps StateSubmit Node NodeRpc NodeFacts NodeBanFacts Relay.

Local Open Scope Z_scope.

Section TxRelay.
Context `{Crypto} `{!IterOrder OutPoint UtxoEntry} `{!IterOrder string MempoolEntry}.

Lemma on_chain_synced params l n :
  on_chain params l n -> exists t, tip_ok params (open_db (node_db n)) t l
    /\ ensure_utxo_synced params (open_db (node_db n)) = (open_db (node_db n), Ok ())
    /\ replay_utxo params (reverse l) = Ok (cf_utxo (node_db n)).
Proof.
  intros (_ & Hsy & t & Htip). exists t. pose proof (tip_cached _ _ _ _ Htip) as Ht. pose proof (Hsy _ Ht) as Hm. split_and!.
  - done.
  - by apply ensure_synced_id.
  - rewrite <- (open_db_db (node_db n)). by apply Htip.
Qed.

(** A good node that has synchronised is on a chain. *)
Lemma synced_on_chain params n n1 s t :
  node_ok params n -> synced_state None params n = (n1, Ok s) -> tip_cache s = Some t ->
  exists l, on_chain params (t :: l) n1.
Proof.
  unfold synced_state. intros Hn Hs Ht. destruct (ensure_utxo_synced params (open_db (node_db n))) as [s1 [[]|e]] eqn:Hrun; [|done].
  injection Hs as <- <-. destruct (ensure_synced_spec _ _ _ _ Hn Hrun) as (Hok & _ & _ & Hsy).
  destruct (state_ok_tip _ _ _ Hok Ht) as (l & Htip & _). exists l. by eapply on_chain_after.
Qed.

(** Nodes on the same chain see a transaction against the same outputs at the same height. *)
Lemma same_chain_view params l nA nB tx :
  on_chain params l nA -> on_chain params l nB ->
  seed_utxos_for_tx (open_db (node_db nA)) tx = seed_utxos_for_tx (open_db (node_db nB)) tx
  /\ height_or_0 (open_db (node_db nA)) = height_or_0 (open_db (node_db nB)).
Proof.
  intros (tA & HtA & _ & HrA)%on_chain_synced (tB & HtB & _ & HrB)%on_chain_synced.
  assert (tA = tB) as <- by (pose proof (tip_head _ _ _ _ HtA); pose proof (tip_head _ _ _ _ HtB); congruence). split.
  - unfold seed_utxos_for_tx, utxo_lookup. rewrite !open_db_db. rewrite HrA in HrB. injection HrB as ->. done.
  - unfold height_or_0. by rewrite (tip_height_cached _ _ _ _ HtA), (tip_height_cached _ _ _ _ HtB).
Qed.

(** A transaction the first node accepts over RPC is accepted by the second node as a peer. *)
Lemma tx_relayed params nA nB nA' l tx txid len :
  on_chain params l nA -> on_chain params l nB ->
  rpc_sendrawtransaction None params tx nA = (nA', Ok (txid, len)) ->
  node_mempool nB !! to_hex (tx_id tx) = None -> conflicts_with_pending (node_mempool nB) tx = false ->
  pool_len (node_mempool nB) < MAX_MEMPOOL_TXS ->
  exists fee poolA, let e := {| entry_tx := tx; fee_atoms := fee |} in
    txid = tx_id tx /\ MIN_RELAY_FEE_ATOMS <= fee
    /\ validate_transaction (seed_utxos_for_tx (open_db (node_db nB)) tx) tx (height_or_0 (open_db (node_db nB))) params = Ok fee
    /\ is_coinbase tx = false
    /\ nA' = with_chain (open_db (node_db nA)) poolA nA /\ poolA !! to_hex txid = Some e
    /\ accept_peer_tx None params tx nB = (with_chain (open_db (node_db nB)) (<[to_hex txid := e]> (node_mempool nB)) nB, Ok ()).
Proof.
  intros HonA HonB Hrpc Hnew Hc Hroom.
  destruct (same_chain_view params l nA nB tx HonA HonB) as [Hseed Hh].
  destruct (on_chain_synced _ _ _ HonA) as (tA & HtA & HsA & _). destruct (on_chain_synced _ _ _ HonB) as (tB & HtB & HsB & _).
  unfold rpc_sendrawtransaction, synced_state in Hrpc. rewrite HsA in Hrpc. cbn [node_mempool with_chain] in Hrpc.
  destruct (add _ _ _ _ (node_mempool nA)) as [poolA [[]|e]] eqn:HaddA; [|done]. injection Hrpc as <- <- _.
  apply add_spec in HaddA as (fee & [Hcb _ _ Hv Hfee (pool1 & _ & ->)]). rewrite Hseed, Hh in Hv.
  pose proof (add_accepts _ _ _ _ _ _ Hcb Hnew (proj1 (no_conflict _ _) Hc) Hv Hfee Hroom) as HaddB.
  exists fee, (<[to_hex (tx_id tx) := {| entry_tx := tx; fee_atoms := fee |}]> pool1). split_and!; try done.
  - by rewrite lookup_insert_eq.
  - unfold accept_peer_tx. by rewrite HsB, HaddB.
Qed.

(** Another pool leaves a node on its chain. *)
Lemma on_chain_pool params l n pool : on_chain params l n -> on_chain params l (with_chain (open_db (node_db n)) pool n).
Proof. intros Hon. unfold on_chain, node_ok in *. cbn [with_chain node_db]. by rewrite !open_db_db. Qed.

(** Relayed transactions reach the other pool. Let two nodes be on the same chain. A
    transaction that one accepts over its RPC server and pushes to the other, whose pool has room,
    does not hold it and holds nothing that spends the same outputs, is acknowledged: both pools
    then hold it with the same fee, the other's pool loses nothing, both nodes stay on the chain,
    and no address is penalised. *)
Theorem relayed_tx_pooled params id id' ip now nA nB nA' l tx txid len :
  on_chain params l nA -> on_chain params l nB ->
  rpc_sendrawtransaction None params tx nA = (nA', Ok (txid, len)) ->
  node_mempool nB !! to_hex (tx_id tx) = None -> conflicts_with_pending (node_mempool nB) tx = false ->
  pool_len (node_mempool nB) < MAX_MEMPOOL_TXS ->
  let peer := node_as_peer None params id' ip now nB in
  let nB' := (handle_message None params ip now (Some (NewTx tx)) nB).1.1 in
  push_tx_to_peer params id (open_db (node_db nA')) peer tx = Ok txid
  /\ (exists fee, MIN_RELAY_FEE_ATOMS <= fee
       /\ node_mempool nA' !! to_hex txid = Some {| entry_tx := tx; fee_atoms := fee |}
       /\ node_mempool nB' = <[to_hex txid := {| entry_tx := tx; fee_atoms := fee |}]> (node_mempool nB))
  /\ on_chain params l nA' /\ on_chain params l nB' /\ node_bans nB' = node_bans nB.
Proof.
  intros HonA HonB Hrpc Hnew Hc Hroom.
  destruct (tx_relayed params nA nB nA' l tx txid len HonA HonB Hrpc Hnew Hc Hroom)
    as (fee & poolA & -> & Hfee & _ & _ & -> & Hin & Hacc).
  intros peer nB'. assert (nB' = with_chain (open_db (node_db nB)) _ nB) as -> by (unfold nB'; cbn [handle_message]; by rewrite Hacc).
  split_and!; [| |by apply on_chain_pool|by apply on_chain_pool|done].
  - unfold push_tx_to_peer, connect_peer, peer. cbn [node_as_peer answer_hello answer_msg handshake].
    rewrite hello_valid. cbn [ok_or snd mbind result_bind]. rewrite hello_valid. cbn [map_err mbind result_bind handle_message].
    by rewrite Hacc.
  - by exists fee.
Qed.
(** ** From the pool into a block *)

Lemma template_txs_takes s params pool tx fee :
  tx ∈ (select_for_block pool).1 ->
  validate_transaction (seed_utxos_for_tx s tx) tx (height_or_0 s) params = Ok fee -> tx ∈ (template_txs s params pool).1.
Proof.
  intros Hin Hv. unfold template_txs. revert Hin. generalize (select_for_block pool).1. intros l.
  assert (forall l acc, tx ∈ acc.1 -> tx ∈ (foldl (template_step s params) acc l).1) as Hkeep.
  { clear l. induction l as [|x l IH]; intros acc Ha; [done|]. cbn [foldl]. apply IH. unfold template_step.
    case_match; [|done]. cbn [fst]. apply elem_of_app. by left. }
  generalize (@nil Transaction, 0). induction l as [|x l IH]; intros acc Hin; [by apply not_elem_of_nil in Hin|].
  cbn [foldl]. apply elem_of_cons in Hin as [<-|Hin]; [|by apply IH]. apply Hkeep. unfold template_step. rewrite Hv.
  cbn [fst]. apply elem_of_app. right. by apply list_elem_of_singleton.
Qed.

(** A good pool is selected whole. *)
Lemma select_takes utxos params h pool k e :
  pool_ok utxos params h pool -> pool !! k = Some e -> entry_tx e ∈ (select_for_block pool).1.
Proof.
  intros Hok Hk. destruct (select_for_block_spec _ _ _ _ Hok) as (-> & _). cbn [fst].
  apply list_elem_of_fmap_2. rewrite sort_by_fee_perm. apply list_elem_of_fmap. exists (k, e).
  split; [done|]. by apply elem_of_iter.
Qed.

Lemma confirmed_leaves b pool tx : tx ∈ transactions b -> remove_confirmed b pool !! to_hex (tx_id tx) = None.
Proof.
  intros Hin. apply map_lookup_filter_None. right. intros e _. cbn [fst].
  rewrite bool_decide_true; [by intros []|]. apply elem_of_list_to_set. by apply (list_elem_of_fmap_2 (λ tx, to_hex (tx_id tx))).
Qed.

(** What a node on a chain hands out: its tip as parent, its clock, and the selection. *)
Lemma template_on_chain params miner now n n' t l b seed :
  on_chain params (t :: l) n -> rpc_getblocktemplate None params miner now n = (n', Ok (b, seed)) ->
  n' = with_chain (open_db (node_db n)) (node_mempool n) n
  /\ previous_hash (header b) = block_hash t /\ timestamp_seconds (header b) = now
  /\ forall tx, tx ∈ (template_txs (open_db (node_db n)) params (node_mempool n)).1 -> tx ∈ transactions b.
Proof.
  intros Hon. destruct (on_chain_synced _ _ _ Hon) as (u & Htip & Hsync & _). pose proof (tip_head _ _ _ _ Htip) as [= <-].
  unfold rpc_getblocktemplate, synced_state. case_bool_decide; [done|]. rewrite Hsync. cbn [node_mempool with_chain].
  destruct (template_txs _ _ _) as [txs fees]. unfold candidate_block_with_mempool. rewrite (tip_cached _ _ _ _ Htip).
  cbn [ok_or mbind result_bind]. intros [= <- <- _]. split_and!; try done.
  intros tx Hin. cbn [transactions candidate]. by apply list_elem_of_further.
Qed.

(** C13: A relayed payment is confirmed on both nodes. Let two nodes be on the same chain. One
    accepts a transaction over RPC and relays it to the other, whose pool is good, has room and
    holds nothing that collides with it. The other hands out a template; a block mined on it is
    accepted as the new tip and relayed back, not too far in the future. Then the
    transaction is in the block, both nodes are on the chain that ends with it and
    have the same UTXO set, and the transaction has left both pools. *)
Theorem payment_confirmed params ipA ipB miner nowA nowB now later k l t tx txid len b seed nA nA1 nB nB2 nB3 :
  on_chain params (t :: l) nA -> on_chain params (t :: l) nB ->
  0 <= difficulty_retarget_activation_height params <= U64_MAX ->
  Z.of_nat (size (cf_blocks (node_db nA))) < U64_MAX -> Z.of_nat (size (cf_blocks (node_db nB))) < U64_MAX ->
  pool_ok (cf_utxo (node_db nB)) params (height_or_0 (open_db (node_db nB))) (node_mempool nB) ->
  node_mempool nB !! to_hex (tx_id tx) = None -> conflicts_with_pending (node_mempool nB) tx = false ->
  pool_len (node_mempool nB) < MAX_MEMPOOL_TXS ->
  rpc_sendrawtransaction None params tx nA = (nA1, Ok (txid, len)) ->
  let nB1 := (handle_message None params ipA nowB (Some (NewTx tx)) nB).1.1 in
  rpc_getblocktemplate None params miner now nB1 = (nB2, Ok (b, seed)) ->
  let block := mined k b in
  rpc_submitblock None params block later nB2
  = (nB3, Ok {| accepted := true; sub_height := height (header block); sub_hash := block_hash block; canonical := Some true |}) ->
  block_hash block <> ZERO -> cf_blocks (node_db nA) !! block_hash block = None ->
  now <= add64 nowA (max_future_block_time_seconds params) ->
  let nA2 := (handle_message None params ipB nowA (Some (NewBlock block)) nA1).1.1 in
  tx ∈ transactions block
  /\ on_chain params (block :: t :: l) nA2 /\ on_chain params (block :: t :: l) nB3
  /\ cf_utxo (node_db nA2) = cf_utxo (node_db nB3)
  /\ node_mempool nA2 !! to_hex txid = None /\ node_mempool nB3 !! to_hex txid = None.
Proof.
  intros HonA HonB Hact HrA HrB Hpool Hnew Hc Hroom Hsend nB1 Htmpl block Hsub Hnz HnA Htime nA2.
  destruct (tx_relayed params nA nB nA1 _ tx txid len HonA HonB Hsend Hnew Hc Hroom)
    as (fee & poolA & -> & Hfee & Hv & Hcb & -> & _ & Hacc).
  assert (nB1 = with_chain (open_db (node_db nB)) _ nB) as E1 by (unfold nB1; cbn [handle_message]; by rewrite Hacc).
  assert (on_chain params (t :: l) nB1) as HonB1 by (rewrite E1; by apply on_chain_pool).
  destruct (template_on_chain _ _ _ _ _ _ _ _ _ HonB1 Htmpl) as (E2 & Hprev & Hts & Htake).
  assert (node_db nB1 = node_db nB) as Edb by (rewrite E1; cbn; apply open_db_db).
  assert (on_chain params (t :: l) nB2) as HonB2 by (rewrite E2; by apply on_chain_pool).
  assert (node_db nB2 = node_db nB) as Edb2 by (rewrite E2; cbn; by rewrite open_db_db).
  assert (tx ∈ transactions block) as Hin.
  { apply Htake. rewrite Edb, E1. cbn [node_mempool with_chain]. eapply template_txs_takes; [|exact Hv].
    apply (select_takes (cf_utxo (node_db nB)) params (height_or_0 (open_db (node_db nB))) _ (to_hex (tx_id tx))
      {| entry_tx := tx; fee_atoms := fee |}); [|by rewrite lookup_insert_eq].
    apply insert_pool_ok; try done; [|by apply no_conflict].
    apply seeded_valid in Hv as (Hnd & Hval & Hf). rewrite open_db_db in Hval, Hf. split; try done.
    apply validate_transaction_Ok. done. }
  set (nA1 := with_chain (open_db (node_db nA)) poolA nA) in *.
  assert (on_chain params (t :: l) nA1) as HonA1 by by apply on_chain_pool.
  assert (node_db nA1 = node_db nA) as EdbA by apply open_db_db.
  destruct (block_relayed params later nowA nB2 nA1 nB3 t l block _ HonB2 HonA1 Hact Hnz Hprev
    ltac:(by rewrite Edb2) ltac:(by rewrite EdbA) ltac:(by rewrite EdbA)
    ltac:(change (timestamp_seconds (header block)) with (timestamp_seconds (header b)); by rewrite Hts) Hsub eq_refl)
    as (HonB3 & HpoolB & sA & HaccA & HonA2 & Hutxo).
  assert (nA2 = with_chain sA (remove_confirmed block (node_mempool nA1)) nA1) as ->
    by (unfold nA2; cbn [handle_message]; by rewrite HaccA).
  split_and!; try done.
  - cbn [node_mempool with_chain]. by apply confirmed_leaves.
  - rewrite HpoolB. by apply confirmed_leaves.
Qed.
End TxRelay.
