(* ===== verification/NodeWitness.v ===== *)
(** * The node on concrete inputs

    A miner and a peer of the node of [History], and a busy node. *)

From S2P Require Import Prelude Crypto Hash Chain Validation Block Utxo Mempool Storage State StateDb.
From S2P Require Import StateChain StateInv StateProps StateSubmit Fixture StateWitness Node NodeRpc NodeFacts NodeBanFacts.

Local Open Scope Z_scope.

#[local] Existing Instance toy_crypto.
#[local] Existing Instance trie_order.

Module MinerWitness.
Definition n0 : Node := {| node_db := db History.s1; node_mempool := ∅; node_bans := ∅ |}.
Definition run := rpc_getblocktemplate None History.params "miner" 1200 n0.
Definition n1 : Node := (rpc_getblocktemplate None History.params "miner" 1200 n0).1.
Definition template : Block := match run.2 with Ok (b, _) => b | Err _ => Fixture.first_block end.
Definition seed : Hash256 := match run.2 with Ok (_, s) => s | Err _ => ZERO end.

Lemma run_snd : (rpc_getblocktemplate None History.params "miner" 1200 n0).2 = Ok (template, seed).
Proof. vm_compute. reflexivity. Qed.
Lemma run_eq : rpc_getblocktemplate None History.params "miner" 1200 n0 = (n1, Ok (template, seed)).
Proof. exact (pair_with _ _ run_snd). Qed.
Lemma n0_ok : state_ok History.params (open_db (node_db n0)).
Proof. exact (open_db_ok _ _ History.ok1). Qed.
Lemma meets : header_meets_work (header (mined 7 template)) seed = true.
Proof. vm_compute. reflexivity. Qed.
Lemma mined_nonzero : block_hash (mined 7 template) <> ZERO.
Proof. by_compute. Qed.
Lemma fresh : cf_blocks (node_db n0) !! block_hash (mined 7 template) = None.
Proof. vm_compute. reflexivity. Qed.
Lemma room : Z.of_nat (size (cf_blocks (node_db n0))) < U64_MAX.
Proof. vm_compute. reflexivity. Qed.
Lemma light : chain_work (node_db n0) (tip_hash (open_db (node_db n0))) < U128_MAX.
Proof. vm_compute. reflexivity. Qed.
Lemma time_fits :
  1300 + max_future_block_time_seconds History.params < U64_MOD /\ 0 <= max_future_block_time_seconds History.params.
Proof. vm_compute. by split. Qed.
Lemma rewards h : 0 <= reward_at_height History.params h <= U64_MAX.
Proof.
  change (reward_at_height History.params h) with (reward_at_height MAINNET h).
  pose proof (reward_at_height_range MAINNET MAINNET_emission_ok h) as Hr. revert Hr.
  generalize (reward_at_height MAINNET h). intros r [H0 H1]. split; [exact H0|]. etransitivity; [exact H1|]. by_compute.
Qed.
End MinerWitness.

Lemma mined_template_accepted_witness :
  exists n2, rpc_submitblock None History.params (mined 7 MinerWitness.template) 1300 MinerWitness.n1
    = (n2, Ok {| accepted := true; sub_height := height (header MinerWitness.template);
                 sub_hash := block_hash (mined 7 MinerWitness.template); canonical := Some true |})
    /\ tip_cache (open_db (node_db n2)) = Some (mined 7 MinerWitness.template).
Proof.
  refine (mined_template_accepted History.params "miner" 1200 1300 MinerWitness.n0 MinerWitness.n1 MinerWitness.template
    MinerWitness.seed 7 MinerWitness.n0_ok _ (proj1 MinerWitness.time_fits) (proj2 MinerWitness.time_fits)
    MinerWitness.rewards MinerWitness.run_eq MinerWitness.meets MinerWitness.mined_nonzero MinerWitness.fresh
    MinerWitness.room MinerWitness.light).
  lia.
Defined.

Module BanWitness.
Definition l : list (string * Z * Z) :=
  [("a", SCORE_INVALID_BLOCK, 5); ("b", SCORE_INVALID_TX, 6); ("a", SCORE_INVALID_BLOCK, 7); ("a", SCORE_INVALID_BLOCK, 7);
   ("a", SCORE_INVALID_BLOCK, 9); ("a", SCORE_INVALID_BLOCK, 9)]%string.
Lemma l_ok : Forall (λ v, 0 <= v.1.2 /\ 5 <= v.2 <= 10) l.
Proof. repeat (constructor; [vm_compute; repeat split; discriminate|]). constructor. Qed.
End BanWitness.

Lemma ban_policy_witness :
  (is_banned (record_all BanWitness.l ∅) "a" 10 = true <-> BAN_THRESHOLD <= points_of "a" BanWitness.l)
  /\ BAN_THRESHOLD <= points_of "a" BanWitness.l.
Proof.
  split; [|vm_compute; discriminate].
  refine (ban_policy ∅ BanWitness.l "a" 5 10 _ BanWitness.l_ok _ _ _); [reflexivity|lia|vm_compute; reflexivity..].
Defined.

Lemma peer_message_safe_witness :
  node_step History.params MinerWitness.n0
    (handle_message None History.params "a" 1100 (Some (NewBlock History.side1)) MinerWitness.n0).1.1.
Proof.
  exact (proj1 (peer_message_safe None History.params "a" 1100 1100 (Some (NewBlock History.side1)) MinerWitness.n0
    (Z.le_refl _) MinerWitness.n0_ok MinerWitness.room (proj1 (proj2 (proj2 History.nonzero))))).
Defined.

(** ** A busy node *)
Definition busy : option string := Some "DB at /data/chain.db is locked by another thread"%string.

(** The node's own "database locked" error counts as the peer's violation: five
    blocks sent while the node is busy ban the peer, whatever the blocks are. *)
Lemma busy_node_bans_peer params ip now n b1 b2 b3 b4 b5 :
  node_bans n !! ip = None -> 0 <= now -> now + 2 * BAN_DURATION_SECS < U64_MOD ->
  is_banned (node_bans (foldl (λ n b, (handle_message busy params ip now (Some (NewBlock b)) n).1.1) n [b1; b2; b3; b4; b5]))
    ip now = true.
Proof.
  intros Hip Hnow Hfit.
  assert (forall m b, node_bans (handle_message busy params ip now (Some (NewBlock b)) m).1.1
    = record_all [(ip, SCORE_INVALID_BLOCK, now)] (node_bans m)) as Hstep.
  { intros m b. unfold busy. cbn [handle_message accept_peer_block].
    assert (is_bannable_block_error "DB at /data/chain.db is locked by another thread" = true) as -> by (vm_compute; reflexivity).
    unfold penalise. cbn [record_all foldl fst snd]. by destruct (record_violation _ _ _ _). }
  cbn [foldl]. rewrite !Hstep.
  pose proof (record_all_says now now (replicate 5 (ip, SCORE_INVALID_BLOCK, now)) 0 ip (node_bans n)) as He.
  assert (points_of ip (replicate 5 (ip, SCORE_INVALID_BLOCK, now)) = 100) as Hp.
  { unfold points_of. cbn [replicate fmap list_fmap fst snd]. rewrite decide_True by done. reflexivity. }
  rewrite Hip, Hp in He. assert (Forall (λ v : string * Z * Z, 0 <= v.1.2 /\ now <= v.2 <= now) (replicate 5 (ip, SCORE_INVALID_BLOCK, now))) as Hl.
  { apply Forall_replicate. cbn. unfold SCORE_INVALID_BLOCK. lia. }
  specialize (He Hl ltac:(lia) Hnow ltac:(unfold BAN_DURATION_SECS; lia) Hfit eq_refl).
  change (record_all _ (record_all _ (record_all _ (record_all _ (record_all _ (node_bans n))))))
    with (record_all (replicate 5 (ip, SCORE_INVALID_BLOCK, now)) (node_bans n)).
  unfold is_banned, ban_active. destruct (record_all _ _ !! ip) as [e|]; cbn [entry_says] in He.
  - destruct He as [_ He]. destruct (banned_until e); unfold BAN_THRESHOLD, BAN_DURATION_SECS in *; [apply Z.ltb_lt|]; lia.
  - done.
Qed.

(** * The RPC server on a concrete connection

    An administrator lifts a ban on the node of [History], in two reads. *)

From S2P Require Import NodeHttp NodeServe.

#[local] Existing Instance toy_crypto.
#[local] Existing Instance trie_order.

Module Admin.
Definition newline : string := string_of_bytes [13; 10].
Definition request : string :=
  "GET /unban/1.2.3.4 HTTP/1.1" +:+ newline +:+ "Host: x" +:+ newline +:+ "X-Admin-Token:  s3cret " +:+ newline +:+ newline.
Definition reads : list (result string bytes) :=
  [Ok (take 20 (bytes_of_string request)); Ok (drop 20 (bytes_of_string request))].
Definition node : Node := with_bans {[ "1.2.3.4"%string := {| score := 100; banned_until := Some 9000 |} ]} MinerWitness.n0.
Definition env : RpcEnv := {| db_opens := None; clock := 1200; admin_token := Some "s3cret"%string |}.
Definition bodies : Bodies := {|
  parse_block text := if bool_decide (text = "{}"%string) then Some History.side1 else None;
  parse_transaction _ := None; parse_asset_request _ := None; check_transfer _ _ _ := Err "no indexer"%string |}.

(** The ban is gone, and without the token it stays. *)
Example unbanned : node_bans (serve_connection History.params bodies env reads node).1 = ∅.
Proof. vm_compute. reflexivity. Qed.
Example stays :
  node_bans (serve_connection History.params bodies {| db_opens := None; clock := 1200; admin_token := None |} reads node).1
  = node_bans node.
Proof. vm_compute. reflexivity. Qed.

Lemma bodies_nonzero text b : parse_block bodies text = Some b -> block_hash b <> ZERO.
Proof. cbn [parse_block bodies]. case_bool_decide; [|done]. intros [= <-]. exact (proj1 (proj2 (proj2 History.nonzero))). Qed.
End Admin.

Lemma rpc_connection_safe_witness :
  let n' := (serve_connection History.params Admin.bodies Admin.env Admin.reads Admin.node).1 in
  node_step History.params Admin.node n'
  /\ (node_bans n' = node_bans Admin.node
      \/ exists request t ip, read_http_request Admin.reads = Ok request /\ admin_token Admin.env = Some t /\ t <> EmptyString
         /\ header_value request "x-admin-token" = Some t /\ node_bans n' = delete ip (node_bans Admin.node)).
Proof.
  exact (rpc_connection_safe History.params Admin.bodies Admin.env Admin.reads Admin.node MinerWitness.n0_ok MinerWitness.room
           Admin.bodies_nonzero).
Defined.

(** * Connections between nodes, on concrete inputs

    A peer's connection to the node of [History], and a block that two copies of this node
    take up one after the other. *)

From S2P Require Import Relay.

Lemma synced_from `{Crypto} s b : tip_cache s = Some b -> meta_utxo_tip (db s) = Some (block_hash b) -> synced s.
Proof. intros Hb Hm t. rewrite Hb. by intros [= <-]. Qed.

(** A chain read from the database. *)
Lemma on_chain_read `{Crypto} `{!IterOrder OutPoint UtxoEntry} params n b l :
  node_ok params n -> tip_cache (open_db (node_db n)) = Some b -> meta_utxo_tip (node_db n) = Some (block_hash b) ->
  reverse (canonical_blocks (node_db n)) = l -> on_chain params l n.
Proof.
  intros Hok Hb Hm <-. split; [done|]. rewrite <- (open_db_db (node_db n)) in Hm at 1.
  split; [by eapply synced_from|]. destruct (state_ok_tip _ _ _ Hok Hb) as (l & Htip & _). exists b.
  pose proof (state_ok_canonical _ _ _ _ Hok Htip) as Hc. rewrite open_db_db in Hc. by rewrite Hc, reverse_involutive.
Qed.

#[local] Existing Instance toy_crypto.
#[local] Existing Instance trie_order.

(** A connection that sends a block, a line that does not parse, a request and an answer nobody asked for. *)
Module Session.
Definition lines : list Line := [
  {| line_opens := None; line_time := 1100; line_msg := Some (NewBlock History.side1) |};
  {| line_opens := None; line_time := 1101; line_msg := None |};
  {| line_opens := Some "busy"%string; line_time := 1102; line_msg := Some (GetBlocks 0) |};
  {| line_opens := None; line_time := 1103; line_msg := Some (Reject "no") |} ].
Definition hello : option P2pHello := Some (local_hello "b" (open_db (node_db MinerWitness.n0)) History.params).
Lemma session_lines_ok : Forall (λ l, line_time l <= 1103 /\ plausible (line_msg l)) lines.
Proof.
  apply Forall_cons; split; [split; [by apply Z.leb_le|exact (proj1 (proj2 (proj2 History.nonzero)))]|].
  repeat (apply Forall_cons; split; [split; [by apply Z.leb_le|exact I]|]). apply Forall_nil_2.
Qed.
Lemma session_room : Z.of_nat (size (cf_blocks (node_db MinerWitness.n0)) + length lines) < U64_MAX.
Proof. vm_compute. reflexivity. Qed.
Example session_replies : (serve_p2p 0 None History.params "a" "1.2.3.4" 1100 hello lines MinerWitness.n0).2
  = [Ack 1 (block_hash History.side1); Blocks []].
Proof. vm_compute. reflexivity. Qed.
End Session.

Lemma p2p_session_safe_witness :
  harmless History.params "1.2.3.4" 1103 MinerWitness.n0
    (serve_p2p 0 None History.params "a" "1.2.3.4" 1100 Session.hello Session.lines MinerWitness.n0).1.1.
Proof.
  exact (p2p_session_safe 0 None History.params "a" "1.2.3.4" 1100 1103 Session.hello Session.lines MinerWitness.n0
    MinerWitness.n0_ok ltac:(lia) Session.session_room Session.session_lines_ok).
Defined.

(** The next block of the chain. *)
Module Pushed.
Definition n0 : Node := MinerWitness.n0.
Definition b2 : Block := candidate History.params (Some History.b1) 1150 "a" [] 0.
Definition n1 : Node := (rpc_submitblock None History.params b2 1150 n0).1.
Lemma pushed_snd_eq : (rpc_submitblock None History.params b2 1150 n0).2
  = Ok {| accepted := true; sub_height := height (header b2); sub_hash := block_hash b2; canonical := Some true |}.
Proof. vm_compute. reflexivity. Qed.
Lemma pushed_run_eq : rpc_submitblock None History.params b2 1150 n0
  = (n1, Ok {| accepted := true; sub_height := height (header b2); sub_hash := block_hash b2; canonical := Some true |}).
Proof. exact (pair_with _ _ pushed_snd_eq). Qed.
Lemma pushed_tip : tip_cache (open_db (node_db n0)) = Some History.b1.
Proof. vm_compute. reflexivity. Qed.
Lemma pushed_marker : meta_utxo_tip (node_db n0) = Some (block_hash History.b1).
Proof. vm_compute. reflexivity. Qed.
Lemma pushed_chain : reverse (canonical_blocks (node_db n0)) = [History.b1; History.genesis0].
Proof. vm_compute. reflexivity. Qed.
Lemma pushed_on : on_chain History.params [History.b1; History.genesis0] n0.
Proof. exact (on_chain_read _ _ _ _ MinerWitness.n0_ok pushed_tip pushed_marker pushed_chain). Qed.
Lemma pushed_nonzero : block_hash b2 <> ZERO.
Proof. by_compute. Qed.
Lemma follows_b1 : previous_hash (header b2) = block_hash History.b1.
Proof. vm_compute. reflexivity. Qed.
Lemma pushed_fresh : cf_blocks (node_db n0) !! block_hash b2 = None.
Proof. vm_compute. reflexivity. Qed.
Lemma in_time : timestamp_seconds (header b2) <= add64 1151 (max_future_block_time_seconds History.params).
Proof. by_compute. Qed.
Lemma pushed_activation : 0 <= difficulty_retarget_activation_height History.params <= U64_MAX.
Proof. by_compute. Qed.
End Pushed.

Lemma relayed_block_adopted_witness :
  let peer := node_as_peer None History.params "b" "1.2.3.4" 1151 Pushed.n0 in
  let nB' := (handle_message None History.params "1.2.3.4" 1151 (Some (NewBlock Pushed.b2)) Pushed.n0).1.1 in
  push_block_to_peer History.params "a" (open_db (node_db Pushed.n1)) peer Pushed.b2 = Ok (height (header Pushed.b2))
  /\ on_chain History.params [Pushed.b2; History.b1; History.genesis0] Pushed.n1
  /\ on_chain History.params [Pushed.b2; History.b1; History.genesis0] nB'
  /\ cf_utxo (node_db nB') = cf_utxo (node_db Pushed.n1) /\ node_bans nB' = node_bans Pushed.n0.
Proof.
  exact (relayed_block_adopted History.params "a" "b" "1.2.3.4" 1150 1151 Pushed.n0 Pushed.n0 Pushed.n1 History.b1
    [History.genesis0] Pushed.b2 Pushed.pushed_on Pushed.pushed_on Pushed.pushed_activation Pushed.pushed_nonzero Pushed.follows_b1
    MinerWitness.room MinerWitness.room Pushed.pushed_fresh Pushed.in_time Pushed.pushed_run_eq).
Defined.
