(* ===== verification/Sync.v ===== *)
(** * Block synchronisation ([sync_blocks], [sync_from_peer] in [tensorium-node/src/main.rs])

    The loop that fetches batches of blocks from a peer, walks back on an unknown
    parent, and stops at the peer's height. The peer is the function [fetch] of
    the number of the request and the height asked for; the clock stands still
    during a synchronisation; [usize] counters do not overflow. The loop need not
    end, so it runs with fuel and says [None] when that is not enough. *)

From S2P Require Import Prelude Crypto Hash Chain Block Validation Utxo Mempool State Node.

Local Open Scope Z_scope.

Definition MAX_FORK_SEARCH_DEPTH : Z := 1000.

Inductive SyncError :=
| SyncFailedAt (height : Z) (e : StateError)
| NoCommonAncestor (height : Z)
| FetchFailed (e : string).

(** How the inner loop leaves a batch. *)
Inductive BatchEnd :=
| Applied (count : Z)
| ForkedAt (height : Z)
| BatchFailed (height : Z) (e : StateError).

(** The variables of the loop. *)
Record SyncVars := { synced_count : Z; fetch_from : Z; backtrack : Z }.

Inductive Round := Continue (v : SyncVars) | Finished (r : result SyncError Z).

Section Sync.
Context `{Crypto} `{!IterOrder OutPoint UtxoEntry} `{!IterOrder string MempoolEntry}.

(** [for block in blocks]: known blocks count as applied. *)
Fixpoint apply_batch (params : ConsensusParams) (now from : Z) (blocks : list Block) (applied : Z) (s : ChainState) :
    ChainState * BatchEnd :=
  match blocks with
  | [] => (s, Applied applied)
  | b :: blocks =>
      match submit_block params b now s with
      | (s, Ok _) | (s, Err S_AlreadyKnown) => apply_batch params now from blocks (applied + 1) s
      | (s, Err UnknownParent) =>
          (s, if 1 <? from then ForkedAt (height (header b)) else BatchFailed (height (header b)) UnknownParent)
      | (s, Err e) => (s, BatchFailed (height (header b)) e)
      end
  end.

(** One iteration of the loop, on the answer of the peer. *)
Definition sync_round (params : ConsensusParams) (now remote_height : Z) (answer : result string (list Block))
    (v : SyncVars) (s : ChainState) : ChainState * Round :=
  match answer with
  | Err e => (s, Finished (Err (FetchFailed e)))
  | Ok [] => (s, Finished (Ok (synced_count v)))
  | Ok blocks =>
      match apply_batch params now (fetch_from v) blocks 0 s with
      | (s, BatchFailed h e) => (s, Finished (Err (SyncFailedAt h e)))
      | (s, ForkedAt h) =>
          if MAX_FORK_SEARCH_DEPTH <? backtrack v + 1 then (s, Finished (Err (NoCommonAncestor h)))
          else (s, Continue {| synced_count := synced_count v; fetch_from := fetch_from v - 1;
                               backtrack := backtrack v + 1 |})
      | (s, Applied n) =>
          let total := synced_count v + n in
          let current := height_or_0 s in
          if remote_height <=? current then (s, Finished (Ok total))
          else (s, Continue {| synced_count := total; fetch_from := add64 current 1; backtrack := 0 |})
      end
  end.

(** [request] counts the calls of [fetch]. *)
Fixpoint sync_loop (fuel : nat) (params : ConsensusParams) (now remote_height : Z)
    (fetch : nat -> Z -> result string (list Block)) (request : nat) (v : SyncVars) (s : ChainState) :
    ChainState * option (result SyncError Z) :=
  match fuel with
  | O => (s, None)
  | S fuel =>
      match sync_round params now remote_height (fetch request (fetch_from v)) v s with
      | (s, Finished r) => (s, Some r)
      | (s, Continue v) => sync_loop fuel params now remote_height fetch (S request) v s
      end
  end.

Definition sync_start (s : ChainState) : SyncVars :=
  {| synced_count := 0; fetch_from := add64 (height_or_0 s) 1; backtrack := 0 |}.

Definition sync_blocks (fuel : nat) (params : ConsensusParams) (now remote_height : Z)
    (fetch : nat -> Z -> result string (list Block)) (s : ChainState) : ChainState * option (result SyncError Z) :=
  sync_loop fuel params now remote_height fetch 0 (sync_start s) s.

(** [sync_from_peer] once the peer's hello is read: the database stays open during
    the loop. [None] is a loop that did not end. *)
Inductive SyncResult := UpToDate | SyncedBlocks (count : Z) | Refused (e : HelloError) | Unopened (e : string) | Stopped (e : SyncError).

Definition sync_from_peer (opens : option string) (fuel : nat) (params : ConsensusParams) (now : Z) (hello : P2pHello)
    (fetch : nat -> Z -> result string (list Block)) (n : Node) : Node * option SyncResult :=
  match opens with
  | Some e => (n, Some (Unopened e))
  | None =>
      let s := open_db (node_db n) in
      match validate_hello hello params with
      | Err e => (n, Some (Refused e))
      | Ok _ =>
          if hello_height hello <=? height_or_0 s then (n, Some UpToDate)
          else
            match sync_blocks fuel params now (hello_height hello) fetch s with
            | (s, None) => (with_chain s (node_mempool n) n, None)
            | (s, Some (Err e)) => (with_chain s (node_mempool n) n, Some (Stopped e))
            | (s, Some (Ok count)) =>
                let '(s, (pool, _)) := requeue_reorged_transactions s params (node_mempool n) in
                (with_chain s pool n, Some (SyncedBlocks count))
            end
      end
  end.
End Sync.
