(* ===== verification/SyncFacts.v ===== *)
(** * Synchronising with an honest peer

    When the loop ends with the peer's chain ([can_catch_up]), and when it never ends. *)

From S2P Require Import Prelude Crypto Hash Chain Validation ScriptVM Block Utxo Mempool.
From S2P Require Import Storage State StateDb StateChain StateInv StateProps StateSubmit Node Sync.

Local Open Scope Z_scope.

Section Sync.
Context `{Crypto} `{!IterOrder OutPoint UtxoEntry} `{!IterOrder string MempoolEntry}.

(** The chain [P] (genesis first) down from its block at height [i], tip first. *)
Definition upto (P : list Block) (i : nat) : list Block := reverse (take (S i) P).

Lemma upto_0 P b : P !! 0%nat = Some b -> upto P 0 = [b].
Proof. destruct P; [done|]. by intros [= ->]. Qed.

Lemma upto_S P i b : P !! S i = Some b -> upto P (S i) = b :: upto P i.
Proof. intros Hb. unfold upto. by rewrite (take_S_r P (S i) b), reverse_snoc. Qed.

Lemma upto_head P i b : P !! i = Some b -> exists l, upto P i = b :: l.
Proof. destruct i as [|i]; intros Hb; [rewrite (upto_0 _ _ Hb)|rewrite (upto_S _ _ _ Hb)]; eauto. Qed.

Lemma upto_work_S P i b : P !! S i = Some b -> total_work (upto P i) < total_work (upto P (S i)).
Proof.
  intros Hb. rewrite (upto_S _ _ _ Hb). change (total_work (b :: upto P i)) with (block_work b + total_work (upto P i)).
  pose proof (block_work_pos b). lia.
Qed.

Lemma upto_work_mono P i j : (i <= j < length P)%nat -> total_work (upto P i) <= total_work (upto P j).
Proof.
  intros [Hij Hj]. induction Hij as [|j Hij IH]; [lia|]. destruct (lookup_lt_is_Some_2 P (S j) Hj) as [b Hb].
  pose proof (upto_work_S P j b Hb). lia.
Qed.

Lemma upto_work_all P i : (i < length P)%nat -> total_work (upto P i) <= total_work (reverse P).
Proof.
  intros Hi. transitivity (total_work (upto P (length P - 1))); [apply upto_work_mono; lia|].
  unfold upto. by rewrite take_ge by lia.
Qed.

(** What a stored chain looks like from its genesis block. *)
Lemma ancestry_upto bs P K :
  linked_chain P -> (forall b, b ∈ P -> block_hash b <> ZERO) ->
  (forall i b, P !! i = Some b -> (i <= K)%nat -> bs !! block_hash b = Some b) ->
  forall i b, P !! i = Some b -> (i <= K)%nat -> ancestry bs (block_hash b) (upto P i).
Proof.
  intros Hl Hnz Hst. induction i as [|i IH]; intros b Hb Hi; destruct (Hl _ _ Hb) as [Hh Hp].
  - rewrite (upto_0 _ _ Hb). apply ancestry_genesis; [by eapply Hst|done|done].
  - destruct Hp as (c & Hc & Hp). rewrite (upto_S _ _ _ Hb). destruct (upto_head _ _ _ Hc) as [l E].
    specialize (IH c Hc ltac:(lia)). rewrite E in IH |- *. destruct (Hl _ _ Hc) as [Hhc _].
    apply ancestry_step; [by eapply Hst| | |lia]; rewrite Hp; [|done]. apply Hnz. by eapply list_elem_of_lookup_2.
Qed.

(** The peer: a chain that our clock and the peer's database validate. *)
Record honest (params : ConsensusParams) (now : Z) (d : Db) (P : list Block) : Prop := {
  honest_linked : linked_chain P;
  honest_nonzero : forall b, b ∈ P -> block_hash b <> ZERO;
  honest_hashes : NoDup (block_hash <$> P);
  honest_keyed : keyed (cf_blocks d);
  honest_stored : forall b, b ∈ P -> cf_blocks d !! block_hash b = Some b;
  honest_valid : forall i c b, P !! i = Some c -> P !! S i = Some b ->
    validate_block params (Some c) b now (expected_leading_zero_bits_for d params (Some c))
      (epoch_seed_for_height d (height (header b))) = Ok ();
  honest_lookup : forall n, 0 <= n -> get_block_by_height d n = P !! Z.to_nat n;
  honest_replay : forall i, (i < length P)%nat -> exists set, replay_utxo params (take (S i) P) = Ok set;
  honest_light : total_work (reverse P) < U128_MAX;
  honest_activation : 0 <= difficulty_retarget_activation_height params <= U64_MAX;
  honest_short : Z.of_nat (length P) < U64_MAX;
}.

(** How far we are: [P] is stored up to [K], and the tip is still [t], the tip of
    [s0], or already the block of [P] at [K]. *)
Record follows (params : ConsensusParams) (P : list Block) (s0 : ChainState) (t : Block) (lt : list Block) (K : nat)
    (s : ChainState) : Prop := {
  follows_ok : state_ok params s;
  follows_synced : synced s;
  follows_sub : cf_blocks (db s0) ⊆ cf_blocks (db s);
  follows_stored : forall i b, P !! i = Some b ->
    cf_blocks (db s) !! block_hash b = if decide (i <= K)%nat then Some b else None;
  follows_size : Z.of_nat (size (cf_blocks (db s))) + Z.of_nat (length P - S K) < U64_MAX;
  follows_within : (K < length P)%nat;
  follows_tip :
    (tip_cache s = Some t /\ total_work (upto P K) <= total_work lt)
    \/ (tip_cache s = P !! K /\ total_work lt < total_work (upto P K));
}.

Section Follow.
Context (params : ConsensusParams) (now : Z) (d : Db) (P : list Block) (Hpeer : honest params now d P).
Context (s0 : ChainState) (t : Block) (lt : list Block) (Ht0 : tip_ok params s0 t lt) (Hok0 : state_ok params s0).
(** While the tip is still ours, both sides agree on the seed of the next block. *)
Context (Hseed : forall K b, P !! S K = Some b -> total_work (upto P K) <= total_work lt ->
  epoch_seed_for_height (db s0) (height (header b)) = epoch_seed_for_height d (height (header b))).
Abbreviation follows := (follows params P s0 t lt).

Lemma follows_ancestry K s i b :
  follows K s -> P !! i = Some b -> (i <= K)%nat -> ancestry (cf_blocks (db s)) (block_hash b) (upto P i).
Proof.
  intros Hf. apply (ancestry_upto _ P K); [apply Hpeer..|]. intros j c Hj Hle.
  by rewrite (follows_stored _ _ _ _ _ _ _ Hf _ _ Hj), decide_True.
Qed.

Lemma peer_ancestry i b : P !! i = Some b -> ancestry (cf_blocks d) (block_hash b) (upto P i).
Proof.
  intros Hb. apply (ancestry_upto _ P i); [apply Hpeer..| |done|done]. intros j c Hj _. apply (honest_stored _ _ _ _ Hpeer).
  by eapply list_elem_of_lookup_2.
Qed.

Lemma follows_tip_old K s : follows K s -> tip_cache s = Some t -> tip_ok params s t lt.
Proof.
  intros Hf Ht. destruct (state_ok_tip _ _ _ (follows_ok _ _ _ _ _ _ _ Hf) Ht) as (l & Htip & Ha).
  assert (t :: l = lt) as <-; [|done]. eapply ancestry_det; [exact Ha|].
  eapply ancestry_weaken; [apply Hf|apply Ht0].
Qed.

Lemma follows_tip_new K s b : follows K s -> P !! K = Some b -> tip_cache s = Some b -> tip_ok params s b (upto P K).
Proof.
  intros Hf Hb Ht. destruct (state_ok_tip _ _ _ (follows_ok _ _ _ _ _ _ _ Hf) Ht) as (l & Htip & Ha).
  assert (b :: l = upto P K) as <-; [|done]. eapply ancestry_det; [exact Ha|]. by eapply follows_ancestry.
Qed.

(** The seed that our database and the peer's give for the next block. *)
Lemma follows_seed K s b :
  follows K s -> P !! S K = Some b ->
  epoch_seed_for_height (db s) (height (header b)) = epoch_seed_for_height d (height (header b)).
Proof.
  intros Hf Hb. destruct (follows_tip _ _ _ _ _ _ _ Hf) as [[Ht Hw]|[Ht Hw]].
  - rewrite <- (Hseed K b Hb Hw). unfold epoch_seed_for_height. case_match; [done|].
    pose proof (follows_tip_old _ _ Hf Ht) as Htip.
    rewrite (canonical_lookup _ _ _ _ _ (follows_ok _ _ _ _ _ _ _ Hf) Htip) by by apply Z.mod_pos_bound.
    by rewrite (canonical_lookup _ _ _ _ _ Hok0 Ht0) by by apply Z.mod_pos_bound.
  - destruct (lookup_lt_is_Some_2 P K (follows_within _ _ _ _ _ _ _ Hf)) as [c Hc]. rewrite Hc in Ht.
    pose proof (follows_tip_new _ _ _ Hf Hc Ht) as Htip.
    destruct (honest_linked _ _ _ _ Hpeer _ _ Hb) as [Hh _]. pose proof (lookup_lt_Some _ _ _ Hb) as Hlen.
    pose proof (honest_short _ _ _ _ Hpeer). unfold epoch_seed_for_height.
    destruct (Z.eqb_spec (height (header b) / TensorHash.EPOCH_LENGTH) 0) as [|Hne]; [done|].
    set (e := height (header b) / TensorHash.EPOCH_LENGTH) in *.
    assert (0 < e /\ e * 8192 <= height (header b)) as [He Hle].
    { unfold e in *. change TensorHash.EPOCH_LENGTH with 8192 in *. pose proof (Z.div_pos (height (header b)) 8192).
      pose proof (Z.mul_div_le (height (header b)) 8192). lia. }
    change TensorHash.EPOCH_LENGTH with 8192. unfold mul64. rewrite Z.mod_small by (unfold U64_MAX, U64_MOD in *; lia).
    rewrite sub64_small by (unfold U64_MAX, U64_MOD in *; lia).
    rewrite (canonical_lookup _ _ _ _ _ (follows_ok _ _ _ _ _ _ _ Hf) Htip) by lia.
    rewrite (honest_lookup _ _ _ _ Hpeer) by lia. unfold upto. rewrite reverse_involutive, lookup_take_lt by lia. done.
Qed.

(** The next block of the peer is acceptable. *)
Lemma follows_acceptable K s c b :
  follows K s -> P !! K = Some c -> P !! S K = Some b -> acceptable params b now s c.
Proof.
  intros Hf Hc Hb. pose proof (follows_ancestry K s K c Hf Hc ltac:(lia)) as Ha.
  pose proof (honest_valid _ _ _ _ Hpeer _ _ _ Hc Hb) as Hv. pose proof (lookup_lt_Some _ _ _ Hb) as Hlen.
  destruct (honest_linked _ _ _ _ Hpeer _ _ Hb) as (_ & c' & Hc' & Hp). assert (c' = c) as -> by congruence.
  split.
  - by rewrite (follows_stored _ _ _ _ _ _ _ Hf _ _ Hb), decide_False by lia.
  - apply (honest_nonzero _ _ _ _ Hpeer). by eapply list_elem_of_lookup_2.
  - pose proof (follows_size _ _ _ _ _ _ _ Hf). lia.
  - split.
    + unfold get_block_by_hash. rewrite Hp. by rewrite (follows_stored _ _ _ _ _ _ _ Hf _ _ Hc), decide_True.
    + destruct (upto_head _ _ _ Hc) as [l E]. pose proof (peer_ancestry K c Hc) as Hd. rewrite E in Ha, Hd.
      rewrite (follows_seed K s b Hf Hb), (expected_bits_agree params (db s) d c l); try done; [apply Hf|apply Hpeer|apply Hpeer|].
      rewrite <- E. unfold upto. rewrite length_reverse, length_take. pose proof (honest_short _ _ _ _ Hpeer). lia.
Qed.

(** Storing it. *)
Lemma follows_store K s s' c b :
  follows K s -> P !! K = Some c -> P !! S K = Some b ->
  state_ok params s' -> synced s' -> cf_blocks (db s') = <[block_hash b := b]> (cf_blocks (db s)) ->
  (tip_cache s' = Some t /\ total_work (upto P (S K)) <= total_work lt)
  \/ (tip_cache s' = P !! S K /\ total_work lt < total_work (upto P (S K))) ->
  follows (S K) s'.
Proof.
  intros Hf Hc Hb Hok Hsy Hbl Htip. pose proof (lookup_lt_Some _ _ _ Hb) as Hlen.
  pose proof (follows_stored _ _ _ _ _ _ _ Hf _ _ Hb) as Hnew. rewrite decide_False in Hnew by lia.
  split; try done.
  - rewrite Hbl. etransitivity; [apply Hf|]. by apply insert_subseteq.
  - intros i b' Hb'. rewrite Hbl. destruct (decide (i = S K)) as [->|Hne].
    + assert (b' = b) as -> by congruence. by rewrite lookup_insert_eq, decide_True.
    + rewrite lookup_insert_ne.
      * rewrite (follows_stored _ _ _ _ _ _ _ Hf _ _ Hb'). by destruct (decide (i <= K)%nat), (decide (i <= S K)%nat); try lia.
      * intros E. apply Hne. symmetry. eapply (NoDup_lookup (block_hash <$> P)); [apply Hpeer| |].
        -- rewrite list_lookup_fmap, Hb. cbn. by rewrite E.
        -- by rewrite list_lookup_fmap, Hb'.
  - pose proof (follows_size _ _ _ _ _ _ _ Hf). rewrite Hbl, map_size_insert_None by done. lia.
Qed.

(** A next block with more work becomes the tip, by extension or reorganisation. *)
Lemma follows_heavier K s b u lu :
  follows K s -> P !! S K = Some b -> tip_ok params s u lu -> total_work lu < total_work (upto P (S K)) ->
  exists s', submit_block params b now s = (s', Ok b) /\ state_ok params s' /\ synced s' /\ tip_cache s' = Some b
    /\ cf_blocks (db s') = <[block_hash b := b]> (cf_blocks (db s)).
Proof.
  intros Hf Hb Hu Hw. destruct (lookup_lt_is_Some_2 P K (follows_within _ _ _ _ _ _ _ Hf)) as [c Hc].
  pose proof (follows_acceptable K s c b Hf Hc Hb) as Hacc. pose proof (follows_ok _ _ _ _ _ _ _ Hf) as Hok.
  pose proof (follows_synced _ _ _ _ _ _ _ Hf) as Hsy.
  destruct (acceptable_ancestry _ _ _ _ _ (proj1 Hok) Hacc) as (Hbs & Hprev & lp & Hlp & Hlb).
  assert (lp = upto P K) as -> by (eapply ancestry_det; [exact Hlp|by eapply follows_ancestry]).
  rewrite <- (upto_S _ _ _ Hb) in Hlb. pose proof (lookup_lt_Some _ _ _ Hb) as Hlen.
  destruct (honest_replay _ _ _ _ Hpeer (S K) Hlen) as [set Hset].
  assert (heavier b (stored b s)) as Hh.
  { pose proof (upto_work_all P (S K) Hlen). pose proof (honest_light _ _ _ _ Hpeer).
    apply (heavier_total params s b u lu (upto P (S K))); [done|by apply stored_tip_ok; [apply Hacc|]|done|lia]. }
  destruct (decide (previous_hash (header b) = block_hash u)) as [Hpu|Hpu].
  - destruct (submit_extend_spec params b now s c u lu Hok Hu Hsy Hacc Hh Hpu) as (s' & Hsub & Htip & Hsy' & Hok' & Hbl & _).
    + assert (lu = upto P K) as -> by (eapply ancestry_det; [apply Hu|]; rewrite <- Hpu, Hprev; exact Hlp).
      pose proof (tip_utxo _ _ _ _ Hu (Hsy _ (tip_cached _ _ _ _ Hu))) as Hrep. unfold upto in Hrep.
      rewrite reverse_involutive in Hrep. rewrite (take_S_r P (S K) b Hb) in Hset.
      unfold replay_utxo in *. rewrite replay_from_app, Hrep in Hset. cbn [mbind result_bind replay_from] in Hset.
      destruct (apply_block params b (cf_utxo (db s))) as [set' [[]|]]; [eauto|done].
    + exists s'. split_and!; try done. apply Htip.
  - destruct (submit_reorg_spec params b now s c u lu Hok Hu Hsy Hacc Hh Hpu) as (s' & lb & Hsub & Htip & Hsy' & Hok' & Hbl).
    + intros lb Ha. assert (lb = upto P (S K)) as -> by (by eapply ancestry_det).
      exists set. unfold upto. by rewrite reverse_involutive.
    + exists s'. split_and!; try done. apply Htip.
Qed.

(** One new block of the peer is taken up. *)
Lemma follows_next K s b :
  follows K s -> P !! S K = Some b -> exists s', submit_block params b now s = (s', Ok b) /\ follows (S K) s'.
Proof.
  intros Hf Hb. destruct (lookup_lt_is_Some_2 P K (follows_within _ _ _ _ _ _ _ Hf)) as [c Hc].
  pose proof (upto_work_all P (S K) (lookup_lt_Some _ _ _ Hb)). pose proof (honest_light _ _ _ _ Hpeer).
  destruct (follows_tip _ _ _ _ _ _ _ Hf) as [[Ht Hw]|[Ht Hw]].
  - pose proof (follows_tip_old _ _ Hf Ht) as Htip.
    destruct (Z.lt_ge_cases (total_work lt) (total_work (upto P (S K)))) as [Hlt|Hge].
    + destruct (follows_heavier K s b t lt Hf Hb Htip Hlt) as (s' & Hsub & Hok' & Hsy' & Ht' & Hbl). exists s'.
      split; [done|]. eapply follows_store; try done. right. by rewrite Hb.
    + pose proof (follows_acceptable K s c b Hf Hc Hb) as Hacc. pose proof (follows_ok _ _ _ _ _ _ _ Hf) as Hok.
      destruct (acceptable_ancestry _ _ _ _ _ (proj1 Hok) Hacc) as (Hbs & Hprev & lp & Hlp & Hlb).
      assert (lp = upto P K) as -> by (eapply ancestry_det; [exact Hlp|by eapply follows_ancestry]).
      rewrite <- (upto_S _ _ _ Hb) in Hlb. assert (tip_ok params (stored b s) t lt) as Hst by by apply stored_tip_ok; [apply Hacc|].
      exists (stored b s). split.
      * eapply submit_side_spec; [apply Hf|done|]. rewrite (heavier_total params s b t lt (upto P (S K))) by done. lia.
      * eapply follows_store; try done; [|apply Hf|by left]. split; [done|]. right. by exists t, lt.
  - rewrite Hc in Ht. pose proof (follows_tip_new _ _ _ Hf Hc Ht) as Htip. pose proof (upto_work_S _ _ _ Hb).
    destruct (follows_heavier K s b c (upto P K) Hf Hb Htip ltac:(lia)) as (s' & Hsub & Hok' & Hsy' & Ht' & Hbl).
    exists s'. split; [done|]. eapply follows_store; try done. right. rewrite Hb. split; [done|lia].
Qed.

(** A block whose parent is missing. *)
Lemma follows_orphan K s a b :
  follows K s -> P !! a = Some b -> (S K < a)%nat -> submit_block params b now s = (s, Err UnknownParent).
Proof.
  intros Hf Hb Ha. destruct a as [|a]; [lia|]. destruct (honest_linked _ _ _ _ Hpeer _ _ Hb) as (_ & c & Hc & Hp).
  apply submit_orphan_spec; [apply Hf| |rewrite Hp].
  - by rewrite (follows_stored _ _ _ _ _ _ _ Hf _ _ Hb), decide_False by lia.
  - by rewrite (follows_stored _ _ _ _ _ _ _ Hf _ _ Hc), decide_False by lia.
Qed.

(** A batch that starts within what we have. *)
Lemma follows_batch m a K s from n :
  follows K s -> (a <= S K)%nat ->
  exists s' K' n', apply_batch params now from (take m (drop a P)) n s = (s', Applied n') /\ follows K' s' /\ (K <= K')%nat
    /\ forall i, (i < length P)%nat -> (i < a + m)%nat -> (i <= K')%nat.
Proof.
  revert a K s n; induction m as [|m IH]; intros a K s n Hf Ha.
  - exists s, K, n. split_and!; [done|done|done|lia].
  - destruct (P !! a) as [b|] eqn:Hb.
    + rewrite (drop_S _ _ _ Hb). cbn [take apply_batch]. destruct (decide (a <= K)%nat) as [Hle|Hgt].
      * rewrite submit_known_spec by (rewrite (follows_stored _ _ _ _ _ _ _ Hf _ _ Hb), decide_True by done; eauto).
        destruct (IH (S a) K s (n + 1) Hf ltac:(lia)) as (s' & K' & n' & Hrun & Hf' & Hk & Hall).
        exists s', K', n'. split_and!; [done|done|done|]. intros i Hi Hia. apply Hall; lia.
      * assert (a = S K) as -> by lia. destruct (follows_next K s b Hf Hb) as (s1 & -> & Hf1).
        destruct (IH (S (S K)) (S K) s1 (n + 1) Hf1 ltac:(lia)) as (s' & K' & n' & Hrun & Hf' & Hk & Hall).
        exists s', K', n'. split_and!; [done|done|lia|]. intros i Hi Hia. apply Hall; lia.
    + apply lookup_ge_None in Hb. rewrite drop_ge by lia. rewrite take_nil. exists s, K, n. split_and!; [done|done|done|].
      intros i Hi _. lia.
Qed.

(** ** The loop *)

Context (h0 n heavy : nat) (Hlen : length P = S n) (Hlt : length lt = S h0) (Hbehind : (h0 < n)%nat).
(** Within one batch above our tip the peer's chain has more work. *)
Context (Hheavy : (heavy <= n)%nat /\ (heavy <= h0 + 50)%nat /\ total_work lt < total_work (upto P heavy)).
Context (fetch : nat -> Z -> result string (list Block))
  (Hfetch : forall r a, fetch r (Z.of_nat a) = Ok (take SYNC_BATCH_SIZE (drop a P))).

Lemma follows_height K s :
  follows K s -> tip_cache s = Some t /\ height_or_0 s = Z.of_nat h0 /\ (K < heavy)%nat
  \/ tip_cache s = P !! K /\ height_or_0 s = Z.of_nat K.
Proof.
  intros Hf. unfold height_or_0. destruct (follows_tip _ _ _ _ _ _ _ Hf) as [[Ht Hw]|[Ht Hw]]; [left|right].
  - pose proof (follows_tip_old _ _ Hf Ht) as Htip. rewrite (tip_height_cached _ _ _ _ Htip).
    pose proof (tip_ancestry _ _ _ _ Htip) as Ha. destruct (ancestry_tip _ _ _ Ha) as (t' & l & El & Ht').
    pose proof (tip_head _ _ _ _ Htip) as Hhd. rewrite El in Hhd, Ha. injection Hhd as ->.
    split_and!; [done| |].
    + cbn. rewrite (ancestry_tip_height _ _ _ _ Ha). rewrite El in Hlt. simpl in Hlt. lia.
    + apply not_ge. intros Hge. pose proof (upto_work_mono P heavy K ltac:(pose proof (follows_within _ _ _ _ _ _ _ Hf); lia)). lia.
  - split; [done|]. destruct (lookup_lt_is_Some_2 P K (follows_within _ _ _ _ _ _ _ Hf)) as [c Hc]. rewrite Hc in Ht.
    rewrite (tip_height_cached _ _ _ _ (follows_tip_new _ _ _ Hf Hc Ht)). cbn. by apply (honest_linked _ _ _ _ Hpeer).
Qed.

(** One iteration of the loop: the walk back goes on, or the batch is applied. *)
Lemma follows_round K a v s r :
  follows K s -> (1 <= a <= n)%nat -> (S K <= a + 49)%nat -> fetch_from v = Z.of_nat a ->
  0 <= backtrack v -> backtrack v + Z.of_nat (a - S K) <= 1000 ->
  if decide (a <= S K)%nat then
    exists s' K' total, follows K' s' /\ (K <= K')%nat /\ (Nat.min (S K) n <= K')%nat
    /\ sync_round params now (Z.of_nat n) (fetch r (fetch_from v)) v s =
       (s', if Z.of_nat n <=? height_or_0 s' then Finished (Ok total)
            else Continue {| synced_count := total; fetch_from := add64 (height_or_0 s') 1; backtrack := 0 |})
  else sync_round params now (Z.of_nat n) (fetch r (fetch_from v)) v s =
       (s, Continue {| synced_count := synced_count v; fetch_from := fetch_from v - 1; backtrack := backtrack v + 1 |}).
Proof.
  intros Hf Ha Hreach Hfrom Hbt0 Hbt. rewrite Hfrom, Hfetch. unfold sync_round.
  destruct (lookup_lt_is_Some_2 P a) as [b Hb]; [lia|].
  destruct (take SYNC_BATCH_SIZE (drop a P)) as [|b' bs] eqn:Hbatch; [by rewrite (drop_S _ _ _ Hb) in Hbatch|].
  case_decide as Hka.
  - destruct (follows_batch SYNC_BATCH_SIZE a K s (fetch_from v) 0 Hf Hka) as (s' & K' & n' & Hrun & Hf' & Hk & Hall).
    rewrite <- Hbatch, Hrun. exists s', K', (synced_count v + n'). split_and!; [done|done| |by case_match].
    unfold SYNC_BATCH_SIZE in Hall. apply Hall; lia.
  - rewrite (drop_S _ _ _ Hb) in Hbatch. injection Hbatch as <- _. cbn [apply_batch].
    rewrite (follows_orphan K s a b Hf Hb) by lia. rewrite Hfrom, (proj2 (Z.ltb_lt 1 (Z.of_nat a))) by lia.
    unfold MAX_FORK_SEARCH_DEPTH. by rewrite (proj2 (Z.ltb_ge _ _)) by lia.
Qed.

Lemma follows_loop K a v s r :
  follows K s -> (h0 <= K + 1000)%nat -> (1 <= a <= n)%nat -> (S K <= a + 49)%nat -> fetch_from v = Z.of_nat a ->
  0 <= backtrack v -> backtrack v + Z.of_nat (a - S K) <= 1000 -> (K < n)%nat ->
  exists fuel s' total, sync_loop fuel params now (Z.of_nat n) fetch r v s = (s', Some (Ok total))
    /\ follows n s' /\ tip_cache s' = P !! n.
Proof.
  remember (n - K)%nat as dk eqn:Edk. revert K a v s r Edk. induction dk as [dk IHk] using lt_wf_ind.
  intros K a v s r Edk. remember (a - S K)%nat as da eqn:Eda. revert a v r Eda. induction da as [|da IHa];
    intros a v r Eda Hf Hfork Ha Hreach Hfrom Hbt0 Hbt HK; pose proof (follows_round K a v s r Hf Ha Hreach Hfrom Hbt0 ltac:(lia)) as Hround.
  - rewrite decide_True in Hround by lia. destruct Hround as (s' & K' & total & Hf' & Hk & Hprog & Hround).
    pose proof (follows_within _ _ _ _ _ _ _ Hf') as Hin. pose proof (honest_short _ _ _ _ Hpeer) as Hshort.
    destruct (follows_height K' s' Hf') as [(Ht & Hh & HK')|[Ht Hh]]; rewrite Hh in Hround.
    + rewrite (proj2 (Z.leb_gt _ _)) in Hround by lia. rewrite add64_small in Hround by (unfold U64_MAX, U64_MOD in *; lia).
      edestruct (IHk (n - K')%nat ltac:(lia) K' (S h0)) as (fuel & s2 & total2 & Hloop & Hend);
        [reflexivity|exact Hf'|lia|lia|lia| | | |lia|].
      4: { exists (S fuel), s2, total2. split; [|exact Hend]. cbn [sync_loop]. rewrite Hround. exact Hloop. }
      * cbn. lia.
      * cbn. lia.
      * cbn [backtrack]. lia.
    + destruct (Z.leb_spec (Z.of_nat n) (Z.of_nat K')) as [Hdone|Hmore].
      * assert (K' = n) as -> by lia. exists 1%nat, s', total. cbn [sync_loop]. rewrite Hround. by split_and!.
      * rewrite add64_small in Hround by (unfold U64_MAX, U64_MOD in *; lia).
        edestruct (IHk (n - K')%nat ltac:(lia) K' (S K')) as (fuel & s2 & total2 & Hloop & Hend);
          [reflexivity|exact Hf'|lia|lia|lia| | | |lia|].
        4: { exists (S fuel), s2, total2. split; [|exact Hend]. cbn [sync_loop]. rewrite Hround. exact Hloop. }
        -- cbn. lia.
        -- cbn. lia.
        -- cbn [backtrack]. lia.
  - rewrite decide_False in Hround by lia.
    edestruct (IHa (a - 1)%nat) as (fuel & s2 & total2 & Hloop & Hend); [|exact Hf|lia|lia|lia| | | |lia|].
    5: { exists (S fuel), s2, total2. split; [|exact Hend]. cbn [sync_loop]. rewrite Hround. exact Hloop. }
    + lia.
    + cbn [fetch_from]. lia.
    + cbn [backtrack]. lia.
    + cbn [backtrack]. lia.
Qed.
End Follow.

(** ** The peer's side, and where we start *)

Lemma peer_honest params now peer p l :
  state_ok params peer -> tip_ok params peer p l -> synced peer -> total_work l < U128_MAX ->
  0 <= difficulty_retarget_activation_height params <= U64_MAX -> Z.of_nat (length l) < U64_MAX ->
  (forall i c b, reverse l !! i = Some c -> reverse l !! S i = Some b ->
     validate_block params (Some c) b now (expected_leading_zero_bits_for (db peer) params (Some c))
       (epoch_seed_for_height (db peer) (height (header b))) = Ok ()) ->
  honest params now (db peer) (reverse l).
Proof.
  intros Hok Htip Hsy Hw Hact Hshort Hv. pose proof (tip_ancestry _ _ _ _ Htip) as Ha. destruct Hok as [[Hk Hr Hz] Hok].
  assert (forall b, b ∈ reverse l -> cf_blocks (db peer) !! block_hash b = Some b) as Hst.
  { intros b Hb. rewrite elem_of_reverse in Hb. by eapply ancestry_stored. }
  split; try done.
  - by eapply ancestry_linked.
  - intros b Hb%Hst E. rewrite E in Hb. congruence.
  - rewrite fmap_reverse, reverse_Permutation. by eapply ancestry_hashes_nodup.
  - intros n Hn. by eapply canonical_lookup.
  - intros i Hi. pose proof (tip_utxo _ _ _ _ Htip (Hsy _ (tip_cached _ _ _ _ Htip))) as Hrep.
    rewrite <- (take_drop (S i) (reverse l)) in Hrep. unfold replay_utxo in *. rewrite replay_from_app in Hrep.
    destruct (replay_from params (take (S i) (reverse l)) ∅); [eauto|done].
  - by rewrite reverse_involutive.
  - by rewrite length_reverse.
Qed.

(** What we have of the peer's chain is a prefix of it. *)
Lemma stored_prefix bs P f :
  blocks_ok bs -> linked_chain P -> (forall b, b ∈ P -> block_hash b <> ZERO) ->
  (forall b b', b ∈ P -> bs !! block_hash b = Some b' -> b' = b) ->
  (exists b, P !! f = Some b /\ is_Some (bs !! block_hash b)) ->
  exists K, (f <= K < length P)%nat /\ forall i b, P !! i = Some b ->
    bs !! block_hash b = if decide (i <= K)%nat then Some b else None.
Proof.
  intros [Hk Hr _] Hl Hnz Hsame. set (has i := exists b, P !! i = Some b /\ is_Some (bs !! block_hash b)).
  assert (forall i, has (S i) -> has i) as Hdown.
  { intros i (b & Hb & b' & Hb'). assert (b' = b) as -> by (eapply Hsame; [by eapply list_elem_of_lookup_2|done]).
    destruct (Hl _ _ Hb) as (_ & c & Hc & Hp). exists c. split; [done|]. rewrite <- Hp.
    destruct (Hr _ _ Hb') as [lb Hlb]. inversion Hlb as [? ? ? Hz|? ? q k ? ? Hq]; simplify_eq.
    - exfalso. eapply Hnz; [by eapply list_elem_of_lookup_2|]. by rewrite <- Hp.
    - destruct (ancestry_tip _ _ _ Hq) as (? & ? & _ & ->). eauto. }
  assert (forall i j, (j <= i)%nat -> has i -> has j) as Hdown' by (intros i j; induction 1; auto).
  intros Hf. remember (length P - f)%nat as m eqn:Em. revert f Hf Em. induction m as [|m IH]; intros f Hf Em.
  { destruct Hf as (b & Hb & _). apply lookup_lt_Some in Hb. lia. }
  assert (has (S f) \/ ~ has (S f)) as [Hs|Hs].
  { unfold has. destruct (P !! S f) as [b|]; [|right; naive_solver].
    destruct (bs !! block_hash b) as [b'|] eqn:E; [left; eauto|right]. intros (? & [= <-] & ? & ?). congruence. }
  - destruct (IH (S f) Hs ltac:(lia)) as (K & HK & Hall). exists K. split; [lia|done].
  - exists f. split; [destruct Hf as (b & Hb & _); apply lookup_lt_Some in Hb; lia|]. intros i b Hb. case_decide as Hi.
    + destruct (Hdown' f i Hi Hf) as (b' & Hb' & c & Hc). assert (b' = b) as -> by congruence. rewrite Hc. f_equal.
      eapply Hsame; [by eapply list_elem_of_lookup_2|done].
    + destruct (bs !! block_hash b) eqn:E; [|done]. exfalso. apply Hs. apply (Hdown' i); [lia|]. exists b. by rewrite E.
Qed.

(** The answers of a peer are the batches of its canonical chain. *)
Lemma filter_heights l off a :
  (forall i b, l !! i = Some b -> height (header b) = Z.of_nat (off + i)) ->
  filter (λ b, (Z.of_nat a <=? height (header b)) = true) l = drop (a - off) l.
Proof.
  revert off; induction l as [|b l IH]; intros off Hl; [by rewrite drop_nil|].
  pose proof (Hl 0%nat b eq_refl) as Hb. rewrite filter_cons, Hb.
  assert (forall i c, l !! i = Some c -> height (header c) = Z.of_nat (S off + i)) as Hl'.
  { intros i c Hc. rewrite (Hl (S i) c Hc). lia. }
  destruct (Z.leb_spec (Z.of_nat a) (Z.of_nat (off + 0))) as [Hle|Hgt].
  - rewrite decide_True by done. replace (a - off)%nat with 0%nat by lia. cbn [drop]. f_equal.
    rewrite (IH (S off) Hl'). by replace (a - S off)%nat with 0%nat by lia.
  - rewrite decide_False by done. rewrite (IH (S off) Hl'). by replace (a - off)%nat with (S (a - S off)) by lia.
Qed.

Lemma blocks_from_spec d a :
  linked_chain (canonical_blocks d) -> blocks_from d (Z.of_nat a) = take SYNC_BATCH_SIZE (drop a (canonical_blocks d)).
Proof.
  intros Hl. unfold blocks_from. rewrite (filter_heights _ 0); [by rewrite Nat.sub_0_r|].
  intros i b Hb. by apply Hl in Hb as [? _].
Qed.

(** When [s] with tip [t] can catch up with [peer] and its tip [p] at the time [now]. *)
Record can_catch_up (params : ConsensusParams) (now : Z) (peer : ChainState) (p : Block) (s : ChainState) (t : Block) : Prop := {
  (** Both databases are good and synchronised. *)
  peer_good : state_ok params peer /\ synced peer /\ tip_cache peer = Some p;
  we_good : state_ok params s /\ synced s /\ tip_cache s = Some t;
  (** The peer is ahead, and its blocks are valid by our clock. *)
  peer_ahead : height (header t) < height (header p);
  peer_valid : forall i c b, canonical_blocks (db peer) !! i = Some c -> canonical_blocks (db peer) !! S i = Some b ->
    validate_block params (Some c) b now (expected_leading_zero_bits_for (db peer) params (Some c))
      (epoch_seed_for_height (db peer) (height (header b))) = Ok ();
  (** What we store under a hash of the peer's is the peer's block, and not heavier than our tip. *)
  same_block : forall b b', b ∈ canonical_blocks (db peer) -> cf_blocks (db s) !! block_hash b = Some b' -> b' = b;
  none_heavier : forall b, b ∈ canonical_blocks (db peer) -> is_Some (cf_blocks (db s) !! block_hash b) ->
    chain_work (db s) (block_hash b) <= chain_work (db s) (block_hash t);
  (** The chains parted at most 1000 blocks below our tip. *)
  fork_near : exists b, b ∈ canonical_blocks (db peer) /\ is_Some (cf_blocks (db s) !! block_hash b)
    /\ height (header t) - height (header b) <= MAX_FORK_SEARCH_DEPTH;
  (** Within one batch above our height the peer's chain has more work, and both agree on the epoch
      seeds up to there. *)
  heavier_soon : exists b, b ∈ canonical_blocks (db peer) /\ height (header b) <= height (header t) + 50
    /\ chain_work (db s) (block_hash t) < chain_work (db peer) (block_hash b);
  seeds_agree : forall n, 0 <= n <= height (header t) + 50 -> epoch_seed_for_height (db s) n = epoch_seed_for_height (db peer) n;
  (** Nothing is near the end of its width. *)
  peer_light : chain_work (db peer) (block_hash p) < U128_MAX;
  activation_fits : 0 <= difficulty_retarget_activation_height params <= U64_MAX;
  blocks_fit : Z.of_nat (size (cf_blocks (db s)) + length (canonical_blocks (db peer))) < U64_MAX;
}.

Lemma chain_work_upto d P i b :
  keyed (cf_blocks d) -> ancestry (cf_blocks d) (block_hash b) (upto P i) ->
  chain_work d (block_hash b) = Z.min (total_work (upto P i)) U128_MAX.
Proof. apply chain_work_total. Qed.

Lemma can_catch_up_peer params now peer p s t :
  can_catch_up params now peer p s t -> honest params now (db peer) (canonical_blocks (db peer))
    /\ exists n, length (canonical_blocks (db peer)) = S n /\ height (header p) = Z.of_nat n /\ canonical_blocks (db peer) !! n = Some p.
Proof.
  intros [(Hpok & Hpsy & Hp) _ Hahead Hv _ _ _ _ _ Hw Hact Hfit].
  destruct (state_ok_tip _ _ _ Hpok Hp) as (l & Htip & Ha). rewrite (state_ok_canonical _ _ _ _ Hpok Htip) in *.
  rewrite (chain_work_total _ _ (p :: l)) in Hw by (try apply Hpok; done). rewrite length_reverse in Hfit |- *.
  split; [apply (peer_honest params now peer p); try done; lia|]. exists (length l).
  split; [done|]. split; [by eapply ancestry_tip_height|]. rewrite reverse_cons. apply list_lookup_middle. by rewrite length_reverse.
Qed.

Lemma can_catch_up_start params now peer p s t :
  can_catch_up params now peer p s t ->
  exists lt h0 K, tip_ok params s t lt /\ length lt = S h0 /\ height (header t) = Z.of_nat h0 /\ (h0 <= K + 1000)%nat
    /\ total_work (upto (canonical_blocks (db peer)) K) <= total_work lt /\ follows params (canonical_blocks (db peer)) s t lt K s.
Proof.
  intros Hc. destruct (can_catch_up_peer _ _ _ _ _ _ Hc) as [Hpeer _].
  destruct Hc as [_ (Hok & Hsy & Ht) _ _ Hsame Hnone (bf & Hbf & Hsf & Hnear) _ _ _ _ Hfit].
  set (P := canonical_blocks (db peer)) in *. destruct (state_ok_tip _ _ _ Hok Ht) as (l & Htip & Ha).
  apply list_elem_of_lookup in Hbf as [f Hf]. destruct (honest_linked _ _ _ _ Hpeer _ _ Hf) as [Hhf _].
  destruct (stored_prefix (cf_blocks (db s)) P f) as (K & HK & Hall); [apply Hok|apply Hpeer|apply Hpeer|done|eauto|].
  pose proof (ancestry_tip_height _ _ _ _ Ha) as Hht. unfold MAX_FORK_SEARCH_DEPTH in Hnear.
  enough (total_work (upto P K) <= total_work (t :: l)).
  { exists (t :: l), (length l), K. split_and!; [done|done|done|lia|done|]. split; try done; [lia|lia|by left]. }
  destruct (lookup_lt_is_Some_2 P K) as [b Hb]; [lia|].
  assert (ancestry (cf_blocks (db s)) (block_hash b) (upto P K)) as Hab.
  { apply (ancestry_upto _ P K); [apply Hpeer..| |done|lia]. intros i c Hi Hle. by rewrite (Hall _ _ Hi), decide_True. }
  assert (b ∈ P) as Hbp by by eapply list_elem_of_lookup_2.
  specialize (Hnone b Hbp). rewrite (Hall _ _ Hb), decide_True in Hnone by lia. specialize (Hnone ltac:(eauto)).
  rewrite (chain_work_upto _ P K), (chain_work_total _ _ (t :: l)) in Hnone by (try apply Hok; done).
  pose proof (upto_work_all P K ltac:(lia)). pose proof (honest_light _ _ _ _ Hpeer). lia.
Qed.

(** C10: Synchronisation converges where [can_catch_up] holds. Let both databases be good, each with a tip
    and a UTXO set in step with it, and neither near the end of its width. Let the peer be ahead of us and
    answer from a chain that does not change meanwhile and is valid by our clock. Let the chains have parted at most a thousand blocks below our tip; let
    the peer's chain have more work than ours at some block at most one batch (50 blocks) above our
    height; let both databases give the same epoch seeds up to that height; and let what we store under
    the hash of a block of the peer be that block, none of them heavier than our tip. Then the loop
    ends, with the peer's tip as ours and the peer's chain as our canonical chain, by extension or by
    reorganisation. Without being heavier within a batch the loop need not end
    ([sync_livelock]); the seeds must agree because [epoch_seed_for_height] reads them from our own chain. *)
Theorem sync_converges params now peer p s t :
  can_catch_up params now peer p s t ->
  exists fuel s' total,
    sync_blocks fuel params now (height (header p)) (λ _ from, Ok (blocks_from (db peer) from)) s = (s', Some (Ok total))
    /\ tip_cache s' = Some p /\ canonical_blocks (db s') = canonical_blocks (db peer) /\ state_ok params s'.
Proof.
  intros Hc. destruct (can_catch_up_peer _ _ _ _ _ _ Hc) as (Hpeer & n & Hn & Hhp & Hpn).
  destruct (can_catch_up_start _ _ _ _ _ _ Hc) as (lt & h0 & K & Htip & Hlt & Hht & Hfork & Hw & Hf).
  destruct Hc as [_ (Hok & Hsy & Ht) Hahead _ _ _ _ (bh & Hbh & Hnear & Hheavy) Hseeds _ _ _].
  set (P := canonical_blocks (db peer)) in *. apply list_elem_of_lookup in Hbh as [hv Hhv].
  destruct (honest_linked _ _ _ _ Hpeer _ _ Hhv) as [Hhh _]. pose proof (lookup_lt_Some _ _ _ Hhv) as Hhvn.
  rewrite (chain_work_upto (db peer) P hv), (chain_work_total _ _ lt) in Hheavy
    by first [apply Hok|apply Hpeer|apply Htip|by eapply peer_ancestry].
  assert (total_work lt < total_work (upto P hv)) as Hmore by lia.
  assert (forall K b, P !! S K = Some b -> total_work (upto P K) <= total_work lt ->
    epoch_seed_for_height (db s) (height (header b)) = epoch_seed_for_height (db peer) (height (header b))) as Hseed.
  { intros K' b Hb Hw'. apply Hseeds. destruct (honest_linked _ _ _ _ Hpeer _ _ Hb) as [-> _].
    pose proof (lookup_lt_Some _ _ _ Hb). destruct (decide (hv <= K')%nat) as [Hle|]; [|lia].
    pose proof (upto_work_mono P hv K' ltac:(lia)). lia. }
  assert (K < hv)%nat as HK.
  { apply not_ge. intros Hge. pose proof (upto_work_mono P hv K ltac:(pose proof (follows_within _ _ _ _ _ _ _ Hf); lia)). lia. }
  pose proof (honest_short _ _ _ _ Hpeer) as Hshort.
  destruct (follows_loop params now (db peer) P Hpeer s t lt Htip Hok Hseed h0 n hv Hn Hlt ltac:(lia) ltac:(lia)
    (λ _ from, Ok (blocks_from (db peer) from)) (λ _ a, f_equal Ok (blocks_from_spec (db peer) a (honest_linked _ _ _ _ Hpeer)))
    K (S h0) (sync_start s) s 0%nat Hf Hfork) as (fuel & s' & total & Hrun & Hf' & Ht'); [lia|lia| |cbn; lia|cbn; lia|lia|].
  { cbn. unfold height_or_0. rewrite (tip_height_cached _ _ _ _ Htip). cbn. rewrite Hht, add64_small; unfold U64_MAX, U64_MOD in *; lia. }
  rewrite Hpn in Ht'. exists fuel, s', total. rewrite Hhp. split_and!; [exact Hrun|done| |apply Hf'].
  rewrite (state_ok_canonical _ _ _ _ (follows_ok _ _ _ _ _ _ _ Hf') (follows_tip_new params now (db peer) P Hpeer s t lt n s' p Hf' Hpn Ht')).
  unfold upto. rewrite reverse_involutive. by rewrite take_ge by lia.
Qed.

(** ** A loop that does not end *)

Lemma apply_known_batch params now from bs n s :
  Forall (λ b, is_Some (cf_blocks (db s) !! block_hash b)) bs ->
  exists n', apply_batch params now from bs n s = (s, Applied n').
Proof.
  intros Hbs. revert n; induction Hbs as [|b bs Hb _ IH]; intros n; cbn [apply_batch]; [eauto|].
  rewrite submit_known_spec by done. apply IH.
Qed.

(** Synchronisation can hang. When the blocks a peer sends for the height above
    ours are all stored already (a branch of ours that is not heavier, or any
    blocks sent again), the loop asks for them for ever, whatever follows in the
    peer's chain: it never moves past its own height, nor gives up, and keeps the
    database open. *)
Theorem sync_livelock fuel params now remote_height fetch bs s :
  (forall r, fetch r (add64 (height_or_0 s) 1) = Ok bs) -> bs <> [] ->
  Forall (λ b, is_Some (cf_blocks (db s) !! block_hash b)) bs -> height_or_0 s < remote_height ->
  sync_blocks fuel params now remote_height fetch s = (s, None).
Proof.
  intros Hfetch Hne Hbs Hh. unfold sync_blocks, sync_start. generalize 0 at 1 as c. generalize 0%nat as r.
  induction fuel as [|fuel IH]; intros r c; [done|]. cbn [sync_loop fetch_from]. rewrite Hfetch. unfold sync_round. cbn [fetch_from].
  destruct bs as [|b bs]; [done|].
  destruct (apply_known_batch params now (add64 (height_or_0 s) 1) (b :: bs) 0 s Hbs) as [n' Hrun]. rewrite Hrun.
  rewrite (proj2 (Z.leb_gt _ _)) by done. apply IH.
Qed.

(** A block that extends the tip empties the list of disconnected blocks: after a
    reorganisation in the middle of a batch the transactions of the lost blocks
    are forgotten before [sync_from_peer] would requeue them. *)
Lemma extension_forgets_disconnected params b now s s' t :
  state_ok params s -> tip_cache s = Some t -> block_hash b <> ZERO -> Z.of_nat (size (cf_blocks (db s))) < U64_MAX ->
  submit_block params b now s = (s', Ok b) -> previous_hash (header b) = block_hash t -> last_disconnected s' = [].
Proof.
  intros Hok Ht Hnz Hsize Hsub Hprev. pose proof (submit_block_step params b now s) as Hst. rewrite Hsub in Hst. cbn [fst snd] in Hst.
  inversion Hst as [|s1 e Hk Hs1|s1 Hk Hs1 Hp|s1 p e Hk Hs1 Hp Hv|s1 p Hk Hs1 Hc Hw|s1 p s2 r Hk Hs1 Hc Hw Hpr Hext
    |s1 p s2 r Hk Hs1 Hc Hw Hpr Hext]; subst; try done.
  - destruct (stored_ok _ _ _ _ _ _ Hok Hsize Hnz Hk Hs1 Hc)
      as (t' & l & lp & Hts & Ht1 & Hsync & Hbl & Hbs & Htip & _ & Hpp & Hlp & Hb).
    assert (lp = l) as ->.
    { assert (cf_blocks (db s1) !! block_hash b = None) as Hk1 by by rewrite Hbl.
      apply (ancestry_det _ _ _ _ (ancestry_store _ b _ _ Hk1 Hlp)). rewrite <- Hpp, Hpr. unfold tip_hash. rewrite Ht1. apply Htip. }
    destruct (extend_tip_spec _ _ _ _ _ _ _ Htip Hsync Hb Hext) as [_ Hr].
    destruct r as [[]|]; [|done]. by destruct Hr as (_ & _ & ->).
  - exfalso. apply Hpr. destruct (ensure_synced_spec _ _ _ _ Hok Hs1) as (_ & _ & Htc & _). unfold tip_hash. by rewrite Htc, Ht.
Qed.
End Sync.
