(* ===== verification/SyncWitness.v ===== *)
(** * Synchronisation on a concrete fork

    A node on the block [b1] of [History] catches up with a peer that followed the
    other branch of two blocks. *)

From S2P Require Import Prelude Crypto Hash Chain Validation Block Utxo Mempool Storage State StateDb.
From S2P Require Import StateChain StateInv StateProps StateSubmit Fixture StateWitness Node Sync SyncFacts.

Local Open Scope Z_scope.

#[local] Existing Instance toy_crypto.
#[local] Existing Instance trie_order.

Module ForkWitness.
Definition ours : ChainState := History.s1.
Definition peer : ChainState := History.s3.
Definition P : list Block := [History.genesis0; History.side1; History.side2].

Lemma peer_chain : canonical_blocks (db peer) = P.
Proof. vm_compute. reflexivity. Qed.
Lemma peer_tip : tip_cache peer = Some History.side2.
Proof. vm_compute. reflexivity. Qed.

Lemma side2_nonzero : block_hash History.side2 <> ZERO.
Proof. exact (proj2 (proj2 (proj2 History.nonzero))). Qed.

Lemma ours_after : state_ok History.params ours /\ synced ours.
Proof.
  exact (submit_accepted History.params History.b1 1060 History.s0 History.s1 History.ok0 History.size0
    (proj1 (proj2 History.nonzero)) History.run1).
Qed.
Lemma peer_after : state_ok History.params peer /\ synced peer.
Proof.
  exact (submit_accepted History.params History.side2 1090 History.s2 History.s3 History.ok2 History.size2
    side2_nonzero History.run3).
Qed.

Lemma consecutive (g a b : Block) (R : Block -> Block -> Prop) :
  R g a -> R a b -> forall i c d, [g; a; b] !! i = Some c -> [g; a; b] !! S i = Some d -> R c d.
Proof. intros Hga Hab [|[|[|i]]] c d Hc Hd; simplify_eq/=; done. Qed.

Definition valid_at (c b : Block) : Prop :=
  validate_block History.params (Some c) b 1200 (expected_leading_zero_bits_for (db peer) History.params (Some c))
    (epoch_seed_for_height (db peer) (height (header b))) = Ok ().
Lemma valid1 : valid_at History.genesis0 History.side1.
Proof. vm_compute. reflexivity. Qed.
Lemma valid2 : valid_at History.side1 History.side2.
Proof. vm_compute. reflexivity. Qed.

Lemma our_blocks : Forall (λ b, cf_blocks (db ours) !! block_hash b = if decide (b = History.genesis0) then Some b else None) P.
Proof. apply (bool_decide_unpack _). vm_compute. exact I. Qed.

Lemma genesis_light : chain_work (db ours) (block_hash History.genesis0) <= chain_work (db ours) (block_hash History.b1).
Proof. vm_compute. discriminate. Qed.
Lemma side2_heavy : chain_work (db ours) (block_hash History.b1) < chain_work (db peer) (block_hash History.side2).
Proof. vm_compute. reflexivity. Qed.
Lemma heights : height (header History.b1) = 1 /\ height (header History.genesis0) = 0 /\ height (header History.side2) = 2.
Proof. vm_compute. by split_and!. Qed.
Lemma side2_light : chain_work (db peer) (block_hash History.side2) < U128_MAX.
Proof. vm_compute. reflexivity. Qed.
Lemma few_blocks : Z.of_nat (size (cf_blocks (db ours)) + 3) < U64_MAX.
Proof. vm_compute. reflexivity. Qed.
Lemma activation : 0 <= difficulty_retarget_activation_height History.params <= U64_MAX.
Proof. vm_compute. split; discriminate. Qed.

Lemma first_epoch d n : 0 <= n <= 51 -> epoch_seed_for_height d n = ZERO.
Proof.
  intros Hn. unfold epoch_seed_for_height. rewrite Z.div_small; [reflexivity|]. change TensorHash.EPOCH_LENGTH with 8192. lia.
Qed.

Lemma catch_up : can_catch_up History.params 1200 peer History.side2 ours History.b1.
Proof.
  destruct heights as (Hh1 & Hh0 & Hh2). pose proof (proj1 (Forall_forall _ _) our_blocks) as Hours.
  split; rewrite ?peer_chain, ?Hh1.
  - exact (conj (proj1 peer_after) (conj (proj2 peer_after) peer_tip)).
  - exact (conj (proj1 ours_after) (conj (proj2 ours_after) History.tip1)).
  - rewrite Hh2. lia.
  - exact (consecutive _ _ _ valid_at valid1 valid2).
  - intros b b' Hb. rewrite (Hours b Hb). case_decide as E; [|discriminate]. intros Hbb. apply (inj Some) in Hbb. symmetry. exact Hbb.
  - intros b Hb. rewrite (Hours b Hb). case_decide as E; [|intros Hs; destruct (is_Some_None Hs)]. intros _. rewrite E. exact genesis_light.
  - exists History.genesis0. assert (History.genesis0 ∈ P) as Hin by (unfold P; apply list_elem_of_here). split; [exact Hin|].
    rewrite (Hours _ Hin), decide_True, Hh0 by reflexivity. unfold MAX_FORK_SEARCH_DEPTH. split; [eexists; reflexivity|lia].
  - exists History.side2. rewrite Hh2. split; [|split; [lia|exact side2_heavy]]. unfold P. apply list_elem_of_further, list_elem_of_further, list_elem_of_here.
  - intros n Hn. rewrite !first_epoch by lia. reflexivity.
  - exact side2_light.
  - exact activation.
  - exact few_blocks.
Qed.
End ForkWitness.

Lemma sync_converges_witness :
  exists fuel s' total,
    sync_blocks fuel History.params 1200 (height (header History.side2))
      (λ _ from, Ok (blocks_from (db ForkWitness.peer) from)) ForkWitness.ours = (s', Some (Ok total))
    /\ tip_cache s' = Some History.side2 /\ canonical_blocks (db s') = canonical_blocks (db ForkWitness.peer)
    /\ state_ok History.params s'.
Proof.
  exact (sync_converges History.params 1200 ForkWitness.peer History.side2 ForkWitness.ours History.b1 ForkWitness.catch_up).
Defined.

Lemma sync_livelock_witness :
  sync_blocks 100 History.params 1200 7 (λ _ _, Ok [History.genesis0]) ForkWitness.ours = (ForkWitness.ours, None).
Proof.
  refine (sync_livelock 100 History.params 1200 7 (λ _ _, Ok [History.genesis0]) [History.genesis0] ForkWitness.ours
    (λ _, eq_refl) _ _ _).
  - discriminate.
  - apply (bool_decide_unpack _). vm_compute. exact I.
  - vm_compute. reflexivity.
Defined.
