(* ===== verification/Genesis.v ===== *)
(** * The genesis tool ([mine_genesis_multithreaded] in [tensorium-node/src/main.rs])

    The header the tool searches a nonce for, and the search itself: threads that
    step through their residue classes and share a flag and a winner. Each
    access to the shared variables is a step of its own; the counters of hashes
    are not modelled. *)

From S2P Require Import Prelude Crypto Hash Chain Validation ScriptVM Block Utxo State.

Local Open Scope Z_scope.

Definition MAINNET_GENESIS_TIMESTAMP : Z := 1781144892.
Definition MAINNET_GENESIS_NONCE : Z := 9223372445780809059.

(** Where a thread is: before it reads the flag, before it tests its nonce, after it
    has set the flag, or at its end. *)
Inductive Worker := AtTop (nonce : Z) | Testing (nonce : Z) | Storing (nonce : Z) | Stopped.

Record Search := { found : bool; winner : Z; threads : list Worker }.

Definition search_start (n : nat) : Search :=
  {| found := false; winner := U64_MAX; threads := (λ t, AtTop (Z.of_nat t)) <$> seq 0 n |}.

Section Genesis.
Context `{Crypto}.

Definition genesis_header_template (ts : Z) : BlockHeader :=
  let reward := reward_at_height MAINNET 0 in
  let cb := genesis_coinbase reward "genesis" (founder_allocation_atoms MAINNET) (founder_address MAINNET)
              (genesis_allocations MAINNET) in
  {| version := 1; chain_id := p_chain_id MAINNET; height := 0; previous_hash := ZERO;
     merkle_root_field := merkle_root [cb]; timestamp_seconds := ts;
     leading_zero_bits_field := initial_leading_zero_bits MAINNET; nonce := 0 |}.

(** [header_meets_work(&h, Hash256::ZERO)] with [h.nonce = n]. *)
Definition wins (h : BlockHeader) (n : Z) : bool := header_meets_work (with_nonce n h) ZERO.

(** [nonce.checked_add(stride)] *)
Definition next_nonce (n stride : Z) : Worker := if n + stride <=? U64_MAX then AtTop (n + stride) else Stopped.

(** What one thread does next, and to the shared variables. *)
Definition worker_step (h : BlockHeader) (stride : Z) (w : Worker) (found : bool) (winner : Z) : Worker * bool * Z :=
  match w with
  | AtTop n => (if found then Stopped else Testing n, found, winner)
  | Testing n => if wins h n then (Storing n, true, winner) else (next_nonce n stride, found, winner)
  | Storing n => (Stopped, found, n)
  | Stopped => (Stopped, found, winner)
  end.

(** Some thread [i] of the search does its next step. *)
Inductive search_step (h : BlockHeader) : Search -> Search -> Prop :=
| step_thread s i w w' f' v' :
    threads s !! i = Some w -> w <> Stopped ->
    worker_step h (Z.of_nat (length (threads s))) w (found s) (winner s) = (w', f', v') ->
    search_step h s {| found := f'; winner := v'; threads := <[i := w']> (threads s) |}.

(** After all threads are joined: the nonce, if the sentinel was overwritten. *)
Definition search_result (s : Search) : option Z := if winner s =? U64_MAX then None else Some (winner s).

Definition joined (s : Search) : Prop := Forall (λ w, w = Stopped) (threads s).

(** [init_mainnet_state] on the opened database. *)
Definition init_mainnet_state `{!IterOrder OutPoint UtxoEntry} (nonce : Z) : stateful ChainState StateError Block :=
  init_genesis_nonce MAINNET MAINNET_GENESIS_TIMESTAMP nonce.
End Genesis.

(** * The genesis tool finds what the node accepts *)

From S2P Require Import Storage StateChain.
From S2P Require Import StateInv StateProps StateSubmit.

Section Search.
Context `{Crypto} (h : BlockHeader).

(** What thread [i] of [n] has behind it: every nonce of its class below its own fails. *)
Definition failed_below (n i : nat) (bound : Z) : Prop :=
  forall k, 0 <= k < bound -> k mod Z.of_nat n = Z.of_nat i -> wins h k = false.

Definition worker_ok (n i : nat) (found : bool) (w : Worker) : Prop :=
  match w with
  | AtTop k | Testing k => 0 <= k <= U64_MAX /\ k mod Z.of_nat n = Z.of_nat i /\ failed_below n i k
  | Storing k => wins h k = true /\ found = true
  | Stopped => found = true \/ failed_below n i (U64_MAX + 1)
  end.

Record search_ok (s : Search) : Prop := {
  search_workers : forall i w, threads s !! i = Some w -> worker_ok (length (threads s)) i (found s) w;
  search_winner : winner s = U64_MAX \/ wins h (winner s) = true;
  (** Once the flag is set, a winner is stored or about to be. *)
  search_found : found s = true -> wins h U64_MAX = false ->
    winner s <> U64_MAX \/ exists i k, threads s !! i = Some (Storing k);
}.

Lemma search_start_ok n : Z.of_nat n <= U64_MAX -> search_ok (search_start n).
Proof.
  intros Hn. split; [|by left|done]. intros i w Hw. cbn in Hw. rewrite list_lookup_fmap in Hw.
  destruct (seq 0 n !! i) as [t|] eqn:Ht; [|done]. apply lookup_seq in Ht as [-> Hi]. injection Hw as <-.
  cbn [search_start threads worker_ok]. rewrite length_fmap, length_seq.
  split; [lia|]. split; [by apply Z.mod_small; lia|]. intros k Hk Hm. rewrite Z.mod_small in Hm; lia.
Qed.

Lemma failed_below_step n i k :
  (i < n)%nat -> 0 <= k -> k mod Z.of_nat n = Z.of_nat i -> failed_below n i k -> wins h k = false ->
  failed_below n i (k + Z.of_nat n).
Proof.
  intros Hi Hk0 Hk Hf Hw j Hj Hm. destruct (Z.lt_trichotomy j k) as [Hlt|[->|Hgt]]; [by apply Hf; [lia|]|done|].
  exfalso. assert (0 < j - k < Z.of_nat n) as Hd by lia.
  assert ((j - k) mod Z.of_nat n = 0) as H0; [|rewrite Z.mod_small in H0; lia].
  rewrite Zminus_mod, Hm, Hk, Z.sub_diag. apply Z.mod_0_l. lia.
Qed.

Lemma worker_ok_found n i f f' w : (f = true -> f' = true) -> worker_ok n i f w -> worker_ok n i f' w.
Proof. intros Hf. destruct w; cbn; intuition. Qed.

(** One thread keeps its own promise. *)
Lemma worker_step_ok n i w f v w' f' v' :
  (i < n)%nat -> w <> Stopped -> worker_step h (Z.of_nat n) w f v = (w', f', v') ->
  worker_ok n i f w -> worker_ok n i f' w' /\ (f = true -> f' = true).
Proof.
  intros Hi Hne Hstep Hw. destruct w as [k|k|k|]; cbn [worker_step worker_ok] in *; [| | |done].
  - injection Hstep as <- <- <-. split; [|done]. destruct f; [by left|done].
  - destruct Hw as (Hk & Hm & Hf). destruct (wins h k) eqn:E; injection Hstep as <- <- <-; [done|]. split; [|done].
    pose proof (failed_below_step n i k Hi (proj1 Hk) Hm Hf E) as Hnext. unfold next_nonce.
    destruct (Z.leb_spec (k + Z.of_nat n) U64_MAX) as [Hle|Hgt]; cbn [worker_ok].
    + split; [lia|]. split; [|done]. by rewrite Z.add_mod, Z.mod_same, Z.add_0_r, Z.mod_mod by lia.
    + right. intros j Hj. apply Hnext. lia.
  - destruct Hw as [_ ->]. injection Hstep as <- <- <-. split; [by left|done].
Qed.

Lemma search_step_ok s s' : search_ok s -> search_step h s s' -> search_ok s'.
Proof.
  intros [Hw Hv Hf] Hst. destruct Hst as [s i w w' f' v' Hi Hne Hstep].
  pose proof (lookup_lt_Some _ _ _ Hi) as Hlt. destruct (worker_step_ok _ _ _ _ _ _ _ _ Hlt Hne Hstep (Hw _ _ Hi)) as [Hw' Hmono].
  split; cbn [threads found winner].
  - rewrite length_insert. intros j u [(-> & <- & _)|[Hji Hu]]%list_lookup_insert_Some; [done|].
    eapply worker_ok_found; [exact Hmono|by apply Hw].
  - destruct w as [k|k|k|]; cbn in Hstep; [| | |done].
    + by injection Hstep as <- <- <-.
    + destruct (wins h k); by injection Hstep as <- <- <-.
    + injection Hstep as <- <- <-. right. by destruct (Hw _ _ Hi).
  - intros Hf' Hmax. destruct w as [k|k|k|]; cbn in Hstep; [| | |done].
    + injection Hstep as <- <- <-. destruct (Hf Hf' Hmax) as [?|(j & u & Hj)]; [by left|right].
      exists j, u. rewrite list_lookup_insert_ne; [done|]. intros ->. congruence.
    + destruct (wins h k) eqn:E; injection Hstep as <- <- <-.
      * right. exists i, k. by apply list_lookup_insert_eq.
      * destruct (Hf Hf' Hmax) as [?|(j & u & Hj)]; [by left|right].
        exists j, u. rewrite list_lookup_insert_ne; [done|]. intros ->. congruence.
    + injection Hstep as <- <- <-. left. destruct (Hw _ _ Hi) as [E _]. congruence.
Qed.

Lemma search_run_ok n s : Z.of_nat n <= U64_MAX -> rtc (search_step h) (search_start n) s -> search_ok s.
Proof.
  intros Hn Hs. assert (forall s1 s2, rtc (search_step h) s1 s2 -> search_ok s1 -> search_ok s2) as Hrun.
  { induction 1; [done|]. intros Hok. eauto using search_step_ok. }
  eapply Hrun; [exact Hs|by apply search_start_ok].
Qed.

Lemma search_threads n s : rtc (search_step h) (search_start n) s -> length (threads s) = n.
Proof.
  intros Hs. assert (forall s1 s2, rtc (search_step h) s1 s2 -> length (threads s2) = length (threads s1)) as Hrun.
  { induction 1 as [|s1 s2 s3 Hst _ IH]; [done|]. rewrite IH. destruct Hst. apply length_insert. }
  rewrite (Hrun _ _ Hs). cbn. by rewrite length_fmap, length_seq.
Qed.

(** All threads joined without a winner: no nonce wins. *)
Lemma search_exhausted n s k :
  (0 < n)%nat -> rtc (search_step h) (search_start n) s -> search_ok s -> joined s -> winner s = U64_MAX ->
  wins h U64_MAX = false -> 0 <= k <= U64_MAX -> wins h k = false.
Proof.
  intros Hn Hs [Hw _ Hf] Hj Hv Hmax Hk. pose proof (search_threads _ _ Hs) as Hlen.
  assert (found s = false) as Hff.
  { apply not_true_is_false. intros Ht. destruct (Hf Ht Hmax) as [?|(i & u & Hi)]; [done|].
    by apply (Forall_lookup_1 _ _ _ _ Hj) in Hi. }
  pose proof (Z.mod_pos_bound k (Z.of_nat n) ltac:(lia)) as Hm. set (i := Z.to_nat (k mod Z.of_nat n)).
  destruct (lookup_lt_is_Some_2 (threads s) i) as [w Hi]; [lia|]. pose proof (Forall_lookup_1 _ _ _ _ Hj Hi) as ->.
  pose proof (Hw _ _ Hi) as Hok. rewrite Hlen, Hff in Hok. destruct Hok as [|Hok]; [done|]. apply Hok; lia.
Qed.
End Search.

Section Accepted.
Context `{Crypto} `{!IterOrder OutPoint UtxoEntry}.

(** The header of the node's genesis candidate is the tool's. *)
Lemma genesis_candidate_header ts :
  with_bits (expected_leading_zero_bits_for (db new_state) MAINNET None) (header (candidate MAINNET None ts "genesis" [] 0))
  = genesis_header_template ts.
Proof. reflexivity. Qed.

(** The block the node builds from the nonce. *)
Definition genesis_block (k : Z) : Block :=
  {| header := with_nonce k (genesis_header_template MAINNET_GENESIS_TIMESTAMP);
     transactions := transactions (candidate MAINNET None MAINNET_GENESIS_TIMESTAMP "genesis" [] 0) |}.

Lemma genesis_valid k bits :
  bits = initial_leading_zero_bits MAINNET -> wins (genesis_header_template MAINNET_GENESIS_TIMESTAMP) k = true ->
  validate_block MAINNET None (genesis_block k) MAINNET_GENESIS_TIMESTAMP bits ZERO = Ok ().
Proof.
  intros -> Hk. apply validate_block_root; try done.
  eexists. split; [reflexivity|]. unfold is_coinbase. cbn [genesis_coinbase make_tx inputs payload].
  rewrite bool_decide_true by done. by apply bool_decide_true.
Qed.

Lemma genesis_accepted k :
  wins (genesis_header_template MAINNET_GENESIS_TIMESTAMP) k = true ->
  init_mainnet_state k new_state = (committed (genesis_block k) new_state, Ok (genesis_block k)).
Proof.
  intros Hk. unfold init_mainnet_state, init_genesis_nonce, get_state, modify, validated, commit_tip, lift_result, mbind, stateful_bind.
  cbv beta zeta. rewrite genesis_candidate_header. rewrite bool_decide_false by by intros []. cbn [reject_if].
  change (epoch_seed_for_height (db new_state) 0) with ZERO.
  change {| header := with_nonce k (genesis_header_template MAINNET_GENESIS_TIMESTAMP); transactions := _ |} with (genesis_block k).
  unfold wins in Hk. change (header_meets_work (header (genesis_block k)) ZERO)
    with (header_meets_work (with_nonce k (genesis_header_template MAINNET_GENESIS_TIMESTAMP)) ZERO).
  rewrite Hk. cbn [negb reject_if]. rewrite genesis_valid by done. reflexivity.
Qed.

(** C37: The genesis tool and the node agree. Let any number of threads search, in any
    interleaving of their steps, and all end: if a nonce is reported, the node
    initialises mainnet with it, and its genesis block has the header the tool
    searched; if none is reported (and the sentinel, the largest nonce, does not
    win) no nonce would have done. *)
Theorem genesis_tool_agrees n s :
  (0 < n)%nat -> Z.of_nat n <= U64_MAX ->
  rtc (search_step (genesis_header_template MAINNET_GENESIS_TIMESTAMP)) (search_start n) s -> joined s ->
  match search_result s with
  | Some k => exists s' b, init_mainnet_state k new_state = (s', Ok b) /\ tip_cache s' = Some b
      /\ header b = with_nonce k (genesis_header_template MAINNET_GENESIS_TIMESTAMP)
  | None => wins (genesis_header_template MAINNET_GENESIS_TIMESTAMP) U64_MAX = false ->
      forall k, 0 <= k <= U64_MAX -> init_mainnet_state k new_state = (new_state, Err MiningFailed)
  end.
Proof.
  intros Hn Hfit Hs Hj. pose proof (search_run_ok _ _ _ Hfit Hs) as Hok. unfold search_result.
  destruct (Z.eqb_spec (winner s) U64_MAX) as [Hv|Hv].
  - intros Hmax k Hk. pose proof (search_exhausted _ _ _ _ Hn Hs Hok Hj Hv Hmax Hk) as Hw.
    unfold init_mainnet_state, init_genesis_nonce, get_state, lift_result, mbind, stateful_bind. cbv beta zeta.
    rewrite genesis_candidate_header, bool_decide_false by by intros []. cbn [reject_if header].
    change (epoch_seed_for_height (db new_state) 0) with ZERO. unfold wins in Hw. by rewrite Hw.
  - destruct (search_winner _ _ Hok) as [?|Hw]; [done|].
    exists (committed (genesis_block (winner s)) new_state), (genesis_block (winner s)). by rewrite genesis_accepted.
Qed.
End Accepted.

(** ** A run of two threads *)
Module RunWitness.
(** A hash that always wins. *)
Definition zero_crypto : Crypto := {|
  sha256 _ := replicate 32 0; blake2b256 _ := replicate 32 0;
  signing_key := @signing_key toy_crypto; verifying_key := @verifying_key toy_crypto; signature := @signature toy_crypto;
  secret_from_slice := @secret_from_slice toy_crypto; secret_to_bytes := @secret_to_bytes toy_crypto;
  verifying_of := @verifying_of toy_crypto; vk_from_sec1 := @vk_from_sec1 toy_crypto; vk_to_sec1 := @vk_to_sec1 toy_crypto;
  sig_from_der := @sig_from_der toy_crypto; sig_to_der := @sig_to_der toy_crypto; ecdsa_sign := @ecdsa_sign toy_crypto;
  ecdsa_verify := @ecdsa_verify toy_crypto; bech32_encode := @bech32_encode toy_crypto; bech32_decode := @bech32_decode toy_crypto;
  to_base32 := @to_base32 toy_crypto; from_base32 := @from_base32 toy_crypto; hex_encode := @hex_encode toy_crypto;
  hex_decode := @hex_decode toy_crypto |}.

#[local] Existing Instance zero_crypto.
#[local] Existing Instance trie_order.

Definition template : BlockHeader := genesis_header_template MAINNET_GENESIS_TIMESTAMP.
Definition final : Search := {| found := true; winner := 1; threads := [Stopped; Stopped] |}.

Lemma wins_1 : wins template 1 = true.
Proof. vm_compute. reflexivity. Qed.

Lemma run : rtc (search_step template) (search_start 2) final.
Proof.
  change (search_start 2) with {| found := false; winner := U64_MAX; threads := [AtTop 0; AtTop 1] |}.
  eapply rtc_l; [by eapply (step_thread _ _ 1%nat)|]. cbn [threads found winner insert list_insert].
  eapply rtc_l; [eapply (step_thread _ _ 1%nat); [done|done|]; cbn [worker_step]; rewrite wins_1; reflexivity|].
  cbn [threads found winner insert list_insert].
  eapply rtc_l; [by eapply (step_thread _ _ 0%nat)|]. cbn [threads found winner insert list_insert].
  eapply rtc_l; [by eapply (step_thread _ _ 1%nat)|]. apply rtc_refl.
Qed.

Lemma all_joined : joined final.
Proof. repeat constructor. Qed.
End RunWitness.

Lemma genesis_tool_agrees_witness :
  exists s' b, @init_mainnet_state RunWitness.zero_crypto (trie_order _ _) 1 new_state = (s', Ok b) /\ tip_cache s' = Some b
    /\ header b = with_nonce 1 RunWitness.template.
Proof.
  refine (@genesis_tool_agrees RunWitness.zero_crypto (trie_order _ _) 2 RunWitness.final _ _ RunWitness.run RunWitness.all_joined).
  - lia.
  - vm_compute. discriminate.
Defined.
