(* ===== verification/Cli.v ===== *)
(** * The command-line wallet: transaction builders ([txmwallet/src/main.rs])

    What the commands build and sign: payments (from the node's answer or from the
    local database), vesting locks, asset transactions, multisig and HTLC spends,
    settlements. The node's [/getutxos] answer, already parsed, is an argument; so
    is the error text where there is none. An error is the constant part of its text. *)

From S2P Require Import Prelude Crypto Hash Chain ScriptVM ScriptStandard Block Utxo Mempool State AssetCodec Settlement Wallet Node.

Local Open Scope Z_scope.

(** [RpcUtxo] *)
Record RpcUtxo := { txid_bytes : bytes; rpc_index : Z; rpc_value : Z; mature : bool }.

(** The fields of [WalletFile] the builders read. *)
Record WalletId := { wallet_address : string; wallet_public_key_hex : string }.

Definition wallet_error_text (e : WalletError) : string :=
  match e with
  | InvalidPrivateKey => "invalid private key"
  | AddressEncode => "address encode failed"
  | SignatureEncode => "signature encode failed"
  | InvalidPublicKey => "invalid public key"
  | WalletInvalidSignature => "invalid signature"
  | InputIndexOutOfRange => "input index out of range"
  end.
Definition settlement_error_text (e : SettlementError) : string :=
  match e with
  | FeesExceedPrice => "fee + royalty exceeds price"
  | InsufficientFunds _ _ => "insufficient buyer funds"
  | InvalidSettlementAddress => "invalid address"
  end.
Definition asset_error_text (e : BuildError) : string :=
  match e with
  | InsufficientBalance _ _ => "insufficient mature balance"
  | InvalidRecipient => "invalid recipient address"
  | InvalidChange => "invalid change address"
  end.

(** [Hash256(bytes.as_slice().try_into()?)] *)
Definition hash_of_slice (err : string) (bs : bytes) : result string Hash256 :=
  if (length bs =? 32)%nat then Ok (mkHash bs) else Err err.

(** The selection loop of the builders: mature outputs in the node's order until
    they cover [needed]. *)
Fixpoint select_mature (err : string) (needed : Z) (utxos : list RpcUtxo) (selected : list OutPoint)
    (selected_atoms : Z) : result string (list OutPoint * Z) :=
  match utxos with
  | [] => Ok (selected, selected_atoms)
  | u :: utxos =>
      if negb (mature u) then select_mature err needed utxos selected selected_atoms
      else
        hash ← hash_of_slice err (txid_bytes u);
        let selected := selected ++ [ {| txid := hash; output_index := rpc_index u |} ] in
        let selected_atoms := sat_add64 selected_atoms (rpc_value u) in
        if needed <=? selected_atoms then Ok (selected, selected_atoms)
        else select_mature err needed utxos selected selected_atoms
  end.

(** The same, with the error of a balance that is too small; the two texts differ between builders. *)
Definition select_funds (bad_txid short : string) (needed : Z) (utxos : list RpcUtxo) :
    result string (list OutPoint * Z) :=
  '(selected, selected_atoms) ← select_mature bad_txid needed utxos [] 0;
  reject_if (selected_atoms <? needed) short;;
  Ok (selected, selected_atoms).

Section Builders.
Context `{Crypto}.

(** [p2pkh_from_address(addr).map_err(|_| err)?] *)
Definition script_of (addr err : string) : result string bytes := map_err (p2pkh_from_address addr) (λ _, err).

(** [keypair.sign_transaction(&mut tx).map_err(|e| e.to_string())?] *)
Definition signed (keypair : WalletKeypair) (tx : Transaction) : result string Transaction :=
  match sign_transaction keypair tx with
  | (tx, Ok _) => Ok tx
  | (_, Err e) => Err (wallet_error_text e)
  end.

(** [if change > 0 { outputs.push(..) }] *)
Definition push_change (change : Z) (script : result string bytes) (outs : list TxOutput) :
    result string (list TxOutput) :=
  if 0 <? change then s ← script; Ok (outs ++ [ {| value_atoms := change; script_pubkey := s |} ]) else Ok outs.

(** ** Payments *)

(** The outputs and the signature, once the inputs are chosen. *)
Definition finish_payment (wallet : WalletId) (keypair : WalletKeypair) (to_address : string)
    (amount_atoms fee_atoms : Z) (selected : list OutPoint) (selected_atoms : Z) : result string Transaction :=
  dest ← script_of to_address "invalid recipient address";
  outs ← push_change (sub64 (sub64 selected_atoms amount_atoms) fee_atoms)
           (script_of (wallet_address wallet) "invalid wallet address")
           [ {| value_atoms := amount_atoms; script_pubkey := dest |} ];
  signed keypair (payment (unsigned_input <$> selected) outs).

Definition build_signed_payment_via_rpc (wallet : WalletId) (keypair : WalletKeypair)
    (utxos : result string (list RpcUtxo)) (to_address : string) (amount_atoms fee_atoms : Z) :
    result string Transaction :=
  utxos ← utxos;
  '(selected, selected_atoms) ← select_funds "invalid txid length from RPC" "insufficient mature balance via RPC"
                                   (sat_add64 amount_atoms fee_atoms) utxos;
  finish_payment wallet keypair to_address amount_atoms fee_atoms selected selected_atoms.

Section Local.
Context `{!IterOrder OutPoint UtxoEntry}.

(** The loop over the canonical blocks. *)
Fixpoint replay_local (blocks : list Block) (utxos : UtxoSet) : result string UtxoSet :=
  match blocks with
  | [] => Ok utxos
  | b :: blocks =>
      match apply_block MAINNET b utxos with
      | (utxos, Ok _) => replay_local blocks utxos
      | (_, Err e) => Err (utxo_error_text e)
      end
  end.

Definition immature_coinbase (tip_height : Z) (e : UtxoEntry) : bool :=
  coinbase_output e && (tip_height <? sat_add64 (created_height e) (coinbase_maturity_blocks MAINNET)).

(** The loop over the entries of the set, in the order of the map. *)
Fixpoint select_local (expected_script : bytes) (tip_height needed : Z) (entries : list (OutPoint * UtxoEntry))
    (selected : list OutPoint) (selected_atoms : Z) : list OutPoint * Z :=
  match entries with
  | [] => (selected, selected_atoms)
  | (outpoint, e) :: entries =>
      if negb (bool_decide (script_pubkey (output e) = expected_script)) || immature_coinbase tip_height e
      then select_local expected_script tip_height needed entries selected selected_atoms
      else
        let selected := selected ++ [outpoint] in
        let selected_atoms := sat_add64 selected_atoms (value_atoms (output e)) in
        if needed <=? selected_atoms then (selected, selected_atoms)
        else select_local expected_script tip_height needed entries selected selected_atoms
  end.

(** [p2pkh_from_pubkey(&hex::decode(..).unwrap_or_default())] *)
Definition expected_script (wallet : WalletId) : bytes :=
  p2pkh_from_pubkey (default [] (hex_decode (wallet_public_key_hex wallet))).

Definition build_signed_payment (wallet : WalletId) (keypair : WalletKeypair) (state : ChainState)
    (to_address : string) (amount_atoms fee_atoms : Z) : result string Transaction :=
  reject_if (amount_atoms =? 0) "amount_atoms must be greater than zero"%string;;
  let needed := sat_add64 amount_atoms fee_atoms in
  utxos ← replay_local (canonical_blocks (db state)) ∅;
  let '(selected, selected_atoms) :=
    select_local (expected_script wallet) (height_or_0 state) needed (iter utxos) [] 0 in
  reject_if (selected_atoms <? needed) "insufficient mature balance"%string;;
  finish_payment wallet keypair to_address amount_atoms fee_atoms selected selected_atoms.

(** [print_balance]: the mature and immature atoms it prints. *)
Definition wallet_balance (wallet : WalletId) (state : ChainState) : result string (Z * Z) :=
  utxos ← replay_local (canonical_blocks (db state)) ∅;
  Ok (foldl (λ acc p, let e := p.2 in
        if negb (bool_decide (script_pubkey (output e) = expected_script wallet)) then acc
        else if immature_coinbase (height_or_0 state) e
        then (acc.1, sat_add64 acc.2 (value_atoms (output e)))
        else (sat_add64 acc.1 (value_atoms (output e)), acc.2)) (0, 0) (iter utxos)).
End Local.

(** ** Vesting *)

(** A line of the schedule: label, unlock height, atoms, script in hexadecimal. *)
Record VestingLine := { line_label : string; unlock_height : Z; line_atoms : Z; spk_hex : string }.

Definition schedule_line (label : string) (unlock : Z) (o : TxOutput) : VestingLine := {|
  line_label := label; unlock_height := unlock; line_atoms := value_atoms o; spk_hex := hex_encode (script_pubkey o) |}.

(** One iteration of the loop over the tranches. *)
Definition tranche_amount (vested_total tranches i : Z) : Z :=
  let per := vested_total / tranches in
  if i =? tranches - 1 then sub64 vested_total (mul64 per (tranches - 1)) else per.
Definition tranche_unlock (start_height interval i : Z) : Z := add64 start_height (mul64 i interval).
Definition tranche_output (rcpt_hash : bytes) (vested_total tranches start_height interval i : Z) : TxOutput := {|
  value_atoms := tranche_amount vested_total tranches i;
  script_pubkey := cltv_p2pkh_script (tranche_unlock start_height interval i) rcpt_hash |}.

Definition vesting_outputs (rcpt_spk : bytes) (total_atoms start_height tranches interval liquid_bps : Z) :
    list TxOutput * list VestingLine :=
  let liquid := sat_mul64 total_atoms liquid_bps / 10000 in
  let vested_total := sub64 total_atoms liquid in
  let rcpt_hash := slice 3 23 rcpt_spk in
  let liquid_output := {| value_atoms := liquid; script_pubkey := rcpt_spk |} in
  let output_at := tranche_output rcpt_hash vested_total tranches start_height interval in
  let indices := seqZ 0 tranches in
  ((if 0 <? liquid then [liquid_output] else []) ++ (output_at <$> indices),
   (if 0 <? liquid then [schedule_line "liquid" 0 liquid_output] else [])
     ++ ((λ i, schedule_line ("tranche " +:+ dec_string (i + 1)) (tranche_unlock start_height interval i) (output_at i))
           <$> indices)).

Definition build_signed_vesting_via_rpc (wallet : WalletId) (keypair : WalletKeypair)
    (utxos : result string (list RpcUtxo)) (recipient : string)
    (total_atoms fee_atoms start_height tranches interval liquid_bps : Z) :
    result string (Transaction * list VestingLine) :=
  reject_if (tranches =? 0) "tranches must be >= 1"%string;;
  reject_if (10000 <? liquid_bps) "liquid_bps must be <= 10000"%string;;
  rcpt_spk ← script_of recipient "invalid recipient address";
  utxos ← utxos;
  '(selected, selected_atoms) ← select_funds "bad txid len" "insufficient mature balance" (sat_add64 total_atoms fee_atoms) utxos;
  let '(outs, schedule) := vesting_outputs rcpt_spk total_atoms start_height tranches interval liquid_bps in
  outs ← push_change (sub64 (sub64 selected_atoms total_atoms) fee_atoms)
           (script_of (wallet_address wallet) "bad wallet addr") outs;
  tx ← signed keypair (payment (unsigned_input <$> selected) outs);
  Ok (tx, schedule).

(** ** Asset transactions *)

Definition build_asset_outputs (op : AssetOp) (dest : option (string * Z)) (change_addr : string)
    (total_in fee_atoms : Z) : result string (list TxOutput) :=
  map_err (build_outputs op dest change_addr total_in fee_atoms) asset_error_text.

Definition build_asset_tx_via_rpc (wallet : WalletId) (keypair : WalletKeypair)
    (utxos : result string (list RpcUtxo)) (op : AssetOp) (dest : option (string * Z)) (fee_atoms : Z) :
    result string Transaction :=
  utxos ← utxos;
  '(selected, total_in) ← select_funds "invalid txid length from RPC" "insufficient mature balance via RPC"
                             (sat_add64 (match dest with Some (_, a) => a | None => 0 end) fee_atoms) utxos;
  outs ← build_asset_outputs op dest (wallet_address wallet) total_in fee_atoms;
  signed keypair (payment (unsigned_input <$> selected) outs).

(** [fetch_mature_utxos] *)
Definition fetch_mature_utxos (utxos : result string (list RpcUtxo)) : result string (list (OutPoint * Z)) :=
  utxos ← utxos;
  mapM (λ u, hash ← hash_of_slice "invalid txid length from RPC" (txid_bytes u);
             Ok ({| txid := hash; output_index := rpc_index u |}, rpc_value u))
       (filter (λ u, mature u = true) utxos).

(** The loop of [build_unsigned_asset_tx]. *)
Fixpoint select_fee (fee_atoms : Z) (utxos : list (OutPoint * Z)) (selected : list OutPoint) (total_in : Z) :
    list OutPoint * Z :=
  match utxos with
  | [] => (selected, total_in)
  | (o, v) :: utxos =>
      let selected := selected ++ [o] in
      let total_in := sat_add64 total_in v in
      if fee_atoms <=? total_in then (selected, total_in) else select_fee fee_atoms utxos selected total_in
  end.

Definition build_unsigned_asset_tx (op : AssetOp) (creator_addr : string) (utxos : list (OutPoint * Z))
    (fee_atoms : Z) : result string Transaction :=
  let '(selected, total_in) := select_fee fee_atoms utxos [] 0 in
  reject_if (total_in <? fee_atoms) "insufficient mature balance"%string;;
  outs ← build_asset_outputs op None creator_addr total_in fee_atoms;
  Ok (payment (unsigned_input <$> selected) outs).

(** ** Script spends *)

Definition build_unsigned_multisig_tx (utxos : result string (list RpcUtxo)) (scriptpubkey_hex dest_addr : string)
    (amount_atoms : Z) : result string Transaction :=
  reject_if (amount_atoms =? 0) "amount_atoms must be greater than zero"%string;;
  utxos ← utxos;
  '(selected, selected_atoms) ← select_funds "invalid txid from RPC" "insufficient balance"
                                   (sat_add64 amount_atoms MIN_RELAY_FEE_ATOMS) utxos;
  dest_script ← script_of dest_addr "invalid destination address";
  source_script ← ok_or (hex_decode scriptpubkey_hex) "invalid scriptpubkey hex"%string;
  outs ← push_change (sub64 (sub64 selected_atoms amount_atoms) MIN_RELAY_FEE_ATOMS) (Ok source_script)
           [ {| value_atoms := amount_atoms; script_pubkey := dest_script |} ];
  Ok (payment (unsigned_input <$> selected) outs).

Definition build_unsigned_htlc_spend (utxos : result string (list RpcUtxo)) (dest_addr : string) :
    result string Transaction :=
  utxos ← utxos;
  u ← ok_or (List.find mature utxos) "no mature UTXO found for this HTLC script"%string;
  reject_if (rpc_value u <=? MIN_RELAY_FEE_ATOMS) "HTLC value is too small to cover minimum relay fee"%string;;
  hash ← hash_of_slice "invalid txid from RPC" (txid_bytes u);
  dest_script ← script_of dest_addr "invalid destination address";
  Ok (payment [unsigned_input {| txid := hash; output_index := rpc_index u |}]
        [ {| value_atoms := sub64 (rpc_value u) MIN_RELAY_FEE_ATOMS; script_pubkey := dest_script |} ]).

(** [copy_from_slice] of 20 bytes of a P2PKH script. *)
Definition address_to_hash20 (addr : string) : result string bytes :=
  script ← script_of addr "invalid address";
  Ok (slice 3 23 script).

(** The same unlocking script on every input, and the id refreshed. *)
Definition with_script_sig (script_sig : bytes) (tx : Transaction) : Transaction :=
  refresh_id (set_inputs (set_script script_sig <$> inputs tx) tx).

(** ** Settlements *)

Record AssetOrder := {
  asset_id_hex : string; order_amount : Z; order_price_atoms : Z; order_seller_addr : string;
  seller_txid_hex : string; seller_vout : Z; seller_value : Z }.

(** [hex::decode(s)?.as_slice().try_into()?] into 32 bytes. *)
Definition hex32 (bad_hex bad_length s : string) : result string bytes :=
  bs ← ok_or (hex_decode s) bad_hex;
  if (length bs =? 32)%nat then Ok bs else Err bad_length.

Record UnsignedSettlement := {
  settlement_tx : Transaction; settlement_terms : SettlementTerms; seller_indices : list nat; buyer_indices : list nat }.

(** The terms and the seller's input of an order. *)
Definition order_terms (order : AssetOrder) (buyer_addr : string) (royalty_bps : Z) (royalty_addr : string)
    (asset_id : bytes) : SettlementTerms := {|
  terms_asset_id := asset_id; terms_amount := order_amount order; price_atoms := order_price_atoms order;
  terms_royalty_bps := royalty_bps; terms_royalty_addr := royalty_addr; seller_addr := order_seller_addr order;
  buyer_addr := buyer_addr; miner_fee_atoms := MIN_RELAY_FEE_ATOMS |}.
Definition order_input (order : AssetOrder) : result string (OutPoint * Z) :=
  h ← hex32 "bad seller txid hex" "seller txid must be 32 bytes" (seller_txid_hex order);
  Ok ({| txid := mkHash h; output_index := seller_vout order |}, seller_value order).

(** [build_settlement_tx(..)?] and the check of its result. *)
Definition checked_settlement (terms : SettlementTerms) (seller_input : OutPoint * Z)
    (buyer_inputs : list (OutPoint * Z)) : result string Transaction :=
  tx ← map_err (build_settlement_tx terms seller_input buyer_inputs) settlement_error_text;
  reject_if (negb (length (verify_settlement tx terms) =? 0)%nat) "built settlement failed verify"%string;;
  Ok tx.

Definition build_unsigned_settlement (order : AssetOrder) (buyer_addr : string)
    (buyer_inputs : list (OutPoint * Z)) (royalty_bps : Z) (royalty_addr : string) :
    result string UnsignedSettlement :=
  asset_id ← hex32 "bad asset_id hex" "asset_id must be 32 bytes" (asset_id_hex order);
  let terms := order_terms order buyer_addr royalty_bps royalty_addr asset_id in
  seller_input ← order_input order;
  tx ← checked_settlement terms seller_input buyer_inputs;
  Ok {| settlement_tx := tx; settlement_terms := terms; seller_indices := [0%nat];
        buyer_indices := seq 1 (length (inputs tx) - 1) |}.
End Builders.
