(* ===== verification/CliWallet.v ===== *)
(** * The command-line wallet: the encrypted key file ([WalletFile] in [txmwallet/src/main.rs])

    [argon2] and [chacha20poly1305] are parameters: the class [WalletCipher] with the
    laws [CipherLaws]. Random bytes are arguments. A command returns a value, an
    error text, or panics: the monad [command]. *)

From S2P Require Import Prelude Crypto Wallet AssetCodec Cli.

Local Open Scope Z_scope.

(** ** The monad of the commands *)
Definition command (A : Type) : Type := outcome (result string A).
#[export] Instance command_ret : MRet command := λ A a, Done (Ok a).
#[export] Instance command_bind : MBind command := λ A B f m,
  match m with Done (Ok a) => f a | Done (Err e) => Done (Err e) | Panic => Panic end.
(** [expr?] for a [Result], and a call that may panic. *)
Definition try {A} (r : result string A) : command A := Done r.
Definition may_panic {A} (o : outcome A) : command A := match o with Done a => Done (Ok a) | Panic => Panic end.
(** [if c { return Err(e) }] *)
Definition fail_if (c : bool) (e : string) : command () := Done (reject_if c e).

(** ** Third-party ciphers *)
Class WalletCipher := {
  (** [Params::new(memory, iterations, parallelism, Some(32)).is_ok()] *)
  argon2_params : Z -> Z -> Z -> bool;
  (** [Argon2::hash_password_into] with the three parameters, the passphrase and the salt *)
  argon2id : Z -> Z -> Z -> bytes -> bytes -> option bytes;
  (** [XChaCha20Poly1305::encrypt] and [decrypt] with a key and a 24-byte nonce *)
  xchacha_encrypt : bytes -> bytes -> bytes -> option bytes;
  xchacha_decrypt : bytes -> bytes -> bytes -> option bytes;
}.

Definition ARGON2_MEMORY_KIB : Z := 19 * 1024.
Definition ARGON2_ITERATIONS : Z := 3.
Definition ARGON2_PARALLELISM : Z := 1.

Class CipherLaws (C : WalletCipher) : Prop := {
  (** the parameters the wallet uses are accepted, with its 16-byte salts *)
  argon2_default_params : argon2_params ARGON2_MEMORY_KIB ARGON2_ITERATIONS ARGON2_PARALLELISM = true;
  argon2_default_hash pass salt :
    length salt = 16%nat ->
    is_Some (argon2id ARGON2_MEMORY_KIB ARGON2_ITERATIONS ARGON2_PARALLELISM pass salt);
  (** a short plaintext is encrypted to bytes, and decrypted with the same key and nonce *)
  xchacha_encrypts key nonce pt :
    length nonce = 24%nat -> bytes_ok pt -> (length pt <= 1024)%nat ->
    exists ct, xchacha_encrypt key nonce pt = Some ct /\ bytes_ok ct /\ xchacha_decrypt key nonce ct = Some pt;
}.

Record EncryptedPrivateKey := {
  kdf : string; kdf_memory_kib : Z; kdf_iterations : Z; kdf_parallelism : Z; cipher : string;
  salt_hex : string; nonce_hex : string; ciphertext_hex : string }.
Record WalletFile := {
  version : Z; wf_address : string; wf_public_key_hex : string; encrypted_private_key : EncryptedPrivateKey }.

Definition wallet_id (wallet : WalletFile) : WalletId := {|
  wallet_address := wf_address wallet; wallet_public_key_hex := wf_public_key_hex wallet |}.

Section WalletFile.
Context `{Crypto} `{WalletCipher}.

Definition derive_key (passphrase : string) (salt : bytes) (memory_kib iterations parallelism : Z) :
    result string bytes :=
  reject_if (negb (argon2_params memory_kib iterations parallelism)) "invalid Argon2 params"%string;;
  ok_or (argon2id memory_kib iterations parallelism (bytes_of_string passphrase) salt)
    "Argon2 key derivation failed"%string.

Definition encrypt (salt nonce : bytes) (keypair : WalletKeypair) (passphrase : string) : result string WalletFile :=
  key ← derive_key passphrase salt ARGON2_MEMORY_KIB ARGON2_ITERATIONS ARGON2_PARALLELISM;
  ciphertext ← ok_or (xchacha_encrypt key nonce (bytes_of_string (private_key_hex keypair)))
                 "wallet encryption failed"%string;
  Ok {| version := 2; wf_address := address keypair; wf_public_key_hex := public_key_hex keypair;
        encrypted_private_key := {|
          kdf := "argon2id"; kdf_memory_kib := ARGON2_MEMORY_KIB; kdf_iterations := ARGON2_ITERATIONS;
          kdf_parallelism := ARGON2_PARALLELISM; cipher := "xchacha20poly1305";
          salt_hex := hex_encode salt; nonce_hex := hex_encode nonce; ciphertext_hex := hex_encode ciphertext |} |}.

(** [XNonce::from_slice] panics on a slice that has not 24 bytes. *)
Definition decrypt (self : WalletFile) (passphrase : string) : command WalletKeypair :=
  let e := encrypted_private_key self in
  fail_if (negb (bool_decide (kdf e = "argon2id"%string))) "unsupported wallet KDF";;
  fail_if (negb (bool_decide (cipher e = "xchacha20poly1305"%string))) "unsupported wallet cipher";;
  salt ← try (ok_or (hex_decode (salt_hex e)) "invalid wallet salt"%string);
  nonce ← try (ok_or (hex_decode (nonce_hex e)) "invalid wallet nonce"%string);
  ciphertext ← try (ok_or (hex_decode (ciphertext_hex e)) "invalid wallet ciphertext"%string);
  key ← try (derive_key passphrase salt (kdf_memory_kib e) (kdf_iterations e) (kdf_parallelism e));
  may_panic (if (length nonce =? 24)%nat then Done () else Panic);;
  plaintext ← try (ok_or (xchacha_decrypt key nonce ciphertext)
                     "wallet passphrase is incorrect or wallet is corrupted"%string);
  private_key_hex ← try (ok_or (from_utf8 plaintext) "wallet plaintext is invalid UTF-8"%string);
  keypair ← may_panic (from_private_key_hex private_key_hex);
  keypair ← try (map_err keypair wallet_error_text);
  fail_if (negb (bool_decide (address keypair = wf_address self))) "wallet address does not match decrypted key";;
  mret keypair.

(** ** The environment of a command *)

(** [passphrase_from_env] *)
Definition passphrase_from_env (var : option string) : result string string :=
  passphrase ← ok_or var "set TENSORIUM_WALLET_PASSPHRASE first"%string;
  reject_if (String.length passphrase <? 8)%nat "wallet passphrase must be at least 8 characters"%string;;
  Ok passphrase.

(** The passphrase, the wallet file and the key, in the order the commands read them.
    [var] is the variable [TENSORIUM_WALLET_PASSPHRASE], [file] what [load_wallet] returns. *)
Definition unlock (var : option string) (file : result string WalletFile) : command (WalletFile * WalletKeypair) :=
  passphrase ← try (passphrase_from_env var);
  wallet ← try file;
  keypair ← decrypt wallet passphrase;
  mret (wallet, keypair).

(** [rekey]: the new wallet file; [new_var] is [TENSORIUM_WALLET_NEW_PASSPHRASE]. The backup
    copy of the old file is not modelled. *)
Definition rekey (var new_var : option string) (file : result string WalletFile) (salt nonce : bytes) :
    command WalletFile :=
  old_pass ← try (passphrase_from_env var);
  new_pass ← try (ok_or new_var "set TENSORIUM_WALLET_NEW_PASSPHRASE to the new passphrase"%string);
  fail_if (String.length new_pass <? 8)%nat "new passphrase must be at least 8 characters";;
  fail_if (bool_decide (new_pass = old_pass)) "new passphrase is the same as the current one";;
  wallet ← try file;
  keypair ← decrypt wallet old_pass;
  try (encrypt salt nonce keypair new_pass).

(** [create], on a key [generate] made. *)
Definition create (exists_ : bool) (var : option string) (keypair : WalletKeypair) (salt nonce : bytes) :
    command WalletFile :=
  fail_if exists_ "wallet already exists";;
  passphrase ← try (passphrase_from_env var);
  try (encrypt salt nonce keypair passphrase).
End WalletFile.

(** * The wallet file keeps the key *)

From S2P Require Import Numeral Hash Chain ScriptVM ScriptStandard Block Utxo.

(** ** The commands step by step *)

Lemma command_bind_Ok {A B} (c : command A) a (f : A -> command B) : c = Done (Ok a) -> (c ≫= f) = f a.
Proof. by intros ->. Qed.
Lemma try_Ok {A B} (a : A) (f : A -> command B) : (try (Ok a) ≫= f) = f a.
Proof. done. Qed.
Lemma fail_if_false {B} e (f : () -> command B) : (fail_if false e ≫= f) = f ().
Proof. done. Qed.

(** ** ASCII text is valid UTF-8 *)

Lemma utf8_char_ascii b bs : 0 <= b < 128 -> utf8_char (b :: bs) = inl 1%nat.
Proof. intros Hb. unfold utf8_char. cbn [nth]. by rewrite (proj2 (Z.ltb_lt b 128)) by lia. Qed.

Lemma utf8_valid_ascii fuel bs : Forall (λ b, 0 <= b < 128) bs -> utf8_valid fuel bs = true.
Proof.
  intros Hb; revert fuel; induction Hb as [|b bs Hb _ IH]; intros [|fuel]; try done.
  cbn [utf8_valid]. rewrite utf8_char_ascii by done. apply IH.
Qed.

Lemma from_utf8_ascii s : Forall (λ b, 0 <= b < 128) (bytes_of_string s) -> from_utf8 (bytes_of_string s) = Some s.
Proof. intros Hs. unfold from_utf8. rewrite utf8_valid_ascii by done. by rewrite string_of_bytes_of_string. Qed.

Lemma hex_lower_ascii bs : bytes_ok bs -> Forall (λ b, 0 <= b < 128) (bytes_of_string (hex_lower bs)).
Proof.
  assert (forall n, 0 <= n < 16 -> 0 <= byte_of_ascii (hex_digit n) < 128) as Hd.
  { intros n Hn. unfold hex_digit. destruct (Z.ltb_spec n 10); rewrite byte_of_ascii_of_byte; unfold is_u8; lia. }
  induction 1 as [|b bs Hb _ IH]; [constructor|]. cbn [hex_lower].
  change (bytes_of_string (String (hex_digit (b / 16)) (String (hex_digit (b mod 16)) (hex_lower bs))))
    with (byte_of_ascii (hex_digit (b / 16)) :: byte_of_ascii (hex_digit (b mod 16)) :: bytes_of_string (hex_lower bs)).
  unfold is_u8 in Hb. apply Forall_cons; split; [apply Hd|apply Forall_cons; split; [apply Hd|done]].
  - split; [apply Z.div_pos; lia|apply Z.div_lt_upper_bound; lia].
  - apply Z.mod_pos_bound. lia.
Qed.

Section File.
Context `{Crypto} `{!CryptoLaws _} `{WalletCipher} `{!CipherLaws _}.

(** What [encrypt] makes of a key pair is decrypted with the same passphrase. *)
Lemma decrypt_encrypt kp sk salt nonce pass :
  made_from kp sk -> bytes_ok salt -> length salt = 16%nat -> bytes_ok nonce -> length nonce = 24%nat ->
  exists f, encrypt salt nonce kp pass = Ok f /\ wf_address f = address kp /\ wf_public_key_hex f = public_key_hex kp
    /\ decrypt f pass = Done (Ok kp).
Proof.
  intros Hk Hs Hsl Hn Hnl.
  assert (exists bs, private_key_hex kp = hex_lower bs /\ bytes_ok bs /\ length bs = 32%nat) as (bs & Hhex & Hbs & Hlen).
  { unfold made_from, from_signing_key in Hk. destruct (address_from_public_key _); [|done]. injection Hk as <-.
    exists (secret_to_bytes sk). cbn [private_key_hex]. rewrite hex_encode_lower.
    split_and!; [done|apply secret_bytes_ok|apply secret_bytes_length]. }
  destruct (argon2_default_hash (bytes_of_string pass) salt Hsl) as [key Hkey].
  assert (derive_key pass salt ARGON2_MEMORY_KIB ARGON2_ITERATIONS ARGON2_PARALLELISM = Ok key) as Hder.
  { unfold derive_key. rewrite argon2_default_params, Hkey. done. }
  destruct (xchacha_encrypts key nonce (bytes_of_string (private_key_hex kp)) Hnl) as (ct & Henc & Hct & Hdec).
  { apply bytes_of_string_ok. }
  { rewrite Hhex, length_bytes_of_string, length_hex_lower, Hlen. lia. }
  unfold encrypt. rewrite Hder. cbn [mbind result_bind]. rewrite Henc. cbn [ok_or mbind result_bind].
  eexists. split; [reflexivity|]. split; [done|]. split; [done|].
  unfold decrypt. cbn [encrypted_private_key kdf cipher salt_hex nonce_hex ciphertext_hex kdf_memory_kib kdf_iterations kdf_parallelism wf_address].
  rewrite !bool_decide_true by done. rewrite !hex_roundtrip by done.
  unfold fail_if, try, may_panic, mbind, command_bind. cbn [negb reject_if ok_or]. rewrite Hder, Hnl, Nat.eqb_refl, Hdec.
  cbn [ok_or]. rewrite from_utf8_ascii by (rewrite Hhex; by apply hex_lower_ascii). cbn [ok_or].
  rewrite (restore_key kp sk Hk). cbn [map_err]. by rewrite bool_decide_true.
Qed.

(** What a command unlocks with. *)
Lemma unlock_encrypted kp sk salt nonce pass f :
  made_from kp sk -> bytes_ok salt -> length salt = 16%nat -> bytes_ok nonce -> length nonce = 24%nat ->
  encrypt salt nonce kp pass = Ok f -> (8 <= String.length pass)%nat ->
  unlock (Some pass) (Ok f) = Done (Ok (f, kp)).
Proof.
  intros Hk Hs Hsl Hn Hnl Hf Hp. destruct (decrypt_encrypt kp sk salt nonce pass Hk Hs Hsl Hn Hnl) as (f' & Hf' & _ & _ & Hd).
  assert (f' = f) as -> by congruence.
  unfold unlock, passphrase_from_env, try, mbind, command_bind. cbn [ok_or mbind result_bind].
  rewrite (proj2 (Nat.ltb_ge _ _)) by lia. cbn [reject_if result_bind]. by rewrite Hd.
Qed.
End File.

(** The wallet file keeps the key. A wallet created with a passphrase is unlocked with it
    to the same key pair; rotating the passphrase leaves a file for the same address and public
    key that the new passphrase unlocks to the same key pair. *)
Theorem rekey_keeps_key `{Crypto} `{!CryptoLaws _} `{WalletCipher} `{!CipherLaws _} kp sk salt nonce salt' nonce' pass pass' :
  from_signing_key sk = Done kp ->
  bytes_ok salt -> length salt = 16%nat -> bytes_ok nonce -> length nonce = 24%nat ->
  bytes_ok salt' -> length salt' = 16%nat -> bytes_ok nonce' -> length nonce' = 24%nat ->
  (8 <= String.length pass)%nat -> (8 <= String.length pass')%nat -> pass <> pass' ->
  exists f f', create false (Some pass) kp salt nonce = Done (Ok f)
    /\ unlock (Some pass) (Ok f) = Done (Ok (f, kp))
    /\ rekey (Some pass) (Some pass') (Ok f) salt' nonce' = Done (Ok f')
    /\ wallet_id f' = wallet_id f /\ unlock (Some pass') (Ok f') = Done (Ok (f', kp)).
Proof.
  intros Hk Hs Hsl Hn Hnl Hs' Hsl' Hn' Hnl' Hp Hp' Hne.
  destruct (decrypt_encrypt kp sk salt nonce pass Hk Hs Hsl Hn Hnl) as (f & Hf & Ha & Hpk & Hd).
  destruct (decrypt_encrypt kp sk salt' nonce' pass' Hk Hs' Hsl' Hn' Hnl') as (f' & Hf' & Ha' & Hpk' & _).
  exists f, f'. split_and!.
  - unfold create, fail_if, try, passphrase_from_env, mbind, command_bind. cbn [reject_if ok_or mbind result_bind].
    rewrite (proj2 (Nat.ltb_ge _ _)) by lia. cbn [reject_if result_bind]. by rewrite Hf.
  - by apply (unlock_encrypted kp sk salt nonce).
  - unfold rekey, fail_if, try, passphrase_from_env, mbind, command_bind. cbn [ok_or mbind result_bind].
    rewrite !(proj2 (Nat.ltb_ge _ _)) by lia. cbn [reject_if result_bind].
    rewrite bool_decide_false by congruence. cbn [reject_if]. by rewrite Hd, Hf'.
  - unfold wallet_id. congruence.
  - by apply (unlock_encrypted kp sk salt' nonce').
Qed.

(** ** A toy cipher for the witnesses *)

(** The key is the salt's, the ciphertext the plaintext. *)
Definition toy_cipher : WalletCipher := {|
  argon2_params := λ _ _ _, true;
  argon2id := λ _ _ _ pass salt, Some (take 32 (pass ++ salt));
  xchacha_encrypt := λ key _ pt, Some pt;
  xchacha_decrypt := λ key _ ct, Some ct;
|}.

Lemma toy_cipher_laws : CipherLaws toy_cipher.
Proof. split; [done|by eauto|]. intros key nonce pt _ Hpt _. by exists pt. Qed.

Lemma rekey_keeps_key_witness :
  exists f f', create (H := toy_crypto) (H0 := toy_cipher) false (Some "old password") (Parties.wallet toy_key)
      (replicate 16 1) (replicate 24 2) = Done (Ok f)
    /\ rekey (H := toy_crypto) (H0 := toy_cipher) (Some "old password") (Some "new password") (Ok f)
         (replicate 16 3) (replicate 24 4) = Done (Ok f')
    /\ unlock (H := toy_crypto) (H0 := toy_cipher) (Some "new password") (Ok f') = Done (Ok (f', Parties.wallet toy_key)).
Proof.
  destruct (@rekey_keeps_key toy_crypto toy_laws toy_cipher toy_cipher_laws (Parties.wallet toy_key) toy_key
    (replicate 16 1) (replicate 24 2) (replicate 16 3) (replicate 24 4) "old password" "new password")
    as (f & f' & H1 & _ & H2 & _ & H3); [apply Parties.wallet_made|by_compute..|].
  by exists f, f'.
Defined.
