(* ===== verification/CliCommands.v ===== *)
(** * The command-line wallet: the commands ([run] in [txmwallet/src/main.rs])

    A command reads its arguments [args] (the program's name first), the passphrase, the
    wallet file and the files named on the command line, and asks the node and the
    indexer; what they answer is in [World]. Its result is what it writes or posts. The
    errors are in the order of the code. Printing and the names of written files are not
    modelled. *)

From S2P Require Import Prelude Numeral Crypto Hash Chain ScriptVM ScriptStandard Block Utxo Mempool State AssetCodec Settlement Wallet Cli CliWallet.

Local Open Scope Z_scope.

Definition ASSET_CARRIER_ATOMS : Z := 1000.

(** The answers of the node and the indexer, already parsed. *)
Record World := {
  passphrase_var : option string;
  wallet_file : result string WalletFile;
  get_utxos : string -> result string (list RpcUtxo);
  get_tip_height : result string Z;
  (** [/asset/<id>] of the indexer: the royalty's share and address *)
  get_asset_info : string -> result string (Z * string);
  (** [/sendrawtransaction] *)
  send_raw : Transaction -> result string string;
}.

(** [args.get(i).ok_or(err)?] and its parsed forms. *)
Definition arg (args : list string) (i : nat) (missing : string) : result string string := ok_or (args !! i) missing.
Definition arg_parsed {A} (parse : string -> option A) (args : list string) (i : nat) (missing bad : string) :
    result string A :=
  s ← arg args i missing; ok_or (parse s) bad.

(** [args.get(5..).map(|s| s.join(" ")).unwrap_or_default()] *)
Definition join_words (args : list string) : string := String.concat " " (drop 5 args).

(** The position of a flag. *)
Definition position (flag : string) (args : list string) : option nat :=
  fst <$> list_find (λ a, a = flag) args.

(** *** Multisig files *)
Record MultisigSig := { input_index : nat; der_sig_hex : string }.
Record MultisigSigFile := { unsigned_txid : string; sigs : list MultisigSig }.
Record SettlementFile := { file_tx : Transaction; file_terms : SettlementTerms }.

(** The arguments of [multisig-combine] after the transaction: the [--redeem] value and the files. *)
Fixpoint parse_combine_args (args : list string) (redeem_hex : option string) (paths : list string) :
    result string (option string * list string) :=
  match args with
  | [] => Ok (redeem_hex, paths)
  | a :: args =>
      if bool_decide (a = "--redeem"%string) then
        match args with
        | [] => Err "--redeem requires a hex value"%string
        | v :: args => parse_combine_args args (Some v) paths
        end
      else parse_combine_args args redeem_hex (paths ++ [a])
  end.

(** The loop that collects buyer inputs; the sum wraps. *)
Fixpoint fund_buyer (need : Z) (utxos : list (OutPoint * Z)) (buyer_inputs : list (OutPoint * Z)) (total : Z) :
    list (OutPoint * Z) * Z :=
  match utxos with
  | [] => (buyer_inputs, total)
  | (op, v) :: utxos =>
      let buyer_inputs := buyer_inputs ++ [(op, v)] in
      let total := add64 total v in
      if need <=? total then (buyer_inputs, total) else fund_buyer need utxos buyer_inputs total
  end.

(** [utxos.into_iter().min_by_key(|(_, v)| *v)]: the first of the smallest. *)
Fixpoint min_by_value (best : OutPoint * Z) (utxos : list (OutPoint * Z)) : OutPoint * Z :=
  match utxos with
  | [] => best
  | u :: utxos => min_by_value (if u.2 <? best.2 then u else best) utxos
  end.

Section Commands.
Context `{Crypto} `{WalletCipher} `{!IterOrder OutPoint UtxoEntry}.

Definition unlocked (w : World) : command (WalletFile * WalletKeypair) := unlock (passphrase_var w) (wallet_file w).
Definition own_utxos (w : World) (wallet : WalletFile) : result string (list RpcUtxo) := get_utxos w (wf_address wallet).

(** ** [send] *)
Definition send_fee (args : list string) : result string Z :=
  if bool_decide ("--priority"%string ∈ args) then Ok PRIORITY_FEE_ATOMS
  else
    match position "--fee" args with
    | Some pos => arg_parsed parse_u64 args (pos + 1) "--fee requires a value in atoms"
                    "--fee value must be a positive integer (atoms)"
    | None => Ok MIN_RELAY_FEE_ATOMS
    end.

(** [state] is what [load_state] returns. *)
Definition cmd_send (args : list string) (w : World) (state : result string ChainState) : command Transaction :=
  to_address ← try (arg args 2 "usage: txmwallet send <to_address> <amount_atoms> [--fee <atoms>|--priority]");
  amount_atoms ← try (arg_parsed parse_u64 args 3
                        "usage: txmwallet send <to_address> <amount_atoms> [--fee <atoms>|--priority]"
                        "invalid amount_atoms");
  fee_atoms ← try (send_fee args);
  '(wallet, keypair) ← unlocked w;
  match build_signed_payment_via_rpc (wallet_id wallet) keypair (own_utxos w wallet) to_address amount_atoms fee_atoms with
  | Ok tx => mret tx
  | Err _ =>
      state ← try (map_err state (λ _, "RPC path failed; state load failed"%string));
      try (map_err (build_signed_payment (wallet_id wallet) keypair state to_address amount_atoms fee_atoms)
             (λ _, "RPC path failed; local-state fallback failed"%string))
  end.

(** ** Asset commands *)
Definition send_asset_op (w : World) (op : AssetOp) (dest : option (string * Z)) : command Transaction :=
  '(wallet, keypair) ← unlocked w;
  try (build_asset_tx_via_rpc (wallet_id wallet) keypair (own_utxos w wallet) op dest MIN_RELAY_FEE_ATOMS).

Definition cmd_asset_issue (args : list string) (w : World) : command Transaction :=
  ticker ← try (arg args 2 "usage: txmwallet asset-issue <ticker> <decimals> <supply> <name...>");
  decimals ← try (arg_parsed parse_u8 args 3 "missing decimals" "decimals must be 0-18");
  supply ← try (arg_parsed parse_u64 args 4 "missing supply" "supply must be a positive integer");
  send_asset_op w (Issue {| ticker := ticker; decimals := decimals; supply := supply;
                            asset_name := join_words args; flags := 0 |}) None.

Definition cmd_asset_mint (args : list string) (w : World) : command Transaction :=
  royalty_bps ← try (arg_parsed parse_u16 args 2
    "usage: txmwallet asset-mint <royalty_bps> <royalty_addr> <content_hash_hex> <uri...>" "royalty_bps must be 0-10000");
  fail_if (10000 <? royalty_bps) "royalty_bps must be 0-10000";;
  royalty_addr ← try (arg args 3 "missing royalty_addr");
  content_hash_hex ← try (arg args 4 "missing content_hash_hex");
  content_hash ← try (hex32 "content_hash_hex must be hex" "content_hash must be 32 bytes (64 hex chars)" content_hash_hex);
  send_asset_op w (NftMint {| collection_id := replicate 32 0; royalty_bps := royalty_bps; royalty_addr := royalty_addr;
                              uri := join_words args; content_hash := content_hash |}) None.

Definition cmd_asset_transfer (args : list string) (w : World) : command Transaction :=
  asset_id_hex ← try (arg args 2 "usage: txmwallet asset-transfer <asset_id_hex> <amount> <to_address>");
  asset_id ← try (hex32 "asset_id_hex must be hex" "asset_id must be 32 bytes (64 hex chars)" asset_id_hex);
  amount ← try (arg_parsed parse_u64 args 3 "missing amount" "amount must be a positive integer");
  to_address ← try (arg args 4 "missing to_address");
  send_asset_op w (Transfer {| asset_id := asset_id; amount := amount; dest_output_index := 0 |})
    (Some (to_address, ASSET_CARRIER_ATOMS)).

Definition cmd_asset_build_issue (args : list string) (w : World) : result string Transaction :=
  ticker ← arg args 2 "usage: txmwallet asset-build-issue <ticker> <decimals> <supply> <name> <creator_addr>";
  decimals ← arg_parsed parse_u8 args 3 "missing decimals" "decimals must be 0-18";
  supply ← arg_parsed parse_u64 args 4 "missing supply" "supply must be a positive integer";
  name ← arg args 5 "missing name";
  creator_addr ← arg args 6 "missing creator_addr";
  utxos ← fetch_mature_utxos (get_utxos w creator_addr);
  build_unsigned_asset_tx (Issue {| ticker := ticker; decimals := decimals; supply := supply; asset_name := name; flags := 0 |})
    creator_addr utxos MIN_RELAY_FEE_ATOMS.

Definition cmd_asset_build_mint (args : list string) (w : World) : result string Transaction :=
  royalty_bps ← arg_parsed parse_u16 args 2
    "usage: txmwallet asset-build-mint <royalty_bps> <royalty_addr> <content_hash_hex> <uri> <creator_addr>"
    "royalty_bps must be 0-10000";
  reject_if (10000 <? royalty_bps) "royalty_bps must be 0-10000"%string;;
  royalty_addr ← arg args 3 "missing royalty_addr";
  content_hash_hex ← arg args 4 "missing content_hash_hex";
  content_hash ← hex32 "content_hash_hex must be hex" "content_hash must be 32 bytes (64 hex chars)" content_hash_hex;
  uri ← arg args 5 "missing uri";
  creator_addr ← arg args 6 "missing creator_addr";
  utxos ← fetch_mature_utxos (get_utxos w creator_addr);
  build_unsigned_asset_tx (NftMint {| collection_id := replicate 32 0; royalty_bps := royalty_bps;
      royalty_addr := royalty_addr; uri := uri; content_hash := content_hash |}) creator_addr utxos MIN_RELAY_FEE_ATOMS.

(** ** The marketplace *)
Definition cmd_asset_sell (args : list string) (w : World) : result string AssetOrder :=
  asset_id_hex ← arg args 2 "usage: txmwallet asset-sell <asset_id_hex> <amount> <price_atoms>";
  reject_if (negb (match hex_decode asset_id_hex with Some b => length b | None => 0 end =? 32)%nat)
    "asset_id must be 32 bytes (64 hex chars)"%string;;
  amount ← arg_parsed parse_u64 args 3 "missing amount" "amount must be a positive integer";
  price_atoms ← arg_parsed parse_u64 args 4 "missing price_atoms" "price_atoms must be a positive integer";
  wallet ← wallet_file w;
  utxos ← fetch_mature_utxos (own_utxos w wallet);
  match utxos with
  | [] => Err "no mature UTXO to anchor the sale (fund the wallet first)"%string
  | u :: utxos =>
      let '(op, value) := min_by_value u utxos in
      Ok {| asset_id_hex := asset_id_hex; order_amount := amount; order_price_atoms := price_atoms;
            order_seller_addr := wf_address wallet; seller_txid_hex := to_hex (txid op);
            seller_vout := output_index op; seller_value := value |}
  end.

(** The funding of the buyer's side; [need] wraps. *)
Definition buyer_funds (w : World) (addr : string) (price : Z) : result string (list (OutPoint * Z)) :=
  let need := add64 (add64 price CARRIER_ATOMS) MIN_RELAY_FEE_ATOMS in
  utxos ← fetch_mature_utxos (get_utxos w addr);
  let '(buyer_inputs, total) := fund_buyer need utxos [] 0 in
  reject_if (total <? need) "insufficient buyer funds"%string;;
  Ok buyer_inputs.

(** [order] is the parsed order file. *)
Definition cmd_asset_build_settlement (args : list string) (order : result string AssetOrder) (w : World) :
    result string UnsignedSettlement :=
  order_path ← arg args 2 "usage: txmwallet asset-build-settlement <order.json> <buyer_addr>";
  buyer_addr ← arg args 3 "missing buyer_addr";
  order ← order;
  '(royalty_bps, royalty_addr) ← get_asset_info w (asset_id_hex order);
  buyer_inputs ← buyer_funds w buyer_addr (order_price_atoms order);
  build_unsigned_settlement order buyer_addr buyer_inputs royalty_bps royalty_addr.

(** [keypair.sign_input(&mut tx, i).map_err(..)?] for each index in turn. *)
Fixpoint sign_inputs (keypair : WalletKeypair) (indices : list nat) (tx : Transaction) : result string Transaction :=
  match indices with
  | [] => Ok tx
  | i :: indices =>
      match sign_input keypair i tx with
      | (tx, Ok _) => sign_inputs keypair indices tx
      | (_, Err e) => Err (wallet_error_text e)
      end
  end.

Definition cmd_asset_buy (order : result string AssetOrder) (w : World) : command SettlementFile :=
  order ← try order;
  '(wallet, keypair) ← unlocked w;
  '(royalty_bps, royalty_addr) ← try (get_asset_info w (asset_id_hex order));
  asset_id ← try (hex32 "bad asset_id hex" "asset_id must be 32 bytes" (asset_id_hex order));
  let terms := order_terms order (wf_address wallet) royalty_bps royalty_addr asset_id in
  buyer_inputs ← try (buyer_funds w (wf_address wallet) (order_price_atoms order));
  seller_input ← try (order_input order);
  tx ← try (checked_settlement terms seller_input buyer_inputs);
  tx ← try (sign_inputs keypair (seq 1 (length (inputs tx) - 1)) tx);
  mret {| file_tx := tx; file_terms := terms |}.

(** The transaction it posts and the node's answer. *)
Definition cmd_asset_accept (file : result string SettlementFile) (w : World) : command (Transaction * string) :=
  file ← try file;
  fail_if (negb (length (verify_settlement (file_tx file) (file_terms file)) =? 0)%nat)
    "settlement failed verify, refusing to sign";;
  '(wallet, keypair) ← unlocked w;
  fail_if (negb (bool_decide (seller_addr (file_terms file) = wf_address wallet)))
    "this wallet is not the seller for this settlement";;
  tx ← try (sign_inputs keypair [0%nat] (file_tx file));
  resp ← try (send_raw w tx);
  mret (tx, resp).

(** ** Multisig *)
Definition decode_pubkeys (args : list string) : result string (list bytes) :=
  mapM (λ h, ok_or (hex_decode h) "invalid pubkey hex"%string) (drop 3 args).

Definition cmd_multisig_script (args : list string) : result string bytes :=
  m ← arg_parsed parse_u8 args 2 "usage: txmwallet multisig-script <m> <pubkey_hex1> ... <pubkey_hexN>"
        "invalid m: must be a number 1-16";
  pubkeys ← decode_pubkeys args;
  map_err (multisig_script m pubkeys) (λ _, "invalid multisig params"%string).

(** The redeem script, the locking script and the address. *)
Definition cmd_p2sh_multisig_script (args : list string) : command (bytes * bytes * string) :=
  m ← try (arg_parsed parse_u8 args 2 "usage: txmwallet p2sh-multisig-script <m> <pubkey_hex1> ... <pubkey_hexN>"
             "invalid m: must be a number 1-16");
  pubkeys ← try (decode_pubkeys args);
  fail_if (length pubkeys =? 0)%nat "p2sh-multisig-script requires at least one pubkey";;
  redeem ← try (map_err (multisig_script m pubkeys) (λ _, "invalid multisig params"%string));
  address ← may_panic (p2sh_address_from_redeem redeem);
  mret (redeem, p2sh_script_from_redeem redeem, address).

Definition cmd_p2sh_multisig_spend (args : list string) (w : World) : result string Transaction :=
  let usage := "usage: txmwallet p2sh-multisig-spend <p2sh_spk_hex> <dest_addr> <redeem_script_hex> <amount_atoms> [rpc]"%string in
  p2sh_spk_hex ← arg args 2 usage;
  dest_addr ← arg args 3 usage;
  redeem_hex ← arg args 4 usage;
  amount_atoms ← arg_parsed parse_u64 args 5 usage "invalid amount_atoms: must be a number";
  p2sh_spk ← ok_or (hex_decode p2sh_spk_hex) "invalid p2sh_spk_hex: must be lowercase hex"%string;
  reject_if (bool_decide (extract_p2sh_hash p2sh_spk = None)) "p2sh_spk_hex is not a valid P2SH scriptPubKey"%string;;
  redeem ← ok_or (hex_decode redeem_hex) "invalid redeem_script_hex: must be lowercase hex"%string;
  reject_if (negb (bool_decide (p2sh_script_from_redeem redeem = p2sh_spk)))
    "redeem_script_hex does not hash to the given p2sh_spk_hex"%string;;
  build_unsigned_multisig_tx (get_utxos w p2sh_spk_hex) p2sh_spk_hex dest_addr amount_atoms.

Definition cmd_send_from_script (args : list string) (w : World) : result string Transaction :=
  scriptpubkey_hex ← arg args 2 "usage: txmwallet send-from-script <scriptpubkey_hex> <dest_addr> <atoms> [tx_file] [rpc]";
  dest_addr ← arg args 3 "usage: txmwallet send-from-script <scriptpubkey_hex> <dest_addr> <atoms> [tx_file] [rpc]";
  amount_atoms ← arg_parsed parse_u64 args 4 "missing amount_atoms" "invalid amount_atoms";
  build_unsigned_multisig_tx (get_utxos w scriptpubkey_hex) scriptpubkey_hex dest_addr amount_atoms.

(** One signature of the transaction hash, listed once per input. *)
Definition cmd_multisig_sign (args : list string) (tx : result string Transaction) (w : World) :
    command MultisigSigFile :=
  tx_path ← try (arg args 2 "usage: txmwallet multisig-sign <tx_file>");
  '(wallet, keypair) ← unlocked w;
  tx ← try tx;
  der_sig ← try (map_err (sign_hash keypair (signature_hash tx)) (λ _, "sign"%string));
  mret {| unsigned_txid := hex_encode (hash_bytes (tx_id tx));
          sigs := (λ i, {| input_index := i; der_sig_hex := hex_encode der_sig |}) <$> seq 0 (length (inputs tx)) |}.

(** The signature taken from one file. *)
Definition collect_sig (expected_txid : string) (file : result string MultisigSigFile) : result string bytes :=
  sig_file ← file;
  reject_if (negb (bool_decide (unsigned_txid sig_file = expected_txid))) "sig file txid mismatch"%string;;
  sig ← ok_or (List.find (λ s, input_index s =? 0)%nat (sigs sig_file)) "no sig for input 0"%string;
  ok_or (hex_decode (der_sig_hex sig)) "invalid sig hex"%string.

(** [read_sig] reads and parses the file at a path. *)
Definition cmd_multisig_combine (args : list string) (tx : result string Transaction)
    (read_sig : string -> result string MultisigSigFile) : command Transaction :=
  tx_path ← try (arg args 2 "usage: txmwallet multisig-combine <tx_file> <sig_file1> <sig_file2> [...]");
  '(redeem_hex, paths) ← try (parse_combine_args (drop 3 args) None []);
  fail_if (length paths <? 2)%nat "multisig-combine requires at least 2 sig files";;
  tx ← try tx;
  collected ← try (mapM (λ p, collect_sig (hex_encode (hash_bytes (tx_id tx))) (read_sig p)) paths);
  script_sig ←
    match redeem_hex with
    | Some r_hex =>
        redeem ← try (ok_or (hex_decode r_hex) "invalid --redeem hex: must be lowercase hex"%string);
        may_panic (p2sh_multisig_script_sig collected redeem)
    | None => mret (multisig_script_sig collected)
    end;
  mret (with_script_sig script_sig tx).

(** ** Hash-time-locked contracts *)

(** On the random preimage: both texts printed. *)
Definition cmd_htlc_secret (preimage : bytes) : string * string := (hex_encode preimage, hex_encode (sha256 preimage)).

Definition cmd_htlc_script (args : list string) : result string bytes :=
  let usage := "usage: txmwallet htlc-script <hash_hex> <recipient_addr> <refund_addr> <locktime_height>"%string in
  hash_hex ← arg args 2 usage;
  recipient_addr ← arg args 3 usage;
  refund_addr ← arg args 4 usage;
  locktime ← arg_parsed parse_u64 args 5 usage "invalid locktime height";
  hash ← hex32 "invalid hash hex" "hash must be 32 bytes (SHA256)" hash_hex;
  recipient_hash ← address_to_hash20 recipient_addr;
  refund_hash ← address_to_hash20 refund_addr;
  Ok (htlc_script hash recipient_hash refund_hash locktime).

(** The signature and the public key the three script spends put together. *)
Definition sign_parts (wallet : WalletFile) (keypair : WalletKeypair) (tx : Transaction) : result string (bytes * bytes) :=
  der_sig ← map_err (sign_hash keypair (signature_hash tx)) (λ _, "sign"%string);
  pubkey ← ok_or (hex_decode (wf_public_key_hex wallet)) "invalid wallet pubkey hex"%string;
  Ok (der_sig, pubkey).

Definition cmd_htlc_claim (args : list string) (w : World) : command Transaction :=
  let usage := "usage: txmwallet htlc-claim <spk_hex> <dest_addr> <preimage_hex> [rpc]"%string in
  spk_hex ← try (arg args 2 usage);
  dest_addr ← try (arg args 3 usage);
  preimage_hex ← try (arg args 4 usage);
  preimage ← try (ok_or (hex_decode preimage_hex) "invalid preimage hex"%string);
  '(wallet, keypair) ← unlocked w;
  tx ← try (build_unsigned_htlc_spend (get_utxos w spk_hex) dest_addr);
  '(der_sig, pubkey) ← try (sign_parts wallet keypair tx);
  script_sig ← may_panic (htlc_claim_script_sig der_sig pubkey preimage);
  mret (with_script_sig script_sig tx).

Definition cmd_htlc_refund (args : list string) (w : World) : command Transaction :=
  let usage := "usage: txmwallet htlc-refund <spk_hex> <dest_addr> [rpc]"%string in
  spk_hex ← try (arg args 2 usage);
  dest_addr ← try (arg args 3 usage);
  '(wallet, keypair) ← unlocked w;
  tx ← try (build_unsigned_htlc_spend (get_utxos w spk_hex) dest_addr);
  '(der_sig, pubkey) ← try (sign_parts wallet keypair tx);
  mret (with_script_sig (htlc_refund_script_sig der_sig pubkey) tx).

(** ** Vesting *)

(** [args.get(i).map(|s| s.parse().unwrap_or(d)).unwrap_or(d)] *)
Definition optional_u64 (args : list string) (i : nat) (d : Z) : Z := default d (args !! i ≫= parse_u64).

(** The posted transaction, the schedule and the node's answer. *)
Definition cmd_vesting_lock (args : list string) (w : World) : command (Transaction * list VestingLine * string) :=
  let usage := "usage: TENSORIUM_WALLET_PASSPHRASE=... txmwallet vesting-lock <recipient_addr> <total_atoms> [rpc] [tranches] [interval_blocks] [liquid_bps]"%string in
  recipient ← try (arg args 2 usage);
  total_atoms ← try (arg_parsed parse_u64 args 3 usage "bad total_atoms");
  let tranches := optional_u64 args 5 6 in
  let interval := optional_u64 args 6 43200 in
  let liquid_bps := optional_u64 args 7 2000 in
  '(wallet, keypair) ← unlocked w;
  tip_height ← try (get_tip_height w);
  '(tx, schedule) ← try (build_signed_vesting_via_rpc (wallet_id wallet) keypair (own_utxos w wallet) recipient total_atoms
                           MIN_RELAY_FEE_ATOMS (add64 tip_height interval) tranches interval liquid_bps);
  resp ← try (send_raw w tx);
  mret (tx, schedule, resp).

Definition cmd_vesting_claim (args : list string) (w : World) : command (Transaction * string) :=
  let usage := "usage: TENSORIUM_WALLET_PASSPHRASE=... txmwallet vesting-claim <spk_hex> <dest_addr> [rpc]"%string in
  spk_hex ← try (arg args 2 usage);
  dest_addr ← try (arg args 3 usage);
  '(wallet, keypair) ← unlocked w;
  tx ← try (build_unsigned_htlc_spend (get_utxos w spk_hex) dest_addr);
  '(der_sig, pubkey) ← try (sign_parts wallet keypair tx);
  let tx := with_script_sig (p2pkh_script_sig der_sig pubkey) tx in
  resp ← try (send_raw w tx);
  mret (tx, resp).
End Commands.
