(* ===== verification/CliFacts.v ===== *)
(** * What the command-line wallet builds is accepted

    The builders are proved against an interface: an answer that shows the mature
    outputs of a script as they are in a UTXO set ([honest_answer]). The node's
    [/getutxos] discharges it ([node_answer_honest]). *)

From S2P Require Import Prelude Crypto Hash Chain ScriptVM ScriptVMFacts ScriptStandard ScriptStandardFacts ScriptSpend.
From S2P Require Import Block Utxo Mempool MempoolFacts State StateInv StateSubmit Settlement Wallet.
From S2P Require Import Node NodeRpc NodeFacts Cli.

Local Open Scope Z_scope.

(** ** Answers *)

Definition outpoint_of (u : RpcUtxo) : OutPoint := {| txid := mkHash (txid_bytes u); output_index := rpc_index u |}.

(** The outputs an answer lists as mature, in its order. *)
Definition mature_ones (answer : list RpcUtxo) : list RpcUtxo := filter (λ u, mature u = true) answer.

(** An entry of the set that the owner of [script] can spend at height [h]. *)
Definition spendable (params : ConsensusParams) (h : Z) (script : bytes) (e : UtxoEntry) : Prop :=
  immature params h e = false /\ script_pubkey (output e) = script.

Record honest_answer (utxos : UtxoSet) (params : ConsensusParams) (h : Z) (script : bytes)
    (answer : list RpcUtxo) : Prop := {
  answer_nodup : NoDup (outpoint_of <$> answer);
  answer_sound : Forall (λ u, exists e, utxos !! outpoint_of u = Some e /\ spendable params h script e
                                /\ value_atoms (output e) = rpc_value u) (mature_ones answer);
  answer_complete op e : utxos !! op = Some e -> spendable params h script e ->
    exists u, u ∈ mature_ones answer /\ outpoint_of u = op;
}.

(** Answers with identifiers of 32 bytes. *)
Definition well_formed (answer : list RpcUtxo) : Prop := Forall (λ u, length (txid_bytes u) = 32%nat) answer.

(** What the wallet can spend: the mature values. *)
Definition mature_balance (answer : list RpcUtxo) : Z := sat_sum (rpc_value <$> mature_ones answer).

(** ** Selection *)

Lemma hash_of_slice_Ok err bs h : hash_of_slice err bs = Ok h <-> length bs = 32%nat /\ h = mkHash bs.
Proof.
  unfold hash_of_slice. destruct (Nat.eqb_spec (length bs) 32); split; [|naive_solver..]. by intros [= <-].
Qed.

(** The selection takes a prefix of the mature outputs: all of them, or enough. *)
Lemma select_mature_spec err needed utxos sel total sel' total' :
  select_mature err needed utxos sel total = Ok (sel', total') ->
  exists taken rest, mature_ones utxos = taken ++ rest /\ sel' = sel ++ (outpoint_of <$> taken)
    /\ total' = foldl sat_add64 total (rpc_value <$> taken) /\ (rest = [] \/ needed <= total').
Proof.
  revert sel total; induction utxos as [|u utxos IH]; intros sel total; cbn [select_mature].
  { intros [= <- <-]. exists [], []. csimpl. rewrite app_nil_r. split_and!; [done..|by left]. }
  unfold mature_ones. rewrite filter_cons. destruct (mature u) eqn:Hu; cbn [negb].
  - intros Hr. apply bind_Ok in Hr as (hash & Hh & Hr). apply hash_of_slice_Ok in Hh as [_ ->].
    rewrite decide_True by done. destruct (Z.leb_spec needed (sat_add64 total (rpc_value u))) as [Hle|Hgt].
    + injection Hr as <- <-. exists [u], (mature_ones utxos). split_and!; [done..|by right].
    + apply IH in Hr as (taken & rest & Hm & -> & -> & Hor). exists (u :: taken), rest.
      unfold mature_ones in Hm. rewrite Hm. by rewrite <- app_assoc.
  - rewrite decide_False by done. apply IH.
Qed.

(** It fails only on an identifier of the wrong length. *)
Lemma select_mature_total err needed utxos sel total :
  well_formed utxos -> exists r, select_mature err needed utxos sel total = Ok r.
Proof.
  intros Hw; revert sel total; induction Hw as [|u utxos Hu _ IH]; intros sel total; cbn [select_mature]; [eauto|].
  destruct (mature u); cbn [negb]; [|apply IH]. rewrite (proj2 (hash_of_slice_Ok _ _ _) (conj Hu eq_refl)).
  cbn [mbind result_bind]. case_match; [eauto|apply IH].
Qed.

Section Funds.
Context (bad_txid short : string) (needed : Z) (utxos : list RpcUtxo).

Lemma select_funds_spec selected total :
  select_funds bad_txid short needed utxos = Ok (selected, total) ->
  exists taken rest, mature_ones utxos = taken ++ rest /\ selected = outpoint_of <$> taken
    /\ total = sat_sum (rpc_value <$> taken) /\ needed <= total.
Proof.
  unfold select_funds. intros Hr. apply bind_Ok in Hr as ([sel tot] & Hs & Hr). inv_ok Hr. apply Z.ltb_ge in Hok.
  injection Hr as <- <-. apply select_mature_spec in Hs as (taken & rest & Hm & -> & -> & _).
  exists taken, rest. by split_and!.
Qed.

Lemma select_funds_total :
  well_formed utxos -> Forall (λ u, 0 <= rpc_value u) utxos -> needed <= mature_balance utxos ->
  exists r, select_funds bad_txid short needed utxos = Ok r.
Proof.
  intros Hw Hv Hn. unfold select_funds. destruct (select_mature_total bad_txid needed utxos [] 0 Hw) as [[sel tot] Hs].
  rewrite Hs. cbn [mbind result_bind]. rewrite (proj2 (Z.ltb_ge _ _)); [cbn; eauto|].
  apply select_mature_spec in Hs as (taken & rest & Hm & _ & -> & [-> | Hle]); [|done].
  unfold mature_balance in Hn. by rewrite Hm, app_nil_r in Hn.
Qed.
End Funds.

(** ** Inputs chosen from an honest answer *)
Section Chosen.
Context (utxos : UtxoSet) (params : ConsensusParams) (h : Z) (script : bytes).
Context (answer taken rest : list RpcUtxo) (Ha : honest_answer utxos params h script answer).
Context (Ht : mature_ones answer = taken ++ rest).

Definition chosen_inputs : list TxInput := unsigned_input <$> (outpoint_of <$> taken).

Lemma chosen_outpoints : previous_output <$> chosen_inputs = outpoint_of <$> taken.
Proof. unfold chosen_inputs. rewrite <- !list_fmap_compose. by apply list_fmap_ext. Qed.

Lemma chosen_nodup : NoDup (previous_output <$> chosen_inputs).
Proof using Ha Ht.
  rewrite chosen_outpoints. destruct Ha as [Hnd _ _].
  eapply sublist_NoDup; [exact Hnd|]. apply fmap_sublist. etransitivity; [apply (sublist_inserts_r rest taken taken)|].
  - done.
  - rewrite <- Ht. apply sublist_filter.
Qed.

Lemma chosen_entry u :
  u ∈ taken -> exists e, utxos !! outpoint_of u = Some e /\ spendable params h script e /\ value_atoms (output e) = rpc_value u.
Proof using Ha Ht.
  intros Hu. destruct Ha as [_ Hs _]. rewrite Forall_forall in Hs. apply Hs. rewrite Ht. set_solver.
Qed.

Lemma chosen_owned :
  Forall (λ i, exists e, utxos !! previous_output i = Some e /\ immature params h e = false
                 /\ script_pubkey (output e) = script) chosen_inputs.
Proof using Ha Ht.
  unfold chosen_inputs. rewrite <- list_fmap_compose. apply Forall_fmap, Forall_forall. intros u Hu.
  destruct (chosen_entry u Hu) as (e & He & [Hi Hs] & _). by exists e.
Qed.

Lemma chosen_value `{Crypto} outs : input_value utxos (payment chosen_inputs outs) = sat_sum (rpc_value <$> taken).
Proof using Ha Ht.
  unfold input_value, chosen_inputs. cbn [payment make_tx inputs]. rewrite <- !list_fmap_compose. f_equal.
  apply list_fmap_ext. intros i u Hu. destruct (chosen_entry u) as (e & He & _ & Hv); [by eapply list_elem_of_lookup_2|].
  cbn [compose]. unfold value_or_0, unsigned_input. cbn [previous_output]. by rewrite He.
Qed.
End Chosen.

Lemma chosen_values (answer taken rest : list RpcUtxo) :
  Forall (λ u, 0 <= rpc_value u) answer -> mature_ones answer = taken ++ rest ->
  Forall (Z.le 0) (rpc_value <$> taken) /\ sat_sum (rpc_value <$> taken) <= U64_MAX.
Proof.
  intros Hv Ht. assert (Forall (Z.le 0) (rpc_value <$> taken)) as Hf.
  { apply Forall_fmap, Forall_forall. intros u Hu. rewrite Forall_forall in Hv. apply Hv.
    assert (u ∈ mature_ones answer) as Hin by (rewrite Ht; set_solver). by apply list_elem_of_filter in Hin as [_ ?]. }
  split; [done|]. rewrite sat_sum_spec by done. lia.
Qed.

(** ** Signed transactions of chosen inputs *)
Section Signed.
Context `{Crypto} `{!CryptoLaws _} (kp : WalletKeypair) (sk : signing_key) (Hk : made_from kp sk).
Context (utxos : UtxoSet) (params : ConsensusParams) (h : Z) (answer : list RpcUtxo).
Context (Ha : honest_answer utxos params h (owner_script sk) answer).

(** Whatever the outputs, signing the chosen inputs gives a valid transaction if
    the outputs are worth no more; the fee is the difference. *)
Lemma signed_valid taken rest outs :
  mature_ones answer = taken ++ rest -> sat_sum (value_atoms <$> outs) <= sat_sum (rpc_value <$> taken) ->
  exists tx, signed kp (payment (unsigned_input <$> (outpoint_of <$> taken)) outs) = Ok tx
    /\ outputs tx = outs /\ previous_output <$> inputs tx = outpoint_of <$> taken /\ is_coinbase tx = false
    /\ validate_transaction utxos tx h params
       = Ok (sat_sub64 (sat_sum (rpc_value <$> taken)) (sat_sum (value_atoms <$> outs))).
Proof using Hk Ha CryptoLaws0.
  intros Ht Hv. fold (chosen_inputs taken). set (tx0 := payment (chosen_inputs taken) outs).
  assert (input_value utxos tx0 = sat_sum (rpc_value <$> taken)) as Hiv by (by eapply chosen_value).
  destruct (sign_transaction_valid kp sk utxos params h tx0) as [Hs Hval].
  - done.
  - by eapply chosen_nodup.
  - by eapply chosen_owned.
  - by rewrite Hiv.
  - unfold signed. rewrite Hs. eexists. split; [reflexivity|]. split_and!.
    + done.
    + cbn [refresh_id make_tx set_inputs inputs]. rewrite <- list_fmap_compose. apply (chosen_outpoints taken).
    + unfold is_coinbase. by rewrite andb_false_r.
    + rewrite Hval. unfold tx_fee. by rewrite Hiv.
Qed.
End Signed.

(** [outs] and the change, if any. *)
Definition with_change (change : Z) (script : bytes) (outs : list TxOutput) : list TxOutput :=
  outs ++ (if 0 <? change then [ {| value_atoms := change; script_pubkey := script |} ] else []).

Lemma push_change_Ok `{Crypto} change script outs :
  push_change change (Ok script) outs = Ok (with_change change script outs).
Proof. unfold push_change, with_change. destruct (0 <? change); [done|]. by rewrite app_nil_r. Qed.

Lemma push_change_inv change script outs outs' :
  push_change change script outs = Ok outs' ->
  outs' = outs /\ (0 <? change) = false \/ (0 <? change) = true /\ exists s, script = Ok s /\ outs' = with_change change s outs.
Proof.
  unfold push_change, with_change. destruct (0 <? change); [|intros [= ->]; by left]. intros Hr.
  apply bind_Ok in Hr as (s & Hs & [= <-]). right. split; [done|]. by exists s.
Qed.

Lemma sumZ_with_change change script outs :
  0 <= change -> sumZ (value_atoms <$> with_change change script outs) = sumZ (value_atoms <$> outs) + change.
Proof.
  intros Hc. unfold with_change. rewrite fmap_app, sumZ_app. destruct (Z.ltb_spec 0 change); cbn; lia.
Qed.

(** The saturating sum of amounts that fit. *)
Lemma sat_sum_fits l : Forall (Z.le 0) l -> sumZ l <= U64_MAX -> sat_sum l = sumZ l.
Proof. intros Hl Hs. rewrite sat_sum_spec by done. lia. Qed.

Lemma with_change_values change script outs :
  Forall (λ o, 0 <= value_atoms o) outs -> Forall (Z.le 0) (value_atoms <$> with_change change script outs).
Proof.
  intros Ho. unfold with_change. apply Forall_fmap, Forall_app. split; [done|].
  destruct (Z.ltb_spec 0 change); [|constructor]. apply Forall_singleton. cbn. lia.
Qed.

Section Spending.
Context `{Crypto} `{!CryptoLaws _} (kp : WalletKeypair) (sk : signing_key) (Hk : made_from kp sk).
Context (utxos : UtxoSet) (params : ConsensusParams) (h : Z) (answer : list RpcUtxo).
Context (Ha : honest_answer utxos params h (owner_script sk) answer).
Context (Hvals : Forall (λ u, 0 <= rpc_value u) answer).

(** Inputs that cover [spent] and a fee, and the change back to the owner: a
    valid transaction with exactly the fee. *)
Lemma funded_valid taken rest outs fee :
  mature_ones answer = taken ++ rest ->
  Forall (λ o, 0 <= value_atoms o) outs -> 0 <= fee -> sumZ (value_atoms <$> outs) + fee <= U64_MAX ->
  sumZ (value_atoms <$> outs) + fee <= sat_sum (rpc_value <$> taken) ->
  let change := sat_sum (rpc_value <$> taken) - sumZ (value_atoms <$> outs) - fee in
  exists tx, signed kp (payment (unsigned_input <$> (outpoint_of <$> taken)) (with_change change (owner_script sk) outs)) = Ok tx
    /\ outputs tx = with_change change (owner_script sk) outs
    /\ previous_output <$> inputs tx = outpoint_of <$> taken /\ is_coinbase tx = false
    /\ validate_transaction utxos tx h params = Ok fee.
Proof using Hk Ha Hvals CryptoLaws0.
  intros Ht Ho Hf Hmax Hle change.
  destruct (chosen_values answer taken rest Hvals Ht) as [Hpos Htot].
  assert (sat_sum (value_atoms <$> with_change change (owner_script sk) outs) = sat_sum (rpc_value <$> taken) - fee) as Hsum.
  { rewrite sat_sum_fits.
    - rewrite sumZ_with_change; lia.
    - by apply with_change_values.
    - rewrite sumZ_with_change; lia. }
  destruct (signed_valid kp sk Hk utxos params h answer Ha taken rest (with_change change (owner_script sk) outs) Ht)
    as (tx & Hs & Hout & Hin & Hc & Hv); [lia|].
  exists tx. split_and!; try done. rewrite Hv, Hsum. f_equal. unfold sat_sub64. lia.
Qed.

(** *** The payment *)
Context (wallet : WalletId) (Hw : wallet_address wallet = address kp).

Definition paid_outputs (amount : Z) (dest : bytes) : list TxOutput := [ {| value_atoms := amount; script_pubkey := dest |} ].

Lemma payment_valid to amount fee tx :
  0 <= amount -> 0 <= fee -> amount + fee <= U64_MAX ->
  build_signed_payment_via_rpc wallet kp (Ok answer) to amount fee = Ok tx ->
  exists dest change, p2pkh_from_address to = Ok dest /\ 0 <= change
    /\ outputs tx = with_change change (owner_script sk) (paid_outputs amount dest)
    /\ (forall op, op ∈ previous_output <$> inputs tx -> exists e, utxos !! op = Some e /\ spendable params h (owner_script sk) e)
    /\ is_coinbase tx = false /\ validate_transaction utxos tx h params = Ok fee.
Proof using Hk Ha Hvals Hw CryptoLaws0.
  intros Hamt Hfee Hmax. unfold build_signed_payment_via_rpc. cbn [mbind result_bind]. intros Hr.
  apply bind_Ok in Hr as ([selected total] & Hsel & Hr).
  apply select_funds_spec in Hsel as (taken & rest & Ht & -> & -> & Hn).
  unfold finish_payment in Hr. apply bind_Ok in Hr as (dest & Hd & Hr).
  assert (p2pkh_from_address to = Ok dest) as Hdest by (unfold script_of in Hd; destruct (p2pkh_from_address to); naive_solver).
  destruct (made_address kp sk Hk) as [Haddr _].
  unfold script_of in Hr. rewrite Hw, Haddr in Hr. cbn [map_err] in Hr. rewrite push_change_Ok in Hr. cbn [mbind result_bind] in Hr.
  rewrite sat_add64_small in Hn by done.
  destruct (chosen_values answer taken rest Hvals Ht) as [_ Htot].
  rewrite sub64_twice in Hr by (u64_unfold; lia).
  destruct (funded_valid taken rest (paid_outputs amount dest) fee Ht) as (tx' & Hs & Hout & Hin & Hc & Hv).
  - by apply Forall_singleton.
  - done.
  - cbn. lia.
  - cbn. lia.
  - replace (sat_sum (rpc_value <$> taken) - sumZ (value_atoms <$> paid_outputs amount dest) - fee)
      with (sat_sum (rpc_value <$> taken) - amount - fee) in * by (cbn; lia).
    fold (paid_outputs amount dest) in Hr. rewrite Hs in Hr. injection Hr as <-.
    exists dest, (sat_sum (rpc_value <$> taken) - amount - fee). split_and!; try done; [lia|].
    rewrite Hin. intros op Hop. apply list_elem_of_fmap in Hop as (u & -> & Hu).
    destruct (chosen_entry utxos params h (owner_script sk) answer taken rest Ha Ht u Hu) as (e & He & Hsp & _). by exists e.
Qed.

(** A wallet that has the funds always builds. *)
Lemma payment_builds to dest amount fee :
  well_formed answer -> p2pkh_from_address to = Ok dest ->
  0 <= amount -> 0 <= fee -> amount + fee <= U64_MAX -> amount + fee <= mature_balance answer ->
  exists tx, build_signed_payment_via_rpc wallet kp (Ok answer) to amount fee = Ok tx.
Proof using Hk Ha Hvals Hw CryptoLaws0.
  intros Hwf Hd Hamt Hfee Hmax Hbal. unfold build_signed_payment_via_rpc. cbn [mbind result_bind].
  destruct (select_funds_total "invalid txid length from RPC" "insufficient mature balance via RPC"
              (sat_add64 amount fee) answer Hwf Hvals) as [[selected total] Hsel]; [by rewrite sat_add64_small|].
  rewrite Hsel. cbn [mbind result_bind]. unfold finish_payment, script_of. rewrite Hd. cbn [map_err mbind result_bind].
  destruct (made_address kp sk Hk) as [Haddr _]. rewrite Hw, Haddr. cbn [map_err]. rewrite push_change_Ok. cbn [mbind result_bind].
  unfold signed, sign_transaction. 
  unfold mbind at 1, stateful_bind at 1, get_state. unfold mbind, stateful_bind, lift_result, put_state.
  rewrite (unlocking_script_made kp sk _ Hk). eauto.
Qed.
End Spending.
