(* ===== verification/CliScripts.v ===== *)
(** * Script spends of the command-line wallet: vesting locks and swaps

    Transactions that unlock every input with one script: contract claims and
    refunds, vesting claims, multisig spends. *)

From S2P Require Import Prelude Numeral Crypto Hash Chain ScriptVM ScriptVMFacts ScriptStandard ScriptStandardFacts ScriptSpend.
From S2P Require Import Block Utxo Mempool State Settlement Wallet Node.
From S2P Require Import Cli CliWallet CliCommands CliFacts.

Local Open Scope Z_scope.

Section Spends.
Context `{Crypto}.

Lemma strip_script_sig s (ins : list TxInput) : strip_input <$> (set_script s <$> ins) = strip_input <$> ins.
Proof. by rewrite <- list_fmap_compose. Qed.

(** The unlocking scripts are not signed. *)
Lemma signature_hash_script_sig s tx : signature_hash (with_script_sig s tx) = signature_hash tx.
Proof. unfold with_script_sig. apply signature_hash_set_inputs, strip_script_sig. Qed.

Lemma prevs_script_sig s tx : previous_output <$> inputs (with_script_sig s tx) = previous_output <$> inputs tx.
Proof. cbn [with_script_sig refresh_id make_tx set_inputs inputs]. by rewrite <- list_fmap_compose. Qed.

(** The context an input of [tx] is checked in at height [h]. *)
Definition tx_context (h : Z) (tx : Transaction) : ScriptContext := {| sig_hash := signature_hash tx; block_height := h |}.

(** One script that unlocks every input makes the transaction valid, with the fee
    left over. *)
Lemma script_spend_valid utxos params h s tx :
  NoDup (previous_output <$> inputs tx) ->
  (forall op, op ∈ previous_output <$> inputs tx ->
     exists e, utxos !! op = Some e /\ immature params h e = false
       /\ execute s (script_pubkey (output e)) (tx_context h tx) = Ok true) ->
  total_output_atoms tx <= input_value utxos tx ->
  validate_transaction utxos (with_script_sig s tx) h params = Ok (tx_fee utxos tx).
Proof.
  intros Hnd Hun Hv. apply validate_transaction_Ok.
  assert (input_value utxos (with_script_sig s tx) = input_value utxos tx) as Hiv.
  { unfold input_value. rewrite !list_fmap_compose. by rewrite prevs_script_sig. }
  change (total_output_atoms (with_script_sig s tx)) with (total_output_atoms tx) in *.
  rewrite prevs_script_sig. split; [done|]. split.
  - split; [|by rewrite Hiv]. apply Forall_forall. intros i Hi.
    assert (previous_output i ∈ previous_output <$> inputs tx) as Hp
      by (rewrite <- (prevs_script_sig s tx); by apply list_elem_of_fmap_2).
    destruct (Hun _ Hp) as (e & He & Hm & Hx). exists e. split_and!; [done|done|].
    rewrite signature_hash_script_sig. cbn [with_script_sig refresh_id make_tx set_inputs inputs] in Hi.
    apply list_elem_of_fmap in Hi as (j & -> & _). exact Hx.
  - unfold tx_fee. by rewrite Hiv.
Qed.

(** What an accepted spend of an output shows. *)
Lemma spend_executes utxos params h tx op e fee :
  validate_transaction utxos tx h params = Ok fee -> op ∈ previous_output <$> inputs tx -> utxos !! op = Some e ->
  exists s, execute s (script_pubkey (output e)) (tx_context h tx) = Ok true.
Proof.
  intros Hv Hop He. apply validate_transaction_Ok in Hv as (_ & [Hun _] & _).
  apply list_elem_of_fmap in Hop as (i & -> & Hi). rewrite Forall_forall in Hun.
  destruct (Hun i Hi) as (e' & He' & _ & Hx). assert (e' = e) as -> by congruence. eauto.
Qed.

(** ** Single-output spends *)

Definition spend_one (u : RpcUtxo) (dest : bytes) : Transaction :=
  payment [unsigned_input (outpoint_of u)]
    [ {| value_atoms := sub64 (rpc_value u) MIN_RELAY_FEE_ATOMS; script_pubkey := dest |} ].

(** The builder spends the first mature output listed. *)
Lemma htlc_spend_builds answer u dest_addr dest :
  List.find mature answer = Some u -> length (txid_bytes u) = 32%nat -> MIN_RELAY_FEE_ATOMS < rpc_value u ->
  p2pkh_from_address dest_addr = Ok dest ->
  build_unsigned_htlc_spend (Ok answer) dest_addr = Ok (spend_one u dest).
Proof.
  intros Hu Hl Hv Hd. unfold build_unsigned_htlc_spend. cbn [mbind result_bind]. rewrite Hu. cbn [ok_or mbind result_bind].
  rewrite (proj2 (Z.leb_gt _ _)) by done. cbn [reject_if mbind result_bind].
  rewrite (proj2 (hash_of_slice_Ok _ _ _) (conj Hl eq_refl)). cbn [mbind result_bind].
  unfold script_of. by rewrite Hd.
Qed.

(** It is valid once its script unlocks, with the minimal fee. *)
Lemma spend_one_valid utxos params h u dest e s :
  utxos !! outpoint_of u = Some e -> immature params h e = false -> value_atoms (output e) = rpc_value u ->
  MIN_RELAY_FEE_ATOMS < rpc_value u -> rpc_value u <= U64_MAX ->
  execute s (script_pubkey (output e)) (tx_context h (spend_one u dest)) = Ok true ->
  validate_transaction utxos (with_script_sig s (spend_one u dest)) h params = Ok MIN_RELAY_FEE_ATOMS.
Proof.
  intros He Hi Hv Hmin Hmax Hx. assert (0 < MIN_RELAY_FEE_ATOMS) by done.
  assert (input_value utxos (spend_one u dest) = rpc_value u) as Hiv.
  { unfold input_value. cbn. unfold value_or_0. rewrite He. cbn. unfold entry_value. rewrite Hv. u64_lia. }
  assert (total_output_atoms (spend_one u dest) = rpc_value u - MIN_RELAY_FEE_ATOMS) as Hto.
  { unfold total_output_atoms. cbn [spend_one payment make_tx outputs]. csimpl. cbn [value_atoms].
    rewrite sub64_small by (unfold U64_MAX, U64_MOD in *; lia). unfold sat_sum. cbn. u64_lia. }
  rewrite (script_spend_valid utxos params h s).
  - f_equal. unfold tx_fee. rewrite Hiv, Hto. unfold sat_sub64. lia.
  - apply NoDup_singleton.
  - intros op Hop. apply list_elem_of_singleton in Hop as ->. by exists e.
  - rewrite Hiv, Hto. lia.
Qed.
End Spends.

(** ** Signatures for the spends *)
Section Signing.
Context `{Crypto} `{!CryptoLaws _} `{WalletCipher} `{!CipherLaws _}.

Definition signature_of (sk : signing_key) (hash : Hash256) : bytes := sig_to_der (ecdsa_sign sk (hash_bytes hash)).
Definition pubkey_of (sk : signing_key) : bytes := vk_to_sec1 (verifying_of sk).

Lemma sign_hash_made kp sk hash : made_from kp sk -> sign_hash kp hash = Ok (signature_of sk hash).
Proof. intros Hk. unfold sign_hash. by rewrite (secret_of_made kp sk Hk). Qed.

(** The wallet file shows the public key of its key. *)
Definition shows_key (f : WalletFile) (kp : WalletKeypair) : Prop := wf_public_key_hex f = public_key_hex kp.

Lemma sign_parts_made f kp sk tx :
  made_from kp sk -> shows_key f kp ->
  sign_parts f kp tx = Ok (signature_of sk (signature_hash tx), pubkey_of sk).
Proof.
  intros Hk Hf. unfold sign_parts. rewrite (sign_hash_made kp sk) by done. cbn [map_err mbind result_bind].
  by rewrite Hf, (public_of_made kp sk Hk).
Qed.

Lemma signature_unlocks sk h tx :
  unlocks (tx_context h tx) (take 20 (sha256 (pubkey_of sk))) (signature_of sk (signature_hash tx)) (pubkey_of sk).
Proof.
  split; [done|]. unfold sig_ok, pubkey_of, signature_of. rewrite vk_sec1_roundtrip, sig_der_roundtrip.
  apply ecdsa_sign_verifies.
Qed.

Lemma signature_length sk hash : (1 <= length (signature_of sk hash) <= 75)%nat.
Proof. pose proof (sig_der_length (ecdsa_sign sk (hash_bytes hash))). unfold signature_of. lia. Qed.
Lemma pubkey_length sk : (1 <= length (pubkey_of sk) <= 75)%nat.
Proof. unfold pubkey_of. rewrite vk_sec1_length. lia. Qed.

(** The hash in a P2PKH script, as the builders cut it out. *)
Lemma slice_p2pkh h20 : length h20 = 20%nat -> slice 3 23 (p2pkh_bytes h20) = h20.
Proof.
  intros Hl. change (take 20 (h20 ++ [OP_EQUALVERIFY; OP_CHECKSIG]) = h20). by rewrite take_app_length'.
Qed.

Lemma address_hash20 kp sk : made_from kp sk -> address_to_hash20 (address kp) = Ok (take 20 (sha256 (pubkey_of sk))).
Proof.
  intros Hk. unfold address_to_hash20, script_of. rewrite (proj1 (made_address kp sk Hk)). cbn [map_err mbind result_bind].
  f_equal. unfold owner_script, p2pkh_from_pubkey. apply slice_p2pkh, key_hash_length.
Qed.
End Signing.

(** * Vesting locks: exact, enforced, claimable

    The outputs and the schedule of [vesting-lock], and what the node accepts as spends of
    them: nothing before the unlock height, the beneficiary's [vesting-claim] from then on. *)

(** ** The split *)

Lemma sumZ_const {A} (l : list A) c : sumZ ((λ _, c) <$> l) = c * Z.of_nat (length l).
Proof. induction l as [|x l IH]; csimpl; [lia|]. rewrite IH. lia. Qed.

Lemma tranche_amounts vested tranches :
  is_u64 vested -> 1 <= tranches <= U64_MAX ->
  sumZ (tranche_amount vested tranches <$> seqZ 0 tranches) = vested.
Proof.
  intros Hv Ht. unfold is_u64 in Hv. set (per := vested / tranches).
  assert (0 <= per /\ 0 <= per * (tranches - 1) <= vested) as [Hp0 Hp].
  { assert (0 <= per) by (apply Z.div_pos; lia). pose proof (Z.mul_div_le vested tranches) as Hle. fold per in Hle.
    clearbody per. split; [done|]. nia. }
  assert (seqZ 0 tranches = seqZ 0 (tranches - 1) ++ [tranches - 1]) as ->.
  { destruct (Z_of_nat_complete (tranches - 1)) as [k Hk]; [lia|]. replace tranches with (Z.of_nat (S k)) at 1 by lia.
    rewrite seqZ_S, Hk. by rewrite Z.add_0_l. }
  rewrite fmap_app, sumZ_app. csimpl. unfold tranche_amount at 2. fold per. rewrite Z.eqb_refl.
  assert (sumZ (tranche_amount vested tranches <$> seqZ 0 (tranches - 1)) = per * (tranches - 1)) as ->.
  { rewrite (list_fmap_ext _ (λ _, per)).
    - rewrite sumZ_const, length_seqZ, Z2Nat.id by lia. done.
    - intros i x Hx. apply list_elem_of_lookup_2, elem_of_seqZ in Hx. unfold tranche_amount. fold per.
      by rewrite (proj2 (Z.eqb_neq _ _)) by lia. }
  unfold mul64. rewrite (Z.mod_small (per * _)), sub64_small by lia. cbn. lia.
Qed.

Lemma tranche_amount_range vested tranches i :
  is_u64 vested -> 1 <= tranches <= U64_MAX -> 0 <= tranche_amount vested tranches i <= U64_MAX.
Proof.
  intros Hv Ht. unfold is_u64 in Hv. unfold tranche_amount. case_match.
  - unfold sub64. pose proof (Z.mod_pos_bound (vested - mul64 (vested / tranches) (tranches - 1)) U64_MOD).
    unfold U64_MOD, U64_MAX in *. lia.
  - pose proof (Z.div_pos vested tranches). pose proof (Z.div_le_upper_bound vested tranches vested).
    unfold U64_MAX, U64_MOD in *. nia.
Qed.

Section Vesting.
Context `{Crypto} `{!CryptoLaws _}.

(** The hash of the beneficiary's key. *)
Definition key_hash (sk : signing_key) : bytes := take 20 (sha256 (pubkey_of sk)).

(** An output of the lock and its line of the schedule: the key alone (height zero), or
    the key under a time lock. *)
Record vests (sk : signing_key) (line : VestingLine) (o : TxOutput) : Prop := {
  vests_atoms : value_atoms o = line_atoms line;
  vests_hex : spk_hex line = hex_encode (script_pubkey o);
  vests_script : script_pubkey o = owner_script sk /\ unlock_height line = 0
    \/ script_pubkey o = cltv_p2pkh_script (unlock_height line) (key_hash sk) /\ is_u64 (unlock_height line);
}.

(** Who spends it holds the key, and the height has come. *)
Lemma vests_inv sk line o ctx script_sig :
  vests sk line o -> 0 <= block_height ctx -> execute script_sig (script_pubkey o) ctx = Ok true ->
  unlock_height line <= block_height ctx /\ exists sig pk, unlocks ctx (key_hash sk) sig pk.
Proof.
  intros [_ _ [[-> ->]|[-> Hu]]] Hh Hx.
  - split; [done|]. apply (p2pkh_inv ctx _ script_sig (key_hash_length _) Hx).
  - by apply (cltv_security ctx _ script_sig _ (key_hash_length _) Hu).
Qed.

(** From then on the claim's script unlocks it. *)
Lemma vests_runs sk line o h tx :
  vests sk line o -> unlock_height line <= h ->
  execute (p2pkh_script_sig (signature_of sk (signature_hash tx)) (pubkey_of sk)) (script_pubkey o) (tx_context h tx) = Ok true.
Proof.
  intros [_ _ [[-> _]|[-> Hu]]] Hh; [apply stamp_executes|].
  apply cltv_runs; try done; [apply key_hash_length|apply signature_length|apply pubkey_length|apply signature_unlocks].
Qed.

Section Outputs.
Context (sk : signing_key) (total start tranches interval bps : Z).
Context (Ht : 0 <= total <= U64_MAX) (Hb : 0 <= bps <= 10000) (Hsat : total * bps <= U64_MAX).
Context (Htr : 1 <= tranches <= U64_MAX) (Hs : 0 <= start) (Hi : 0 <= interval) (Hend : start + tranches * interval < U64_MOD).

Definition liquid_part : Z := total * bps / 10000.

Lemma liquid_range : sat_mul64 total bps / 10000 = liquid_part /\ 0 <= liquid_part <= total.
Proof using Ht Hb Hsat.
  unfold liquid_part, sat_mul64. rewrite Z.min_l by done. split; [done|].
  split; [apply Z.div_pos; nia|]. apply Z.div_le_upper_bound; nia.
Qed.

Lemma unlock_exact i : 0 <= i < tranches -> tranche_unlock start interval i = start + i * interval.
Proof using Hs Hi Hend.
  clear Hb Hsat Ht. intros Hr. unfold tranche_unlock, mul64. assert (0 <= i * interval <= tranches * interval) by nia.
  rewrite (Z.mod_small (i * interval)), add64_small by lia. done.
Qed.

(** The outputs pay the total, in the order of the schedule. *)
Lemma vesting_outputs_spec :
  let '(outs, schedule) := vesting_outputs (owner_script sk) total start tranches interval bps in
  Forall2 (vests sk) schedule outs /\ sumZ (value_atoms <$> outs) = total
  /\ Forall (λ o, 0 <= value_atoms o) outs
  /\ unlock_height <$> schedule
     = (if 0 <? liquid_part then [0] else []) ++ ((λ i, start + i * interval) <$> seqZ 0 tranches).
Proof using Ht Hb Hsat Htr Hs Hi Hend CryptoLaws0.
  unfold vesting_outputs. destruct liquid_range as [-> Hl]. rewrite sub64_small by (unfold U64_MAX, U64_MOD in *; lia).
  assert (is_u64 (total - liquid_part)) as Hv by (unfold is_u64, U64_MAX, U64_MOD in *; lia).
  assert (slice 3 23 (owner_script sk) = key_hash sk) as -> by (apply slice_p2pkh, key_hash_length).
  split_and!.
  - apply Forall2_app.
    + destruct (0 <? liquid_part); constructor; [|done]. split; [done|done|by left].
    + apply Forall2_fmap_2, Forall_Forall2_diag, Forall_forall. intros i Hin. apply elem_of_seqZ in Hin.
      split; [done|done|right]. cbn [tranche_output script_pubkey unlock_height schedule_line].
      rewrite unlock_exact by lia. split; [done|]. unfold is_u64. nia.
  - rewrite fmap_app, sumZ_app. rewrite <- list_fmap_compose.
    replace (sumZ (value_atoms <$> (if 0 <? liquid_part then _ else []))) with liquid_part
      by (destruct (Z.ltb_spec 0 liquid_part); cbn; lia).
    assert (sumZ (value_atoms ∘ tranche_output (key_hash sk) (total - liquid_part) tranches start interval <$> seqZ 0 tranches)
            = total - liquid_part) as ->; [|lia].
    rewrite (list_fmap_ext _ (tranche_amount (total - liquid_part) tranches)) by done. by apply tranche_amounts.
  - apply Forall_app. split; [destruct (Z.ltb_spec 0 liquid_part); repeat constructor; cbn; lia|].
    apply Forall_fmap, Forall_true. intros i. by apply tranche_amount_range.
  - rewrite fmap_app, <- list_fmap_compose. f_equal; [by destruct (0 <? liquid_part)|].
    apply list_fmap_ext. intros k i Hk. apply list_elem_of_lookup_2, elem_of_seqZ in Hk. cbn. apply unlock_exact. lia.
Qed.
End Outputs.
End Vesting.

(** ** The command that claims *)

(** A wallet that can claim: it unlocks to the key, the arguments name the script and the
    destination, and the first mature output the node lists for the script is [u]. *)
Record claim_ready `{Crypto} `{WalletCipher} (w : World) (f : WalletFile) (kp : WalletKeypair) (args : list string)
    (spk dest_addr : string) (dest : bytes) (u : RpcUtxo) : Prop := {
  ready_key : unlocked w = Done (Ok (f, kp));
  ready_file : shows_key f kp;
  ready_spk : args !! 2%nat = Some spk;
  ready_dest : args !! 3%nat = Some dest_addr;
  ready_script : p2pkh_from_address dest_addr = Ok dest;
  ready_answer : exists answer, get_utxos w spk = Ok answer /\ List.find mature answer = Some u;
  ready_txid : length (txid_bytes u) = 32%nat;
  ready_value : MIN_RELAY_FEE_ATOMS < rpc_value u <= U64_MAX;
}.

Section Claim.
Context `{Crypto} `{!CryptoLaws _} `{WalletCipher}.

(** The claim's transaction, and what the node answers to it. *)
Lemma vesting_claim_runs w f kp sk args spk dest_addr dest u resp :
  made_from kp sk -> claim_ready w f kp args spk dest_addr dest u -> (forall tx, send_raw w tx = Ok resp) ->
  cmd_vesting_claim args w
    = Done (Ok (with_script_sig (p2pkh_script_sig (signature_of sk (signature_hash (spend_one u dest))) (pubkey_of sk))
                  (spend_one u dest), resp)).
Proof.
  intros Hk [Hu Hf H2 H3 Hd (answer & Hg & Hm) Hl Hv] Hsend. unfold cmd_vesting_claim, arg. rewrite H2, H3, Hu.
  unfold try, mbind, command_bind. cbn [ok_or]. rewrite Hg, (htlc_spend_builds answer u dest_addr dest) by (done || lia).
  rewrite (sign_parts_made f kp sk) by done. by rewrite Hsend.
Qed.
End Claim.

(** A vesting lock is exact, enforced and claimable. When [vesting-lock] builds its
    transaction, the lines of the schedule add up to the total locked and unlock at the start
    plus whole intervals, and the outputs are the lines', in order. As long as such an output is
    unspent, whatever transaction the chain accepts as a spend of it is at or above the line's
    unlock height and carries a signature of the beneficiary's key, and from that height on the
    beneficiary's [vesting-claim] with the script of the schedule builds a transaction the chain
    accepts, that pays the line's amount less the minimal fee. *)
Theorem vesting_enforced `{Crypto} `{!CryptoLaws _} `{WalletCipher} params kp kpb skb wallet utxos total fee
    start tranches interval bps tx schedule :
  from_signing_key skb = Done kpb ->
  build_signed_vesting_via_rpc wallet kp utxos (address kpb) total fee start tranches interval bps = Ok (tx, schedule) ->
  0 <= total <= U64_MAX -> 0 <= bps -> total * bps <= U64_MAX -> 0 <= tranches <= U64_MAX ->
  0 <= start -> 0 <= interval -> start + tranches * interval < U64_MOD ->
  sumZ (line_atoms <$> schedule) = total
  /\ unlock_height <$> schedule
     = (if 0 <? total * bps / 10000 then [0] else []) ++ ((λ i, start + i * interval) <$> seqZ 0 tranches)
  /\ forall k line, schedule !! k = Some line ->
     exists o, outputs tx !! k = Some o /\ value_atoms o = line_atoms line /\ spk_hex line = hex_encode (script_pubkey o)
     /\ forall U op e h, U !! op = Some e -> output e = o -> immature params h e = false -> 0 <= h ->
        (forall tx' fee', op ∈ previous_output <$> inputs tx' -> validate_transaction U tx' h params = Ok fee' ->
           unlock_height line <= h /\ exists sig pk, unlocks (tx_context h tx') (key_hash skb) sig pk)
        /\ (unlock_height line <= h -> forall w f args dest_addr dest u resp,
             claim_ready w f kpb args (spk_hex line) dest_addr dest u -> outpoint_of u = op -> rpc_value u = line_atoms line ->
             (forall tx', send_raw w tx' = Ok resp) ->
             exists tx', cmd_vesting_claim args w = Done (Ok (tx', resp))
               /\ outputs tx' = [ {| value_atoms := line_atoms line - MIN_RELAY_FEE_ATOMS; script_pubkey := dest |} ]
               /\ validate_transaction U tx' h params = Ok MIN_RELAY_FEE_ATOMS).
Proof.
  intros Hk Hb Ht Hbps Hsat Htr Hs Hi Hend. unfold build_signed_vesting_via_rpc in Hb. inv_ok Hb.
  apply Z.eqb_neq in Hok. apply Z.ltb_ge in Hok0. unfold script_of in Hok1. rewrite (proj1 (made_address kpb skb Hk)) in Hok1.
  injection Hok1 as <-. destruct a3 as [selected total_in].
  pose proof (vesting_outputs_spec skb total start tranches interval bps) as Hspec.
  destruct (vesting_outputs (owner_script skb) total start tranches interval bps) as [outs lines].
  destruct Hspec as (Hv & Hsum & _ & Hul); [lia|lia|done|lia|done..|].
  apply bind_Ok in Hb as (outs' & Hpc & Hb). apply bind_Ok in Hb as (tx0 & Hsg & Hb).
  injection Hb as -> ->.
  assert (outputs tx = outs') as Hout.
  { unfold signed, sign_transaction, mbind, stateful_bind, get_state, lift_result, put_state in Hsg.
    destruct (unlocking_script kp _); [|done]. by injection Hsg as <-. }
  assert (exists l, outs' = outs ++ l) as [l Hl].
  { apply push_change_inv in Hpc as [[-> _]|(_ & s & _ & ->)]; [exists []; by rewrite app_nil_r|by eexists]. }
  split; [|split; [exact Hul|]].
  - rewrite <- Hsum. clear -Hv. induction Hv as [|line o ls os [Ha _ _] _ IH]; csimpl; [done|]. by rewrite IH, Ha.
  - intros k line Hline. destruct (Forall2_lookup_l _ _ _ _ _ Hv Hline) as (o & Ho & Hvest).
    exists o. split; [rewrite Hout, Hl; by apply lookup_app_l_Some|]. split; [apply Hvest|]. split; [apply Hvest|].
    intros U op e h He Heo Him Hh. split.
    + intros tx' fee' Hop Hval. destruct (spend_executes _ _ _ _ _ _ _ Hval Hop He) as [s Hx].
      rewrite Heo in Hx. exact (vests_inv skb line o (tx_context h tx') s Hvest Hh Hx).
    + intros Hge w f args dest_addr dest u resp Hready Hu Hval Hsend.
      eexists. split; [by apply (vesting_claim_runs w f kpb skb args (spk_hex line) dest_addr)|]. pose proof (ready_value _ _ _ _ _ _ _ _ Hready) as Hrv. split.
      * cbn [with_script_sig refresh_id make_tx set_inputs outputs spend_one payment].
        rewrite sub64_small by (unfold MIN_RELAY_FEE_ATOMS, U64_MAX, U64_MOD in *; lia). by rewrite Hval.
      * apply (spend_one_valid U params h u dest e); [by rewrite Hu|done| |lia|lia|].
        -- rewrite Heo, Hval. apply Hvest.
        -- rewrite Heo. by apply (vests_runs skb line o).
Qed.

(** * Swaps: the contract commands fit together

    The script [htlc-script] prints, from the hash [htlc-secret] prints and two
    addresses, is spent by the [htlc-claim] of one wallet and, from the lock height on, by the
    [htlc-refund] of the other. *)

Section Swap.
Context `{Crypto} `{!CryptoLaws _} `{WalletCipher}.

(** The output both commands pay. *)
Definition swept (u : RpcUtxo) (dest : bytes) : list TxOutput :=
  [ {| value_atoms := rpc_value u - MIN_RELAY_FEE_ATOMS; script_pubkey := dest |} ].

Lemma swept_outputs s u dest :
  MIN_RELAY_FEE_ATOMS < rpc_value u <= U64_MAX -> outputs (with_script_sig s (spend_one u dest)) = swept u dest.
Proof.
  intros Hv. cbn [with_script_sig refresh_id make_tx set_inputs outputs spend_one payment]. unfold swept.
  by rewrite sub64_small by (unfold MIN_RELAY_FEE_ATOMS, U64_MAX, U64_MOD in *; lia).
Qed.

Section Claimant.
Context (w : World) (f : WalletFile) (kp : WalletKeypair) (sk : signing_key) (args : list string).
Context (spk_hex dest_addr : string) (dest : bytes) (u : RpcUtxo).
Context (Hk : made_from kp sk) (Hready : claim_ready w f kp args spk_hex dest_addr dest u).

Lemma htlc_claim_runs preimage_hex preimage s :
  args !! 4%nat = Some preimage_hex -> hex_decode preimage_hex = Some preimage ->
  htlc_claim_script_sig (signature_of sk (signature_hash (spend_one u dest))) (pubkey_of sk) preimage = Done s ->
  cmd_htlc_claim args w = Done (Ok (with_script_sig s (spend_one u dest))).
Proof using Hk Hready CryptoLaws0.
  intros H4 Hhex Hs. destruct Hready as [Hu Hf H2 H3 Hd (answer & Hg & Hm) Hl Hv].
  unfold cmd_htlc_claim, arg. rewrite H2, H3, H4, Hu. unfold try, may_panic, mbind, command_bind. cbn [ok_or].
  rewrite Hhex. cbn [ok_or]. rewrite Hg, (htlc_spend_builds answer u dest_addr dest) by (done || lia).
  rewrite (sign_parts_made f kp sk) by done. by rewrite Hs.
Qed.

Lemma htlc_refund_runs :
  cmd_htlc_refund args w
    = Done (Ok (with_script_sig (htlc_refund_script_sig (signature_of sk (signature_hash (spend_one u dest))) (pubkey_of sk))
                  (spend_one u dest))).
Proof using Hk Hready CryptoLaws0.
  destruct Hready as [Hu Hf H2 H3 Hd (answer & Hg & Hm) Hl Hv].
  unfold cmd_htlc_refund, arg. rewrite H2, H3, Hu. unfold try, mbind, command_bind. cbn [ok_or].
  rewrite Hg, (htlc_spend_builds answer u dest_addr dest) by (done || lia).
  by rewrite (sign_parts_made f kp sk) by done.
Qed.
End Claimant.
End Swap.

(** A swap completes. From the hash of a secret, the two parties' addresses and a lock
    height, [htlc-script] makes a locking script. While an output with it is unspent, the
    recipient's [htlc-claim] with the secret builds a transaction the chain accepts at any height,
    and the other party's [htlc-refund] builds one it accepts from the lock height on; each pays the
    whole value less the minimal fee to the address named. *)
Theorem htlc_swap_completes `{Crypto} `{!CryptoLaws _} `{WalletCipher} params preimage kpr skr kpf skf sargs lock_text lock :
  bytes_ok preimage -> (length preimage <= 75)%nat ->
  from_signing_key skr = Done kpr -> from_signing_key skf = Done kpf ->
  sargs !! 2%nat = Some (cmd_htlc_secret preimage).2 -> sargs !! 3%nat = Some (address kpr) ->
  sargs !! 4%nat = Some (address kpf) -> sargs !! 5%nat = Some lock_text -> parse_u64 lock_text = Some lock ->
  exists spk, cmd_htlc_script sargs = Ok spk /\ forall U op e h,
    U !! op = Some e -> script_pubkey (output e) = spk -> immature params h e = false ->
    (forall w f args dest_addr dest u,
       claim_ready w f kpr args (hex_encode spk) dest_addr dest u -> args !! 4%nat = Some (cmd_htlc_secret preimage).1 ->
       outpoint_of u = op -> rpc_value u = value_atoms (output e) ->
       exists tx, cmd_htlc_claim args w = Done (Ok tx) /\ outputs tx = swept u dest
         /\ validate_transaction U tx h params = Ok MIN_RELAY_FEE_ATOMS)
    /\ (lock <= h -> forall w f args dest_addr dest u,
       claim_ready w f kpf args (hex_encode spk) dest_addr dest u ->
       outpoint_of u = op -> rpc_value u = value_atoms (output e) ->
       exists tx, cmd_htlc_refund args w = Done (Ok tx) /\ outputs tx = swept u dest
         /\ validate_transaction U tx h params = Ok MIN_RELAY_FEE_ATOMS).
Proof.
  intros Hpre Hlen Hkr Hkf H2 H3 H4 H5 Hlock.
  assert (is_u64 lock) as Hu64 by (apply parse_uint_range in Hlock; unfold is_u64, U64_MAX, U64_MOD in *; lia).
  exists (htlc_script (sha256 preimage) (key_hash skr) (key_hash skf) lock). split.
  { unfold cmd_htlc_script, arg_parsed, arg. rewrite H2, H3, H4, H5. cbn [ok_or mbind result_bind]. rewrite Hlock.
    cbn [ok_or mbind result_bind cmd_htlc_secret snd]. unfold hex32. rewrite hex_roundtrip by apply sha256_ok.
    cbn [ok_or mbind result_bind]. rewrite sha256_length. cbn [Nat.eqb mbind result_bind].
    rewrite (address_hash20 kpr skr Hkr). cbn [mbind result_bind]. by rewrite (address_hash20 kpf skf Hkf). }
  intros U op e h He Hs Him. split.
  - intros w f args dest_addr dest u Hready H4' Hu Hval. pose proof (ready_value _ _ _ _ _ _ _ _ Hready) as Hrv.
    destruct (htlc_spendable (tx_context h (spend_one u dest)) (sha256 preimage) (key_hash skr) (key_hash skf)
      (signature_of skr (signature_hash (spend_one u dest))) (pubkey_of skr) preimage lock) as [Hclaim _];
      [apply sha256_length|apply key_hash_length|apply key_hash_length|done|apply signature_length|apply pubkey_length|done|].
    destruct (Hclaim eq_refl (signature_unlocks skr h _)) as (s & Hss & Hx).
    exists (with_script_sig s (spend_one u dest)). split_and!; [|by apply swept_outputs|].
    + apply (htlc_claim_runs w f kpr skr args (hex_encode _) dest_addr dest u Hkr Hready _ preimage s H4'); [|done].
      by apply hex_roundtrip.
    + apply (spend_one_valid U params h u dest e); [by rewrite Hu|done|done|lia|lia|by rewrite Hs].
  - intros Hge w f args dest_addr dest u Hready Hu Hval. pose proof (ready_value _ _ _ _ _ _ _ _ Hready) as Hrv.
    destruct (htlc_spendable (tx_context h (spend_one u dest)) (sha256 preimage) (key_hash skr) (key_hash skf)
      (signature_of skf (signature_hash (spend_one u dest))) (pubkey_of skf) preimage lock) as [_ Hrefund];
      [apply sha256_length|apply key_hash_length|apply key_hash_length|done|apply signature_length|apply pubkey_length|done|].
    eexists. split_and!; [by apply (htlc_refund_runs w f kpf skf args (hex_encode (htlc_script (sha256 preimage) (key_hash skr) (key_hash skf) lock)) dest_addr)|by apply swept_outputs|].
    apply (spend_one_valid U params h u dest e); [by rewrite Hu|done|done|lia|lia|].
    rewrite Hs. apply Hrefund; [done|apply signature_unlocks].
Qed.
