(* ===== verification/CliMultisig.v ===== *)
(** * Multisig commands: what the co-signers do spends the output

    [send-from-script] or [p2sh-multisig-spend] by anyone, [multisig-sign] by enough of the
    holders, [multisig-combine] by anyone: the node accepts the result. And what the
    commands cannot do: a script hash of eight keys or more. *)

From S2P Require Import Prelude Numeral Crypto Hash Chain ScriptVM ScriptStandard ScriptSpend MultisigSpend.
From S2P Require Import Block Utxo Mempool State Settlement Wallet Node.
From S2P Require Import Cli CliWallet CliCommands CliFacts CliScripts.

Local Open Scope Z_scope.

(** ** The unsigned transaction *)
Section Unsigned.
Context `{Crypto} `{!CryptoLaws _} (utxos : UtxoSet) (params : ConsensusParams) (h : Z) (spk : bytes) (answer : list RpcUtxo).
Context (Ha : honest_answer utxos params h spk answer) (Hvals : Forall (λ u, 0 <= rpc_value u) answer) (Hspk : bytes_ok spk).

Lemma multisig_tx_spec dest_addr amount tx :
  0 <= amount -> amount + MIN_RELAY_FEE_ATOMS <= U64_MAX ->
  build_unsigned_multisig_tx (Ok answer) (hex_encode spk) dest_addr amount = Ok tx ->
  exists dest change, p2pkh_from_address dest_addr = Ok dest /\ 0 <= change
    /\ outputs tx = with_change change spk (paid_outputs amount dest)
    /\ inputs tx <> [] /\ NoDup (previous_output <$> inputs tx)
    /\ (forall op, op ∈ previous_output <$> inputs tx -> exists e, utxos !! op = Some e /\ spendable params h spk e)
    /\ total_output_atoms tx <= input_value utxos tx /\ tx_fee utxos tx = MIN_RELAY_FEE_ATOMS.
Proof using Ha Hvals Hspk CryptoLaws0.
  intros Hamt Hmax Hb. unfold build_unsigned_multisig_tx in Hb.
  destruct (Z.eqb_spec amount 0) as [|Hne]; [done|]. cbn [reject_if mbind result_bind] in Hb.
  apply bind_Ok in Hb as ([selected total] & Hsel & Hb). apply bind_Ok in Hb as (dest & Hd & Hb).
  rewrite hex_roundtrip in Hb by done. cbn [ok_or mbind result_bind] in Hb. rewrite push_change_Ok in Hb. injection Hb as <-.
  apply select_funds_spec in Hsel as (taken & rest & Ht & -> & -> & Hn).
  assert (p2pkh_from_address dest_addr = Ok dest) as Hdest by (unfold script_of in Hd; destruct (p2pkh_from_address dest_addr); naive_solver).
  rewrite sat_add64_small in Hn by (done || unfold MIN_RELAY_FEE_ATOMS in *; lia).
  destruct (chosen_values answer taken rest Hvals Ht) as [Hpos Htot].
  assert (0 < MIN_RELAY_FEE_ATOMS) as Hfee by done.
  rewrite sub64_twice by (u64_unfold; lia).
  set (change := sat_sum (rpc_value <$> taken) - amount - MIN_RELAY_FEE_ATOMS).
  set (outs := with_change change spk (paid_outputs amount dest)).
  assert (input_value utxos (payment (chosen_inputs taken) outs) = sat_sum (rpc_value <$> taken)) as Hiv by (by eapply chosen_value).
  assert (sat_sum (value_atoms <$> outs) = sat_sum (rpc_value <$> taken) - MIN_RELAY_FEE_ATOMS) as Hsum.
  { unfold outs. rewrite sat_sum_fits; rewrite ?sumZ_with_change by lia; [cbn; lia| |cbn; lia].
    apply with_change_values, Forall_singleton. exact Hamt. }
  assert (total_output_atoms (payment (chosen_inputs taken) outs) = sat_sum (value_atoms <$> outs)) as Hto by done.
  change (payment _ _) with (payment (chosen_inputs taken) outs). exists dest, change. split_and!.
  - done.
  - lia.
  - done.
  - intros Hnil. destruct taken; [|done]. cbn in Hn. lia.
  - by eapply (chosen_nodup utxos params h spk answer taken rest).
  - intros op Hop. change (op ∈ previous_output <$> chosen_inputs taken) in Hop. rewrite chosen_outpoints in Hop.
    apply list_elem_of_fmap in Hop as (u & -> & Hu). destruct (chosen_entry utxos params h spk answer taken rest Ha Ht u Hu) as (e & He & Hsp & _).
    by exists e.
  - rewrite Hiv, Hto, Hsum. lia.
  - unfold tx_fee. rewrite Hiv, Hto, Hsum. unfold sat_sub64. lia.
Qed.
End Unsigned.

(** ** Signature files *)

(** [path] holds what [multisig-sign] wrote for the holder of [sk] on the transaction. *)
Definition signed_file `{Crypto} `{WalletCipher} (read_sig : string -> result string MultisigSigFile) (tx : Transaction)
    (sk : signing_key) (path : string) : Prop :=
  exists w f kp args file, from_signing_key sk = Done kp /\ unlocked w = Done (Ok (f, kp)) /\ is_Some (args !! 2%nat)
    /\ cmd_multisig_sign args (Ok tx) w = Done (Ok file) /\ read_sig path = Ok file.

Section Combine.
Context `{Crypto} `{!CryptoLaws _} `{WalletCipher}.

Lemma collect_signed read_sig tx sk path :
  inputs tx <> [] -> signed_file read_sig tx sk path ->
  collect_sig (hex_encode (hash_bytes (tx_id tx))) (read_sig path) = Ok (signature_of sk (signature_hash tx)).
Proof.
  intros Hi (w & f & kp & args & file & Hk & Hu & [a Ha] & Hs & Hr). rewrite Hr.
  unfold cmd_multisig_sign, arg in Hs. rewrite Ha, Hu in Hs. unfold try, mbind, command_bind in Hs. cbn [ok_or] in Hs.
  rewrite (sign_hash_made kp sk _ Hk) in Hs. cbn [map_err] in Hs. injection Hs as <-.
  unfold collect_sig. cbn [mbind result_bind unsigned_txid sigs]. rewrite bool_decide_true by done.
  cbn [negb reject_if mbind result_bind]. destruct (inputs tx) as [|i ins]; [done|].
  cbn [length seq fmap list_fmap List.find input_index Nat.eqb ok_or mbind result_bind der_sig_hex].
  unfold signature_of. by rewrite hex_roundtrip by apply sig_der_ok.
Qed.

Lemma collect_all read_sig tx keys paths :
  inputs tx <> [] -> Forall2 (signed_file read_sig tx) keys paths ->
  mapM (λ p, collect_sig (hex_encode (hash_bytes (tx_id tx))) (read_sig p)) paths
    = Ok ((λ sk, signature_of sk (signature_hash tx)) <$> keys).
Proof.
  intros Hi Hf. induction Hf as [|sk path keys paths Hp _ IH]; [done|].
  cbn [mapM]. rewrite (collect_signed read_sig tx sk path Hi Hp). cbn [mbind result_bind]. by rewrite IH.
Qed.

(** The signatures the holders make meet the specification of the script. *)
Lemma holders_co_sign h tx keys pubkeys :
  (pubkey_of <$> keys) `sublist_of` pubkeys ->
  co_signed (tx_context h tx) ((λ sk, signature_of sk (signature_hash tx)) <$> keys) pubkeys.
Proof.
  intros Hsub. exists (pubkey_of <$> keys). split; [done|]. clear Hsub.
  induction keys as [|sk keys IH]; csimpl; constructor; [|done]. apply (signature_unlocks sk h tx).
Qed.

Lemma signature_lengths hash keys : Forall (λ sig, (1 <= length sig <= 75)%nat) ((λ sk, signature_of sk hash) <$> keys).
Proof. apply Forall_fmap, Forall_true. intros sk. apply signature_length. Qed.
End Combine.

(** How the output is locked and what [--redeem] names: the script itself, or its hash. *)
Inductive multisig_lock `{Crypto} (script : bytes) (n : nat) : bytes -> option string -> Prop :=
| lock_bare : multisig_lock script n script None
| lock_hash : (n <= 7)%nat -> multisig_lock script n (p2sh_script_from_redeem script) (Some (hex_encode script)).

(** C22: Enough co-signers spend a multisig output with the commands. The transaction
    [send-from-script] or [p2sh-multisig-spend] builds from an honest answer, signed with
    [multisig-sign] by [m] holders in the order of the script ([m] at least two) and put together
    by [multisig-combine], is accepted by the chain with the minimal fee; it pays the amount asked
    and returns the change to the script. Behind a script hash, for up to seven keys. *)
Theorem multisig_completes `{Crypto} `{!CryptoLaws _} `{WalletCipher} params U h m pubkeys script spk redeem answer
    dest_addr amount tx keys paths read_sig args tx_path :
  2 <= m -> multisig_script m pubkeys = Ok script -> Forall bytes_ok pubkeys -> multisig_lock script (length pubkeys) spk redeem ->
  honest_answer U params h spk answer -> Forall (λ u, 0 <= rpc_value u) answer ->
  0 <= amount -> amount + MIN_RELAY_FEE_ATOMS <= U64_MAX ->
  build_unsigned_multisig_tx (Ok answer) (hex_encode spk) dest_addr amount = Ok tx ->
  (pubkey_of <$> keys) `sublist_of` pubkeys -> len keys = m -> Forall2 (signed_file read_sig tx) keys paths ->
  args !! 2%nat = Some tx_path -> parse_combine_args (drop 3 args) None [] = Ok (redeem, paths) ->
  exists tx' dest change, cmd_multisig_combine args (Ok tx) read_sig = Done (Ok tx')
    /\ p2pkh_from_address dest_addr = Ok dest /\ 0 <= change
    /\ outputs tx' = with_change change spk (paid_outputs amount dest)
    /\ validate_transaction U tx' h params = Ok MIN_RELAY_FEE_ATOMS.
Proof.
  intros Hm Hb Hpk Hlock Ha Hvals Hamt Hmax Htx Hsub Hl Hfiles H2 Hparse.
  apply multisig_script_Ok in Hb as [Hp ->]; [|lia].
  assert (bytes_ok (multisig_bytes m pubkeys)) as Hbytes by (by apply multisig_bytes_ok).
  assert (bytes_ok spk) as Hspk by (destruct Hlock; [done|apply p2sh_script_ok]).
  destruct (multisig_tx_spec U params h spk answer Ha Hvals Hspk dest_addr amount tx Hamt Hmax Htx)
    as (dest & change & Hd & Hc & Hout & Hi & Hnd & Hown & Hval & Hfee).
  set (sigs := (λ sk, signature_of sk (signature_hash tx)) <$> keys).
  assert (len sigs = m) as Hsl by (unfold sigs; by rewrite length_fmap).
  pose proof (holders_co_sign h tx keys pubkeys Hsub) as Hco. pose proof (signature_lengths (signature_hash tx) keys) as Hlens.
  assert (exists s, match redeem with
      | Some r_hex => redeem ← try (ok_or (hex_decode r_hex) "invalid --redeem hex: must be lowercase hex"%string);
                      may_panic (p2sh_multisig_script_sig sigs redeem)
      | None => mret (multisig_script_sig sigs)
      end = Done (Ok s) /\ execute s spk (tx_context h tx) = Ok true) as (s & Hs & Hx).
  { destruct Hlock as [|H7].
    - exists (multisig_script_sig sigs). split; [done|]. by apply multisig_unlocks.
    - destruct (p2sh_multisig_unlocks (tx_context h tx) m pubkeys sigs Hp Hsl Hlens Hco H7) as (s & Hs & Hx).
      exists s. split; [|done]. rewrite hex_roundtrip by done. unfold try, mbind, command_bind. cbn [ok_or]. by rewrite Hs. }
  exists (with_script_sig s tx), dest, change. split_and!; [|done|done|exact Hout|].
  - unfold cmd_multisig_combine, arg. rewrite H2. cbn [ok_or]. rewrite try_Ok, Hparse, try_Ok.
    rewrite (proj2 (Nat.ltb_ge _ _)), fail_if_false, try_Ok by (apply Forall2_length in Hfiles; lia).
    rewrite (collect_all read_sig tx keys paths Hi Hfiles), try_Ok. by apply (command_bind_Ok _ s).
  - rewrite <- Hfee. apply script_spend_valid; [done| |done].
    intros op Hop. destruct (Hown op Hop) as (e & He & Him & Hspe). exists e. by rewrite Hspe.
Qed.

(** ** Script hashes of too many keys *)

Lemma mapM_length {A B E} (f : A -> result E B) l k : mapM f l = Ok k -> length k = length l.
Proof.
  revert k; induction l as [|x l IH]; intros k; [by intros [= <-]|]. cbn [mapM]. intros Hr.
  apply bind_Ok in Hr as (y & _ & Hr). apply bind_Ok in Hr as (k' & Hk & [= <-]). cbn. by rewrite (IH k').
Qed.

Lemma command_bind_inv {A B} (c : command A) (f : A -> command B) b :
  (c ≫= f) = Done (Ok b) -> exists a, c = Done (Ok a) /\ f a = Done (Ok b).
Proof. destruct c as [[a|e]|]; intros Hc; [by exists a|done|done]. Qed.

(** Coins sent to a script-hash address of eight keys or more cannot be spent. The
    command [p2sh-multisig-script] makes an address for up to sixteen keys, but a redeem script of more
    than seven is over 255 bytes, which no unlocking script can push: [multisig-combine] never
    succeeds with it, and any script that spends the output at all exhibits another script with the
    same hash. *)
Theorem large_p2sh_multisig_locked `{Crypto} `{!CryptoLaws _} args redeem spk addr :
  cmd_p2sh_multisig_script args = Done (Ok (redeem, spk, addr)) -> (7 < length (drop 3 args))%nat ->
  (forall cargs tx read_sig r_hex paths tx', hex_decode r_hex = Some redeem ->
     parse_combine_args (drop 3 cargs) None [] = Ok (Some r_hex, paths) ->
     cmd_multisig_combine cargs tx read_sig <> Done (Ok tx'))
  /\ (forall ctx script_sig, bytes_ok script_sig -> execute script_sig spk ctx = Ok true ->
     exists r, r <> redeem /\ redeem_hash r = redeem_hash redeem).
Proof.
  intros Hc H7. unfold cmd_p2sh_multisig_script in Hc.
  apply command_bind_inv in Hc as (m & Hm & Hc). apply command_bind_inv in Hc as (pubkeys & Hpk & Hc).
  apply command_bind_inv in Hc as (? & _ & Hc). apply command_bind_inv in Hc as (redeem' & Hr & Hc).
  apply command_bind_inv in Hc as (address & _ & [= <- <- <-]).
  unfold try in Hm, Hpk, Hr. injection Hm as Hm. injection Hpk as Hpk. injection Hr as Hr.
  assert (0 <= m) as Hm0.
  { unfold arg_parsed in Hm. apply bind_Ok in Hm as (text & _ & Hm). destruct (parse_u8 text) as [m'|] eqn:Hp; [|done].
    injection Hm as <-. apply parse_uint_range in Hp; lia. }
  destruct (multisig_script m pubkeys) as [script|] eqn:Hs; [|done]. injection Hr as <-.
  apply multisig_script_Ok in Hs as [Hp ->]; [|done].
  assert (8 <= length pubkeys)%nat as H8 by (apply mapM_length in Hpk; lia). split.
  - intros cargs tx read_sig r_hex paths tx' Hr Hparse Hrun. unfold cmd_multisig_combine in Hrun.
    apply command_bind_inv in Hrun as (? & _ & Hrun). rewrite Hparse, try_Ok in Hrun.
    apply command_bind_inv in Hrun as (? & _ & Hrun). apply command_bind_inv in Hrun as (? & _ & Hrun).
    apply command_bind_inv in Hrun as (sigs & _ & Hrun). apply command_bind_inv in Hrun as (s & Hrun & _).
    rewrite Hr in Hrun. unfold try, mbind, command_bind in Hrun. cbn [ok_or] in Hrun.
    destruct (large_redeem_stuck m pubkeys sigs [] {| sig_hash := ZERO; block_height := 0 |} Hp H8) as [Hpanic _].
    by rewrite Hpanic in Hrun.
  - intros ctx script_sig Hb He. by apply (large_redeem_stuck m pubkeys [] script_sig ctx Hp H8).
Qed.
