(* ===== verification/CliSettlement.v ===== *)
(** * Accepting a sale: what the seller's check leaves open

    [asset-accept] verifies a settlement file and signs its first input. The check is on
    the outputs alone, so it says nothing about whose money they are. *)

From S2P Require Import Prelude Numeral Crypto Hash Chain ScriptVM ScriptStandard Block Utxo AssetCodec AssetCodecFacts.
From S2P Require Import Mempool State Settlement Wallet Node Cli CliWallet CliCommands CliFacts.

Local Open Scope Z_scope.

Section Sale.
Context `{Crypto} `{!CryptoLaws _} `{WalletCipher}.

(** Only the outputs are looked at. *)
Lemma verify_settlement_outputs tx tx' terms :
  outputs tx = outputs tx' -> verify_settlement tx terms = verify_settlement tx' terms.
Proof.
  intros Ho. unfold verify_settlement, has_output_exact, has_output_at_least, extract_asset_op. by rewrite Ho.
Qed.

(** A wallet that is the seller's. *)
Record seller_ready (w : World) (f : WalletFile) (kp : WalletKeypair) (terms : SettlementTerms) (resp : string) : Prop := {
  seller_key : unlocked w = Done (Ok (f, kp));
  seller_file : seller_addr terms = wf_address f;
  seller_posts : forall tx, send_raw w tx = Ok resp;
}.

(** What the command posts. *)
Definition accepted (sk : signing_key) (tx : Transaction) : Transaction :=
  refresh_id (set_inputs (alter (set_script (stamp sk (signature_hash tx))) 0%nat (inputs tx)) tx).

Lemma accepted_same sk tx :
  signature_hash (accepted sk tx) = signature_hash tx /\ strip_input <$> inputs (accepted sk tx) = strip_input <$> inputs tx.
Proof.
  unfold accepted. cbn [inputs refresh_id make_tx set_inputs]. split; [apply signature_hash_set_inputs|]; apply strip_alter.
Qed.

Lemma asset_accept_runs w f kp sk terms tx resp :
  made_from kp sk -> seller_ready w f kp terms resp -> verify_settlement tx terms = [] -> inputs tx <> [] ->
  cmd_asset_accept (Ok {| file_tx := tx; file_terms := terms |}) w = Done (Ok (accepted sk tx, resp)).
Proof.
  intros Hk [Hu Hf Hp] Hv Hi. unfold cmd_asset_accept. rewrite try_Ok. cbn [file_tx file_terms]. rewrite Hv, fail_if_false.
  rewrite (command_bind_Ok _ _ _ Hu), bool_decide_true, fail_if_false by done. cbn [sign_inputs].
  rewrite (sign_input_made kp sk) by (done || destruct (inputs tx); cbn; lia || done).
  by rewrite try_Ok, Hp.
Qed.

(** A transaction whose only input is the seller's is complete once the seller has signed. *)
Lemma accepted_valid utxos params h sk op outs :
  owned_by utxos params h sk op ->
  let tx := payment [unsigned_input op] outs in
  total_output_atoms tx <= input_value utxos tx ->
  validate_transaction utxos (accepted sk tx) h params = Ok (tx_fee utxos tx).
Proof.
  intros Hown tx Hv. destruct (accepted_same sk tx) as [Hh Hst].
  apply (stamped_valid utxos params h (λ _, sk) tx (accepted sk tx) Hh eq_refl Hst).
  - intros [|i] inp; [|done]. by intros [= <-].
  - apply NoDup_singleton.
  - intros [|i] inp; [|done]. by intros [= <-].
  - exact Hv.
Qed.
End Sale.

(** C23: A sale the seller accepts can be paid with the seller's own money. For any output of
    the seller's that is worth enough, the transaction with it as the only input and the outputs of an
    honest settlement passes the check of [asset-accept], whatever the order named; the seller's
    signature makes it valid. The seller gives the asset and the output for the net price; the buyer,
    who put nothing in, gets the carrier and the change. *)
Theorem accepted_sale_paid_by_seller `{Crypto} `{!CryptoLaws _} `{WalletCipher} params U h terms op e honest kp sk w f resp :
  from_signing_key sk = Done kp -> seller_ready w f kp terms resp ->
  U !! op = Some e -> immature params h e = false -> script_pubkey (output e) = owner_script sk ->
  settlement_bounds terms (op, 0) [(op, value_atoms (output e))] ->
  length (terms_asset_id terms) = 32%nat -> is_u64 (terms_amount terms) ->
  canonical (buyer_addr terms) -> canonical (seller_addr terms) ->
  canonical (terms_royalty_addr terms) -> canonical PLATFORM_FEE_ADDRESS ->
  build_settlement_tx terms (op, 0) [(op, value_atoms (output e))] = Ok honest ->
  let tx := payment [unsigned_input op] (outputs honest) in
  let change := value_atoms (output e) - price_atoms terms - CARRIER_ATOMS - miner_fee_atoms terms in
  exists tx', cmd_asset_accept (Ok {| file_tx := tx; file_terms := terms |}) w = Done (Ok (tx', resp))
    /\ previous_output <$> inputs tx' = [op] /\ validate_transaction U tx' h params = Ok (miner_fee_atoms terms)
    /\ (exists o, outputs tx' !! 2%nat = Some o /\ pays o (net_proceeds terms) (seller_addr terms))
    /\ (0 < change -> exists o, o ∈ outputs tx' /\ pays o change (buyer_addr terms)).
Proof.
  intros Hk Hready He Him Hs Hb Hlen Hamt Cb Cs Cr Cp Hbuild tx change.
  pose proof (built_verifies terms _ _ honest Hb Hlen Hamt Cb Cs Cr Cp Hbuild) as Hv.
  destruct (build_settlement_shape terms _ _ Hb honest Hbuild)
    as (c & p & l1 & l2 & l3 & _ & Hout & Hc & Hp & Hnet & [Hs1 _] & [Hs2 _] & [Hs3 He3] & Hnn).
  assert (sumZ [(op, value_atoms (output e))].*2 = value_atoms (output e)) as Hone by (cbn; lia).
  rewrite Hone in Hs3, He3. fold change in Hs3, He3.
  assert (0 <= value_atoms (output e) <= TOTAL_SUPPLY_ATOMS) as Hval by (destruct Hb as [_ _ _ _ Hv1 Hv2]; cbn [snd fmap list_fmap sumZ foldr] in Hv1, Hv2; apply Forall_cons in Hv1 as [? _]; lia).
  assert (sumZ (value_atoms <$> outputs honest) = value_atoms (output e) - miner_fee_atoms terms) as Hsum.
  { rewrite Hout, !outs_sum_cons, !fmap_app, !sumZ_app, Hs1, Hs2, Hs3. destruct Hc as [-> _], Hp as [-> _].
    unfold change, net_proceeds. cbn [op_output value_atoms snd fmap list_fmap]. lia. }
  assert (TOTAL_SUPPLY_ATOMS <= U64_MAX) as Hu64 by done.
  assert (total_output_atoms tx = value_atoms (output e) - miner_fee_atoms terms) as Hto.
  { unfold total_output_atoms. change (outputs tx) with (outputs honest). rewrite sat_sum_fits; [done|by apply Forall_fmap|].
    rewrite Hsum. destruct Hb as [_ [? _] _ _ _ _]. lia. }
  assert (input_value U tx = value_atoms (output e)) as Hiv.
  { unfold input_value. cbn. unfold value_or_0. rewrite He. cbn. unfold entry_value, sat_add64. lia. }
  assert (tx_fee U tx = miner_fee_atoms terms) as Hfee.
  { unfold tx_fee. rewrite Hto, Hiv. unfold sat_sub64. destruct Hb as [_ [? _] _ _ _ _]. lia. }
  assert (miner_fee_atoms terms >= 0) as Hmf by (destruct Hb as [_ [? _] _ _ _ _]; lia).
  exists (accepted sk tx). split_and!.
  - apply (asset_accept_runs w f kp sk); [done|done| |done]. rewrite <- Hv. by apply verify_settlement_outputs.
  - done.
  - rewrite <- Hfee. apply (accepted_valid U params h sk op (outputs honest)); [by exists e|]. fold tx. rewrite Hto, Hiv. lia.
  - exists p. split; [|done]. change (outputs (accepted sk tx)) with (outputs honest). by rewrite Hout.
  - intros Hpos. destruct (He3 Hpos) as (o & -> & Hpay). exists o. split; [|done].
    change (outputs (accepted sk tx)) with (outputs honest). rewrite Hout. set_solver.
Qed.

(** ** A sale at a hundredth of what the seller's output is worth *)
Module Sold.
#[local] Existing Instance Market.market_crypto.
#[local] Existing Instance toy_cipher.
Definition kp : WalletKeypair :=
  match from_signing_key (H := Market.market_crypto) toy_key with
  | Done kp => kp
  | Panic => {| private_key_hex := ""; public_key_hex := ""; address := "" |}
  end.
Lemma made : from_signing_key (H := Market.market_crypto) toy_key = Done kp.
Proof. vm_compute. reflexivity. Qed.
Definition terms : SettlementTerms := {|
  terms_asset_id := replicate 32 7; terms_amount := 5; price_atoms := 1000000; terms_royalty_bps := 500;
  terms_royalty_addr := Market.addr 3; seller_addr := address kp; buyer_addr := Market.addr 2; miner_fee_atoms := 10000 |}.
Definition op : OutPoint := {| txid := mkHash (replicate 32 9); output_index := 0 |}.
Definition e : UtxoEntry := {|
  output := {| value_atoms := 100000000; script_pubkey := owner_script toy_key |}; created_height := 5; coinbase_output := false |}.
Definition U : UtxoSet := {[ op := e ]}.
Definition built := build_settlement_tx terms (op, 0) [(op, 100000000)].
Definition honest : Transaction := match built with Ok t => t | Err _ => payment [] [] end.
Lemma sold_built_eq : built = Ok honest.
Proof. vm_compute. reflexivity. Qed.
Definition file : WalletFile :=
  match encrypt (replicate 16 1) (replicate 24 2) kp "a passphrase" with
  | Ok f => f
  | Err _ => {| version := 0; wf_address := ""; wf_public_key_hex := "";
                encrypted_private_key := {| kdf := ""; kdf_memory_kib := 0; kdf_iterations := 0; kdf_parallelism := 0;
                  cipher := ""; salt_hex := ""; nonce_hex := ""; ciphertext_hex := "" |} |}
  end.
Definition world : World := {|
  passphrase_var := Some "a passphrase"%string; wallet_file := Ok file; get_utxos := λ _, Err "no node"%string;
  get_tip_height := Ok 60; get_asset_info := λ _, Err "no indexer"%string; send_raw := λ _, Ok "accepted"%string |}.
Lemma sold_unlocks_to : unlocked world = Done (Ok (file, kp)).
Proof. vm_compute. reflexivity. Qed.
Lemma file_is : seller_addr terms = wf_address file.
Proof. vm_compute. reflexivity. Qed.
Lemma sold_ready : seller_ready world file kp terms "accepted".
Proof. exact (Build_seller_ready world file kp terms "accepted" sold_unlocks_to file_is (λ _, eq_refl)). Qed.
Lemma sold_in_set : U !! op = Some e.
Proof. exact (lookup_singleton_eq op e). Qed.
Lemma sold_bounds : settlement_bounds terms (op, 0) [(op, value_atoms (output e))].
Proof. split; by_compute. Qed.
Lemma seller_canonical : canonical (address kp).
Proof. eapply Market.canonical_by; vm_compute; reflexivity. Qed.
Lemma buyer_canonical : canonical (Market.addr 2).
Proof. eapply Market.canonical_by; vm_compute; reflexivity. Qed.
Lemma royalty_canonical : canonical (Market.addr 3).
Proof. eapply Market.canonical_by; vm_compute; reflexivity. Qed.
Lemma platform_canonical : canonical PLATFORM_FEE_ADDRESS.
Proof. eapply Market.canonical_by; vm_compute; reflexivity. Qed.
Lemma amount_ok : is_u64 5.
Proof. by_compute. Qed.
End Sold.

Lemma accepted_sale_paid_by_seller_witness :
  exists tx', cmd_asset_accept (H := Market.market_crypto) (H0 := toy_cipher)
      (Ok {| file_tx := payment (H := Market.market_crypto) [unsigned_input Sold.op] (outputs Sold.honest); file_terms := Sold.terms |})
      Sold.world = Done (Ok (tx', "accepted"%string))
    /\ previous_output <$> inputs tx' = [Sold.op]
    /\ validate_transaction (H := Market.market_crypto) Sold.U tx' 60 MAINNET = Ok 10000.
Proof.
  destruct (@accepted_sale_paid_by_seller Market.market_crypto Market.market_laws toy_cipher MAINNET Sold.U 60 Sold.terms Sold.op
    Sold.e Sold.honest Sold.kp toy_key Sold.world Sold.file "accepted" Sold.made Sold.sold_ready Sold.sold_in_set eq_refl eq_refl
    Sold.sold_bounds eq_refl Sold.amount_ok Sold.buyer_canonical Sold.seller_canonical Sold.royalty_canonical
    Sold.platform_canonical Sold.sold_built_eq) as (tx' & H1 & H2 & H3 & _).
  exact (ex_intro _ tx' (conj H1 (conj H2 H3))).
Defined.
