(* ===== verification/CliNode.v ===== *)
(** * The wallet talks to the node

    What the node answers to [/getutxos] is honest about its UTXO set, and stays so
    until the transaction built from it is sent: the [send] command pays what was asked. *)

From S2P Require Import Prelude Numeral Crypto Hash Chain ScriptVM ScriptStandard Block Utxo Mempool MempoolFacts.
From S2P Require Import State StateDb StateChain StateInv StateProps StateSubmit StateTyped Wallet Fixture.
From S2P Require Import Node NodeRpc NodeFacts Cli CliWallet CliCommands CliFacts.

Local Open Scope Z_scope.

(** A line of the node's answer, as the wallet parses it. *)
Definition rpc_view (p : OutPoint * UtxoEntry * bool) : RpcUtxo := {|
  txid_bytes := hash_bytes (txid p.1.1); rpc_index := output_index p.1.1;
  rpc_value := value_atoms (output p.1.2); mature := p.2 |}.

Lemma outpoint_rpc_view p : outpoint_of (rpc_view p) = p.1.1.
Proof. destruct p as [[[[bs] i] e] m]. reflexivity. Qed.

Lemma is_mature_immature params h e : is_mature params h e = negb (immature params h e).
Proof. unfold is_mature, immature. by rewrite negb_andb, Z.leb_antisym. Qed.

Section Node.
Context `{Crypto} `{!IterOrder OutPoint UtxoEntry} `{!IterOrder string MempoolEntry}.

(** What [/getutxos/<param>] answers, as the wallet sees it. *)
Definition node_utxos (params : ConsensusParams) (n : Node) (param : string) : result string (list RpcUtxo) :=
  match (rpc_getutxos None params param n).2 with
  | Ok l => Ok (rpc_view <$> l)
  | Err (Fail _ text) => Err text
  end.

Lemma utxos_for_script_perm d script :
  utxos_for_script d script ≡ₚ filter (λ p, script_pubkey (output p.2) = script) (map_to_list (cf_utxo d)).
Proof. unfold utxos_for_script, utxo_entries. by rewrite merge_sort_Permutation. Qed.

(** The list of a script is honest about the set. *)
Lemma listed_honest params s script :
  honest_answer (cf_utxo (db s)) params (height_or_0 s) script
    (rpc_view <$> ((λ p, (p, is_mature params (height_or_0 s) p.2)) <$> utxos_for_script (db s) script)).
Proof.
  split.
  - rewrite <- !list_fmap_compose. rewrite (list_fmap_ext _ fst) by (intros ? [] _; apply outpoint_rpc_view).
    eapply sublist_NoDup.
    2: { apply fmap_sublist. unfold utxos_for_script. apply sublist_filter. }
    unfold utxo_entries. rewrite merge_sort_Permutation. apply NoDup_fst_map_to_list.
  - unfold mature_ones. apply Forall_forall. intros u Hu. apply list_elem_of_filter in Hu as [Hm Hu].
    apply list_elem_of_fmap in Hu as (p & -> & Hp). apply list_elem_of_fmap in Hp as ([op e] & -> & Hp).
    rewrite utxos_for_script_perm in Hp. apply list_elem_of_filter in Hp as [Hs Hp]. apply elem_of_map_to_list in Hp.
    exists e. rewrite outpoint_rpc_view. split_and!; [done| |done]. split; [|done].
    cbn [rpc_view mature snd] in Hm. rewrite is_mature_immature in Hm. by apply negb_true_iff.
  - intros op e He [Hi Hs]. exists (rpc_view ((op, e), is_mature params (height_or_0 s) e)).
    rewrite outpoint_rpc_view. split; [|done]. apply list_elem_of_filter. split.
    + cbn [rpc_view mature snd]. by rewrite is_mature_immature, Hi.
    + apply list_elem_of_fmap. eexists. split; [done|]. apply list_elem_of_fmap. exists (op, e). split; [done|].
      rewrite utxos_for_script_perm. apply list_elem_of_filter. split; [done|]. by apply elem_of_map_to_list.
Qed.

(** Synchronising again after the database was written changes nothing a query sees. *)
Lemma synced_again params n n1 s :
  state_ok params (open_db (node_db n)) -> synced_state None params n = (n1, Ok s) ->
  exists s2, synced_state None params n1 = (with_chain s2 (node_mempool n1) n1, Ok s2)
    /\ cf_utxo (db s2) = cf_utxo (db s) /\ height_or_0 s2 = height_or_0 s /\ node_mempool n1 = node_mempool n.
Proof.
  intros Hok. unfold synced_state. destruct (ensure_utxo_synced params (open_db (node_db n))) as [s1 [[]|e]] eqn:Hs; [|done].
  destruct (ensure_synced_spec _ _ _ _ Hok Hs) as (Hok1 & _ & _ & Hsy). intros [= <- <-].
  change (node_db (with_chain s1 (node_mempool n) n)) with (db s1).
  destruct (tip_cache s1) as [t|] eqn:Ht.
  - destruct (state_ok_tip _ _ _ Hok1 Ht) as (l & Htip & _). destruct (open_db_tip _ _ _ _ Htip) as [Htip1 Hdb1].
    rewrite ensure_synced_id.
    + eexists. split; [done|]. split_and!; [by rewrite Hdb1| |done].
      unfold height_or_0. by rewrite (tip_height_cached _ _ _ _ Htip1), (tip_height_cached _ _ _ _ Htip).
    + intros t'. rewrite (tip_cached _ _ _ _ Htip1). intros [= <-]. rewrite Hdb1. by apply Hsy.
  - destruct Hok1 as [_ [[_ Hh Hdb]|(t & l & Htip)]]; [|by rewrite (tip_cached _ _ _ _ Htip) in Ht].
    rewrite ensure_synced_id by (rewrite Hdb; intros t'; done). eexists. split; [done|].
    rewrite open_db_db. split_and!; [done| |done]. unfold height_or_0. by rewrite Hh, Hdb.
Qed.

(** The node relays what is valid against its set. *)
Lemma node_relays params n s n1 tx fee :
  synced_state None params n = (n1, Ok s) -> is_coinbase tx = false ->
  validate_transaction (cf_utxo (db s)) tx (height_or_0 s) params = Ok fee ->
  node_mempool n1 !! to_hex (tx_id tx) = None ->
  (forall k e, node_mempool n1 !! k = Some e -> inputs_disjoint tx (entry_tx e)) ->
  MIN_RELAY_FEE_ATOMS <= fee -> pool_len (node_mempool n1) < MAX_MEMPOOL_TXS ->
  exists n2, rpc_sendrawtransaction None params tx n = (n2, Ok (tx_id tx, pool_len (node_mempool n1) + 1))
    /\ node_mempool n2 = <[to_hex (tx_id tx) := {| entry_tx := tx; fee_atoms := fee |}]> (node_mempool n1).
Proof.
  intros Hs Hc Hv Hnew Hd Hf Hl. unfold rpc_sendrawtransaction. rewrite Hs.
  assert (validate_transaction (seed_utxos_for_tx s tx) tx (height_or_0 s) params = Ok fee) as Hv'.
  { apply seeded_valid. by apply validate_transaction_Ok in Hv. }
  rewrite (add_accepts _ params tx _ _ fee) by done. 
  assert (pool_len (<[to_hex (tx_id tx) := {| entry_tx := tx; fee_atoms := fee |}]> (node_mempool n1))
          = pool_len (node_mempool n1) + 1) as -> by (unfold pool_len; rewrite map_size_insert_None by done; lia).
  eexists. by split.
Qed.
End Node.

(** No waiting transaction spends an output of the script. *)
Definition untouched (utxos : UtxoSet) (script : bytes) (pool : Mempool) : Prop :=
  forall k e op entry, pool !! k = Some e -> op ∈ input_outpoints (entry_tx e) -> utxos !! op = Some entry ->
    script_pubkey (output entry) <> script.

Lemma untouched_empty utxos script : untouched utxos script ∅.
Proof. intros k e op entry Hk. by rewrite lookup_empty in Hk. Qed.

(** Outpoints whose identifiers have 32 bytes, as all hashes have. *)
Definition hashes_ok (utxos : UtxoSet) : Prop := forall op, is_Some (utxos !! op) -> length (hash_bytes (txid op)) = 32%nat.

Lemma listed_well_formed params s script :
  hashes_ok (cf_utxo (db s)) ->
  well_formed (rpc_view <$> ((λ p, (p, is_mature params (height_or_0 s) p.2)) <$> utxos_for_script (db s) script)).
Proof.
  intros Hh. unfold well_formed. apply Forall_fmap, Forall_fmap, Forall_forall. intros [op e] Hp. cbn.
  rewrite utxos_for_script_perm in Hp. apply list_elem_of_filter in Hp as [_ Hp]. apply elem_of_map_to_list in Hp.
  apply Hh. eauto.
Qed.

Lemma listed_values params s script :
  map_Forall (λ _ e, 0 <= value_atoms (output e)) (cf_utxo (db s)) ->
  Forall (λ u, 0 <= rpc_value u) (rpc_view <$> ((λ p, (p, is_mature params (height_or_0 s) p.2)) <$> utxos_for_script (db s) script)).
Proof.
  intros Hv. apply Forall_fmap, Forall_fmap, Forall_forall. intros [op e] Hp. cbn.
  rewrite utxos_for_script_perm in Hp. apply list_elem_of_filter in Hp as [_ Hp]. apply elem_of_map_to_list in Hp.
  by apply (Hv op).
Qed.

(** The value of the outputs the owner of a script can spend. *)
#[export] Instance spendable_dec params h script e : Decision (spendable params h script e).
Proof. unfold spendable. apply _. Defined.

Definition owned_value (utxos : UtxoSet) (params : ConsensusParams) (h : Z) (script : bytes) : Z :=
  sumZ ((λ p, value_atoms (output p.2)) <$> filter (λ p, spendable params h script p.2) (map_to_list utxos)).

Lemma filter_fmap_commute {A B} (f : A -> B) (P : B -> Prop) `{!forall x, Decision (P x)} (l : list A) :
  filter P (f <$> l) = f <$> filter (λ x, P (f x)) l.
Proof. induction l as [|x l IH]; [done|]. csimpl. rewrite !filter_cons. case_decide; csimpl; by rewrite IH. Qed.

Lemma filter_filter_and {A} (P Q R : A -> Prop) `{!forall x, Decision (P x), !forall x, Decision (Q x), !forall x, Decision (R x)}
    (l : list A) : (forall x, R x <-> P x /\ Q x) -> filter P (filter Q l) = filter R l.
Proof.
  intros Hr. induction l as [|x l IH]; [done|]. rewrite !filter_cons. pose proof (Hr x) as Hx.
  destruct (decide (Q x)); [rewrite filter_cons|]; repeat case_decide; rewrite ?IH; tauto || done.
Qed.

Lemma listed_balance params s script :
  map_Forall (λ _ e, 0 <= value_atoms (output e)) (cf_utxo (db s)) ->
  mature_balance (rpc_view <$> ((λ p, (p, is_mature params (height_or_0 s) p.2)) <$> utxos_for_script (db s) script))
    = Z.min (owned_value (cf_utxo (db s)) params (height_or_0 s) script) U64_MAX.
Proof.
  intros Hv. unfold mature_balance, mature_ones. rewrite !filter_fmap_commute, <- !list_fmap_compose.
  cbn [rpc_view mature snd]. rewrite sat_sum_spec.
  - f_equal. unfold owned_value. apply sumZ_perm. rewrite utxos_for_script_perm.
    rewrite (filter_filter_and _ _ (λ p, spendable params (height_or_0 s) script p.2)); [done|].
    intros [op e]. cbn. unfold spendable. rewrite is_mature_immature, negb_true_iff. tauto.
  - apply Forall_fmap, Forall_forall. intros [op e] Hp. cbn. apply list_elem_of_filter in Hp as [_ Hp].
    rewrite utxos_for_script_perm in Hp. apply list_elem_of_filter in Hp as [_ Hp]. apply elem_of_map_to_list in Hp.
    by apply (Hv op).
Qed.

Section Answer.
Context `{Crypto} `{!CryptoLaws _} `{!IterOrder OutPoint UtxoEntry} `{!IterOrder string MempoolEntry}.

(** The database a query works on is typed if the stored one is. *)
Lemma synced_typed params n n1 s :
  state_ok params (open_db (node_db n)) -> db_typed (node_db n) -> synced_state None params n = (n1, Ok s) -> db_typed (db s).
Proof.
  intros Hok Hd. unfold synced_state. destruct (ensure_utxo_synced params (open_db (node_db n))) as [s1 [[]|e]] eqn:Hs; [|done].
  intros [= _ <-]. apply (ensure_synced_typed params (open_db (node_db n)) s1 (Ok ())); [done| |done]. by rewrite open_db_db.
Qed.

Lemma typed_values d : db_typed d -> hashes_ok (cf_utxo d) /\ map_Forall (λ _ e, 0 <= value_atoms (output e)) (cf_utxo d).
Proof.
  intros [_ _ _ Hu]. split.
  - intros op [e He]. destruct (Hu op e He) as [[[Hl _] _] _]. exact Hl.
  - intros op e He. destruct (Hu op e He) as [_ [[[Hv _] _] _]]. exact Hv.
Qed.

(** The query for a wallet's own address. *)
Lemma node_utxos_own params n n1 s kp sk :
  made_from kp sk -> synced_state None params n = (n1, Ok s) ->
  node_utxos params n (address kp)
    = Ok (rpc_view <$> ((λ p, (p, is_mature params (height_or_0 s) p.2)) <$> utxos_for_script (db s) (owner_script sk))).
Proof.
  intros Hk Hs. destruct (made_address kp sk Hk) as [Haddr _].
  assert (starts_with (bytes_of_string (address kp)) (bytes_of_string "txm1") = true) as Hpre.
  { unfold made_from, from_signing_key, address_from_public_key in Hk.
    destruct (bech32_encode _ _) as [a|] eqn:Ha; [|done]. injection Hk as <-. cbn [address].
    exact (bech32_prefix _ _ _ (or_introl eq_refl) Ha). }
  unfold node_utxos, rpc_getutxos, script_of_param. rewrite Hpre, Haddr, Hs, bool_decide_false; [done|].
  intros E. by rewrite E in Hpre.
Qed.
End Answer.

(** The [send] command pays what it is asked. Let a wallet whose file was encrypted with
    the passphrase ask a node with a good and well-typed database. If the wallet's mature outputs at the tip
    cover the amount and the fee, none of them is being spent by a waiting transaction, and the
    fee relays, the command builds a transaction that pays exactly the amount to the recipient's
    script and the rest but the fee back to the wallet, and the node that was asked accepts it into its
    mempool with exactly that fee. *)
Theorem cli_send_relayed `{Crypto} `{!CryptoLaws _} `{WalletCipher} `{!CipherLaws _}
    `{!IterOrder OutPoint UtxoEntry} `{!IterOrder string MempoolEntry}
    params n n1 s kp sk salt nonce pass f w state args to dest amount_text amount fee :
  state_ok params (open_db (node_db n)) -> synced_state None params n = (n1, Ok s) ->
  db_typed (node_db n) ->
  from_signing_key sk = Done kp ->
  bytes_ok salt -> length salt = 16%nat -> bytes_ok nonce -> length nonce = 24%nat -> (8 <= String.length pass)%nat ->
  encrypt salt nonce kp pass = Ok f ->
  passphrase_var w = Some pass -> wallet_file w = Ok f -> get_utxos w = node_utxos params n ->
  args !! 2%nat = Some to -> args !! 3%nat = Some amount_text -> parse_u64 amount_text = Some amount ->
  send_fee args = Ok fee -> p2pkh_from_address to = Ok dest ->
  0 <= amount -> MIN_RELAY_FEE_ATOMS <= fee -> amount + fee <= U64_MAX ->
  amount + fee <= owned_value (cf_utxo (db s)) params (height_or_0 s) (owner_script sk) ->
  untouched (cf_utxo (db s)) (owner_script sk) (node_mempool n) -> pool_len (node_mempool n) < MAX_MEMPOOL_TXS ->
  exists tx change, cmd_send args w state = Done (Ok tx) /\ 0 <= change
    /\ outputs tx = with_change change (owner_script sk) [ {| value_atoms := amount; script_pubkey := dest |} ]
    /\ (node_mempool n !! to_hex (tx_id tx) = None ->
        exists n2, rpc_sendrawtransaction None params tx n1 = (n2, Ok (tx_id tx, pool_len (node_mempool n) + 1))
          /\ node_mempool n2 = <[to_hex (tx_id tx) := {| entry_tx := tx; fee_atoms := fee |}]> (node_mempool n)).
Proof.
  intros Hok Hs Hty Hk Hsa Hsal Hno Hnol Hp Hf Hpv Hwf Hget Hto Hat Hpa Hfee Hd Ha Hmin Hmax Hown Hun Hpool.
  destruct (typed_values (db s) (synced_typed params n n1 s Hok Hty Hs)) as [Hh Hv].
  destruct (decrypt_encrypt kp sk salt nonce pass Hk Hsa Hsal Hno Hnol) as (f' & Hf' & Haddr & _ & _).
  assert (f' = f) as -> by congruence.
  set (answer := rpc_view <$> ((λ p, (p, is_mature params (height_or_0 s) p.2)) <$> utxos_for_script (db s) (owner_script sk))).
  assert (own_utxos w f = Ok answer) as Hans.
  { unfold own_utxos. rewrite Hget, Haddr. by eapply node_utxos_own. }
  pose proof (listed_honest params s (owner_script sk)) as Hhon. fold answer in Hhon.
  pose proof (listed_values params s (owner_script sk) Hv) as Hvals. fold answer in Hvals.
  assert (0 <= fee) as Hf0 by (unfold MIN_RELAY_FEE_ATOMS in Hmin; lia).
  destruct (payment_builds kp sk Hk _ params _ answer Hhon Hvals (wallet_id f) Haddr to dest amount fee) as [tx Htx]; try done.
  { by apply listed_well_formed. }
  { unfold answer. rewrite listed_balance by done. lia. }
  destruct (payment_valid kp sk Hk _ params _ answer Hhon Hvals (wallet_id f) Haddr to amount fee tx)
    as (dest' & change & Hd' & Hc & Hout & Hspent & Hcb & Hval); try done.
  assert (dest' = dest) as -> by congruence.
  exists tx, change. split_and!; try done.
  - unfold cmd_send, arg_parsed, arg. rewrite Hto, Hat. cbn [ok_or mbind result_bind]. rewrite Hpa, Hfee.
    unfold try, mbind, command_bind, unlocked. cbn [ok_or]. rewrite Hpv, Hwf.
    rewrite (unlock_encrypted kp sk salt nonce pass f) by done. rewrite Hans, Htx. done.
  - intros Hnew. destruct (synced_again params n n1 s Hok Hs) as (s2 & Hs2 & Hu & Hhe & Hpl).
    rewrite <- Hpl in Hnew, Hpool |- *. rewrite <- Hu, <- Hhe in Hval.
    apply (node_relays params n1 s2 _ tx fee Hs2); try done.
    intros k e Hke op Hop Hop'. destruct (Hspent op Hop) as (entry & Hentry & [_ Hscr]).
    rewrite Hpl in Hke. exact (Hun k e op entry Hke Hop' Hentry Hscr).
Qed.
