(* ===== verification/CliWitness.v ===== *)
(** * The command-line wallet on concrete inputs

    A chain whose first block paid the wallet of [toy_key], a node that serves it, and
    the wallet's commands run against that node. *)

From S2P Require Import Prelude Numeral Crypto Hash Chain ScriptVM ScriptStandard Block Utxo Mempool MempoolFacts.
From S2P Require Import State StateDb StateChain StateInv StateProps StateSubmit StateTyped Wallet Fixture StateWitness.
From S2P Require Import Node NodeRpc NodeFacts Cli CliWallet CliCommands CliFacts CliNode CliScripts NodeBanFacts Relay TxRelay.

Local Open Scope Z_scope.

#[local] Existing Instance toy_crypto.
#[local] Existing Instance toy_cipher.
#[local] Existing Instance trie_order.

(** A result has one value. *)
Lemma Ok_unique {E A} (r : result E A) a b : r = Ok a -> r = Ok b -> a = b.
Proof. congruence. Qed.

Module Paid.
(** The parameters of [Fixture.easy], with rewards that are spent at once. *)
Definition params : ConsensusParams := {|
  network := Mainnet; p_chain_id := "tensorium-mainnet"; target_block_seconds := 60;
  halving_interval_blocks := 2102400; max_halving_eras := 10;
  total_supply_atoms := TOTAL_SUPPLY_ATOMS; founder_allocation_atoms := 0;
  mining_allocation_atoms := MINING_ALLOCATION_ATOMS; genesis_allocations := [];
  founder_address := ""; initial_reward_atoms := 785584523;
  initial_leading_zero_bits := 0; min_leading_zero_bits := 0; max_leading_zero_bits := 58;
  difficulty_adjustment_window := 60; difficulty_retarget_activation_height := U64_MAX;
  coinbase_maturity_blocks := 0; max_future_block_time_seconds := 7200;
  max_block_bytes := 1000000 |}.

Definition kp : WalletKeypair := Parties.wallet toy_key.
Definition to : string := address (Parties.wallet toy_key2).
Definition dest : bytes := owner_script toy_key2.

Definition s0 : ChainState := (init_genesis params 1000 5 new_state).1.
Definition genesis0 : Block := History.value_of (init_genesis params 1000 5 new_state).2.
Definition b1 : Block := candidate params (Some genesis0) 1060 (address kp) [] 0.
Definition s1 : ChainState := (submit_block params b1 1060 s0).1.
Definition n : Node := {| node_db := db s1; node_mempool := ∅; node_bans := ∅ |}.
Definition n1 : Node := (synced_state None params n).1.
Definition s : ChainState := match (synced_state None params n).2 with Ok s => s | Err _ => s1 end.

Lemma paid_snd0 : (init_genesis params 1000 5 new_state).2 = Ok genesis0.
Proof. vm_compute. reflexivity. Qed.
Lemma paid_nonzero : block_hash genesis0 <> ZERO /\ block_hash b1 <> ZERO.
Proof. by_compute. Qed.
Lemma paid_size0 : Z.of_nat (size (cf_blocks (db s0))) < U64_MAX.
Proof. vm_compute. reflexivity. Qed.
Lemma ok : state_ok params (open_db (node_db n)).
Proof.
  assert (op_step params new_state s0) as H0
    by exact (step_genesis params new_state 1000 5 s0 genesis0 (pair_with _ _ paid_snd0) (proj1 paid_nonzero)).
  assert (op_step params s0 s1) as H1 by exact (step_submit params s0 b1 1060 (proj2 paid_nonzero) paid_size0).
  exact (open_db_ok params s1 (op_step_ok _ _ _ (op_step_ok _ _ _ (new_state_ok _) H0) H1)).
Qed.
Lemma sync_snd : (synced_state None params n).2 = Ok s.
Proof. vm_compute. reflexivity. Qed.
Lemma sync : synced_state None params n = (n1, Ok s).
Proof. exact (pair_with _ _ sync_snd). Qed.
Lemma paid_params_ok : params_typed params.
Proof. split; [split; vm_compute; intuition congruence|split; vm_compute; intuition congruence|by_compute|by_compute]. Qed.
Lemma paid_times : is_u64 1000 /\ is_u64 5 /\ is_u64 1060.
Proof. by_compute. Qed.
Lemma typed : db_typed (node_db n).
Proof.
  assert (typed_step params new_state s0) as H0
    by exact (typed_genesis params new_state 1000 5 s0 genesis0 (proj1 paid_times) (proj1 (proj2 paid_times)) (pair_with _ _ paid_snd0) (proj1 paid_nonzero)).
  assert (typed_step params s0 s1) as H1 by exact (typed_submit params s0 b1 1060
    (@template_typed toy_crypto toy_laws params (Some genesis0) 1060 (address kp) paid_params_ok (proj2 (proj2 paid_times))) (proj2 paid_nonzero) paid_size0).
  assert (state_ok params s0) as Hok0 by exact (op_step_ok _ _ _ (new_state_ok _) (typed_op_step _ _ _ H0)).
  exact (@typed_step_ok toy_crypto toy_laws _ params s0 s1 paid_params_ok Hok0
    (@typed_step_ok toy_crypto toy_laws _ params new_state s0 paid_params_ok (new_state_ok _) new_db_typed H0) H1).
Qed.
Lemma funds : 300000000 + 10000 <= owned_value (cf_utxo (db s)) params (height_or_0 s) (owner_script toy_key).
Proof. vm_compute. discriminate. Qed.

Definition file : WalletFile :=
  match encrypt (replicate 16 1) (replicate 24 2) kp "a passphrase" with
  | Ok f => f
  | Err _ => {| version := 0; wf_address := ""; wf_public_key_hex := "";
                encrypted_private_key := {| kdf := ""; kdf_memory_kib := 0; kdf_iterations := 0; kdf_parallelism := 0;
                  cipher := ""; salt_hex := ""; nonce_hex := ""; ciphertext_hex := "" |} |}
  end.
Lemma encrypted : encrypt (replicate 16 1) (replicate 24 2) kp "a passphrase" = Ok file.
Proof. vm_compute. reflexivity. Qed.

Definition world : World := {|
  passphrase_var := Some "a passphrase"%string; wallet_file := Ok file; get_utxos := node_utxos params n;
  get_tip_height := Ok 1; get_asset_info := λ _, Err "no indexer"%string; send_raw := λ _, Ok "accepted"%string |}.

Definition args : list string := ["txmwallet"; "send"; to; "300000000"].
Lemma to_dest : p2pkh_from_address to = Ok dest.
Proof. vm_compute. reflexivity. Qed.
Lemma nothing_waits : untouched (cf_utxo (db s)) (owner_script toy_key) (node_mempool n).
Proof. exact (untouched_empty _ _). Qed.
End Paid.

Lemma cli_send_relayed_witness :
  exists tx change, cmd_send Paid.args Paid.world (Err "unused"%string) = Done (Ok tx) /\ 0 <= change
    /\ outputs tx = with_change change (owner_script toy_key) [ {| value_atoms := 300000000; script_pubkey := Paid.dest |} ]
    /\ (node_mempool Paid.n !! to_hex (tx_id tx) = None ->
        exists n2, rpc_sendrawtransaction None Paid.params tx Paid.n1 = (n2, Ok (tx_id tx, 0 + 1))
          /\ node_mempool n2 = <[to_hex (tx_id tx) := {| entry_tx := tx; fee_atoms := 10000 |}]> ∅).
Proof.
  refine (@cli_send_relayed toy_crypto toy_laws toy_cipher toy_cipher_laws (trie_order _ _) (trie_order _ _)
    Paid.params Paid.n Paid.n1 Paid.s Paid.kp toy_key (replicate 16 1) (replicate 24 2) "a passphrase" Paid.file
    Paid.world (Err "unused"%string) Paid.args Paid.to Paid.dest "300000000" 300000000 10000
    Paid.ok Paid.sync Paid.typed (Parties.wallet_made toy_key) _ _ _ _ _ Paid.encrypted
    eq_refl eq_refl eq_refl eq_refl eq_refl _ _ Paid.to_dest _ _ _ Paid.funds Paid.nothing_waits _).
  all: by_compute || (vm_compute; reflexivity) || (vm_compute; discriminate).
Defined.

(** ** The payment pushed to a second node *)
Module PaidTwice.
Definition tx : Transaction :=
  match cmd_send Paid.args Paid.world (Err "unused"%string) with Done (Ok tx) => tx | _ => Fixture.tx end.
Definition n2 : Node := (rpc_sendrawtransaction None Paid.params tx Paid.n1).1.

Lemma sent_snd : (rpc_sendrawtransaction None Paid.params tx Paid.n1).2 = Ok (tx_id tx, 1).
Proof. vm_compute. reflexivity. Qed.
Lemma sent : rpc_sendrawtransaction None Paid.params tx Paid.n1 = (n2, Ok (tx_id tx, 1)).
Proof. exact (pair_with _ _ sent_snd). Qed.
(** Its pool is empty. *)
Lemma paid_pool_empty : node_mempool Paid.n1 = ∅.
Proof. vm_compute. reflexivity. Qed.
Lemma pool_new : node_mempool Paid.n1 !! to_hex (tx_id tx) = None.
Proof. rewrite paid_pool_empty. apply lookup_empty. Qed.
Lemma pool_apart : conflicts_with_pending (node_mempool Paid.n1) tx = false.
Proof. rewrite paid_pool_empty. vm_compute. reflexivity. Qed.
Lemma paid_pool_room : pool_len (node_mempool Paid.n1) < MAX_MEMPOOL_TXS.
Proof. rewrite paid_pool_empty. reflexivity. Qed.
Lemma synced_tip : tip_cache Paid.s = Some Paid.b1.
Proof. vm_compute. reflexivity. Qed.

(** The node is on some chain. *)
Lemma on : exists l, on_chain Paid.params (Paid.b1 :: l) Paid.n1.
Proof. exact (synced_on_chain Paid.params Paid.n Paid.n1 Paid.s Paid.b1 Paid.ok Paid.sync synced_tip). Qed.
End PaidTwice.

Lemma relayed_tx_pooled_witness :
  let peer := node_as_peer None Paid.params "b" "1.2.3.4" 1100 Paid.n1 in
  let nB' := (handle_message None Paid.params "1.2.3.4" 1100 (Some (NewTx PaidTwice.tx)) Paid.n1).1.1 in
  push_tx_to_peer Paid.params "a" (open_db (node_db PaidTwice.n2)) peer PaidTwice.tx = Ok (tx_id PaidTwice.tx)
  /\ exists fee, node_mempool nB' = <[to_hex (tx_id PaidTwice.tx) := {| entry_tx := PaidTwice.tx; fee_atoms := fee |}]> (node_mempool Paid.n1).
Proof.
  destruct PaidTwice.on as [l Hon].
  destruct (@relayed_tx_pooled toy_crypto (trie_order _ _) (trie_order _ _) Paid.params "a" "b" "1.2.3.4" 1100 Paid.n1 Paid.n1
    PaidTwice.n2 (Paid.b1 :: l) PaidTwice.tx (tx_id PaidTwice.tx) 1 Hon Hon PaidTwice.sent PaidTwice.pool_new PaidTwice.pool_apart PaidTwice.paid_pool_room)
    as (Hpush & (fee & _ & _ & Hpool) & _).
  split; [exact Hpush|]. exists fee. exact Hpool.
Defined.

(** ** The payment mined by the second node and relayed back *)
Lemma empty_pool utxos params h : pool_ok utxos params h ∅.
Proof. split; [apply map_Forall_empty|done|done]. Qed.

Module PaidMined.
#[local] Abbreviation nB1 := (handle_message None Paid.params "1.2.3.4" 1100 (Some (NewTx PaidTwice.tx)) Paid.n1).1.1.
Definition nB2 : Node := (rpc_getblocktemplate None Paid.params "miner" 1200 nB1).1.
Definition value {E A} (d : A) (r : result E A) : A := match r with Ok a => a | Err _ => d end.
Definition handed : Block * Hash256 :=
  value (Fixture.first_block, ZERO) (rpc_getblocktemplate None Paid.params "miner" 1200 nB1).2.
#[local] Abbreviation block := (mined 3 handed.1).
Definition nB3 : Node := (rpc_submitblock None Paid.params block 1300 nB2).1.

Lemma handed_snd : (rpc_getblocktemplate None Paid.params "miner" 1200 nB1).2 = Ok (handed.1, handed.2).
Proof. vm_compute. reflexivity. Qed.
Lemma handed_eq : rpc_getblocktemplate None Paid.params "miner" 1200 nB1 = (nB2, Ok (handed.1, handed.2)).
Proof. exact (pair_with _ _ handed_snd). Qed.
Lemma mined_snd : (rpc_submitblock None Paid.params block 1300 nB2).2
  = Ok {| accepted := true; sub_height := height (header block); sub_hash := block_hash block; canonical := Some true |}.
Proof. vm_compute. reflexivity. Qed.
Lemma mined_eq : rpc_submitblock None Paid.params block 1300 nB2
  = (nB3, Ok {| accepted := true; sub_height := height (header block); sub_hash := block_hash block; canonical := Some true |}).
Proof. exact (pair_with _ _ mined_snd). Qed.
Lemma mined_nz : block_hash block <> ZERO.
Proof. by_compute. Qed.
Lemma mined_new : cf_blocks (node_db Paid.n1) !! block_hash block = None.
Proof. vm_compute. reflexivity. Qed.
Lemma paid_room : Z.of_nat (size (cf_blocks (node_db Paid.n1))) < U64_MAX.
Proof. vm_compute. reflexivity. Qed.
Lemma paid_activation : 0 <= difficulty_retarget_activation_height Paid.params <= U64_MAX.
Proof. vm_compute. by split. Qed.
Lemma paid_pool : pool_ok (cf_utxo (node_db Paid.n1)) Paid.params (height_or_0 (open_db (node_db Paid.n1))) (node_mempool Paid.n1).
Proof. rewrite PaidTwice.paid_pool_empty. apply empty_pool. Qed.
End PaidMined.

Lemma payment_confirmed_witness :
  let nA2 := (handle_message None Paid.params "5.6.7.8" 1250 (Some (NewBlock (mined 3 PaidMined.handed.1))) PaidTwice.n2).1.1 in
  PaidTwice.tx ∈ transactions (mined 3 PaidMined.handed.1) /\ cf_utxo (node_db nA2) = cf_utxo (node_db PaidMined.nB3)
  /\ node_mempool nA2 !! to_hex (tx_id PaidTwice.tx) = None.
Proof.
  destruct PaidTwice.on as [l Hon].
  destruct (@payment_confirmed toy_crypto (trie_order _ _) (trie_order _ _) Paid.params "1.2.3.4" "5.6.7.8" "miner" 1250 1100 1200 1300 3
    l Paid.b1 PaidTwice.tx (tx_id PaidTwice.tx) 1 PaidMined.handed.1 PaidMined.handed.2 Paid.n1 PaidTwice.n2 Paid.n1 PaidMined.nB2 PaidMined.nB3
    Hon Hon PaidMined.paid_activation PaidMined.paid_room PaidMined.paid_room PaidMined.paid_pool PaidTwice.pool_new PaidTwice.pool_apart PaidTwice.paid_pool_room
    PaidTwice.sent PaidMined.handed_eq PaidMined.mined_eq PaidMined.mined_nz PaidMined.mined_new ltac:(vm_compute; discriminate))
    as (Hin & _ & _ & Hutxo & Hpool & _).
  exact (conj Hin (conj Hutxo Hpool)).
Defined.

(** ** A vesting lock of three tranches and a claim of the first *)
Module Vest.
Definition kpb : WalletKeypair := Parties.wallet toy_key2.
Definition answer : list RpcUtxo := [ {| txid_bytes := replicate 32 7; rpc_index := 0; rpc_value := 1000000; mature := true |} ].
Definition built := build_signed_vesting_via_rpc (wallet_id Paid.file) Paid.kp (Ok answer) (address kpb) 900000 10000 100 3 50 2000.
Definition tx : Transaction := match built with Ok (t, _) => t | Err _ => Fixture.tx end.
Definition schedule : list VestingLine := match built with Ok (_, l) => l | Err _ => [] end.
Lemma vest_built_eq : built = Ok (tx, schedule).
Proof. vm_compute. reflexivity. Qed.

Definition line : VestingLine := nth 1 schedule {| line_label := ""; unlock_height := 0; line_atoms := 0; spk_hex := "" |}.
Lemma line_eq : schedule !! 1%nat = Some line.
Proof. vm_compute. reflexivity. Qed.
Definition o : TxOutput := nth 1 (outputs tx) {| value_atoms := 0; script_pubkey := [] |}.
Lemma o_eq : outputs tx !! 1%nat = Some o.
Proof. vm_compute. reflexivity. Qed.
Definition op : OutPoint := {| txid := tx_id tx; output_index := 1 |}.
Definition e : UtxoEntry := {| output := o; created_height := 5; coinbase_output := false |}.
Definition U : UtxoSet := {[ op := e ]}.
Definition u : RpcUtxo := {| txid_bytes := hash_bytes (tx_id tx); rpc_index := 1; rpc_value := 240000; mature := true |}.

Definition file : WalletFile :=
  match encrypt (replicate 16 1) (replicate 24 2) kpb "a passphrase" with Ok f => f | Err _ => Paid.file end.
Lemma file_eq : encrypt (replicate 16 1) (replicate 24 2) kpb "a passphrase" = Ok file.
Proof. vm_compute. reflexivity. Qed.
Definition world : World := {|
  passphrase_var := Some "a passphrase"%string; wallet_file := Ok file; get_utxos := λ _, Ok [u];
  get_tip_height := Ok 100; get_asset_info := λ _, Err "no indexer"%string; send_raw := λ _, Ok "accepted"%string |}.
Definition args : list string := ["txmwallet"; "vesting-claim"; spk_hex line; address kpb].
Lemma vest_unlocks_to : unlocked world = Done (Ok (file, kpb)).
Proof. vm_compute. reflexivity. Qed.
Lemma shows : shows_key file kpb.
Proof. vm_compute. reflexivity. Qed.
Lemma to_self : p2pkh_from_address (address kpb) = Ok (owner_script toy_key2).
Proof. vm_compute. reflexivity. Qed.
Lemma txid_length : length (txid_bytes u) = 32%nat.
Proof. vm_compute. reflexivity. Qed.
Lemma vest_value_ok : MIN_RELAY_FEE_ATOMS < rpc_value u <= U64_MAX.
Proof. by_compute. Qed.
Lemma vest_ready : claim_ready world file kpb args (spk_hex line) (address kpb) (owner_script toy_key2) u.
Proof.
  exact (Build_claim_ready _ _ world file kpb args (spk_hex line) (address kpb) (owner_script toy_key2) u vest_unlocks_to shows
    eq_refl eq_refl to_self (ex_intro _ [u] (conj eq_refl eq_refl)) txid_length vest_value_ok).
Qed.
Lemma op_eq : outpoint_of u = op.
Proof. vm_compute. reflexivity. Qed.
Lemma atoms_eq : rpc_value u = line_atoms line.
Proof. vm_compute. reflexivity. Qed.
Lemma vest_height_come : unlock_height line <= 100.
Proof. vm_compute. discriminate. Qed.
Lemma vest_in_set : U !! op = Some e.
Proof. exact (lookup_singleton_eq op e). Qed.
End Vest.

Lemma vesting_enforced_witness :
  sumZ (line_atoms <$> Vest.schedule) = 900000
  /\ exists tx', cmd_vesting_claim Vest.args Vest.world = Done (Ok (tx', "accepted"%string))
       /\ validate_transaction Vest.U tx' 100 MAINNET = Ok MIN_RELAY_FEE_ATOMS.
Proof.
  destruct (@vesting_enforced toy_crypto toy_laws toy_cipher MAINNET Paid.kp Vest.kpb toy_key2 (wallet_id Paid.file)
    (Ok Vest.answer) 900000 10000 100 3 50 2000 Vest.tx Vest.schedule (Parties.wallet_made toy_key2) Vest.vest_built_eq)
    as (Hsum & _ & Hlines); [by_compute..|].
  split; [exact Hsum|]. destruct (Hlines 1%nat Vest.line Vest.line_eq) as (o & Ho & _ & _ & Hspend).
  assert (o = Vest.o) as -> by (apply (inj Some); rewrite <- Ho; exact Vest.o_eq).
  destruct (Hspend Vest.U Vest.op Vest.e 100 Vest.vest_in_set eq_refl eq_refl ltac:(lia)) as [_ Hclaim].
  destruct (Hclaim Vest.vest_height_come Vest.world Vest.file Vest.args (address Vest.kpb) Paid.dest Vest.u
    "accepted"%string Vest.vest_ready Vest.op_eq Vest.atoms_eq (λ _, eq_refl)) as (tx' & H1 & _ & H2).
  exists tx'. split; [exact H1|exact H2].
Defined.

(** ** A swap between the wallets of [toy_key] and [toy_key2] *)
Module Swap.
Definition kpr : WalletKeypair := Vest.kpb.
Definition kpf : WalletKeypair := Paid.kp.
Definition preimage : bytes := replicate 32 9.
Definition hash_hex : string := (cmd_htlc_secret preimage).2.
Definition sargs : list string := ["txmwallet"; "htlc-script"; hash_hex; address kpr; address kpf; "50"].
Definition spk : bytes := match cmd_htlc_script sargs with Ok s => s | Err _ => [] end.
Lemma spk_eq : cmd_htlc_script sargs = Ok spk.
Proof. vm_compute. reflexivity. Qed.

Definition op : OutPoint := {| txid := mkHash (replicate 32 7); output_index := 3 |}.
Definition e : UtxoEntry := {|
  output := {| value_atoms := 500000; script_pubkey := spk |}; created_height := 5; coinbase_output := false |}.
Definition U : UtxoSet := {[ op := e ]}.
Definition u : RpcUtxo := {| txid_bytes := replicate 32 7; rpc_index := 3; rpc_value := 500000; mature := true |}.
Lemma swap_in_set : U !! op = Some e.
Proof. exact (lookup_singleton_eq op e). Qed.

(** The recipient and the funder, each with a node that lists the output. *)
Definition world (f : WalletFile) : World := {|
  passphrase_var := Some "a passphrase"%string; wallet_file := Ok f; get_utxos := λ _, Ok [u];
  get_tip_height := Ok 60; get_asset_info := λ _, Err "no indexer"%string; send_raw := λ _, Ok "accepted"%string |}.
Definition claim_args : list string :=
  ["txmwallet"; "htlc-claim"; hex_encode spk; address kpr; (cmd_htlc_secret preimage).1].
Definition refund_args : list string := ["txmwallet"; "htlc-refund"; hex_encode spk; address kpf].

Lemma unlocks_r : unlocked (world Vest.file) = Done (Ok (Vest.file, kpr)).
Proof. vm_compute. reflexivity. Qed.
Lemma unlocks_f : unlocked (world Paid.file) = Done (Ok (Paid.file, kpf)).
Proof. vm_compute. reflexivity. Qed.
Lemma shows_f : shows_key Paid.file kpf.
Proof. vm_compute. reflexivity. Qed.
Lemma to_f : p2pkh_from_address (address kpf) = Ok (owner_script toy_key).
Proof. vm_compute. reflexivity. Qed.
Lemma swap_value_ok : MIN_RELAY_FEE_ATOMS < rpc_value u <= U64_MAX.
Proof. by_compute. Qed.
Lemma preimage_bytes : bytes_ok preimage.
Proof. by_compute. Qed.
Lemma preimage_length : (length preimage <= 75)%nat.
Proof. apply Nat.leb_le. reflexivity. Qed.

Lemma claims : claim_ready (world Vest.file) Vest.file kpr claim_args (hex_encode spk) (address kpr) (owner_script toy_key2) u.
Proof.
  exact (Build_claim_ready _ _ (world Vest.file) Vest.file kpr claim_args (hex_encode spk) (address kpr) (owner_script toy_key2) u
    unlocks_r Vest.shows eq_refl eq_refl Vest.to_self (ex_intro _ [u] (conj eq_refl eq_refl)) eq_refl swap_value_ok).
Qed.
Lemma refunds : claim_ready (world Paid.file) Paid.file kpf refund_args (hex_encode spk) (address kpf) (owner_script toy_key) u.
Proof.
  exact (Build_claim_ready _ _ (world Paid.file) Paid.file kpf refund_args (hex_encode spk) (address kpf) (owner_script toy_key) u
    unlocks_f shows_f eq_refl eq_refl to_f (ex_intro _ [u] (conj eq_refl eq_refl)) eq_refl swap_value_ok).
Qed.
Lemma swap_height_come : 50 <= 60.
Proof. lia. Qed.
End Swap.

Lemma htlc_swap_completes_witness :
  (exists tx, cmd_htlc_claim Swap.claim_args (Swap.world Vest.file) = Done (Ok tx)
     /\ validate_transaction Swap.U tx 60 MAINNET = Ok MIN_RELAY_FEE_ATOMS)
  /\ exists tx, cmd_htlc_refund Swap.refund_args (Swap.world Paid.file) = Done (Ok tx)
     /\ validate_transaction Swap.U tx 60 MAINNET = Ok MIN_RELAY_FEE_ATOMS.
Proof.
  destruct (@htlc_swap_completes toy_crypto toy_laws toy_cipher MAINNET Swap.preimage Swap.kpr toy_key2 Swap.kpf toy_key
    Swap.sargs "50" 50 Swap.preimage_bytes Swap.preimage_length (Parties.wallet_made toy_key2) (Parties.wallet_made toy_key)
    eq_refl eq_refl eq_refl eq_refl eq_refl) as (spk & Hspk & Hswap).
  rewrite (Ok_unique _ _ _ Hspk Swap.spk_eq) in Hswap.
  destruct (Hswap Swap.U Swap.op Swap.e 60 Swap.swap_in_set eq_refl eq_refl) as [Hc Hr]. split.
  - destruct (Hc _ _ _ _ _ _ Swap.claims eq_refl eq_refl eq_refl) as (tx & H1 & _ & H2). exact (ex_intro _ tx (conj H1 H2)).
  - destruct (Hr Swap.swap_height_come _ _ _ _ _ _ Swap.refunds eq_refl eq_refl) as (tx & H1 & _ & H2).
    exact (ex_intro _ tx (conj H1 H2)).
Defined.

(** * The multisig commands on concrete inputs *)

From S2P Require Import ScriptSpend MultisigSpend.
From S2P Require Import Settlement.
From S2P Require Import CliMultisig.

#[local] Existing Instance toy_crypto.
#[local] Existing Instance toy_cipher.

(** Two of three keys behind a script hash; the third key is nobody's. *)
Module TwoOfThree.
Definition pubkeys : list bytes := MultisigWitness.pubkeys.
Definition script : bytes := MultisigWitness.script.
Definition spk : bytes := p2sh_script_from_redeem script.
Definition op : OutPoint := {| txid := mkHash (replicate 32 7); output_index := 3 |}.
Definition e : UtxoEntry := {|
  output := {| value_atoms := 500000; script_pubkey := spk |}; created_height := 5; coinbase_output := false |}.
Definition U : UtxoSet := {[ op := e ]}.
Definition u : RpcUtxo := {| txid_bytes := replicate 32 7; rpc_index := 3; rpc_value := 500000; mature := true |}.
Lemma spendable_e : spendable MAINNET 60 spk e.
Proof. split; reflexivity. Qed.
Lemma honest : honest_answer U MAINNET 60 spk [u].
Proof.
  constructor.
  - apply NoDup_singleton.
  - change (mature_ones [u]) with [u]. apply Forall_singleton. exists e. split; [exact (lookup_singleton_eq op e)|].
    split; [exact spendable_e|reflexivity].
  - intros op' e' He _. exists u. change (mature_ones [u]) with [u]. split; [by apply list_elem_of_singleton|].
    unfold U in He. apply lookup_singleton_Some in He as [<- _]. reflexivity.
Qed.

Definition to : string := address (Parties.wallet toy_key2).
Definition built := build_unsigned_multisig_tx (Ok [u]) (hex_encode spk) to 300000.
Definition tx : Transaction := match built with Ok t => t | Err _ => Fixture.tx end.
Lemma spend_built_eq : built = Ok tx.
Proof. vm_compute. reflexivity. Qed.

Definition keys : list signing_key := [toy_key; toy_key2].
Lemma keys_sublist : (pubkey_of <$> keys) `sublist_of` pubkeys.
Proof. apply sublist_skip, sublist_cons, sublist_skip, sublist_nil. Qed.
Lemma pubkeys_ok : Forall bytes_ok pubkeys.
Proof. by_compute. Qed.
Definition sign (f : WalletFile) : MultisigSigFile :=
  match cmd_multisig_sign ["txmwallet"; "multisig-sign"; "tx.json"] (Ok tx) (Swap.world f) with
  | Done (Ok file) => file
  | _ => {| unsigned_txid := ""; sigs := [] |}
  end.
Definition read_sig (path : string) : result string MultisigSigFile :=
  if bool_decide (path = "a.sig"%string) then Ok (sign Paid.file)
  else if bool_decide (path = "b.sig"%string) then Ok (sign Vest.file) else Err "read"%string.
Definition sign_args : list string := ["txmwallet"; "multisig-sign"; "tx.json"].
Lemma signs_a : cmd_multisig_sign sign_args (Ok tx) (Swap.world Paid.file) = Done (Ok (sign Paid.file)).
Proof. vm_compute. reflexivity. Qed.
Lemma signs_b : cmd_multisig_sign sign_args (Ok tx) (Swap.world Vest.file) = Done (Ok (sign Vest.file)).
Proof. vm_compute. reflexivity. Qed.
Lemma reads_a : read_sig "a.sig" = Ok (sign Paid.file).
Proof. reflexivity. Qed.
Lemma reads_b : read_sig "b.sig" = Ok (sign Vest.file).
Proof. reflexivity. Qed.
Lemma files : Forall2 (signed_file read_sig tx) keys ["a.sig"; "b.sig"]%string.
Proof.
  constructor; [|constructor; [|constructor]].
  - exists (Swap.world Paid.file), Paid.file, Swap.kpf, sign_args, (sign Paid.file).
    exact (conj (Parties.wallet_made toy_key) (conj Swap.unlocks_f (conj (mk_is_Some (sign_args !! 2%nat) "tx.json"%string eq_refl) (conj signs_a reads_a)))).
  - exists (Swap.world Vest.file), Vest.file, Swap.kpr, sign_args, (sign Vest.file).
    exact (conj (Parties.wallet_made toy_key2) (conj Swap.unlocks_r (conj (mk_is_Some (sign_args !! 2%nat) "tx.json"%string eq_refl) (conj signs_b reads_b)))).
Qed.
Definition args : list string :=
  ["txmwallet"; "multisig-combine"; "tx.json"; "a.sig"; "b.sig"; "--redeem"; hex_encode script].
Lemma two : (2 : Z) <= 2.
Proof. lia. Qed.
Lemma values : Forall (λ u, 0 <= rpc_value u) [u].
Proof. by_compute. Qed.
Lemma amount_bounds : 0 <= 300000 /\ 300000 + MIN_RELAY_FEE_ATOMS <= U64_MAX.
Proof. by_compute. Qed.
Lemma locked : multisig_lock script (length pubkeys) spk (Some (hex_encode script)).
Proof. apply lock_hash. apply Nat.leb_le. reflexivity. Qed.
Lemma parsed : parse_combine_args (drop 3 args) None [] = Ok (Some (hex_encode script), ["a.sig"; "b.sig"]%string).
Proof. vm_compute. reflexivity. Qed.

(** Eight times the same key. *)
Definition large_args : list string :=
  ["txmwallet"; "p2sh-multisig-script"; "2"]%string ++ replicate 8 (hex_encode (vk_to_sec1 toy_key)).
Definition large : bytes * bytes * string :=
  match cmd_p2sh_multisig_script large_args with Done (Ok r) => r | _ => ([], [], ""%string) end.
Definition redeem : bytes := large.1.1.
Definition locked_spk : bytes := large.1.2.
Definition addr : string := large.2.
Lemma large_eq : cmd_p2sh_multisig_script large_args = Done (Ok (redeem, locked_spk, addr)).
Proof. vm_compute. reflexivity. Qed.
Lemma eight : (7 < length (drop 3 large_args))%nat.
Proof. apply Nat.ltb_lt. reflexivity. Qed.
Definition large_combine : list string :=
  ["txmwallet"; "multisig-combine"; "tx.json"; "a.sig"; "b.sig"; "--redeem"; hex_encode redeem].
Lemma redeem_hex : hex_decode (hex_encode redeem) = Some redeem.
Proof. vm_compute. reflexivity. Qed.
Lemma large_parsed : parse_combine_args (drop 3 large_combine) None [] = Ok (Some (hex_encode redeem), ["a.sig"; "b.sig"]%string).
Proof. vm_compute. reflexivity. Qed.
End TwoOfThree.

Lemma multisig_completes_witness :
  exists tx', cmd_multisig_combine TwoOfThree.args (Ok TwoOfThree.tx) TwoOfThree.read_sig = Done (Ok tx')
    /\ validate_transaction TwoOfThree.U tx' 60 MAINNET = Ok MIN_RELAY_FEE_ATOMS.
Proof.
  destruct (@multisig_completes toy_crypto toy_laws toy_cipher MAINNET TwoOfThree.U 60 2 TwoOfThree.pubkeys TwoOfThree.script
    TwoOfThree.spk (Some (hex_encode TwoOfThree.script)) [TwoOfThree.u] TwoOfThree.to 300000 TwoOfThree.tx TwoOfThree.keys
    ["a.sig"; "b.sig"]%string TwoOfThree.read_sig TwoOfThree.args "tx.json"
    TwoOfThree.two MultisigWitness.script_built TwoOfThree.pubkeys_ok TwoOfThree.locked TwoOfThree.honest TwoOfThree.values
    (proj1 TwoOfThree.amount_bounds) (proj2 TwoOfThree.amount_bounds) TwoOfThree.spend_built_eq TwoOfThree.keys_sublist eq_refl
    TwoOfThree.files eq_refl TwoOfThree.parsed) as (tx' & dest & change & H1 & _ & _ & _ & H2).
  exact (ex_intro _ tx' (conj H1 H2)).
Defined.

Lemma large_p2sh_multisig_locked_witness :
  cmd_multisig_combine TwoOfThree.large_combine (Ok TwoOfThree.tx) TwoOfThree.read_sig <> Done (Ok TwoOfThree.tx).
Proof.
  exact (proj1 (@large_p2sh_multisig_locked toy_crypto toy_laws TwoOfThree.large_args TwoOfThree.redeem TwoOfThree.locked_spk
    TwoOfThree.addr TwoOfThree.large_eq TwoOfThree.eight) TwoOfThree.large_combine (Ok TwoOfThree.tx) TwoOfThree.read_sig
    (hex_encode TwoOfThree.redeem) ["a.sig"; "b.sig"]%string TwoOfThree.tx TwoOfThree.redeem_hex TwoOfThree.large_parsed).
Defined.
