(* ===== verification/Adapter.v ===== *)
(** * The exchange adapter ([crates/txm-rpc-adapter])

    The Bitcoin-style JSON-RPC daemon of exchanges: amounts as text, the client of
    the node ([node.rs]), the hot keystore and withdrawals ([wallet.rs]), the deposit
    ledger ([scan.rs]), and the methods ([main.rs]). HTTP and the files are the [Client]
    and the arguments; an error is the constant part of its text. A read amount is text; that
    it is printed as a float, and what a JSON number looks like with 8 decimals, are outside. *)

From S2P Require Import Prelude Numeral Crypto Hash ScriptVM ScriptStandard Block Settlement Wallet Json Cli CliWallet.

Local Open Scope Z_scope.

(** ** Amounts *)

(** [a.checked_add(b)] and [a.checked_mul(b)] *)
Definition fits64 (n : Z) : option Z := if n <=? U64_MAX then Some n else None.
Definition checked_add64 (a b : Z) : option Z := fits64 (a + b).
Definition checked_mul64 (a b : Z) : option Z := fits64 (a * b).

Definition SAT : Z := 100000000.

(** [while frac_padded.len() < 8 { frac_padded.push('0') }] *)
Definition pad_right (width : nat) (s : string) : string := s +:+ zeros (width - String.length s).

Definition txm_to_atoms (s : string) : result string Z :=
  let s := trim s in
  let '(int, frac) := default (s, EmptyString) (split_once (ascii_of_byte 46) s) in
  reject_if (8 <? String.length frac)%nat "too many decimals (max 8)"%string;;
  int ← ok_or (parse_u64 int) "bad integer part"%string;
  frac ← ok_or (parse_u64 (pad_right 8 frac)) "bad fraction"%string;
  ok_or (checked_mul64 int SAT ≫= λ a, checked_add64 a frac) "amount overflow"%string.

Definition atoms_to_txm_str (atoms : Z) : string :=
  dec_string (atoms / SAT) +:+ "." +:+ zero_padded 8 (atoms mod SAT).

(** ** The client of the node *)

(** The URL prefix [Node::new] computes. *)
Fixpoint trim_slashes (bs : bytes) : bytes :=
  match bs with b :: bs' => if b =? 47 then trim_slashes bs' else bs | [] => [] end.
Definition node_base (base : string) : string :=
  let b := reverse (trim_slashes (reverse (trim_bytes (bytes_of_string base)))) in
  if starts_with b (bytes_of_string "http://") || starts_with b (bytes_of_string "https://")
  then string_of_bytes b else "http://" +:+ string_of_bytes b.

Section Client.
Context `{Json}.

(** What the node answers to a [GET], to [/getutxos/<address>] (deserialised), and to a posted
    transaction. *)
Record Client := {
  get : string -> result string json;
  utxos : string -> result string (list RpcUtxo);
  post : Transaction -> result string json;
}.

(** [x as u8] for the elements that are numbers. *)
Definition bytes_of_array (a : list json) : bytes := omap (λ x, (λ b, b `mod` 256) <$> as_u64 x) a.

(** [txid_to_hex], also the [match] on [hash] in [block_at] *)
Definition hex_of (v : json) : option string :=
  match as_array v with
  | Some a => Some (hex_lower (bytes_of_array a))
  | None => as_str v
  end.
Definition txid_to_hex (v : json) : string := default EmptyString (hex_of v).

Definition block_count (node : Client) : result string Z :=
  v ← get node "/getblockcount";
  ok_or (json_get v "height" ≫= as_u64) "no height"%string.

Definition block_at (node : Client) (height : Z) : result string (string * json) :=
  v ← get node ("/getblock/" +:+ dec_string height);
  hash ← ok_or (json_get v "hash" ≫= hex_of) "block missing hash"%string;
  block ← ok_or (json_get v "block") "block missing body"%string;
  Ok (hash, block).

Definition send_raw (node : Client) (tx : Transaction) : result string string :=
  v ← post node tx;
  if default false (json_get v "accepted" ≫= as_bool)
  then Ok (default EmptyString (txid_to_hex <$> json_get v "txid"))
  else Err "node rejected tx"%string.

(** ** Keystore *)
Record Keystore := { ks_keys : gmap string string; ks_change : option string }.
Definition empty_keystore : Keystore := {| ks_keys := ∅; ks_change := None |}.

(** [new_address], on a key pair [generate] made. *)
Definition new_address (kp : WalletKeypair) (self : Keystore) : Keystore * string :=
  ({| ks_keys := <[address kp := private_key_hex kp]> (ks_keys self);
      ks_change := Some (default (address kp) (ks_change self)) |}, address kp).

Definition is_mine (self : Keystore) (addr : string) : bool := bool_decide (is_Some (ks_keys self !! addr)).

Definition change_address (kp : WalletKeypair) (self : Keystore) : Keystore * string :=
  match ks_change self with
  | Some c => (self, c)
  | None => new_address kp self
  end.

Section Wallet.
Context `{Crypto} `{!IterOrder string string}.

Definition addresses (self : Keystore) : list string := (iter (ks_keys self)).*1.

Definition mature_total (total : Z) (answer : list RpcUtxo) : Z :=
  foldl (λ total u, if mature u then sat_add64 total (rpc_value u) else total) total answer.
Fixpoint balance_of (node : Client) (addrs : list string) (total : Z) : result string Z :=
  match addrs with
  | [] => Ok total
  | addr :: addrs => answer ← utxos node addr; balance_of node addrs (mature_total total answer)
  end.
Definition balance_atoms (self : Keystore) (node : Client) : result string Z := balance_of node (addresses self) 0.

(** *** Withdrawals *)

(** The inner loop; [true]: [break 'outer]. *)
Fixpoint select_at (addr : string) (needed : Z) (answer : list RpcUtxo) (selected : list (OutPoint * string))
    (sum : Z) : result string (list (OutPoint * string) * Z * bool) :=
  match answer with
  | [] => Ok (selected, sum, false)
  | u :: answer =>
      if negb (mature u) then select_at addr needed answer selected sum
      else
        txid ← hash_of_slice "bad txid len" (txid_bytes u);
        let selected := selected ++ [({| txid := txid; output_index := rpc_index u |}, addr)] in
        let sum := sat_add64 sum (rpc_value u) in
        if needed <=? sum then Ok (selected, sum, true) else select_at addr needed answer selected sum
  end.

(** The outer loop. *)
Fixpoint gather (node : Client) (needed : Z) (addrs : list string) (selected : list (OutPoint * string)) (sum : Z) :
    result string (list (OutPoint * string) * Z) :=
  match addrs with
  | [] => Ok (selected, sum)
  | addr :: addrs =>
      answer ← utxos node addr;
      '(selected, sum, enough) ← select_at addr needed answer selected sum;
      if (enough : bool) then Ok (selected, sum) else gather node needed addrs selected sum
  end.

(** The loop that signs each input with its owner's key. *)
Fixpoint sign_each (keys : gmap string string) (sig_hash : Hash256) (selected : list (OutPoint * string)) (i : nat)
    (ins : list TxInput) : command (list TxInput) :=
  match selected with
  | [] => mret ins
  | (_, owner) :: selected =>
      pk_hex ← try (ok_or (keys !! owner) "missing key for input"%string);
      kp ← may_panic (from_private_key_hex pk_hex);
      kp ← try (map_err kp (λ _, "key"%string));
      der ← try (map_err (sign_hash kp sig_hash) (λ _, "sign"%string));
      pubkey ← try (ok_or (hex_decode (public_key_hex kp)) "bad pubkey hex"%string);
      sign_each keys sig_hash selected (S i) (alter (set_script (p2pkh_script_sig der pubkey)) i ins)
  end.

(** What is done once the change address is known. *)
Definition finish_withdrawal (keys : gmap string string) (selected : list (OutPoint * string))
    (amount_atoms change : Z) (dest_spk : bytes) (change_addr : string) : command Transaction :=
  change_spk ← try (map_err (p2pkh_from_address change_addr) (λ _, "bad change addr"%string));
  let outs := {| value_atoms := amount_atoms; script_pubkey := dest_spk |}
                :: (if 0 <? change then [ {| value_atoms := change; script_pubkey := change_spk |} ] else []) in
  let tx := payment (unsigned_input <$> selected.*1) outs in
  ins ← sign_each keys (signature_hash tx) selected 0 (inputs tx);
  mret (refresh_id (set_inputs ins tx)).

(** [send] up to the post. The keystore changes when the change address is made here; [kp] is the
    key pair that is generated then. *)
Definition build_withdrawal (kp : WalletKeypair) (node : Client) (dest : string) (amount_atoms fee_atoms : Z)
    (self : Keystore) : Keystore * command Transaction :=
  match (needed ← ok_or (checked_add64 amount_atoms fee_atoms) "amount overflow"%string;
         '(selected, sum) ← gather node needed (addresses self) [] 0;
         reject_if (sum <? needed) "insufficient funds"%string;;
         dest_spk ← map_err (p2pkh_from_address dest) (λ _, "invalid address"%string);
         Ok (selected, sub64 sum needed, dest_spk)) with
  | Err e => (self, try (Err e))
  | Ok (selected, change, dest_spk) =>
      let '(self, change_addr) := change_address kp self in
      (self, finish_withdrawal (ks_keys self) selected amount_atoms change dest_spk change_addr)
  end.

Definition send (kp : WalletKeypair) (node : Client) (dest : string) (amount_atoms fee_atoms : Z) (self : Keystore) :
    Keystore * command string :=
  let '(self, tx) := build_withdrawal kp node dest amount_atoms fee_atoms self in
  (self, tx ← tx; try (send_raw node tx);; mret (to_hex (tx_id tx))).
End Wallet.
End Client.
