(* ===== verification/AdapterRpc.v ===== *)
(** * The exchange adapter: deposits and methods ([scan.rs], [main.rs])

    The ledger of deposits the scanner fills from the node's blocks, the file it
    keeps, and the JSON-RPC methods on it and on the wallet. An answer is a [Reply]: the JSON it
    is printed as, the float of an amount included, is outside. *)

From S2P Require Import Prelude Numeral Crypto Hash ScriptVM ScriptStandard Block Wallet Json Cli CliWallet Adapter.

Local Open Scope Z_scope.

(** ** The ledger *)
Record LedgerEntry := {
  le_txid : string; le_address : string; category : string; amount_atoms : Z; vout : Z;
  le_height : Z; le_block_hash : string; time : Z }.

Record Ledger := {
  last_height : Z;
  entries : list LedgerEntry;
  (** height -> block hash *)
  heights : gmap Z string;
  (** txid:vout dedupe; not stored *)
  seen : gset string;
}.

Definition empty_ledger : Ledger := {| last_height := 0; entries := []; heights := ∅; seen := ∅ |}.

(** [format!("{txid}:{vout}")] *)
Definition outpoint_key (txid : string) (vout : Z) : string := txid +:+ ":" +:+ dec_string vout.
Definition entry_key (e : LedgerEntry) : string := outpoint_key (le_txid e) (vout e).

(** The file has the fields that are not skipped; [None]: no file, or one that is not read. *)
Record Stored := { st_last_height : Z; st_entries : list LedgerEntry; st_heights : gmap Z string }.
Definition stored (l : Ledger) : Stored := {|
  st_last_height := last_height l; st_entries := entries l; st_heights := heights l |}.
Definition load (file : option Stored) : Ledger :=
  match file with
  | None => empty_ledger
  | Some f => {| last_height := st_last_height f; entries := st_entries f; heights := st_heights f;
                 seen := list_to_set (entry_key <$> st_entries f) |}
  end.

(** [if self.seen.insert(key) { self.entries.push(..); new_deposits += 1 }] *)
Definition record_deposit (e : LedgerEntry) (key : string) (acc : Ledger * Z) : Ledger * Z :=
  let '(l, new_deposits) := acc in
  if bool_decide (key ∈ seen l) then acc
  else ({| last_height := last_height l; entries := entries l ++ [e]; heights := heights l; seen := {[key]} ∪ seen l |},
        add64 new_deposits 1).

Definition set_height (h : Z) (hash : string) (l : Ledger) : Ledger := {|
  last_height := last_height l; entries := entries l; heights := <[h := hash]> (heights l); seen := seen l |}.
Definition set_last (h : Z) (l : Ledger) : Ledger := {|
  last_height := h; entries := entries l; heights := heights l; seen := seen l |}.

(** [start..=tip] *)
Definition range_incl (start tip : Z) : list Z := seqZ start (tip - start + 1).

Section Scan.
Context `{Json} `{Crypto}.

(** [json_bytes] *)
Definition json_bytes (v : json) : bytes := match as_array v with Some a => bytes_of_array a | None => [] end.

(** The body of the loop over the outputs. *)
Definition scan_output (mine : string -> bool) (txid : string) (time h : Z) (hash : string) (acc : Ledger * Z)
    (p : nat * json) : Ledger * Z :=
  let '(i, out) := p in
  let spk := default [] (json_bytes <$> json_get out "script_pubkey") in
  let amount := default 0 (json_get out "value_atoms" ≫= as_u64) in
  match extract_address spk with
  | Some addr =>
      if mine addr then
        record_deposit {| le_txid := txid; le_address := addr; category := "receive"; amount_atoms := amount;
                          vout := Z.of_nat i mod U32_MOD; le_height := h; le_block_hash := hash; time := time |}
          (outpoint_key txid (Z.of_nat i)) acc
      else acc
  | None => acc
  end.

(** [iter().enumerate()] *)
Definition enumerate {A} (l : list A) : list (nat * A) := imap pair l.

Definition scan_tx (mine : string -> bool) (h : Z) (hash : string) (block : json) (acc : Ledger * Z) (tx : json) :
    Ledger * Z :=
  let txid := default EmptyString (txid_to_hex <$> json_get tx "id") in
  let time := default 0 (json_get block "header" ≫= λ hd, json_get hd "timestamp_seconds" ≫= as_u64) in
  match json_get tx "outputs" ≫= as_array with
  | Some outs => foldl (scan_output mine txid time h hash) acc (enumerate outs)
  | None => acc
  end.

Definition scan_block (mine : string -> bool) (h : Z) (hash : string) (block : json) (acc : Ledger * Z) : Ledger * Z :=
  match json_get block "transactions" ≫= as_array with
  | Some txs => foldl (scan_tx mine h hash block) acc txs
  | None => acc
  end.

(** The loop over the heights: what was recorded stays when the node fails. *)
Fixpoint scan_heights (mine : string -> bool) (node : Client) (hs : list Z) (acc : Ledger * Z) :
    Ledger * result string Z :=
  match hs with
  | [] => (acc.1, Ok acc.2)
  | h :: hs =>
      match block_at node h with
      | Err e => (acc.1, Err e)
      | Ok (hash, block) =>
          let '(l, n) := scan_block mine h hash block (set_height h hash acc.1, acc.2) in
          scan_heights mine node hs (set_last h l, n)
      end
  end.

Definition scan_start (self : Ledger) : Z :=
  if (last_height self =? 0) && (length (entries self) =? 0)%nat then Z.max (last_height self) 0
  else add64 (last_height self) 1.

(** [scan]: the ledger, and the file, which is written when the loop ends. *)
Definition scan (mine : string -> bool) (node : Client) (self : Ledger) (file : option Stored) :
    Ledger * option Stored * result string Z :=
  match block_count node with
  | Err e => (self, file, Err e)
  | Ok tip =>
      match scan_heights mine node (range_incl (scan_start self) tip) (self, 0) with
      | (l, Ok n) => (l, Some (stored l), Ok n)
      | (l, Err e) => (l, file, Err e)
      end
  end.
End Scan.

Definition confirmations (e : LedgerEntry) (tip : Z) : Z := add64 (sat_sub64 tip (le_height e)) 1.

Section Query.
Context `{!IterOrder Z string}.

(** [heights.iter().find(|(_, h)| h == hash)] *)
Definition height_of_hash (hash : string) (l : Ledger) : option Z :=
  fst <$> List.find (λ p, bool_decide (p.2 = hash)) (iter (heights l)).

Definition since_block (hash : string) (l : Ledger) : list LedgerEntry :=
  match height_of_hash hash l with
  | Some fh => filter (λ e, fh < le_height e) (entries l)
  | None => entries l
  end.
End Query.

(** * The exchange adapter: JSON-RPC ([dispatch] and the server's loop in [main.rs])

    The methods on the wallet and the ledger, and the check of the [Authorization]
    header. The answers are values of [Reply]; an amount is in atoms. *)

(** ** Basic authentication *)

(** [A[i] as char] of the base-64 alphabet *)
Definition b64_char (i : Z) : Ascii.ascii :=
  ascii_of_byte (if i <? 26 then 65 + i else if i <? 52 then 71 + i else if i <? 62 then i - 4
                 else if i =? 62 then 43 else 47).

Definition b64_group (b0 b1 b2 : Z) : Z * Z * Z * Z :=
  (Z.shiftr b0 2,
   Z.lor (Z.shiftl (Z.land b0 0x03) 4) (Z.shiftr b1 4),
   Z.lor (Z.shiftl (Z.land b1 0x0f) 2) (Z.shiftr b2 6),
   Z.land b2 0x3f).

(** [input.chunks(3)] *)
Fixpoint b64 (input : bytes) : string :=
  match input with
  | [] => EmptyString
  | [b0] =>
      let '(w, x, _, _) := b64_group b0 0 0 in
      String (b64_char w) (String (b64_char x) "==")
  | [b0; b1] =>
      let '(w, x, y, _) := b64_group b0 b1 0 in
      String (b64_char w) (String (b64_char x) (String (b64_char y) "="))
  | b0 :: b1 :: b2 :: input =>
      let '(w, x, y, z) := b64_group b0 b1 b2 in
      String (b64_char w) (String (b64_char x) (String (b64_char y) (String (b64_char z) (b64 input))))
  end.

(** [expected_auth] *)
Definition expected_auth (user pass : string) : option string :=
  if bool_decide (user = EmptyString) then None
  else Some ("Basic " +:+ b64 (bytes_of_string (user +:+ ":" +:+ pass))).

(** The values of the request's [Authorization] headers against it. *)
Definition authorized (expected : option string) (headers : list string) : bool :=
  match expected with
  | None => true
  | Some exp => bool_decide (exp ∈ headers)
  end.

(** ** Answers *)
Section Dispatch.
Context `{Json} `{Crypto} `{!IterOrder string string} `{!IterOrder Z string}.
(** [format!("{:.8}", n.as_f64().unwrap_or(0.0))] of a JSON number *)
Context (number_text : json -> option string).

(** [entry_json]: an entry and its confirmations *)
Definition EntryView : Type := LedgerEntry * Z.
Definition entry_json (tip : Z) (e : LedgerEntry) : EntryView := (e, confirmations e tip).

Inductive Reply :=
| ReplyNumber (n : Z)
| ReplyText (s : string)
| ReplyTrue
| ReplyAmount (atoms : Z)
| ReplyFeerate (atoms : Z)
| ReplyBlock (hash : string) (height : Z) (txs : option json)
| ReplyChainInfo (blocks : Z) (best : string)
| ReplyNetworkInfo
| ReplyWalletInfo (balance : Z) (txcount : nat)
| ReplyValidate (isvalid : bool) (addr : string) (ismine : bool)
| ReplySince (transactions : list EntryView) (lastblock : string)
| ReplyList (transactions : list EntryView)
| ReplyTransaction (txid : string) (amount : Z) (confirmations : Z) (details : list EntryView).

Definition RpcErr : Type := Z * string.
Definition help_text : string := "Tensorium RPC adapter".

(** [params.get(i)] *)
Definition param (params : json) (i : nat) : option json := as_array params ≫= λ l, l !! i.

Definition amount_to_atoms (v : json) : result RpcErr Z :=
  match number_text v with
  | Some s => map_err (txm_to_atoms s) (pair (-3))
  | None =>
      match as_str v with
      | Some s => map_err (txm_to_atoms s) (pair (-3))
      | None => Err (-8, "bad amount"%string)
      end
  end.

Definition find_height (hash : string) (l : Ledger) : result RpcErr Z :=
  ok_or (height_of_hash hash l) (-5, "block hash not in scanned range; use getblockhash(height)"%string).

(** The [iter().map(..).sum()] of [gettransaction]. *)
Definition sum_amounts (es : list LedgerEntry) : Z := foldl (λ a e, add64 a (amount_atoms e)) 0 es.

(** The methods that only read. *)
Definition query (method : string) (params : json) (node : Client) (fee_atoms : Z) (w : Keystore) (l : Ledger) :
    result RpcErr Reply :=
  let count := map_err (block_count node) (pair (-1)) in
  let at_height h := map_err (block_at node h) (pair (-1)) in
  if bool_decide (method = "getblockcount"%string) then n ← count; Ok (ReplyNumber n)
  else if bool_decide (method = "getbestblockhash"%string) then
    tip ← count; '(hash, _) ← at_height tip; Ok (ReplyText hash)
  else if bool_decide (method = "getblockhash"%string) then
    h ← ok_or (param params 0 ≫= as_u64) (-8, "height required"%string);
    '(hash, _) ← at_height h; Ok (ReplyText hash)
  else if bool_decide (method = "getblock"%string) then
    arg ← ok_or (param params 0) (-8, "hash/height required"%string);
    height ← match as_u64 arg with
             | Some h => Ok h
             | None => match as_str arg with Some hs => find_height hs l | None => Err (-8, "bad arg"%string) end
             end;
    '(hash, block) ← at_height height;
    Ok (ReplyBlock hash height (json_get block "transactions"))
  else if bool_decide (method = "getblockchaininfo"%string) then
    tip ← count; '(hash, _) ← at_height tip; Ok (ReplyChainInfo tip hash)
  else if bool_decide (method = "getnetworkinfo"%string) then Ok ReplyNetworkInfo
  else if bool_decide (method = "getwalletinfo"%string) then
    bal ← map_err (balance_atoms w node) (pair (-1)); Ok (ReplyWalletInfo bal (length (entries l)))
  else if bool_decide (method = "validateaddress"%string) then
    a ← ok_or (param params 0 ≫= as_str) (-8, "address required"%string);
    Ok (ReplyValidate (match p2pkh_from_address a with Ok _ => true | Err _ => false end) a (is_mine w a))
  else if bool_decide (method = "getbalance"%string) then
    bal ← map_err (balance_atoms w node) (pair (-1)); Ok (ReplyAmount bal)
  else if bool_decide (method = "settxfee"%string) then Ok ReplyTrue
  else if bool_decide (method = "estimatesmartfee"%string) || bool_decide (method = "estimatefee"%string) then
    Ok (ReplyFeerate fee_atoms)
  else if bool_decide (method = "listsinceblock"%string) then
    let bh := default EmptyString (param params 0 ≫= as_str) in
    tip ← count; '(tiphash, _) ← at_height tip;
    Ok (ReplySince (entry_json tip <$> since_block bh l) tiphash)
  else if bool_decide (method = "listtransactions"%string) then
    let count_ := default 10 (param params 1 ≫= as_u64) in
    let skip := default 0 (param params 2 ≫= as_u64) in
    tip ← count;
    Ok (ReplyList (entry_json tip <$> take (Z.to_nat count_) (drop (Z.to_nat skip) (reverse (entries l)))))
  else if bool_decide (method = "gettransaction"%string) then
    txid ← ok_or (param params 0 ≫= as_str) (-8, "txid required"%string);
    tip ← count;
    match filter (λ e, le_txid e = txid) (entries l) with
    | [] => Err (-5, "transaction not found in wallet ledger"%string)
    | e :: es => Ok (ReplyTransaction txid (sum_amounts (e :: es)) (confirmations e tip) (entry_json tip <$> e :: es))
    end
  else if bool_decide (method = "help"%string) then Ok (ReplyText help_text)
  else if bool_decide (method = "uptime"%string) then Ok (ReplyNumber 0)
  else Err (-32601, "method not found"%string).

(** [dispatch]; [kp] is the key pair generated if one is. *)
Definition dispatch (method : string) (params : json) (node : Client) (fee_atoms : Z) (kp : WalletKeypair)
    (w : Keystore) (l : Ledger) : Keystore * outcome (result RpcErr Reply) :=
  if bool_decide (method = "getnewaddress"%string) then
    let '(w, addr) := new_address kp w in (w, Done (Ok (ReplyText addr)))
  else if bool_decide (method = "sendtoaddress"%string) then
    match (dest ← ok_or (param params 0 ≫= as_str) (-8, "address required"%string);
           amt ← ok_or (param params 1) (-8, "amount required"%string);
           amt ← amount_to_atoms amt;
           Ok (dest, amt)) with
    | Err e => (w, Done (Err e))
    | Ok (dest, amt) =>
        match send kp node dest amt fee_atoms w with
        | (w, Done (Ok txid)) => (w, Done (Ok (ReplyText txid)))
        | (w, Done (Err e)) => (w, Done (Err (-4, e)))
        | (w, Panic) => (w, Panic)
        end
    end
  else (w, Done (query method params node fee_atoms w l)).

(** *** A request *)

Inductive HttpReply :=
| Unauthorized
| JsonReply (id : json) (answer : result RpcErr Reply).

(** [v.get("id").cloned().unwrap_or(Value::Null)] and the other fields; a body that is not JSON is the
    empty object [empty], absent parameters the empty array [no_params]. *)
Definition handle (empty no_params : json) (expected : option string) (headers : list string) (body : string)
    (node : Client) (fee_atoms : Z) (kp : WalletKeypair) (w : Keystore) (l : Ledger) : Keystore * outcome HttpReply :=
  if negb (authorized expected headers) then (w, Done Unauthorized)
  else
    let v := default empty (json_parse body) in
    let id := default json_null (json_get v "id") in
    let method := default EmptyString (json_get v "method" ≫= as_str) in
    let params := default no_params (json_get v "params") in
    match dispatch method params node fee_atoms kp w l with
    | (w, Done r) => (w, Done (JsonReply id r))
    | (w, Panic) => (w, Panic)
    end.
End Dispatch.
