(* ===== verification/AdapterWithdraw.v ===== *)
(** * The exchange adapter: amounts, authentication, withdrawals

    Printed amounts are read back; base 64 is injective, so only the configured
    user and password pass. *)

From S2P Require Import Prelude Numeral Cli CliWallet Crypto Wallet Json Adapter AdapterRpc.

Local Open Scope Z_scope.

(** ** Amounts *)

Lemma fits64_Some n m : fits64 n = Some m <-> n = m /\ n <= U64_MAX.
Proof. unfold fits64. destruct (Z.leb_spec n U64_MAX); naive_solver lia. Qed.

Lemma parse_padded k n : (0 < k)%nat -> 0 <= n < 10 ^ Z.of_nat k -> n <= U64_MAX -> parse_u64 (zero_padded k n) = Some n.
Proof.
  intros Hk [H0 Hlt] Hm. destruct (zero_padded_spec n H0 k Hk Hlt) as (Hd & Hv & Hl).
  unfold parse_u64. rewrite parse_uint_digits, parse_digits_spec, Hv; try done.
  - by rewrite (proj2 (Z.ltb_ge _ _)).
  - intros E. rewrite E in Hl. cbn in Hl. lia.
Qed.

Lemma text_app_nil s : s +:+ EmptyString = s.
Proof. induction s as [|c s IH]; [done|]. change (String c (s +:+ EmptyString) = String c s). by rewrite IH. Qed.

Lemma digits_not_dot bs : digits bs -> Forall (λ b, b <> byte_of_ascii (ascii_of_byte 46)) bs.
Proof. intros Hd. eapply Forall_impl; [exact Hd|]. intros b Hb. apply is_digit_spec in Hb. change (byte_of_ascii (ascii_of_byte 46)) with 46. lia. Qed.

(** Text of digits, a dot and digits is not trimmed. *)
Lemma trim_decimal s t :
  digits (bytes_of_string s) -> s <> EmptyString -> digits (bytes_of_string t) -> t <> EmptyString ->
  trim (s +:+ "." +:+ t) = s +:+ "." +:+ t.
Proof.
  intros Hs Hse Ht Hte.
  assert (bytes_of_string (s +:+ "." +:+ t) = bytes_of_string s ++ 46 :: bytes_of_string t) as Hb.
  { by rewrite !bytes_of_string_app. }
  destruct (bytes_of_string s) as [|b bs] eqn:Es; [by destruct s|].
  destruct (bytes_of_string t) as [|c cs _] eqn:Et using rev_ind; [by destruct t|].
  apply Forall_cons in Hs as [Hs _]. apply Forall_app in Ht as [_ Ht]. apply Forall_cons in Ht as [Ht _].
  apply is_digit_spec in Hs, Ht.
  apply (trim_visible _ b (bs ++ 46 :: cs ++ [c])).
  - rewrite Hb. done.
  - unfold visible. lia.
  - exists (b :: bs ++ 46 :: cs), c. split; [|unfold visible; lia]. cbn [app]. by rewrite <- app_assoc.
Qed.

(** An amount the adapter prints with [atoms_to_txm_str] is read back by [txm_to_atoms]
    to the atom, for every [u64]: no digit is lost or rounded. *)
Theorem amount_text_roundtrip atoms : is_u64 atoms -> txm_to_atoms (atoms_to_txm_str atoms) = Ok atoms.
Proof.
  intros [H0 Hm]. assert (0 <= atoms mod SAT < SAT) as Hmod by (by apply Z.mod_pos_bound).
  assert (0 <= atoms / SAT <= U64_MAX) as Hdiv.
  { split; [by apply Z.div_pos|]. unfold SAT, U64_MOD, U64_MAX in *. Z.div_mod_to_equations; lia. }
  pose proof (dec_string_digits _ (proj1 Hdiv)) as (Hd & _ & He).
  destruct (zero_padded_spec (atoms mod SAT) (proj1 Hmod) 8) as (Hzd & _ & Hzl); [lia|exact (proj2 Hmod)|].
  unfold txm_to_atoms, atoms_to_txm_str. rewrite trim_decimal; try done; [|intros E; by rewrite E in Hzl].
  change ("." +:+ zero_padded 8 (atoms mod SAT)) with (String (ascii_of_byte 46) (zero_padded 8 (atoms mod SAT))).
  rewrite split_once_app by (by apply digits_not_dot). cbn [default from_option id].
  assert (parse_u64 (dec_string (atoms / SAT)) = Some (atoms / SAT)) as Hint by (apply parse_uint_dec; lia).
  rewrite Hzl, Hint. cbn [reject_if Nat.ltb Nat.leb mbind result_bind ok_or].
  unfold pad_right. rewrite Hzl. cbn [Nat.sub zeros]. rewrite text_app_nil.
  rewrite parse_padded; [|lia|exact Hmod|unfold SAT, U64_MAX in *; lia]. cbn [mbind result_bind ok_or].
  assert (checked_mul64 (atoms / SAT) SAT = Some (atoms / SAT * SAT)) as Hmul.
  { apply fits64_Some. split; [done|]. unfold SAT, U64_MOD, U64_MAX in *. Z.div_mod_to_equations; lia. }
  rewrite Hmul. cbn [option_bind mbind]. unfold checked_add64.
  replace (atoms / SAT * SAT + atoms mod SAT) with atoms by (rewrite (Z.div_mod atoms SAT) at 1; [lia|done]).
  unfold fits64. rewrite (proj2 (Z.leb_le _ _)) by (unfold U64_MOD, U64_MAX in *; lia). done.
Qed.

(** Witness. *)
Theorem amount_text_roundtrip_witness : txm_to_atoms (atoms_to_txm_str 123456789) = Ok 123456789.
Proof. apply amount_text_roundtrip. unfold is_u64, U64_MOD. lia. Defined.

(** A sign is taken in the fraction, and an integer part is wanted. *)
Example signed_fraction : txm_to_atoms "1.+5" = Ok 105000000.
Proof. reflexivity. Qed.
Example no_integer_part : txm_to_atoms ".5" = Err "bad integer part"%string.
Proof. reflexivity. Qed.
(** The test vector of the program. *)
Example b64_user_pass : b64 (bytes_of_string "user:pass") = "dXNlcjpwYXNz"%string.
Proof. reflexivity. Qed.

(** * The exchange adapter's withdrawals are valid

    A keystore of generated keys, asked about by addresses whose answers are honest
    ([honest_answer]), signs every input with the key of its own address. *)

From S2P Require Import Hash Chain ScriptVM ScriptStandard ScriptStandardFacts Block Utxo Mempool.
From S2P Require Import Settlement CliFacts.

(** ** Selection *)
Section Gather.
Context `{Json} (node : Client).

(** What one address or several offer: their mature outputs with their owner. *)
Definition offers (answer : string -> list RpcUtxo) (addrs : list string) : list (string * RpcUtxo) :=
  mjoin ((λ a, pair a <$> mature_ones (answer a)) <$> addrs).
Definition selection (p : string * RpcUtxo) : OutPoint * string := (outpoint_of p.2, p.1).

Lemma select_at_spec addr needed answer sel sum :
  well_formed answer ->
  exists taken rest, mature_ones answer = taken ++ rest
    /\ let sum' := foldl sat_add64 sum (rpc_value <$> taken) in
       exists enough, select_at addr needed answer sel sum = Ok (sel ++ (selection <$> (pair addr <$> taken)), sum', enough)
         /\ if enough : bool then needed <= sum' else rest = [].
Proof.
  intros Hw; revert sel sum; induction Hw as [|u answer Hu _ IH]; intros sel sum; cbn [select_at].
  { exists [], []. split; [done|]. exists false. cbn. by rewrite app_nil_r. }
  unfold mature_ones. rewrite filter_cons. destruct (mature u) eqn:Hm; cbn [negb].
  - rewrite decide_True by done. rewrite (proj2 (hash_of_slice_Ok _ _ _) (conj Hu eq_refl)). cbn [mbind result_bind].
    destruct (Z.leb_spec needed (sat_add64 sum (rpc_value u))).
    + exists [u], (mature_ones answer). split; [done|]. exists true. by split.
    + destruct (IH (sel ++ [selection (addr, u)]) (sat_add64 sum (rpc_value u))) as (taken & rest & Ht & enough & Hs & He).
      exists (u :: taken), rest. unfold mature_ones in Ht. rewrite Ht. split; [done|]. exists enough.
      unfold selection, outpoint_of in Hs. cbn [fst snd] in Hs. rewrite Hs. split; [|done]. by rewrite <- app_assoc.
  - rewrite decide_False by done. apply IH.
Qed.

(** The withdrawal takes a prefix of the offers: all of them, or enough. *)
Lemma gather_spec answer needed addrs sel sum :
  (forall a, a ∈ addrs -> utxos node a = Ok (answer a) /\ well_formed (answer a)) ->
  exists taken rest, offers answer addrs = taken ++ rest
    /\ let sum' := foldl sat_add64 sum ((λ p, rpc_value p.2) <$> taken) in
       gather node needed addrs sel sum = Ok (sel ++ (selection <$> taken), sum') /\ (rest = [] \/ needed <= sum').
Proof.
  revert sel sum; induction addrs as [|a addrs IH]; intros sel sum Ha; cbn [gather].
  { exists [], []. cbn. rewrite app_nil_r. split_and!; [done..|by left]. }
  destruct (Ha a) as [-> Hw]; [by left|]. cbn [mbind result_bind].
  destruct (select_at_spec a needed (answer a) sel sum Hw) as (taken & rest & Ht & enough & Hs & He). cbv zeta in Hs, He.
  rewrite Hs. assert (forall l : list RpcUtxo, (λ p : string * RpcUtxo, rpc_value p.2) <$> (pair a <$> l) = rpc_value <$> l) as Hval.
  { intros l. by rewrite <- list_fmap_compose. }
  assert (offers answer (a :: addrs) = (pair a <$> taken) ++ (pair a <$> rest) ++ offers answer addrs) as Hoff.
  { unfold offers. csimpl. by rewrite Ht, fmap_app, <- app_assoc. }
  rewrite Hoff. cbn [mbind result_bind]. destruct enough.
  - exists (pair a <$> taken), ((pair a <$> rest) ++ offers answer addrs). rewrite Hval. split_and!; [done..|by right].
  - subst rest. destruct (IH (sel ++ (selection <$> (pair a <$> taken))) (foldl sat_add64 sum (rpc_value <$> taken)))
      as (taken' & rest' & Ht' & Hg & Hor); [intros; apply Ha; by right|].
    exists ((pair a <$> taken) ++ taken'), rest'. cbn [fmap list_fmap app]. rewrite Ht', <- app_assoc.
    cbv zeta. rewrite Hg, !fmap_app, Hval, foldl_app, <- app_assoc. done.
Qed.
End Gather.

(** ** Keys *)
Section Keys.
Context `{Crypto} `{!CryptoLaws _} `{!IterOrder string string}.

(** [addr] is managed with the key [sk]. *)
Definition managed (keys : gmap string string) (addr : string) (sk : signing_key) : Prop :=
  exists kp, made_from kp sk /\ address kp = addr /\ keys !! addr = Some (private_key_hex kp).

Record keystore_ok (self : Keystore) : Prop := {
  keystore_keys addr : is_Some (ks_keys self !! addr) -> exists sk, managed (ks_keys self) addr sk;
  keystore_change c : ks_change self = Some c -> is_Some (ks_keys self !! c);
}.

Lemma empty_keystore_ok : keystore_ok empty_keystore.
Proof. split; [|done]. intros a [k Hk]. unfold empty_keystore in Hk. cbn [ks_keys] in Hk. by rewrite lookup_empty in Hk. Qed.

Lemma managed_insert keys kp sk addr sk' :
  made_from kp sk -> managed keys addr sk' ->
  exists sk'', managed (<[address kp := private_key_hex kp]> keys) addr sk''.
Proof.
  intros Hk (kp' & Hk' & <- & Hl). destruct (decide (address kp = address kp')) as [E|Hne].
  - exists sk, kp. split_and!; [done..|]. by rewrite <- E, lookup_insert_eq.
  - exists sk', kp'. split_and!; [done..|]. by rewrite lookup_insert_ne.
Qed.

(** [new_address] keeps the keystore good, and the address it returns is managed. *)
Lemma new_address_ok kp sk self :
  made_from kp sk -> keystore_ok self ->
  keystore_ok (new_address kp self).1 /\ managed (ks_keys (new_address kp self).1) (new_address kp self).2 sk.
Proof.
  intros Hk [Hkeys Hchange]. assert (managed (<[address kp := private_key_hex kp]> (ks_keys self)) (address kp) sk) as Hm.
  { exists kp. split_and!; [done..|]. apply lookup_insert_eq. }
  split; [|exact Hm]. split; cbn [new_address fst ks_keys ks_change].
  - intros addr Ha. destruct (decide (addr = address kp)) as [->|Hne]; [by exists sk|].
    rewrite lookup_insert_ne in Ha by done. destruct (Hkeys addr Ha) as [sk' Hsk']. by eapply managed_insert.
  - intros c [= <-]. destruct (ks_change self) as [c|]; cbn [default from_option id].
    + apply lookup_insert_is_Some'. right. by apply Hchange.
    + rewrite lookup_insert_eq. done.
Qed.

Lemma change_address_ok kp sk self :
  made_from kp sk -> keystore_ok self ->
  let r := change_address kp self in
  keystore_ok r.1 /\ (exists sk', managed (ks_keys r.1) r.2 sk')
  /\ forall addr sk', managed (ks_keys self) addr sk' -> exists sk'', managed (ks_keys r.1) addr sk''.
Proof.
  intros Hk Hok. unfold change_address. destruct (ks_change self) as [c|] eqn:Hc; cbn [fst snd].
  - split_and!; [done| |eauto]. apply Hok. by apply Hok.
  - destruct (new_address_ok kp sk self Hk Hok) as [H1 H2]. split_and!; [done|by exists sk|].
    intros addr sk' Hm. by eapply managed_insert.
Qed.

(** A managed address determines its key's script. *)
Lemma managed_script keys addr sk :
  managed keys addr sk -> p2pkh_from_address addr = Ok (owner_script sk) /\ extract_address (owner_script sk) = Some addr.
Proof. intros (kp & Hk & <- & _). by apply made_address. Qed.

(** The secret the adapter reads for an address. *)
Definition sk_of (keys : gmap string string) (sk0 : signing_key) (addr : string) : signing_key :=
  match keys !! addr with
  | Some hex => match secret_of_hex hex with Ok sk => sk | Err _ => sk0 end
  | None => sk0
  end.

Lemma sk_of_managed keys sk0 addr sk : managed keys addr sk -> sk_of keys sk0 addr = sk.
Proof. intros (kp & Hk & _ & Hl). unfold sk_of. by rewrite Hl, (secret_of_made kp sk Hk). Qed.

(** *** Signing *)
Definition stamped (keys : gmap string string) (sk0 : signing_key) (hash : Hash256) (p : OutPoint * string) : TxInput :=
  set_script (stamp (sk_of keys sk0 p.2) hash) (unsigned_input p.1).

Lemma alter_middle {A} (f : A -> A) pre x post : alter f (length pre) (pre ++ x :: post) = pre ++ f x :: post.
Proof. induction pre as [|y pre IH]; [done|]. cbn. by f_equal. Qed.

Lemma sign_each_spec keys sk0 hash sel pre :
  Forall (λ p, exists sk, managed keys p.2 sk) sel ->
  sign_each keys hash sel (length pre) (pre ++ (unsigned_input <$> sel.*1))
    = Done (Ok (pre ++ (stamped keys sk0 hash <$> sel))).
Proof.
  intros Hs; revert pre; induction Hs as [|[op a] sel [sk Hm] _ IH]; intros pre; [done|].
  cbn [sign_each fst snd fmap list_fmap] in *. pose proof (sk_of_managed keys sk0 a sk Hm) as Hsk.
  destruct Hm as (kp & Hk & <- & Hl). rewrite Hl. unfold try, may_panic. cbn [ok_or mbind command_bind].
  rewrite (restore_key kp sk Hk). cbn [mbind command_bind map_err]. unfold sign_hash.
  rewrite (secret_of_made kp sk Hk), (public_of_made kp sk Hk). cbn [mbind result_bind map_err ok_or command_bind].
  rewrite alter_middle. specialize (IH (pre ++ [stamped keys sk0 hash (op, address kp)])).
  rewrite length_app, Nat.add_1_r in IH. rewrite <- !app_assoc in IH. cbn [app] in IH. rewrite <- IH.
  unfold stamped. cbn [fst snd]. by rewrite Hsk.
Qed.
End Keys.

(** ** Honest answers for every address *)
Section Withdrawal.
Context `{Json} `{Crypto} `{!CryptoLaws _} `{!IterOrder string string}.
Context (node : Client) (self : Keystore) (utxo_set : UtxoSet) (params : ConsensusParams) (h : Z).
Context (answer : string -> list RpcUtxo).

Definition honest_client : Prop :=
  forall addr sk, managed (ks_keys self) addr sk ->
    utxos node addr = Ok (answer addr) /\ well_formed (answer addr) /\ Forall (λ u, 0 <= rpc_value u) (answer addr)
    /\ honest_answer utxo_set params h (owner_script sk) (answer addr).

Context (Hok : keystore_ok self) (Hans : honest_client).

Lemma addresses_managed a : a ∈ addresses self -> exists sk, managed (ks_keys self) a sk.
Proof using Hok.
  unfold addresses. rewrite iter_perm. intros Ha. apply list_elem_of_fmap in Ha as ([a' k] & -> & Ha).
  apply elem_of_map_to_list in Ha. apply Hok. by exists k.
Qed.

Lemma addresses_nodup : NoDup (addresses self).
Proof. unfold addresses. rewrite iter_perm. apply NoDup_fst_map_to_list. Qed.

(** An offer is an entry of the set under the script of its owner. *)
Definition owned_offer (p : string * RpcUtxo) : Prop :=
  exists sk e, managed (ks_keys self) p.1 sk /\ utxo_set !! outpoint_of p.2 = Some e
    /\ spendable params h (owner_script sk) e /\ value_atoms (output e) = rpc_value p.2 /\ 0 <= rpc_value p.2.

Lemma offer_owned a u sk : managed (ks_keys self) a sk -> u ∈ mature_ones (answer a) -> owned_offer (a, u).
Proof using Hans.
  intros Hm Hu. destruct (Hans a sk Hm) as (_ & _ & Hv & [_ Hs _]). rewrite Forall_forall in Hs, Hv.
  destruct (Hs u Hu) as (e & He & Hsp & Hval). exists sk, e. split_and!; try done. apply Hv.
  by apply list_elem_of_filter in Hu as [_ ?].
Qed.

Lemma offers_owned addrs :
  (forall a, a ∈ addrs -> exists sk, managed (ks_keys self) a sk) -> Forall owned_offer (offers answer addrs).
Proof using Hans.
  intros Ha. apply Forall_forall. intros p Hp. apply list_elem_of_join in Hp as (l & Hp & Hl).
  apply list_elem_of_fmap in Hl as (a & -> & Hin). apply list_elem_of_fmap in Hp as (u & -> & Hu).
  destruct (Ha a Hin) as [sk Hm]. by eapply offer_owned.
Qed.

(** No outpoint is offered twice: an entry has one script, and a script one address. *)
Lemma offers_nodup addrs :
  NoDup addrs -> (forall a, a ∈ addrs -> exists sk, managed (ks_keys self) a sk) ->
  NoDup ((λ p, outpoint_of p.2) <$> offers answer addrs).
Proof using Hans CryptoLaws0.
  induction 1 as [|a addrs Hna _ IH]; intros Ha; [constructor|].
  assert (offers answer (a :: addrs) = (pair a <$> mature_ones (answer a)) ++ offers answer addrs) as -> by done.
  rewrite fmap_app. apply NoDup_app. destruct (Ha a) as [sk Hm]; [by left|].
  assert ((λ p : string * RpcUtxo, outpoint_of p.2) <$> (pair a <$> mature_ones (answer a)) = outpoint_of <$> mature_ones (answer a))
    as -> by by rewrite <- list_fmap_compose.
  split_and!; [|intros op Hop Hop'|apply IH; intros; apply Ha; by right].
  - destruct (Hans a sk Hm) as (_ & _ & _ & [Hnd _ _]). eapply sublist_NoDup; [exact Hnd|].
    apply fmap_sublist, sublist_filter.
  - apply list_elem_of_fmap in Hop as (u & -> & Hu). destruct (offer_owned a u sk Hm Hu) as (sk1 & e & Hm1 & He & [_ Hs1] & _).
    apply list_elem_of_fmap in Hop' as ([a' u'] & Hop & Hp). apply list_elem_of_join in Hp as (l & Hp & Hl).
    apply list_elem_of_fmap in Hl as (a'' & -> & Hin). apply list_elem_of_fmap in Hp as (u'' & [= -> ->] & Hu').
    destruct (Ha a'') as [sk' Hm']; [by right|].
    destruct (offer_owned a'' u'' sk' Hm' Hu') as (sk2 & e2 & Hm2 & He2 & [_ Hs2] & _). cbn [fst snd] in *.
    rewrite Hop in He. assert (e2 = e) as -> by congruence.
    apply managed_script in Hm1 as [_ Hx1], Hm2 as [_ Hx2]. assert (a = a'') as -> by congruence. done.
Qed.

(** What the keystore can spend. *)
Definition managed_balance : Z := sat_sum ((λ p, rpc_value p.2) <$> offers answer (addresses self)).

(** *** The transaction *)
Context (kp : WalletKeypair) (sk0 : signing_key) (Hk : made_from kp sk0).

Lemma script_unique keys keys' addr sk sk' : managed keys addr sk -> managed keys' addr sk' -> owner_script sk = owner_script sk'.
Proof using CryptoLaws0. intros H1 H2. apply managed_script in H1 as [H1 _], H2 as [H2 _]. congruence. Qed.

(** Signing owned offers gives a valid transaction, whichever keys of the addresses are in the store. *)
Lemma stamped_offers_valid keys taken outs :
  Forall owned_offer taken -> NoDup ((λ p, outpoint_of p.2) <$> taken) ->
  (forall a sk, managed (ks_keys self) a sk -> exists sk', managed keys a sk') ->
  sat_sum (value_atoms <$> outs) <= sat_sum ((λ p, rpc_value p.2) <$> taken) ->
  let tx0 := payment (unsigned_input <$> (selection <$> taken).*1) outs in
  let tx := refresh_id (set_inputs (stamped keys sk0 (signature_hash tx0) <$> (selection <$> taken)) tx0) in
  sign_each keys (signature_hash tx0) (selection <$> taken) 0 (inputs tx0)
    = Done (Ok (stamped keys sk0 (signature_hash tx0) <$> (selection <$> taken)))
  /\ validate_transaction utxo_set tx h params
     = Ok (sat_sub64 (sat_sum ((λ p, rpc_value p.2) <$> taken)) (sat_sum (value_atoms <$> outs))).
Proof using CryptoLaws0.
  intros Hown Hnd Hkeys Hle tx0 tx.
  assert (input_value utxo_set tx0 = sat_sum ((λ p, rpc_value p.2) <$> taken)) as Hiv.
  { unfold input_value. cbn [tx0 payment make_tx inputs]. rewrite <- !list_fmap_compose. f_equal.
    apply list_fmap_ext. intros i p Hp. destruct (Forall_lookup_1 _ _ _ _ Hown Hp) as (sk & e & _ & He & _ & Hv & _).
    cbn [compose]. unfold value_or_0, unsigned_input, selection. cbn [previous_output fst]. by rewrite He. }
  split.
  - apply (sign_each_spec keys sk0 _ _ []). apply Forall_fmap. eapply Forall_impl; [exact Hown|].
    intros p (sk & e & Hm & _). by eapply Hkeys.
  - replace (sat_sub64 _ _) with (tx_fee utxo_set tx0) by (unfold tx_fee; by rewrite Hiv).
    assert (forall i inp, inputs tx0 !! i = Some inp -> exists p, taken !! i = Some p /\ inp = unsigned_input (outpoint_of p.2)) as Hinp.
    { intros i inp Hi. cbn [tx0 payment make_tx inputs] in Hi. rewrite <- !list_fmap_compose, list_lookup_fmap in Hi.
      destruct (taken !! i) as [p|]; [|done]. injection Hi as <-. by exists p. }
    apply (stamped_valid utxo_set params h (λ i, sk_of keys sk0 (default EmptyString (fst <$> taken !! i)))).
    + apply signature_hash_set_inputs. cbn [tx0 payment make_tx inputs]. by rewrite <- !list_fmap_compose.
    + done.
    + cbn [tx refresh_id make_tx set_inputs inputs tx0 payment]. by rewrite <- !list_fmap_compose.
    + intros i inp Hi. cbn [tx refresh_id make_tx set_inputs inputs] in Hi. rewrite <- list_fmap_compose, list_lookup_fmap in Hi.
      destruct (taken !! i) as [p|]; [|done]. by injection Hi as <-.
    + cbn [tx0 payment make_tx inputs]. rewrite <- !list_fmap_compose. exact Hnd.
    + intros i inp Hi. destruct (Hinp i inp Hi) as (p & Hp & ->). rewrite Hp. cbn [fmap option_fmap option_map default from_option id].
      destruct (Forall_lookup_1 _ _ _ _ Hown Hp) as (sk & e & Hm & He & [Him Hs] & _).
      destruct (Hkeys _ _ Hm) as [sk' Hm']. rewrite (sk_of_managed keys sk0 _ sk' Hm').
      exists e. split_and!; [exact He|exact Him|]. rewrite Hs. by eapply script_unique.
    + by rewrite Hiv.
Qed.

Lemma mature_total_spec total l : mature_total total l = foldl sat_add64 total (rpc_value <$> mature_ones l).
Proof.
  unfold mature_total, mature_ones. revert total; induction l as [|u l IH]; intros total; [done|].
  rewrite filter_cons. cbn [foldl]. destruct (mature u) eqn:Hu; [rewrite decide_True by done|rewrite decide_False by congruence]; apply IH.
Qed.

Lemma balance_of_spec addrs total :
  (forall a, a ∈ addrs -> exists sk, managed (ks_keys self) a sk) ->
  balance_of node addrs total = Ok (foldl sat_add64 total ((λ p, rpc_value p.2) <$> offers answer addrs)).
Proof using Hans.
  revert total; induction addrs as [|a addrs IH]; intros total Ha; [done|]. cbn [balance_of].
  destruct (Ha a) as [sk Hm]; [by left|]. destruct (Hans a sk Hm) as [-> _]. cbn [mbind result_bind].
  rewrite IH by (intros; apply Ha; by right). rewrite mature_total_spec.
  assert (offers answer (a :: addrs) = (pair a <$> mature_ones (answer a)) ++ offers answer addrs) as -> by done.
  rewrite fmap_app, foldl_app. by rewrite <- list_fmap_compose.
Qed.

(** [getbalance] reports what can be spent. *)
Lemma balance_atoms_spec : balance_atoms self node = Ok managed_balance.
Proof using Hok Hans. apply balance_of_spec, addresses_managed. Qed.

(** A withdrawal that the balance covers is built, valid, and pays exactly what is asked. *)
Lemma withdrawal_builds to dest amount fee :
  p2pkh_from_address to = Ok dest -> 0 <= amount -> 0 <= fee -> amount + fee <= U64_MAX -> amount + fee <= managed_balance ->
  exists self' tx change addr sk',
    build_withdrawal kp node to amount fee self = (self', Done (Ok tx)) /\ keystore_ok self'
    /\ managed (ks_keys self') addr sk' /\ 0 <= change
    /\ outputs tx = with_change change (owner_script sk') [ {| value_atoms := amount; script_pubkey := dest |} ]
    /\ (forall op, op ∈ input_outpoints tx -> exists a sk e, managed (ks_keys self) a sk
         /\ utxo_set !! op = Some e /\ script_pubkey (output e) = owner_script sk)
    /\ is_coinbase tx = false /\ validate_transaction utxo_set tx h params = Ok fee.
Proof using Hok Hans Hk CryptoLaws0.
  intros Hd Ha Hf Hmax Hbal.
  destruct (gather_spec node answer (amount + fee) (addresses self) [] 0) as (taken & rest & Ht & Hg & Hor).
  { intros a Hin. destruct (addresses_managed a Hin) as [sk Hm]. destruct (Hans a sk Hm) as (? & ? & _). done. }
  cbv zeta in Hg, Hor. cbn [app] in Hg. fold (sat_sum ((λ p, rpc_value p.2) <$> taken)) in Hg, Hor.
  assert (amount + fee <= sat_sum ((λ p, rpc_value p.2) <$> taken)) as Hle.
  { destruct Hor as [-> |]; [|done]. unfold managed_balance in Hbal. by rewrite Ht, app_nil_r in Hbal. }
  pose proof (offers_owned (addresses self) addresses_managed) as Hown. rewrite Ht in Hown.
  apply Forall_app in Hown as [Hown _].
  pose proof (offers_nodup (addresses self) addresses_nodup addresses_managed) as Hnd. rewrite Ht, fmap_app in Hnd.
  apply NoDup_app in Hnd as [Hnd _].
  destruct (change_address_ok kp sk0 self Hk Hok) as (Hok' & (sk' & Hm') & Hkeep).
  unfold build_withdrawal, checked_add64, fits64. rewrite (proj2 (Z.leb_le _ _)) by done. cbn [ok_or mbind result_bind].
  rewrite Hg. cbn [mbind result_bind]. rewrite (proj2 (Z.ltb_ge _ _)) by done. cbn [reject_if mbind result_bind].
  rewrite Hd. cbn [map_err mbind result_bind]. destruct (change_address kp self) as [self' c]. cbn [fst snd] in *.
  assert (0 <= sat_sum ((λ p, rpc_value p.2) <$> taken) <= U64_MAX) as Hrange.
  { split; [lia|]. rewrite sat_sum_spec; [lia|]. apply Forall_fmap. eapply Forall_impl; [exact Hown|]. by intros p (? & ? & ? & ? & ? & ? & ?). }
  set (sum := sat_sum _) in *. rewrite sub64_small by (unfold U64_MAX, U64_MOD in *; lia).
  unfold finish_withdrawal. destruct (managed_script _ _ _ Hm') as [-> _]. cbn [map_err mbind command_bind try].
  set (outs := {| value_atoms := amount; script_pubkey := dest |} :: _).
  assert (outs = with_change (sum - (amount + fee)) (owner_script sk') [ {| value_atoms := amount; script_pubkey := dest |} ])
    as Houts by done.
  assert (sat_sum (value_atoms <$> outs) = sum - fee) as Hso.
  { rewrite Houts, sat_sum_fits.
    - rewrite sumZ_with_change by lia. cbn. lia.
    - apply with_change_values. by apply Forall_singleton.
    - rewrite sumZ_with_change by lia. cbn. lia. }
  destruct (stamped_offers_valid (ks_keys self') taken outs Hown Hnd Hkeep) as [Hsign Hval]; [rewrite Hso; fold sum; lia|].
  rewrite Hsign. cbn [mbind command_bind mret command_ret].
  eexists self', _, (sum - (amount + fee)), c, sk'. split; [reflexivity|]. split; [done|]. split; [exact Hm'|].
  split; [lia|]. split; [exact Houts|]. split; [|split; [by unfold is_coinbase; rewrite andb_false_r|]].
  - intros op Hop. cbn [refresh_id make_tx set_inputs inputs input_outpoints] in Hop. unfold input_outpoints in Hop.
    cbn [refresh_id make_tx set_inputs inputs] in Hop. rewrite <- !list_fmap_compose in Hop.
    apply list_elem_of_fmap in Hop as (p & -> & Hp). rewrite Forall_forall in Hown.
    destruct (Hown p Hp) as (sk & e & Hm & He & [_ Hs] & _). by exists p.1, sk, e.
  - rewrite Hval, Hso. fold sum. f_equal. unfold sat_sub64. lia.
Qed.
End Withdrawal.
