(* ===== verification/AdapterScan.v ===== *)
(** * The deposit ledger along one chain, and after a reorganisation

    The reference is [chain_deposits]: every output of the blocks from the genesis block on that
    pays a managed address, in order. A node is described by what its answers say of blocks
    ([block_view]); it may fail at any height. *)

From S2P Require Import Prelude Numeral Crypto Hash ScriptVM ScriptStandard Block Wallet Json Cli CliWallet Adapter AdapterRpc.

Local Open Scope Z_scope.

Section Reference.
Context `{Crypto}.

(** The entry of one output, if it is a deposit. *)
Definition deposit_of (mine : string -> bool) (h : Z) (b : Block) (tx : Transaction) (p : nat * TxOutput) :
    option LedgerEntry :=
  match extract_address (script_pubkey p.2) with
  | Some addr =>
      if mine addr then
        Some {| le_txid := to_hex (tx_id tx); le_address := addr; category := "receive";
                amount_atoms := value_atoms p.2; vout := Z.of_nat p.1; le_height := h;
                le_block_hash := to_hex (block_hash b); time := timestamp_seconds (header b) |}
      else None
  | None => None
  end.

Definition tx_deposits (mine : string -> bool) (h : Z) (b : Block) (tx : Transaction) : list LedgerEntry :=
  omap (deposit_of mine h b tx) (enumerate (outputs tx)).
Definition block_deposits (mine : string -> bool) (h : Z) (b : Block) : list LedgerEntry :=
  mjoin (tx_deposits mine h b <$> transactions b).
(** The deposits of [blocks], the first of them at height [h]. *)
Fixpoint deposits_from (mine : string -> bool) (h : Z) (blocks : list Block) : list LedgerEntry :=
  match blocks with
  | [] => []
  | b :: blocks => block_deposits mine h b ++ deposits_from mine (h + 1) blocks
  end.
Definition chain_deposits (mine : string -> bool) (chain : list Block) : list LedgerEntry := deposits_from mine 0 chain.

Lemma deposits_from_app mine h bs cs :
  deposits_from mine h (bs ++ cs) = deposits_from mine h bs ++ deposits_from mine (h + len bs) cs.
Proof.
  revert h; induction bs as [|b bs IH]; intros h; cbn [app deposits_from]; [by rewrite Z.add_0_r|].
  replace (h + len (b :: bs)) with (h + 1 + len bs) by (rewrite length_cons; lia).
  by rewrite IH, app_assoc.
Qed.

(** A ledger that has scanned exactly [chain]. *)
Record follows (mine : string -> bool) (chain : list Block) (l : Ledger) : Prop := {
  follows_last : last_height l = Z.max 0 (len chain - 1);
  follows_entries : entries l = chain_deposits mine chain;
  follows_seen : seen l = list_to_set (entry_key <$> entries l);
  follows_heights h : heights l !! h = if 0 <=? h then (λ b, to_hex (block_hash b)) <$> chain !! Z.to_nat h else None;
}.

Lemma follows_empty mine : follows mine [] empty_ledger.
Proof. split; [done..|]. intros h. cbn. by destruct (0 <=? h). Qed.

(** What the file keeps is enough. *)
Lemma follows_load mine chain l : follows mine chain l -> load (Some (stored l)) = l.
Proof. intros [_ _ Hs _]. destruct l. cbn in *. by rewrite Hs. Qed.

(** Addresses made after the blocks of [chain] change nothing. *)
Lemma deposits_from_mine mine mine' h chain :
  (forall b tx o addr, b ∈ chain -> tx ∈ transactions b -> o ∈ outputs tx ->
     extract_address (script_pubkey o) = Some addr -> mine addr = mine' addr) ->
  deposits_from mine h chain = deposits_from mine' h chain.
Proof.
  revert h; induction chain as [|b chain IH]; intros h Hm; [done|]. cbn [deposits_from]. rewrite IH.
  2: { intros. eapply Hm; try done. by right. }
  f_equal. unfold block_deposits. f_equal. apply list_fmap_ext. intros i tx Htx. unfold tx_deposits.
  assert (forall n l, (forall o, o ∈ l -> o ∈ outputs tx) ->
            omap (deposit_of mine h b tx) (imap (λ i, pair (n + i)%nat) l)
            = omap (deposit_of mine' h b tx) (imap (λ i, pair (n + i)%nat) l)) as Ho.
  2: { apply (Ho 0%nat (outputs tx)). done. }
  intros n l; revert n; induction l as [|o l IHl]; intros n Hl; [done|]. csimpl.
  assert (deposit_of mine h b tx ((n + 0)%nat, o) = deposit_of mine' h b tx ((n + 0)%nat, o)) as ->.
  { unfold deposit_of. cbn [snd]. destruct (extract_address (script_pubkey o)) as [a|] eqn:Ha; [|done].
    rewrite (Hm b tx o a); try done; [by left|by eapply list_elem_of_lookup_2|]. apply Hl. by left. }
  rewrite (imap_ext _ (λ i, pair (S n + i)%nat)) by (intros; cbn; f_equal; lia).
  rewrite IHl; [done|]. intros. apply Hl. by right.
Qed.

Lemma follows_mine mine mine' chain l :
  (forall b tx o addr, b ∈ chain -> tx ∈ transactions b -> o ∈ outputs tx ->
     extract_address (script_pubkey o) = Some addr -> mine addr = mine' addr) ->
  follows mine chain l -> follows mine' chain l.
Proof. intros Hm [H1 H2 H3 H4]. split; [done| |done..]. rewrite H2. by apply deposits_from_mine. Qed.
End Reference.

(** ** What a node's answers say *)
Section Views.
Context `{Json} `{Crypto}.

Definition out_view (j : json) (o : TxOutput) : Prop :=
  json_bytes <$> json_get j "script_pubkey" = Some (script_pubkey o)
  /\ json_get j "value_atoms" ≫= as_u64 = Some (value_atoms o).
Definition tx_view (j : json) (tx : Transaction) : Prop :=
  txid_to_hex <$> json_get j "id" = Some (to_hex (tx_id tx))
  /\ (exists outs, json_get j "outputs" ≫= as_array = Some outs /\ Forall2 out_view outs (outputs tx))
  /\ len (outputs tx) <= U32_MOD.
Definition block_view (j : json) (b : Block) : Prop :=
  json_get j "header" ≫= (λ hd, json_get hd "timestamp_seconds" ≫= as_u64) = Some (timestamp_seconds (header b))
  /\ (exists txs, json_get j "transactions" ≫= as_array = Some txs /\ Forall2 tx_view txs (transactions b)).

(** Every block the node returns is the block of [chain] at that height. *)
Definition answers (node : Client) (chain : list Block) : Prop :=
  forall h hash j, 0 <= h < len chain -> block_at node h = Ok (hash, j) ->
    exists b, chain !! Z.to_nat h = Some b /\ hash = to_hex (block_hash b) /\ block_view j b.

(** ** The loops compute the reference *)

Definition record_all (es : list LedgerEntry) (acc : Ledger * Z) : Ledger * Z :=
  foldl (λ acc e, record_deposit e (entry_key e) acc) acc es.

Lemma record_all_app es es' acc : record_all (es ++ es') acc = record_all es' (record_all es acc).
Proof. apply foldl_app. Qed.

Lemma scan_outputs_spec mine h b tx outs os n acc :
  Forall2 out_view outs os -> Z.of_nat n + len os <= U32_MOD ->
  foldl (scan_output mine (to_hex (tx_id tx)) (timestamp_seconds (header b)) h (to_hex (block_hash b))) acc
    (imap (λ i, pair (n + i)%nat) outs)
  = record_all (omap (deposit_of mine h b tx) (imap (λ i, pair (n + i)%nat) os)) acc.
Proof.
  intros Hv; revert n acc; induction Hv as [|j o outs os [Hspk Hval] _ IH]; intros n acc Hn; [done|].
  rewrite length_cons in Hn. rewrite !imap_cons. cbn [foldl omap list_omap].
  rewrite (imap_ext _ (λ i, pair (S n + i)%nat)), (imap_ext (λ i, _) (λ i, pair (S n + i)%nat) os)
    by (intros; cbn; f_equal; lia).
  rewrite IH by lia. rewrite Nat.add_0_r.
  assert (scan_output mine (to_hex (tx_id tx)) (timestamp_seconds (header b)) h (to_hex (block_hash b)) acc (n, j)
          = match deposit_of mine h b tx (n, o) with Some e => record_deposit e (entry_key e) acc | None => acc end) as ->.
  { unfold scan_output, deposit_of. cbn [fst snd]. rewrite Hspk, Hval. cbn [default from_option id].
    destruct (extract_address (script_pubkey o)) as [a|]; [|done]. destruct (mine a); [|done].
    unfold entry_key. cbn [le_txid vout]. rewrite Z.mod_small by lia. done. }
  by destruct (deposit_of mine h b tx (n, o)).
Qed.

Lemma scan_block_spec mine h j b acc :
  block_view j b -> scan_block mine h (to_hex (block_hash b)) j acc = record_all (block_deposits mine h b) acc.
Proof.
  intros [Ht (txs & Htxs & Hv)]. unfold scan_block. rewrite Htxs. unfold block_deposits. clear Htxs.
  revert acc; induction Hv as [|t tx txs bs (Hid & (outs & Ho & Hov) & Hlen) _ IH]; intros acc; [done|].
  csimpl. rewrite IH, record_all_app. f_equal. unfold scan_tx. rewrite Ht, Ho, Hid. cbn [default from_option id].
  apply (scan_outputs_spec mine h b tx outs (outputs tx) 0); [done|lia].
Qed.

Definition add_entries (es : list LedgerEntry) (l : Ledger) : Ledger := {|
  last_height := last_height l; entries := entries l ++ es; heights := heights l;
  seen := list_to_set (entry_key <$> es) ∪ seen l |}.

(** New outpoints are all recorded. *)
Lemma record_all_new es l n :
  NoDup (entry_key <$> es) -> (forall e, e ∈ es -> entry_key e ∉ seen l) -> 0 <= n -> n + len es <= U64_MAX ->
  record_all es (l, n) = (add_entries es l, n + len es).
Proof.
  revert l n; induction es as [|e es IH]; intros l n Hnd Hs Hn Hm.
  { unfold add_entries, record_all. cbn. rewrite app_nil_r, (left_id_L ∅ (∪)), Z.add_0_r. by destruct l. }
  rewrite fmap_cons in Hnd. apply NoDup_cons in Hnd as [Hne Hnd].
  rewrite length_cons in Hm |- *. change (record_all (e :: es) (l, n)) with (record_all es (record_deposit e (entry_key e) (l, n))).
  unfold record_deposit. rewrite bool_decide_false by (apply Hs; by left).
  rewrite add64_small by (unfold U64_MAX, U64_MOD in *; lia).
  rewrite IH; try done; cbn [seen]; [|intros e' He' Hin|lia|lia].
  - unfold add_entries. cbn [last_height entries heights seen]. f_equal; [|lia]. f_equal; [by rewrite <- app_assoc|].
    cbn [fmap list_fmap list_to_set]. set_solver.
  - apply elem_of_union in Hin as [Hin|Hin]; [|by apply (Hs e'); [right|]].
    apply elem_of_singleton in Hin. apply Hne. rewrite <- Hin. by apply list_elem_of_fmap_2.
Qed.

(** ** One scan *)

Definition distinct (es : list LedgerEntry) : Prop := NoDup (entry_key <$> es).

Lemma follows_step mine chain l n j b :
  follows mine chain l -> block_view j b -> distinct (chain_deposits mine (chain ++ [b])) ->
  0 <= n -> n + len (block_deposits mine (len chain) b) <= U64_MAX ->
  exists l', scan_block mine (len chain) (to_hex (block_hash b)) j (set_height (len chain) (to_hex (block_hash b)) l, n)
      = (l', n + len (block_deposits mine (len chain) b))
    /\ follows mine (chain ++ [b]) (set_last (len chain) l').
Proof.
  intros [Hl He Hs Hh] Hv Hnd Hn Hm. unfold distinct, chain_deposits in Hnd.
  rewrite deposits_from_app, Z.add_0_l in Hnd. cbn [deposits_from] in Hnd. rewrite app_nil_r, fmap_app in Hnd.
  apply NoDup_app in Hnd as (Hold & Hdis & Hnew).
  rewrite (scan_block_spec mine _ j b) by done. rewrite record_all_new; try done.
  - eexists. split; [reflexivity|]. split; cbn [add_entries set_last set_height last_height entries seen heights].
    + rewrite length_app. cbn [length]. lia.
    + unfold chain_deposits. rewrite deposits_from_app, Z.add_0_l. cbn [deposits_from]. by rewrite app_nil_r, He.
    + rewrite fmap_app, list_to_set_app_L, Hs. set_solver.
    + intros h. destruct (decide (h = len chain)) as [->|Hne].
      * rewrite lookup_insert_eq, (proj2 (Z.leb_le _ _)), Nat2Z.id by lia. by rewrite list_lookup_middle.
      * rewrite lookup_insert_ne by done. rewrite Hh. destruct (Z.leb_spec 0 h); [|done]. f_equal.
        destruct (decide (h < len chain)).
        { by rewrite lookup_app_l by lia. }
        rewrite !lookup_ge_None_2; [done|rewrite length_app; cbn [length]; lia|lia].
  - intros e Hin. cbn [set_height seen]. rewrite Hs, He. intros Hin'. apply elem_of_list_to_set in Hin'.
    apply (Hdis _ Hin'). by apply list_elem_of_fmap_2.
Qed.

(** The answers at the heights of [blocks], which start at [start]. *)
Definition answers_at (node : Client) (start : Z) (blocks : list Block) : Prop :=
  forall i b hash j, blocks !! i = Some b -> block_at node (start + Z.of_nat i) = Ok (hash, j) ->
    hash = to_hex (block_hash b) /\ block_view j b.

Lemma scan_heights_spec mine node blocks : forall chain l n,
  follows mine chain l -> answers_at node (len chain) blocks -> distinct (chain_deposits mine (chain ++ blocks)) ->
  0 <= n -> n + len (deposits_from mine (len chain) blocks) <= U64_MAX ->
  exists scanned rest l' r, blocks = scanned ++ rest
    /\ scan_heights mine node (seqZ (len chain) (len blocks)) (l, n) = (l', r) /\ follows mine (chain ++ scanned) l'
    /\ match r with
       | Ok m => rest = [] /\ m = n + len (deposits_from mine (len chain) blocks)
       | Err e => exists b rest', rest = b :: rest' /\ block_at node (len (chain ++ scanned)) = Err e
       end.
Proof.
  induction blocks as [|b blocks IH]; intros chain l n Hf Ha Hnd Hn Hm.
  { exists [], [], l, (Ok n). rewrite (app_nil_r chain). split_and!; try done. cbn [deposits_from length]. lia. }
  rewrite length_cons. rewrite seqZ_cons by lia. cbn [scan_heights fst snd].
  destruct (block_at node (len chain)) as [[hash j]|e] eqn:Hb.
  2: { exists [], (b :: blocks), l, (Err e). rewrite app_nil_r. split_and!; try done. eauto. }
  destruct (Ha 0%nat b hash j) as [-> Hv]; [done|by rewrite Z.add_0_r|].
  cbn [deposits_from] in Hm |- *. rewrite length_app in Hm.
  assert (chain ++ b :: blocks = (chain ++ [b]) ++ blocks) as Happ by by rewrite <- app_assoc.
  rewrite Happ in Hnd.
  destruct (follows_step mine chain l n j b Hf Hv) as (l1 & -> & Hf1); [|done|lia|].
  { revert Hnd. unfold distinct, chain_deposits. rewrite (deposits_from_app mine 0 (chain ++ [b])), fmap_app.
    intros Hnd. by apply NoDup_app in Hnd as (? & _). }
  assert (len (chain ++ [b]) = len chain + 1) as Hlen by (rewrite length_app; cbn [length]; lia).
  destruct (IH (chain ++ [b]) (set_last (len chain) l1) (n + len (block_deposits mine (len chain) b)))
    as (scanned & rest & l' & r & -> & Hs & Hf' & Hr); try done.
  - intros i b' hash j' Hi. rewrite Hlen. intros Hb'. apply (Ha (S i) b' hash j'); [done|].
    by replace (len chain + Z.of_nat (S i)) with (len chain + 1 + Z.of_nat i) by lia.
  - lia.
  - rewrite Hlen. lia.
  - exists (b :: scanned), rest, l', r. split_and!; [done| | |].
    + replace (Z.succ (len chain)) with (len (chain ++ [b])) by lia.
      replace (Z.pred (Z.of_nat (S (length (scanned ++ rest))))) with (len (scanned ++ rest)) by lia. done.
    + by rewrite <- app_assoc in Hf'.
    + rewrite Hlen in Hr. destruct r as [m|e].
      * destruct Hr as [-> ->]. split; [done|]. rewrite length_app. lia.
      * destruct Hr as (b' & rest' & -> & He). exists b', rest'. split; [done|]. by rewrite <- app_assoc in He.
Qed.

(** Where a scan starts: after the blocks it has seen, or with the genesis block again when that
    is all it has seen and nothing was found. *)
Lemma scan_start_follows mine chain l :
  follows mine chain l -> len chain <= U64_MAX ->
  scan_start l = len chain
  \/ scan_start l = 0 /\ exists b, chain = [b] /\ block_deposits mine 0 b = [].
Proof.
  intros [Hl He _ _] Hm. unfold scan_start. rewrite Hl, He.
  destruct chain as [|b [|c chain]].
  - left. done.
  - change (Z.max 0 (len [b] - 1)) with 0. unfold chain_deposits. cbn [deposits_from]. rewrite app_nil_r.
    destruct (block_deposits mine 0 b) eqn:Hb; [right|left; done]. split; [done|]. by exists b.
  - left. rewrite !length_cons in *. rewrite (proj2 (Z.eqb_neq _ _)) by lia. cbn [andb].
    rewrite add64_small by (unfold U64_MAX, U64_MOD in *; lia). lia.
Qed.

(** Scanning the genesis block again changes nothing. *)
Lemma rescan_genesis mine b l n j :
  follows mine [b] l -> block_deposits mine 0 b = [] -> block_view j b ->
  scan_block mine 0 (to_hex (block_hash b)) j (set_height 0 (to_hex (block_hash b)) l, n) = (l, n) /\ set_last 0 l = l.
Proof.
  intros [Hl He _ Hh] Hd Hv. rewrite (scan_block_spec mine 0 j b) by done. rewrite Hd. unfold record_all. cbn [foldl].
  specialize (Hh 0). change (0 <=? 0) with true in Hh. cbn in Hh. change (last_height l = 0) in Hl.
  destruct l as [lh es hs sn]. cbn [last_height heights] in *. subst. split; [|done].
  unfold set_height. cbn [last_height entries heights seen]. by rewrite insert_id.
Qed.

Lemma range_after (A B : list Block) : range_incl (len A) (len B - 1) = seqZ (len A) (len (drop (length A) B)).
Proof.
  unfold range_incl. rewrite length_drop. destruct (decide (len A <= len B)).
  - f_equal. lia.
  - unfold seqZ. replace (Z.to_nat (len B - 1 - len A + 1)) with O by lia.
    by replace (Z.to_nat (Z.of_nat (length B - length A))) with O by lia.
Qed.

Lemma answers_drop node (A B : list Block) : answers_at node 0 B -> answers_at node (len A) (drop (length A) B).
Proof.
  intros Ha i b hash j Hi Hb. rewrite lookup_drop in Hi. apply (Ha _ b hash j Hi).
  by replace (0 + Z.of_nat (length A + i)) with (len A + Z.of_nat i) by lia.
Qed.

(** A scan of a node on [B] by a ledger that has seen [A]: what is new is what is
    above the height of [A], whether or not [B] continues [A]. *)
Lemma scan_glues mine node A B l file :
  follows mine A l -> len A <= U64_MAX -> B <> [] -> block_count node = Ok (len B - 1) ->
  (A = [] \/ head A = head B) -> answers_at node 0 B -> let glued := A ++ drop (length A) B in
  distinct (chain_deposits mine glued) -> len (chain_deposits mine glued) <= U64_MAX ->
  exists scanned rest l' file' r, drop (length A) B = scanned ++ rest /\ scan mine node l file = (l', file', r)
    /\ follows mine (A ++ scanned) l'
    /\ match r with
       | Ok n => rest = [] /\ n = len (entries l') - len (entries l) /\ file' = Some (stored l')
       | Err e => file' = file /\ exists h, 0 <= h < len B /\ block_at node h = Err e
       end.
Proof.
  intros Hf Hm HB Hc Hg Ha glued Hnd Hmax. unfold scan. rewrite Hc.
  assert (len (deposits_from mine (len A) (drop (length A) B)) <= U64_MAX) as Hmax'.
  { unfold glued, chain_deposits in Hmax. rewrite deposits_from_app, length_app, Z.add_0_l in Hmax. lia. }
  destruct (scan_heights_spec mine node (drop (length A) B) A l 0 Hf (answers_drop node A B Ha) Hnd)
    as (scanned & rest & l' & r & Hsplit & Hs & Hf' & Hr); [done|lia|].
  assert (match r with
          | Ok n => rest = [] /\ n = len (entries l') - len (entries l)
          | Err e => exists h, 0 <= h < len B /\ block_at node h = Err e
          end) as Hr'.
  { destruct r as [n|e].
    - destruct Hr as [-> ->]. split; [done|]. rewrite app_nil_r in Hsplit. subst scanned.
      rewrite (follows_entries _ _ _ Hf'), (follows_entries _ _ _ Hf). unfold chain_deposits.
      rewrite deposits_from_app, length_app, !Z.add_0_l. lia.
    - destruct Hr as (b & rest' & -> & He). eexists. split; [|done].
      assert (length (drop (length A) B) = length (scanned ++ b :: rest')) as Hle by by rewrite Hsplit.
      rewrite length_drop, !length_app in Hle. rewrite length_app. cbn [length] in Hle. lia. }
  destruct (scan_start_follows mine A l Hf Hm) as [-> | [-> (g & -> & Hd)]].
  - rewrite range_after, Hs. exists scanned, rest. destruct r as [n|e]; eexists _, _, _; split_and!; try done; naive_solver.
  - destruct Hg as [|Hg]; [done|]. destruct B as [|g' B]; [done|]. injection Hg as <-.
    unfold range_incl. rewrite seqZ_cons by (rewrite length_cons; lia). cbn [scan_heights fst snd].
    destruct (block_at node 0) as [[hash j]|e] eqn:Hb.
    + destruct (Ha 0%nat g hash j) as [-> Hv]; [done|done|].
      destruct (rescan_genesis mine g l 0 j Hf Hd Hv) as [-> ->].
      replace (seqZ (Z.succ 0) _) with (seqZ (len [g]) (len (drop (length [g]) (g :: B)))).
      2: { f_equal. cbn [length drop]. rewrite drop_0. lia. }
      rewrite Hs. exists scanned, rest. destruct r as [n|e]; eexists _, _, _; split_and!; try done; naive_solver.
    + exists [], (drop (length [g]) (g :: B)), l, file, (Err e). rewrite app_nil_r. split_and!; try done.
      exists 0. rewrite length_cons. split; [lia|done].
Qed.
End Views.

Lemma deposits_heights `{Crypto} mine h blocks e :
  e ∈ deposits_from mine h blocks -> h <= le_height e < h + len blocks.
Proof.
  revert h; induction blocks as [|b blocks IH]; intros h; cbn [deposits_from]; [by intros ?%not_elem_of_nil|].
  rewrite length_cons. intros [Hin|Hin]%elem_of_app; [|specialize (IH _ Hin); lia].
  assert (le_height e = h) as ->; [|lia]. apply list_elem_of_join in Hin as (l & Hin & Hl).
  apply list_elem_of_fmap in Hl as (tx & -> & _). apply list_elem_of_omap in Hin as ([i o] & _ & Hd).
  unfold deposit_of in Hd. destruct (extract_address _); [|done]. destruct (mine _); [|done]. by injection Hd as <-.
Qed.

(** The scanner finds every deposit and nothing else. Let a ledger have seen [chain], and the node be
    on a chain that continues it, with different outpoints for its deposits. Whatever heights the node
    fails to answer, the ledger then has seen a chain between the two. When the scan succeeds, its entries
    are exactly the outputs of the whole chain that pay a managed address, the count it returns is that of
    the new ones, and the file holds the ledger; when it fails, the file is as before, and loading it
    resumes from what it holds. *)
Theorem deposit_scan_exact `{Json} `{Crypto} mine node chain new l file :
  follows mine chain l -> chain ++ new <> [] -> len (chain ++ new) <= U64_MAX ->
  block_count node = Ok (len (chain ++ new) - 1) -> answers_at node 0 (chain ++ new) ->
  distinct (chain_deposits mine (chain ++ new)) -> len (chain_deposits mine (chain ++ new)) <= U64_MAX ->
  exists scanned l' file' r, scan mine node l file = (l', file', r)
    /\ scanned `prefix_of` new /\ follows mine (chain ++ scanned) l'
    /\ match r with
       | Ok n => entries l' = chain_deposits mine (chain ++ new) /\ n = len (entries l') - len (entries l)
                 /\ load file' = l'
       | Err e => file' = file /\ exists h, 0 <= h < len (chain ++ new) /\ block_at node h = Err e
       end.
Proof.
  intros Hf Hne Hlen Hc Ha Hnd Hm. assert (drop (length chain) (chain ++ new) = new) as Hdrop by apply drop_app_length.
  destruct (scan_glues mine node chain (chain ++ new) l file Hf) as (scanned & rest & l' & file' & r & Hsp & Hs & Hf' & Hr);
    rewrite ?Hdrop in *; try done.
  - rewrite length_app in Hlen. lia.
  - destruct chain; [by left|by right].
  - subst new. exists scanned, l', file', r. split_and!; try done; [by exists rest|]. destruct r as [n|e]; [|done].
    destruct Hr as (-> & -> & ->). rewrite app_nil_r. split_and!; [by apply follows_entries|done|by eapply follows_load].
Qed.

(** C26: A reorganisation is never seen. Let a ledger have seen [A], and the node now be on a chain [B] at least
    as long that branched off it. Every deposit of [A] stays, whether or not its transaction is
    in [B], and is reported with as many confirmations as if [B] had it at its height; and a deposit
    of [B] below the height already scanned that is not one of [A] is not recorded. *)
Theorem reorganised_deposits_kept `{Json} `{Crypto} mine node A B l file :
  follows mine A l -> len A <= len B -> len B <= U64_MAX -> B <> [] -> head A = head B ->
  block_count node = Ok (len B - 1) -> answers_at node 0 B ->
  (forall h, 0 <= h < len B -> exists r, block_at node h = Ok r) ->
  distinct (chain_deposits mine (A ++ drop (length A) B)) ->
  len (chain_deposits mine (A ++ drop (length A) B)) <= U64_MAX ->
  exists l' n, scan mine node l file = (l', Some (stored l'), Ok n)
    /\ (forall e, e ∈ chain_deposits mine A -> e ∈ entries l' /\ confirmations e (len B - 1) = len B - le_height e)
    /\ (forall e, e ∈ chain_deposits mine B -> le_height e < len A -> e ∉ chain_deposits mine A -> e ∉ entries l').
Proof.
  intros Hf Hle Hlen HB Hh Hc Ha Htot Hnd Hm.
  destruct (scan_glues mine node A B l file Hf) as (scanned & rest & l' & file' & r & Hsp & Hs & Hf' & Hr); try done.
  - lia.
  - by right.
  - destruct r as [n|e]; [|destruct Hr as (_ & h & Hh' & He); destruct (Htot h Hh') as [r Hr]; by rewrite Hr in He].
    destruct Hr as (-> & _ & ->). rewrite app_nil_r in Hsp. subst scanned.
    assert (entries l' = chain_deposits mine A ++ deposits_from mine (len A) (drop (length A) B)) as He.
    { rewrite (follows_entries _ _ _ Hf'). unfold chain_deposits. by rewrite deposits_from_app, Z.add_0_l. }
    exists l', n. split_and!; [done| |]; intros e Hin; rewrite He.
    + split; [apply elem_of_app; by left|]. apply deposits_heights in Hin.
      unfold confirmations. rewrite add64_small; unfold sat_sub64, U64_MAX, U64_MOD in *; lia.
    + intros Hlt Hna [?|Hin']%elem_of_app; [done|]. apply deposits_heights in Hin'. lia.
Qed.
