(* ===== verification/AdapterNode.v ===== *)
(** * The exchange adapter talks to the node

    A withdrawal the reported balance covers is accepted by the node; a ledger that has followed
    the node's chain so far is, after a scan, that of the whole chain. *)

From S2P Require Import Prelude Numeral Crypto Hash Chain ScriptVM ScriptStandard Block Utxo Mempool MempoolFacts.
From S2P Require Import State StateDb StateChain StateInv StateProps StateSubmit StateTyped Wallet.
From S2P Require Import Node NodeRpc NodeHttp NodeServe NodeFacts Json Cli CliWallet CliCommands CliFacts CliNode.
From S2P Require Import Adapter AdapterRpc AdapterScan AdapterWithdraw.

Local Open Scope Z_scope.

Section Node.
Context `{Json} `{Crypto} `{!CryptoLaws _} `{!IterOrder string string} `{!IterOrder OutPoint UtxoEntry} `{!IterOrder string MempoolEntry}.

(** What the client posts is answered with [accepted: true] when the node accepts it. *)
Definition posts_to (client : Client) (params : ConsensusParams) (n : Node) : Prop :=
  forall tx n' r, rpc_sendrawtransaction None params tx n = (n', Ok r) ->
    exists v, post client tx = Ok v /\ json_get v "accepted" ≫= as_bool = Some true.

Definition listed (params : ConsensusParams) (n : Node) (addr : string) : list RpcUtxo :=
  match node_utxos params n addr with Ok l => l | Err _ => [] end.

(** The node's answers are honest for every managed address. *)
Lemma node_honest_client client params n n1 s self :
  state_ok params (open_db (node_db n)) -> synced_state None params n = (n1, Ok s) -> db_typed (node_db n) ->
  utxos client = node_utxos params n ->
  honest_client client self (cf_utxo (db s)) params (height_or_0 s) (listed params n).
Proof.
  intros Hok Hs Hty Hu addr sk (kp & Hk & <- & _).
  pose proof (synced_typed params n n1 s Hok Hty Hs) as Hts. destruct (typed_values (db s) Hts) as [Hh Hv].
  unfold listed. rewrite Hu, (node_utxos_own params n n1 s kp sk Hk Hs). split_and!.
  - done.
  - by apply listed_well_formed.
  - by apply listed_values.
  - apply listed_honest.
Qed.
End Node.

(** C24: [sendtoaddress] pays what it is asked. Let the adapter ask a node with a good, well-typed database,
    for a keystore of generated keys. If the balance it reports covers the amount and the fee, the fee
    relays, and no waiting transaction spends the keystore's outputs, the adapter builds a
    transaction that pays exactly the amount to the recipient's script and the rest but the fee to a
    managed address, the node accepts it into its mempool with exactly that fee, and the adapter
    returns its id. The keystore stays good. *)
Theorem withdrawal_relayed `{Json} `{Crypto} `{!CryptoLaws _} `{!IterOrder string string}
    `{!IterOrder OutPoint UtxoEntry} `{!IterOrder string MempoolEntry}
    client params n n1 s self kp sk0 to dest amount fee b :
  state_ok params (open_db (node_db n)) -> synced_state None params n = (n1, Ok s) -> db_typed (node_db n) ->
  utxos client = node_utxos params n -> posts_to client params n1 ->
  keystore_ok self -> from_signing_key sk0 = Done kp ->
  balance_atoms self client = Ok b -> p2pkh_from_address to = Ok dest ->
  0 <= amount -> MIN_RELAY_FEE_ATOMS <= fee -> amount + fee <= U64_MAX -> amount + fee <= b ->
  (forall addr sk, managed (ks_keys self) addr sk -> untouched (cf_utxo (db s)) (owner_script sk) (node_mempool n)) ->
  pool_len (node_mempool n) < MAX_MEMPOOL_TXS ->
  (forall self' tx, build_withdrawal kp client to amount fee self = (self', Done (Ok tx)) ->
     node_mempool n !! to_hex (tx_id tx) = None) ->
  exists self' tx change addr sk n2, send kp client to amount fee self = (self', Done (Ok (to_hex (tx_id tx))))
    /\ keystore_ok self' /\ managed (ks_keys self') addr sk /\ 0 <= change
    /\ outputs tx = with_change change (owner_script sk) [ {| value_atoms := amount; script_pubkey := dest |} ]
    /\ rpc_sendrawtransaction None params tx n1 = (n2, Ok (tx_id tx, pool_len (node_mempool n) + 1))
    /\ node_mempool n2 = <[to_hex (tx_id tx) := {| entry_tx := tx; fee_atoms := fee |}]> (node_mempool n).
Proof.
  intros Hok Hs Hty Hut Hpost Hks Hk Hb Hd Ha Hmin Hmax Hle Hun Hpool Hnew.
  pose proof (node_honest_client client params n n1 s self Hok Hs Hty Hut) as Hh.
  rewrite (balance_atoms_spec client self _ _ _ _ Hks Hh) in Hb. injection Hb as <-.
  destruct (withdrawal_builds client self _ _ _ _ Hks Hh kp sk0 Hk to dest amount fee)
    as (self' & tx & change & addr & sk & Hbuild & Hok' & Hm & Hc & Hout & Hin & Hcb & Hval); try done.
  { unfold MIN_RELAY_FEE_ATOMS in Hmin. lia. }
  destruct (synced_again params n n1 s Hok Hs) as (s2 & Hs2 & Hu & Hhe & Hpl).
  rewrite <- Hu, <- Hhe in Hval. destruct (node_relays params n1 s2 _ tx fee Hs2) as (n2 & Hsend & Hp2); try done.
  - rewrite Hpl. by eapply Hnew.
  - rewrite Hpl. intros k e Hke op Hop Hop'. destruct (Hin op Hop) as (a & sk' & entry & Hma & He & Hscr).
    exact (Hun a sk' Hma k e op entry Hke Hop' He Hscr).
  - by rewrite Hpl.
  - exists self', tx, change, addr, sk, n2. rewrite Hpl in Hsend, Hp2. split_and!; try done.
    unfold send. rewrite Hbuild. cbn [mbind command_bind]. unfold try, send_raw. destruct (Hpost tx n2 _ Hsend) as (v & -> & Hv).
    cbn [mbind command_bind result_bind]. by rewrite Hv.
Qed.

(** ** The blocks the node serves *)

(** The client's pages are those of the node's handlers, printed. *)
Record shows `{Json} `{Crypto} (client : Client) (params : ConsensusParams) (env : RpcEnv) (n : Node) : Prop := {
  shows_height c h k : rpc_getblockcount params env n = Ok (ABlockCount c (Some h) k) -> block_count client = Ok h;
  shows_block h hash b : 0 <= h -> rpc_getblock env (dec_string h) n = Ok (ABlock hash b) ->
    exists j, block_at client h = Ok (to_hex hash, j) /\ block_view j b;
}.

Lemma parse_dec_inv h k : 0 <= h -> parse_u64 (dec_string h) = Some k -> k = h.
Proof.
  intros Hh. unfold parse_u64. pose proof (dec_string_digits h Hh) as (Hd & Hv & He).
  rewrite parse_uint_digits, parse_digits_spec, Hv by (done || unfold U64_MAX; lia). destruct (U64_MAX <? h); [done|]. by intros [= <-].
Qed.

(** What [/getblock] answers is the canonical block at that height. *)
Lemma getblock_canonical `{Crypto} params env n t h hash b :
  state_ok params (open_db (node_db n)) -> tip_cache (open_db (node_db n)) = Some t -> 0 <= h ->
  rpc_getblock env (dec_string h) n = Ok (ABlock hash b) ->
  canonical_blocks (node_db n) !! Z.to_nat h = Some b /\ hash = block_hash b.
Proof.
  intros Hok Ht Hh Hr. unfold rpc_getblock in Hr. apply bind_Ok in Hr as (k & Hk & Hr).
  destruct (parse_u64 (dec_string h)) as [k'|] eqn:Hp; [|done]. injection Hk as <-. apply (parse_dec_inv h k' Hh) in Hp as ->.
  destruct (db_opens env); [done|]. destruct (state_ok_tip _ _ _ Hok Ht) as (l & Htip & _).
  pose proof (state_ok_canonical _ _ _ _ Hok Htip) as Hc. rewrite open_db_db in Hc.
  rewrite <- (open_db_db (node_db n)), (canonical_lookup _ _ _ _ h Hok Htip Hh), <- Hc in Hr.
  destruct (canonical_blocks (node_db n) !! Z.to_nat h); [|done]. by injection Hr as <- <-.
Qed.

(** A node with a tip shows its canonical chain. *)
Lemma node_shows_chain `{Json} `{Crypto} client params clk token n t :
  let env := {| db_opens := None; clock := clk; admin_token := token |} in
  state_ok params (open_db (node_db n)) -> tip_cache (open_db (node_db n)) = Some t -> shows client params env n ->
  len (canonical_blocks (node_db n)) <= U64_MAX ->
  canonical_blocks (node_db n) <> []
  /\ block_count client = Ok (len (canonical_blocks (node_db n)) - 1)
  /\ (forall i b, canonical_blocks (node_db n) !! i = Some b ->
        exists j, block_at client (Z.of_nat i) = Ok (to_hex (block_hash b), j) /\ block_view j b).
Proof.
  intros env Hok Ht [Hh Hb] Hlen. destruct (state_ok_tip _ _ _ Hok Ht) as (l & Htip & Ha).
  pose proof (state_ok_canonical _ _ _ _ Hok Htip) as Hc. rewrite open_db_db in Hc.
  assert (len (canonical_blocks (node_db n)) = len (t :: l)) as Hl by by rewrite Hc, length_reverse.
  split_and!.
  - intros E. rewrite E in Hl. done.
  - eapply Hh. unfold rpc_getblockcount. cbn [db_opens env]. rewrite (tip_height_cached _ _ _ _ Htip).
    pose proof (ancestry_heights _ _ _ Ha 0%nat t eq_refl) as Hht. rewrite Hht, Hl. cbn [length].
    replace (Z.of_nat (S (length l)) - 1 - Z.of_nat 0) with (Z.of_nat (S (length l)) - 1) by lia. reflexivity.
  - intros i b Hi. apply (Hb (Z.of_nat i) (block_hash b) b); [lia|]. unfold rpc_getblock, parse_u64.
    assert (Z.of_nat i <= U64_MAX) as Hi'.
    { apply lookup_lt_Some in Hi. lia. }
    rewrite parse_uint_dec by lia. cbn [ok_or mbind result_bind db_opens env].
    rewrite <- (open_db_db (node_db n)), (canonical_lookup params _ t (t :: l) (Z.of_nat i) Hok Htip) by lia.
    rewrite Nat2Z.id, <- Hc, Hi. done.
Qed.

(** C25: Scanning on along one chain is exact. Let the adapter's ledger have followed a beginning
    of the present canonical chain of a good node (or be empty), so that no block it has scanned was reorganised
    away, and let the deposits of that chain have different outpoints. A scan of the pages the
    node serves succeeds, and then the ledger and its file list exactly the outputs of the
    node's whole canonical chain that pay a managed address, in order, each with its height.
    After a reorganisation below the last scanned height this fails ([reorganised_deposits_kept]).
    For the empty ledger the whole chain is scanned, from the genesis block, although the comment
    in [scan] says that a first run does not rescan the history. *)
Theorem ledger_is_canonical `{Json} `{Crypto} client params clk token n t mine chain l file :
  let env := {| db_opens := None; clock := clk; admin_token := token |} in
  let canonical := canonical_blocks (node_db n) in
  state_ok params (open_db (node_db n)) -> tip_cache (open_db (node_db n)) = Some t -> shows client params env n ->
  len canonical <= U64_MAX -> follows mine chain l -> chain `prefix_of` canonical ->
  distinct (chain_deposits mine canonical) -> len (chain_deposits mine canonical) <= U64_MAX ->
  exists l' k, scan mine client l file = (l', Some (stored l'), Ok k) /\ follows mine canonical l'
    /\ entries l' = chain_deposits mine canonical /\ k = len (entries l') - len (entries l)
    /\ load (Some (stored l')) = l'.
Proof.
  intros env canonical Hok Ht Hsh Hlen Hf [new Hnew] Hnd Hm.
  destruct (node_shows_chain client params clk token n t Hok Ht Hsh Hlen) as (Hne & Hc & Hb). fold canonical in Hne, Hc, Hb.
  assert (chain ++ drop (length chain) canonical = canonical) as Hg by by rewrite Hnew, drop_app_length.
  destruct (scan_glues mine client chain canonical l file Hf) as (scanned & rest & l' & f & r & Hsp & Hs & Hf' & Hr);
    rewrite ?Hg; try done.
  - rewrite Hnew, length_app in Hlen. lia.
  - rewrite Hnew. destruct chain; [by left|by right].
  - intros i b hash j Hi Ha. destruct (Hb i b Hi) as (j' & Hj & Hv). rewrite Z.add_0_l, Hj in Ha. by injection Ha as <- <-.
  - destruct r as [k|e].
    + destruct Hr as (-> & -> & ->). rewrite app_nil_r in Hsp. rewrite <- Hsp, Hg in Hf'.
      exists l', (len (entries l') - len (entries l)). split_and!; try done; [by apply follows_entries|by eapply follows_load].
    + destruct Hr as (_ & h & Hh & He). destruct (lookup_lt_is_Some_2 canonical (Z.to_nat h)) as [b Hbl]; [lia|].
      destruct (Hb _ _ Hbl) as (j & Hj & _). rewrite Z2Nat.id in Hj by lia. by rewrite Hj in He.
Qed.
