(* ===== verification/AdapterWitness.v ===== *)
(** * The exchange adapter on concrete inputs

    A node printed as JSON trees, a ledger that follows the chain of [Paid] and then
    a branch of it, and a withdrawal from the wallet the first block paid. *)

From S2P Require Import Prelude Numeral Crypto Hash Chain ScriptVM ScriptStandard Block Utxo Mempool Settlement.
From S2P Require Import State StateDb StateInv StateProps StateSubmit StateTyped Wallet Fixture StateWitness Node NodeRpc NodeFacts.
From S2P Require Import NodeHttp NodeServe Json Cli CliWallet CliFacts CliNode CliWitness Adapter AdapterRpc AdapterScan AdapterWithdraw AdapterNode.

Local Open Scope Z_scope.

#[local] Existing Instance toy_crypto.
#[local] Existing Instance trie_order.

Module Printed.
Export Tree.
Definition J : Json := tree_json ∅.
#[local] Existing Instance J.

(** What the node's [serde] prints of a block, the fields the adapter reads. *)
Definition bytes_value (bs : bytes) : value := Arr (Number <$> bs).
Definition out_value (o : TxOutput) : value :=
  Obj [("value_atoms", Number (value_atoms o)); ("script_pubkey", bytes_value (script_pubkey o))]%string.
Definition tx_value (tx : Transaction) : value :=
  Obj [("id", bytes_value (hash_bytes (tx_id tx))); ("outputs", Arr (out_value <$> outputs tx))]%string.
Definition block_value (b : Block) : value :=
  Obj [("header", Obj [("timestamp_seconds", Number (timestamp_seconds (header b)))]);
       ("transactions", Arr (tx_value <$> transactions b))]%string.

Lemma array_bytes bs : bytes_ok bs -> bytes_of_array (Number <$> bs) = bs.
Proof.
  unfold bytes_of_array. induction 1 as [|b bs Hb _ IH]; [done|]. cbn [fmap list_fmap omap list_omap].
  assert (as_u64 (Number b) = Some b) as ->.
  { cbn. rewrite decide_True; [done|]. unfold is_u8, is_u64, U64_MOD in *. lia. }
  cbn [fmap option_fmap option_map]. rewrite Z.mod_small by exact Hb. f_equal. exact IH.
Qed.

Lemma out_value_view o : bytes_ok (script_pubkey o) -> is_u64 (value_atoms o) -> out_view (out_value o) o.
Proof.
  intros Hs Hv. split.
  - exact (f_equal Some (array_bytes _ Hs)).
  - change ((if decide (is_u64 (value_atoms o)) then Some (value_atoms o) else None) = Some (value_atoms o)). by rewrite decide_True.
Qed.

Lemma tx_value_view tx : tx_typed tx -> len (outputs tx) <= U32_MOD -> tx_view (tx_value tx) tx.
Proof.
  intros [[_ Hid] _ Ho _] Hl. split_and!; [| |done].
  - exact (f_equal (λ bs, Some (hex_lower bs)) (array_bytes _ Hid)).
  - exists (out_value <$> outputs tx). split; [done|]. apply Forall2_fmap_l, Forall_Forall2_diag.
    eapply Forall_impl; [exact Ho|]. intros o [Hv Hs]. by apply out_value_view.
Qed.

(** Every typed block is printed faithfully. *)
Lemma block_value_view b :
  block_typed b -> Forall (λ tx, len (outputs tx) <= U32_MOD) (transactions b) -> block_view (block_value b) b.
Proof.
  intros [[_ _ Ht _ _ _] _ Htx] Hl. split.
  - change ((if decide (is_u64 (timestamp_seconds (header b))) then Some (timestamp_seconds (header b)) else None)
            = Some (timestamp_seconds (header b))). by rewrite decide_True.
  - exists (tx_value <$> transactions b). split; [done|]. apply Forall2_fmap_l, Forall_Forall2_diag.
    apply Forall_forall. intros tx Hin. rewrite Forall_forall in Htx, Hl. apply tx_value_view; [by apply Htx|by apply Hl].
Qed.
End Printed.

(** ** A ledger, a chain and its branch *)
Module Chains.
Export Printed.
#[local] Existing Instance J.

Definition kp2 : WalletKeypair := Parties.wallet toy_key2.
Definition mine (a : string) : bool := bool_decide (a = address Paid.kp) || bool_decide (a = address kp2).

(** [b2] continues [b1]; [side1] and [side2] branch off below it. *)
Definition b2 : Block := candidate Paid.params (Some Paid.b1) 1120 (address kp2) [] 0.
Definition side1 : Block := candidate Paid.params (Some Paid.genesis0) 1070 (address kp2) [] 0.
Definition side2 : Block := candidate Paid.params (Some side1) 1090 (address Paid.kp) [] 0.
Definition old : list Block := [Paid.genesis0; Paid.b1].
Definition longer : list Block := old ++ [b2].
Definition branch : list Block := [Paid.genesis0; side1; side2].

(** A node that serves a chain. *)
Fixpoint page (h : Z) (chain : list Block) (path : string) : result string value :=
  match chain with
  | [] => Err "node 404"%string
  | b :: chain =>
      if bool_decide (path = "/getblock/" +:+ dec_string h)
      then Ok (Obj [("hash", bytes_value (hash_bytes (block_hash b))); ("block", block_value b)]%string)
      else page (h + 1) chain path
  end.
Definition serve (chain : list Block) : Client := {|
  get path := if bool_decide (path = "/getblockcount"%string) then Ok (Obj [("height", Number (len chain - 1))]%string)
              else page 0 chain path;
  utxos _ := Err "unused"%string;
  post _ := Err "unused"%string |}.

(** The blocks of all the chains are typed. *)
Lemma chain_params_ok : params_typed Paid.params.
Proof. exact Paid.paid_params_ok. Qed.
Lemma genesis_typed : block_typed Paid.genesis0.
Proof.
  destruct (Paid.typed) as [Hb _ _ _].
  assert (cf_blocks (node_db Paid.n) !! block_hash Paid.genesis0 = Some Paid.genesis0) as Hg by (vm_compute; reflexivity).
  exact (proj2 (Hb _ _ Hg)).
Qed.
Lemma few_outputs : Forall (λ b, Forall (λ tx, len (outputs tx) <= U32_MOD) (transactions b)) (longer ++ branch).
Proof. by_compute. Qed.
Lemma times : is_u64 1120 /\ is_u64 1070 /\ is_u64 1090.
Proof. by_compute. Qed.
Lemma chains_typed : Forall block_typed (longer ++ branch).
Proof.
  pose proof (proj2 (proj2 Paid.paid_times)) as H0. destruct times as (H1 & H2 & H3).
  assert (forall prev now to, is_u64 now -> block_typed (candidate Paid.params prev now to [] 0)) as Ht
    by (intros; apply (@template_typed toy_crypto toy_laws); [exact chain_params_ok|assumption]).
  apply Forall_cons; split; [exact genesis_typed|]. apply Forall_cons; split; [exact (Ht _ _ _ H0)|].
  apply Forall_cons; split; [exact (Ht _ _ _ H1)|]. apply Forall_cons; split; [exact genesis_typed|].
  apply Forall_cons; split; [exact (Ht _ _ _ H2)|]. apply Forall_cons; split; [exact (Ht _ _ _ H3)|constructor].
Qed.
Lemma all_views b : b ∈ longer ++ branch -> block_view (block_value b) b.
Proof.
  intros Hb. pose proof chains_typed as Ht. pose proof few_outputs as Hf. rewrite Forall_forall in Ht, Hf.
  exact (@block_value_view b (Ht b Hb) (Hf b Hb)).
Qed.

Lemma pair_unique {A B E} (r : result E (A * B)) a b c d : r = Ok (a, b) -> r = Ok (c, d) -> a = c /\ b = d.
Proof. intros -> [= -> ->]. done. Qed.

(** The pages hold what they should. *)
Definition pages_ok (chain : list Block) : Prop :=
  Forall (λ p : nat * Block, block_at (serve chain) (Z.of_nat p.1) = Ok (to_hex (block_hash p.2), block_value p.2)) (imap pair chain).

Lemma serve_answers chain : (forall b, b ∈ chain -> block_view (block_value b) b) -> pages_ok chain -> answers_at (serve chain) 0 chain.
Proof.
  intros Hv Hp i b hash j Hi Hb. unfold pages_ok in Hp. rewrite Forall_forall in Hp. specialize (Hp (i, b)). cbn [fst snd] in Hp.
  destruct (pair_unique _ _ _ _ _ Hb (Hp ltac:(apply list_elem_of_lookup; exists i; by rewrite list_lookup_imap, Hi))) as [-> ->].
  split; [done|]. apply Hv. by eapply list_elem_of_lookup_2.
Qed.
Ltac pages_tac := repeat (apply Forall_cons; split; [vm_compute; reflexivity|]); apply Forall_nil_2.
Lemma longer_pages : pages_ok longer.
Proof. unfold pages_ok. pages_tac. Qed.
Lemma old_pages : pages_ok old.
Proof. unfold pages_ok. pages_tac. Qed.
Lemma branch_pages : pages_ok branch.
Proof. unfold pages_ok. pages_tac. Qed.

(** The ledger after a first scan of [old]. *)
Definition start : Ledger := (scan mine (serve old) empty_ledger None).1.1.
Lemma start_eq : scan mine (serve old) empty_ledger None = (start, Some (stored start), Ok 1).
Proof. vm_compute. reflexivity. Qed.

Definition deposits_ok (chain : list Block) : bool :=
  bool_decide (NoDup (entry_key <$> chain_deposits mine chain)) && (len (chain_deposits mine chain) <=? U64_MAX).
Lemma deposits_ok_spec chain :
  deposits_ok chain = true -> distinct (chain_deposits mine chain) /\ len (chain_deposits mine chain) <= U64_MAX.
Proof. intros [Hd%bool_decide_eq_true Hl%Z.leb_le]%andb_true_iff. done. Qed.
Lemma old_ok : distinct (chain_deposits mine old) /\ len (chain_deposits mine old) <= U64_MAX.
Proof. apply deposits_ok_spec. vm_compute. reflexivity. Qed.
Lemma longer_ok : distinct (chain_deposits mine longer) /\ len (chain_deposits mine longer) <= U64_MAX.
Proof. apply deposits_ok_spec. vm_compute. reflexivity. Qed.
Definition glued : list Block := old ++ drop (length old) branch.
Lemma glued_ok : distinct (chain_deposits mine glued) /\ len (chain_deposits mine glued) <= U64_MAX.
Proof. apply deposits_ok_spec. vm_compute. reflexivity. Qed.

Lemma old_answers : answers_at (serve old) 0 old.
Proof. apply serve_answers; [|exact old_pages]. intros b Hb. apply all_views. apply elem_of_app; left. apply elem_of_app; left. exact Hb. Qed.
Lemma longer_answers : answers_at (serve longer) 0 longer.
Proof. apply serve_answers; [|exact longer_pages]. intros b Hb. apply all_views. apply elem_of_app; left. exact Hb. Qed.
Lemma branch_answers : answers_at (serve branch) 0 branch.
Proof. apply serve_answers; [|exact branch_pages]. intros b Hb. apply all_views. apply elem_of_app; right. exact Hb. Qed.
Lemma counts chain : block_count (serve chain) = (v ← Ok (Obj [("height", Number (len chain - 1))]%string);
  ok_or (json_get v "height" ≫= as_u64) "no height"%string).
Proof. reflexivity. Qed.
Lemma small : len longer <= U64_MAX /\ len branch <= U64_MAX /\ len old <= U64_MAX.
Proof. vm_compute. split_and!; discriminate. Qed.

Lemma triple_unique {A B C} (x : A * B * C) a b c a' b' c' : x = (a, b, c) -> x = (a', b', c') -> a = a' /\ b = b' /\ c = c'.
Proof. intros -> [= -> -> ->]. done. Qed.

Lemma start_follows : follows mine old start.
Proof.
  destruct (scan_glues mine (serve old) [] old empty_ledger None (follows_empty mine)) as (scanned & rest & l' & f & r & Hsp & Hs & Hf & Hr);
    [by_compute|by_compute|vm_compute; reflexivity|by left|exact old_answers|exact (proj1 old_ok)|exact (proj2 old_ok)|].
  destruct (triple_unique _ _ _ _ _ _ _ Hs start_eq) as (-> & _ & ->). destruct Hr as (-> & _). rewrite app_nil_r in Hsp.
  rewrite <- Hsp in Hf. exact Hf.
Qed.

Definition branch_total (h : Z) : 0 <= h < len branch -> exists r, block_at (serve branch) h = Ok r.
Proof.
  intros Hh. assert (h = 0 \/ h = 1 \/ h = 2) as Hc by (change (len branch) with 3 in Hh; lia).
  destruct Hc as [-> | [-> | ->]]; eexists; vm_compute; reflexivity.
Qed.
End Chains.

Lemma deposit_scan_exact_witness :
  exists scanned l' file' r, scan Chains.mine (Chains.serve Chains.longer) Chains.start None = (l', file', r)
    /\ scanned `prefix_of` [Chains.b2] /\ follows Chains.mine (Chains.old ++ scanned) l'
    /\ match r with
       | Ok n => entries l' = chain_deposits Chains.mine (Chains.old ++ [Chains.b2])
                 /\ n = len (entries l') - len (entries Chains.start) /\ load file' = l'
       | Err e => file' = None /\ exists h, 0 <= h < len (Chains.old ++ [Chains.b2])
                 /\ block_at (Chains.serve Chains.longer) h = Err e
       end.
Proof.
  exact (@deposit_scan_exact Printed.J toy_crypto Chains.mine (Chains.serve Chains.longer) Chains.old [Chains.b2] Chains.start None
    Chains.start_follows ltac:(discriminate) (proj1 Chains.small) eq_refl Chains.longer_answers
    (proj1 Chains.longer_ok) (proj2 Chains.longer_ok)).
Defined.

Lemma reorganised_deposits_kept_witness :
  exists l' n, scan Chains.mine (Chains.serve Chains.branch) Chains.start None = (l', Some (stored l'), Ok n)
    /\ (forall e, e ∈ chain_deposits Chains.mine Chains.old ->
         e ∈ entries l' /\ confirmations e (len Chains.branch - 1) = len Chains.branch - le_height e)
    /\ (forall e, e ∈ chain_deposits Chains.mine Chains.branch -> le_height e < len Chains.old ->
         e ∉ chain_deposits Chains.mine Chains.old -> e ∉ entries l').
Proof.
  exact (@reorganised_deposits_kept Printed.J toy_crypto Chains.mine (Chains.serve Chains.branch) Chains.old Chains.branch Chains.start None
    Chains.start_follows ltac:(vm_compute; discriminate) (proj1 (proj2 Chains.small)) ltac:(discriminate) eq_refl eq_refl
    Chains.branch_answers Chains.branch_total (proj1 Chains.glued_ok) (proj2 Chains.glued_ok)).
Defined.

(** ** A withdrawal from the wallet of [Paid] *)
Module Exchange.
Export Printed.
#[local] Existing Instance J.

Definition store : Keystore := {| ks_keys := {[ address Paid.kp := private_key_hex Paid.kp ]}; ks_change := None |}.
Definition client : Client := {|
  get _ := Err "unused"%string;
  utxos := node_utxos Paid.params Paid.n;
  post tx := match (rpc_sendrawtransaction None Paid.params tx Paid.n1).2 with
             | Ok _ => Ok (Obj [("accepted", Bool true)]%string)
             | Err _ => Ok (Obj [("accepted", Bool false)]%string)
             end |}.

Lemma client_posts : posts_to client Paid.params Paid.n1.
Proof. intros tx n' r Hr. exists (Obj [("accepted", Bool true)]%string). split; [|done]. cbn [post client]. by rewrite Hr. Qed.

Lemma store_ok : keystore_ok store.
Proof.
  assert (store = {| ks_keys := <[address Paid.kp := private_key_hex Paid.kp]> (ks_keys empty_keystore); ks_change := None |}) as -> by done.
  destruct (@new_address_ok toy_crypto Paid.kp toy_key empty_keystore (Parties.wallet_made toy_key) empty_keystore_ok) as [[Hk _] _].
  split; [exact Hk|done].
Qed.

Definition balance : Z := match balance_atoms store client with Ok b => b | Err _ => 0 end.
Lemma balance_eq : balance_atoms store client = Ok balance.
Proof. vm_compute. reflexivity. Qed.
Lemma enough : 300000000 + 10000 <= balance.
Proof. vm_compute. discriminate. Qed.
Lemma amounts : 0 <= 300000000 /\ MIN_RELAY_FEE_ATOMS <= 10000 /\ 300000000 + 10000 <= U64_MAX.
Proof. vm_compute. split_and!; discriminate. Qed.
Lemma pool_empty : node_mempool Paid.n = ∅.
Proof. reflexivity. Qed.
Lemma nothing_pending script : untouched (cf_utxo (db Paid.s)) script (node_mempool Paid.n).
Proof. rewrite pool_empty. apply untouched_empty. Qed.
Lemma nothing_known k : node_mempool Paid.n !! k = None.
Proof. rewrite pool_empty. apply lookup_empty. Qed.
Lemma pool_room : pool_len (node_mempool Paid.n) < MAX_MEMPOOL_TXS.
Proof. vm_compute. reflexivity. Qed.
End Exchange.

Lemma withdrawal_relayed_witness :
  exists self' tx change addr sk n2,
    send Chains.kp2 Exchange.client Paid.to 300000000 10000 Exchange.store = (self', Done (Ok (to_hex (tx_id tx))))
    /\ keystore_ok self' /\ managed (ks_keys self') addr sk /\ 0 <= change
    /\ outputs tx = with_change change (owner_script sk) [ {| value_atoms := 300000000; script_pubkey := Paid.dest |} ]
    /\ rpc_sendrawtransaction None Paid.params tx Paid.n1 = (n2, Ok (tx_id tx, pool_len (node_mempool Paid.n) + 1))
    /\ node_mempool n2 = <[to_hex (tx_id tx) := {| entry_tx := tx; fee_atoms := 10000 |}]> (node_mempool Paid.n).
Proof.
  exact (@withdrawal_relayed Printed.J toy_crypto toy_laws (trie_order _ _) (trie_order _ _) (trie_order _ _)
    Exchange.client Paid.params Paid.n Paid.n1 Paid.s Exchange.store Chains.kp2 toy_key2 Paid.to Paid.dest 300000000 10000
    Exchange.balance Paid.ok Paid.sync Paid.typed eq_refl Exchange.client_posts Exchange.store_ok (Parties.wallet_made toy_key2)
    Exchange.balance_eq Paid.to_dest (proj1 Exchange.amounts) (proj1 (proj2 Exchange.amounts)) (proj2 (proj2 Exchange.amounts))
    Exchange.enough (λ _ sk _, Exchange.nothing_pending (owner_script sk)) Exchange.pool_room (λ _ _ _, Exchange.nothing_known _)).
Defined.

(** ** The node of [Paid] serves its chain *)
Module Served.
Export Chains.
#[local] Existing Instance J.

Definition env : RpcEnv := {| db_opens := None; clock := 1200; admin_token := None |}.
Lemma canonical_old : canonical_blocks (node_db Paid.n) = old.
Proof. vm_compute. reflexivity. Qed.
Lemma tip_b1 : tip_cache (open_db (node_db Paid.n)) = Some Paid.b1.
Proof. vm_compute. reflexivity. Qed.
Lemma served_count : rpc_getblockcount Paid.params env Paid.n = Ok (ABlockCount "tensorium-mainnet" (Some 1) 2).
Proof. vm_compute. reflexivity. Qed.
Lemma served_height : block_count (serve old) = Ok 1.
Proof. vm_compute. reflexivity. Qed.

Lemma height_unique (a b : result RpcFailure Answer) c h k c' h' k' :
  a = Ok (ABlockCount c (Some h) k) -> a = Ok (ABlockCount c' (Some h') k') -> h = h'.
Proof. intros -> [= _ -> _]. done. Qed.

Lemma shown : shows (serve old) Paid.params env Paid.n.
Proof.
  split.
  - intros c h k Hr. rewrite (height_unique _ (Err node_busy) _ _ _ _ _ _ Hr served_count). exact served_height.
  - intros h hash b Hh Hr. destruct (getblock_canonical Paid.params env Paid.n Paid.b1 h hash b Paid.ok tip_b1 Hh Hr) as [Hb ->].
    rewrite canonical_old in Hb. exists (block_value b). split.
    + pose proof old_pages as Hpages. unfold pages_ok in Hpages. rewrite Forall_forall in Hpages.
      specialize (Hpages (Z.to_nat h, b)). cbn [fst snd] in Hpages. rewrite Z2Nat.id in Hpages by exact Hh.
      apply Hpages. apply list_elem_of_lookup. exists (Z.to_nat h). rewrite list_lookup_imap, Hb. reflexivity.
    + apply all_views. apply elem_of_app; left. apply elem_of_app; left. exact (list_elem_of_lookup_2 _ _ _ Hb).
Qed.

Lemma deposits_canonical :
  distinct (chain_deposits mine (canonical_blocks (node_db Paid.n)))
  /\ len (chain_deposits mine (canonical_blocks (node_db Paid.n))) <= U64_MAX /\ len (canonical_blocks (node_db Paid.n)) <= U64_MAX.
Proof. rewrite canonical_old. exact (conj (proj1 old_ok) (conj (proj2 old_ok) (proj2 (proj2 small)))). Qed.
End Served.

Lemma ledger_is_canonical_witness :
  let canonical := canonical_blocks (node_db Paid.n) in
  exists l' k, scan Chains.mine (Chains.serve Chains.old) empty_ledger None = (l', Some (stored l'), Ok k)
    /\ follows Chains.mine canonical l' /\ entries l' = chain_deposits Chains.mine canonical
    /\ k = len (entries l') - len (entries empty_ledger) /\ load (Some (stored l')) = l'.
Proof.
  exact (@ledger_is_canonical Printed.J toy_crypto (Chains.serve Chains.old) Paid.params 1200 None Paid.n Paid.b1 Chains.mine [] empty_ledger None
    Paid.ok Served.tip_b1 Served.shown (proj2 (proj2 Served.deposits_canonical)) (follows_empty Chains.mine)
    (prefix_nil _) (proj1 Served.deposits_canonical) (proj1 (proj2 Served.deposits_canonical))).
Defined.
