(* ===== verification/IndexerApi.v ===== *)
(** * The asset indexer: its REST API and its client of the node ([tensorium-indexer/src/api.rs], [rpc.rs])

    The pure router over the indexer's state, the reading of a request by [serve],
    and the HTTP responses: how the servers write them and how the indexer's client reads
    them. An answer is a status with a value of [ApiReply]; [serde]'s parsers of the node's
    answers are arguments. *)

From S2P Require Import Prelude Numeral Crypto Hash Block AssetCodec AssetState Indexer Store Json Node NodeRpc NodeHttp.

Local Open Scope Z_scope.

(** ** The router *)

(** [path.trim_matches('/').split('/')] *)
Fixpoint trim_byte (c : Z) (bs : bytes) : bytes :=
  match bs with b :: bs' => if b =? c then trim_byte c bs' else bs | [] => [] end.
Definition trim_matches (c : Z) (bs : bytes) : bytes := reverse (trim_byte c (reverse (trim_byte c bs))).
Definition segments (path : string) : list string :=
  let bs := trim_matches 47 (bytes_of_string path) in string_of_bytes <$> split_on (length bs) 47 bs.

(** [parse_id]: two characters at a time, as [u8::from_str_radix] reads them. *)
Definition parse_id (hex : string) : option bytes :=
  if (String.length hex =? 64)%nat then unhex_pairs hex else None.

Inductive ApiReply :=
| ApiStatus (last_scanned_height : Z) (scanned_any : bool) (assets : nat)
| ApiAsset (asset_id : string) (info : AssetInfo)
| ApiOwner (asset_id owner : string)
| ApiBalance (address : string) (fungible : list (string * Z)) (nfts : list string)
| ApiHolders (asset_id : string) (holders : list (string * Z))
| ApiHistory (address : string) (events : list HistoryEntry)
| ApiAssets (assets : list (string * AssetInfo))
| ApiOutpoint (outpoint address : string)
| ApiError (text : string).

Section Route.
Context `{Crypto}.
Context `{!IterOrder bytes AssetInfo} `{!IterOrder (string * bytes) Z} `{!IterOrder bytes string}.

(** The loops of [/balance] and [/holders]. *)
Definition balance_fungible (st : AssetState) (addr : string) : list (string * Z) :=
  omap (λ p : string * bytes * Z,
          if bool_decide (p.1.1 = addr) && (0 <? p.2) then Some (to_hex (mkHash p.1.2), p.2) else None) (iter (ft_balances st)).
Definition balance_nfts (st : AssetState) (addr : string) : list string :=
  (λ p : bytes * string, to_hex (mkHash p.1)) <$> filter (λ p, p.2 = addr) (iter (nft_owner st)).
Definition fungible_holders (st : AssetState) (key : bytes) : list (string * Z) :=
  omap (λ p : string * bytes * Z,
          if bool_decide (p.1.2 = key) && (0 <? p.2) then Some (p.1.1, p.2) else None) (iter (ft_balances st)).

Definition route_asset (idx : Indexer) (id : string) : Z * ApiReply :=
  match parse_id id ≫= λ k, assets (ix_state idx) !! k with
  | Some info => (200, ApiAsset id info)
  | None => (404, ApiError "asset not found")
  end.
Definition route_owner (idx : Indexer) (id : string) : Z * ApiReply :=
  match parse_id id ≫= λ k, nft_owner (ix_state idx) !! k with
  | Some owner => (200, ApiOwner id owner)
  | None => (404, ApiError "nft not found")
  end.
Definition route_holders (idx : Indexer) (id : string) : Z * ApiReply :=
  match parse_id id with
  | Some key =>
      (200, ApiHolders id (fungible_holders (ix_state idx) key
                             ++ match nft_owner (ix_state idx) !! key with Some o => [(o, 1)] | None => [] end))
  | None => (404, ApiError "bad asset id")
  end.
Definition route_outpoint (idx : Indexer) (txid vout : string) : Z * ApiReply :=
  match parse_uint (U32_MOD - 1) vout with
  | Some v =>
      let key := txid +:+ ":" +:+ dec_string v in
      match ix_outpoints idx !! key with
      | Some addr => (200, ApiOutpoint key addr)
      | None => (404, ApiError "outpoint not indexed")
      end
  | None => (400, ApiError "bad vout")
  end.

Definition route (idx : Indexer) (method path : string) : Z * ApiReply :=
  if bool_decide (method <> "GET"%string) then (404, ApiError "not found")
  else
    match segments path with
    | [a] =>
        if bool_decide (a = "status"%string) then
          (200, ApiStatus (last_height idx) (scanned_any idx) (size (assets (ix_state idx))))
        else if bool_decide (a = "assets"%string) then
          (200, ApiAssets ((λ p, (to_hex (mkHash p.1), p.2)) <$> iter (assets (ix_state idx))))
        else (404, ApiError "not found")
    | [a; x] =>
        if bool_decide (a = "asset"%string) then route_asset idx x
        else if bool_decide (a = "balance"%string) then
          (200, ApiBalance x (balance_fungible (ix_state idx) x) (balance_nfts (ix_state idx) x))
        else if bool_decide (a = "holders"%string) then route_holders idx x
        else if bool_decide (a = "history"%string) then (200, ApiHistory x (default [] (ix_history idx !! x)))
        else (404, ApiError "not found")
    | [a; x; y] =>
        if bool_decide (a = "nft"%string) && bool_decide (y = "owner"%string) then route_owner idx x
        else if bool_decide (a = "outpoint"%string) then route_outpoint idx x y
        else (404, ApiError "not found")
    | _ => (404, ApiError "not found")
    end.

(** One connection of [serve]: the first read, at most 4096 bytes; a failed read is empty. *)
Definition serve_api (idx : Indexer) (read : bytes) : Z * ApiReply :=
  let req := bytes_of_string (from_utf8_lossy (take 4096 read)) in
  let words := split_whitespace (default [] (head (lines req))) in
  let method := default EmptyString (string_of_bytes <$> words !! 0%nat) in
  let path := default "/"%string (string_of_bytes <$> words !! 1%nat) in
  route idx method path.
End Route.

(** ** HTTP responses *)

(** [write_json_response] of the node and the same lines of [serve]: the status line, the
    headers and the body. *)
Definition http_response (status_code : Z) (status_text body : string) : bytes :=
  bytes_of_string ("HTTP/1.1 " +:+ dec_string status_code +:+ " " +:+ status_text) ++ [13; 10]
    ++ bytes_of_string "content-type: application/json" ++ [13; 10]
    ++ bytes_of_string ("content-length: " +:+ dec_string (Z.of_nat (String.length body))) ++ [13; 10]
    ++ bytes_of_string "connection: close" ++ CRLF2 ++ bytes_of_string body.

(** [NodeRpc::get], on the text of the response *)
Definition read_response (path : string) (response : bytes) : result string string :=
  '(head, body) ← ok_or (split_head response) "invalid HTTP response"%string;
  if starts_with head (bytes_of_string "HTTP/1.1 200") then Ok (string_of_bytes body)
  else Err ("RPC error (" +:+ path +:+ ")").

(** [NodeRpc]: [block_count] and [block_at], with the parsers of [serde]. *)
Section NodeClient.
Context (get : string -> result string bytes).
Context (parse_count : string -> option (option Z)) (parse_block : string -> option (Hash256 * Block)).

Definition node_get (path : string) : result string string := response ← get path; read_response path response.
Definition node_block_count : result string (option Z) :=
  body ← node_get "/getblockcount"; ok_or (parse_count body) "getblockcount parse"%string.
Definition node_block_at (height : Z) : result string (Hash256 * Block) :=
  body ← node_get ("/getblock/" +:+ dec_string height); ok_or (parse_block body) "getblock parse"%string.
End NodeClient.

(** * The indexer's answers

    What [/balance] says is what the ledger would do, so the node's check of an asset
    transfer is the ledger's own; and a response is read back as it was written. *)

(** ** Paths *)

Lemma split_byte_first c l r : Forall (λ b, b <> c) l -> split_byte c (l ++ c :: r) = Some (l, r).
Proof.
  induction 1 as [|b l Hb _ IH]; cbn [app split_byte]; [by rewrite Z.eqb_refl|].
  by rewrite (proj2 (Z.eqb_neq _ _)), IH by done.
Qed.

Lemma split_byte_none c l : Forall (λ b, b <> c) l -> split_byte c l = None.
Proof.
  induction 1 as [|b l Hb _ IH]; cbn [split_byte]; [done|]. by rewrite (proj2 (Z.eqb_neq _ _)), IH by done.
Qed.

(** No slash. *)
Definition plain (s : string) : Prop := Forall (λ b, b <> 47) (bytes_of_string s).

Lemma trim_byte_other c b bs : b <> c -> trim_byte c (b :: bs) = b :: bs.
Proof. intros Hb. cbn [trim_byte]. by rewrite (proj2 (Z.eqb_neq _ _)) by done. Qed.

Lemma segments_two a x :
  plain a -> a <> EmptyString -> plain x -> x <> EmptyString -> segments ("/" +:+ a +:+ "/" +:+ x) = [a; x].
Proof.
  intros Ha Hae Hx Hxe. unfold segments. rewrite !bytes_of_string_app.
  change (bytes_of_string "/") with [47].
  assert (trim_matches 47 ([47] ++ bytes_of_string a ++ [47] ++ bytes_of_string x) = bytes_of_string a ++ 47 :: bytes_of_string x) as ->.
  { unfold trim_matches. cbn [app trim_byte]. rewrite Z.eqb_refl. unfold plain in *.
    destruct (bytes_of_string a) as [|b bs] eqn:Ea; [by destruct a|]. apply Forall_cons in Ha as [Hb _].
    cbn [app]. rewrite trim_byte_other by done.
    destruct (bytes_of_string x) as [|c cs _] eqn:Ex using rev_ind; [by destruct x|].
    apply Forall_app in Hx as [_ Hx]. apply Forall_cons in Hx as [Hc _].
    replace (b :: bs ++ 47 :: cs ++ [c]) with ((b :: bs ++ 47 :: cs) ++ [c]) by (cbn [app]; by rewrite <- app_assoc).
    rewrite reverse_snoc, trim_byte_other by done. by rewrite reverse_cons, reverse_involutive. }
  destruct (length (bytes_of_string a ++ 47 :: bytes_of_string x)) as [|fuel] eqn:Hl.
  { rewrite length_app in Hl. cbn [length] in Hl. lia. }
  cbn [split_on]. rewrite split_byte_first by done.
  assert (split_on fuel 47 (bytes_of_string x) = [bytes_of_string x]) as ->.
  { destruct fuel; cbn [split_on]; [done|]. by rewrite split_byte_none. }
  cbn [fmap list_fmap]. by rewrite !string_of_bytes_of_string.
Qed.

(** ** The balance of an address *)
Section Balance.
Context `{Crypto} `{!CryptoLaws _} `{Json}.
Context `{!IterOrder bytes AssetInfo} `{!IterOrder (string * bytes) Z} `{!IterOrder bytes string}.
Context (st : AssetState) (Hst : ledger_ok st).
Context (Hids : forall a, is_Some (assets st !! a) -> hash_ok (mkHash a)).

Lemma positive_registered addr a b : ft_balances st !! (addr, a) = Some b -> 0 < b -> is_Some (assets st !! a).
Proof using Hst.
  intros Hb Hpos. destruct (assets st !! a) eqn:Ha; [done|]. exfalso.
  destruct (unregistered_empty _ Hst a Ha) as [Hc _].
  pose proof (balance_le_circulating (ft_balances st) addr a (balances_nonneg _ Hst)) as Hle.
  unfold balance_of in Hle. rewrite Hb in Hle. cbn in Hle. lia.
Qed.

Lemma owner_registered a o : nft_owner st !! a = Some o -> is_Some (assets st !! a).
Proof using Hst.
  intros Ho. destruct (assets st !! a) eqn:Ha; [done|]. destruct (unregistered_empty _ Hst a Ha) as [_ Hn]. congruence.
Qed.

Lemma hex_id_inj a b : hash_ok (mkHash a) -> hash_ok (mkHash b) -> to_hex (mkHash a) = to_hex (mkHash b) -> a = b.
Proof using CryptoLaws0. intros Ha Hb E. apply to_hex_inj in E; [by injection E|done|done]. Qed.

Lemma nfts_spec addr a :
  hash_ok (mkHash a) -> to_hex (mkHash a) ∈ balance_nfts st addr <-> nft_owner st !! a = Some addr.
Proof using Hst Hids CryptoLaws0.
  intros Ha. unfold balance_nfts. rewrite list_elem_of_fmap. split.
  - intros ([k o] & E & Hin). apply list_elem_of_filter in Hin as [Ho Hin]. cbn [fst snd] in *. subst o.
    rewrite iter_perm in Hin. apply elem_of_map_to_list in Hin.
    apply hex_id_inj in E as ->; [done|done|]. apply Hids. by eapply owner_registered.
  - intros Ho. exists (a, addr). split; [done|]. apply list_elem_of_filter. split; [done|].
    rewrite iter_perm. by apply elem_of_map_to_list.
Qed.

Lemma fungible_spec addr a n :
  hash_ok (mkHash a) ->
  (to_hex (mkHash a), n) ∈ balance_fungible st addr <-> ft_balances st !! (addr, a) = Some n /\ 0 < n.
Proof using Hst Hids CryptoLaws0.
  intros Ha. unfold balance_fungible. rewrite list_elem_of_omap. split.
  - intros ([[k b] m] & Hin & E). rewrite iter_perm in Hin. apply elem_of_map_to_list in Hin. cbn [fst snd] in E.
    case_bool_decide as Hk; [|done]. cbn [andb] in E. destruct (Z.ltb_spec 0 m); [|done]. injection E as E ->. subst k.
    apply hex_id_inj in E as ->; [done| |done]. apply Hids. by eapply positive_registered.
  - intros [Hb Hn]. exists ((addr, a), n). split; [rewrite iter_perm; by apply elem_of_map_to_list|]. cbn [fst snd].
    rewrite bool_decide_true by done. by rewrite (proj2 (Z.ltb_lt _ _)).
Qed.

(** The answer, printed. *)
Definition balance_view (v : json) (fungible : list (string * Z)) (nfts : list string) : Prop :=
  (exists js, json_get v "nfts" ≫= as_array = Some js /\ Forall2 (λ j s, as_str j = Some s) js nfts)
  /\ (exists js, json_get v "fungible" ≫= as_array = Some js
      /\ Forall2 (λ j p, json_get j "asset_id" ≫= as_str = Some p.1 /\ json_get j "amount" ≫= as_u64 = Some p.2) js fungible).

Lemma existsb_view js nfts (asset : string) :
  Forall2 (λ j s, as_str j = Some s) js nfts ->
  existsb (λ id, bool_decide (as_str id = Some asset)) js = true <-> asset ∈ nfts.
Proof.
  induction 1 as [|j s js nfts Hj _ IH]; [split; [done|by intros ?%not_elem_of_nil]|]. cbn [existsb].
  rewrite orb_true_iff, bool_decide_eq_true, IH, Hj, elem_of_cons. naive_solver.
Qed.

Lemma find_view js fts (asset : string) :
  Forall2 (λ j p, json_get j "asset_id" ≫= as_str = Some p.1 /\ json_get j "amount" ≫= as_u64 = Some p.2) js fts ->
  match List.find (λ ft, bool_decide ((json_get ft "asset_id" ≫= as_str) = Some asset)) js with
  | Some ft => exists n, (asset, n) ∈ fts /\ json_get ft "amount" ≫= as_u64 = Some n
  | None => forall n, (asset, n) ∉ fts
  end.
Proof.
  induction 1 as [|j [s m] js fts [Hs Hm] _ IH]; [intros n; apply not_elem_of_nil|]. cbn [List.find fst snd] in *.
  rewrite Hs. case_bool_decide as E.
  - injection E as ->. exists m. split; [by left|done].
  - destruct (List.find _ js) as [ft|].
    + destruct IH as (n & Hin & Hn). exists n. split; [by right|done].
    + intros n. rewrite elem_of_cons. intros [[= -> _]|Hin]; [done|by apply (IH n)].
Qed.

(** What the node makes of the answer is what the ledger would do. *)
Lemma allowed_is_applied v addr a n dest i :
  balance_view v (balance_fungible st addr) (balance_nfts st addr) -> hash_ok (mkHash a) -> 0 < n ->
  transfer_allowed v (to_hex (mkHash a)) n = true
  <-> (apply_transfer st addr (Some dest) {| asset_id := a; amount := n; dest_output_index := i |}).2 = Applied.
Proof using Hst Hids CryptoLaws0.
  intros [(ns & Hns & Hn) (fs & Hfs & Hf)] Ha Hpos. unfold transfer_allowed. rewrite Hns, Hfs. cbn [default from_option id].
  pose proof (existsb_view ns _ (to_hex (mkHash a)) Hn) as Hex. rewrite (nfts_spec addr a Ha) in Hex.
  pose proof (find_view fs _ (to_hex (mkHash a)) Hf) as Hfind.
  assert (match List.find (λ ft, bool_decide ((json_get ft "asset_id" ≫= as_str) = Some (to_hex (mkHash a)))) fs with
          | Some ft => n <=? default 0 (json_get ft "amount" ≫= as_u64)
          | None => false
          end = (n <=? ft_balance st addr a)) as Hft.
  { unfold ft_balance, balance_of. destruct (List.find _ fs) as [ft|].
    - destruct Hfind as (m & Hin & ->). apply (fungible_spec addr a m Ha) in Hin as [-> _]. done.
    - symmetry. apply Z.leb_gt. destruct (ft_balances st !! (addr, a)) as [m|] eqn:Hb; [|done]. cbn.
      destruct (Z.lt_ge_cases 0 m); [|lia]. exfalso. apply (Hfind m). by apply (fungible_spec addr a m Ha). }
  rewrite Hft. unfold apply_transfer. cbn [asset_id amount].
  destruct (assets st !! a) as [info|] eqn:Hi.
  - pose proof (registered_backed _ Hst _ _ Hi) as Hb. unfold asset_backed in Hb. destruct (kind info).
    + destruct Hb as (_ & _ & Hno). rewrite Hno in Hex. destruct (existsb _ ns); [naive_solver|].
      rewrite (proj2 (Z.eqb_neq n 0)) by lia. destruct (Z.ltb_spec (ft_balance st addr a) n); cbn; rewrite Z.leb_le; naive_solver lia.
    + destruct Hb as [_ Hc]. pose proof (balance_le_circulating (ft_balances st) addr a (balances_nonneg _ Hst)) as Hle.
      destruct (existsb _ ns).
      * rewrite (bool_decide_true (nft_owner st !! a = Some addr)) by (by apply Hex). destruct (Z.eqb_spec n 1); cbn; naive_solver.
      * rewrite (bool_decide_false (nft_owner st !! a = Some addr)) by (intros E; by apply Hex in E).
        rewrite (proj2 (Z.leb_gt _ _)) by (unfold ft_balance; lia). destruct (negb (n =? 1)); cbn; naive_solver.
  - destruct (unregistered_empty _ Hst a Hi) as [Hc Hno]. rewrite Hno in Hex. destruct (existsb _ ns); [naive_solver|].
    pose proof (balance_le_circulating (ft_balances st) addr a (balances_nonneg _ Hst)) as Hle.
    rewrite (proj2 (Z.leb_gt _ _)) by (unfold ft_balance; lia). cbn. naive_solver.
Qed.
End Balance.

(** C32: The node asks the indexer just what the ledger would say. Let an indexer have a backed ledger of
    32-byte asset ids. Its router answers [GET /balance/<address>] with the address's positive balances and
    its NFTs, and from that answer, printed, the node's [indexer_check_transfer] lets a transfer of a positive
    amount through exactly when the ledger would apply it, fungible or not, registered or not. *)
Theorem transfer_check_is_ledger `{Crypto} `{!CryptoLaws _} `{Json}
    `{!IterOrder bytes AssetInfo} `{!IterOrder (string * bytes) Z} `{!IterOrder bytes string}
    idx fetch addr a n dest i :
  ledger_ok (ix_state idx) -> (forall a, is_Some (assets (ix_state idx) !! a) -> hash_ok (mkHash a)) ->
  plain addr -> addr <> EmptyString -> hash_ok (mkHash a) -> 0 < n ->
  (forall fts nfts, route idx "GET" ("/balance/" +:+ addr) = (200, ApiBalance addr fts nfts) ->
     exists body v, fetch addr = Ok body /\ json_parse body = Some v /\ balance_view v fts nfts) ->
  exists allowed, indexer_check_transfer fetch addr (to_hex (mkHash a)) n = Ok allowed
    /\ (allowed = true
        <-> (apply_transfer (ix_state idx) addr (Some dest) {| asset_id := a; amount := n; dest_output_index := i |}).2 = Applied).
Proof.
  intros Hst Hids Hp Hne Ha Hn Hfetch.
  destruct (Hfetch (balance_fungible (ix_state idx) addr) (balance_nfts (ix_state idx) addr)) as (body & v & Hb & Hv & Hview).
  { unfold route. rewrite bool_decide_false by by intros []. change ("/balance/" +:+ addr) with ("/" +:+ "balance" +:+ "/" +:+ addr).
    rewrite segments_two; [done| |done|done|done]. unfold plain. vm_compute. repeat constructor; discriminate. }
  exists (transfer_allowed v (to_hex (mkHash a)) n). split.
  - unfold indexer_check_transfer. rewrite Hb. cbn [mbind result_bind]. by rewrite Hv.
  - by apply allowed_is_applied.
Qed.

(** ** Responses *)

Lemma header_end_skip l rest : Forall (λ b, b <> 13) l -> header_end (l ++ rest) = (λ n, length l + n)%nat <$> header_end rest.
Proof.
  induction 1 as [|b l Hb _ IH]; cbn [app length].
  - destruct (header_end rest); done.
  - cbn [header_end]. assert (starts_with (b :: l ++ rest) CRLF2 = false) as ->.
    { unfold starts_with. apply bool_decide_eq_false. cbn [CRLF2 length take]. intros [= E _]. done. }
    rewrite IH. by destruct (header_end rest).
Qed.

Lemma header_end_line c rest : c <> 13 -> header_end (13 :: 10 :: c :: rest) = (λ n, 2 + n)%nat <$> header_end (c :: rest).
Proof.
  intros Hc. cbn [header_end].
  assert (starts_with (13 :: 10 :: c :: rest) CRLF2 = false) as ->.
  { unfold starts_with. apply bool_decide_eq_false. cbn [CRLF2 length take]. intros [= E]. done. }
  assert (starts_with (10 :: c :: rest) CRLF2 = false) as ->.
  { unfold starts_with. by apply bool_decide_eq_false. }
  destruct (if starts_with (c :: rest) CRLF2 then Some 0%nat else S <$> header_end rest); done.
Qed.

Lemma header_end_here rest : header_end (CRLF2 ++ rest) = Some 0%nat.
Proof. done. Qed.

Lemma no_return_dec n : 0 <= n -> Forall (λ b, b <> 13) (bytes_of_string (dec_string n)).
Proof.
  intros Hn. destruct (dec_string_digits n Hn) as [Hd _]. eapply Forall_impl; [exact Hd|]. intros b Hb.
  apply is_digit_spec in Hb. lia.
Qed.

(** The four lines before the body. *)
Definition head_lines (code : Z) (status_text body : string) : list bytes :=
  bytes_of_string <$> ["HTTP/1.1 " +:+ dec_string code +:+ " " +:+ status_text; "content-type: application/json";
    "content-length: " +:+ dec_string (Z.of_nat (String.length body)); "connection: close"]%string.
Definition join_lines (ls : list bytes) : bytes :=
  match ls with [] => [] | l :: ls => l ++ (ls ≫= λ l, [13; 10] ++ l) end.

Lemma http_response_lines code status_text body :
  http_response code status_text body = join_lines (head_lines code status_text body) ++ CRLF2 ++ bytes_of_string body.
Proof.
  unfold http_response, join_lines, head_lines. cbn [fmap list_fmap mbind list_bind]. by rewrite !app_nil_r, <- !app_assoc.
Qed.

Lemma head_lines_plain code status_text body :
  0 <= code -> Forall (λ b, b <> 13) (bytes_of_string status_text) ->
  Forall (Forall (λ b, b <> 13)) (head_lines code status_text body).
Proof.
  intros Hcode Htext. unfold head_lines. rewrite Forall_fmap, !Forall_cons. unfold compose.
  rewrite !bytes_of_string_app, !Forall_app.
  split_and!; try done; try (apply no_return_dec; lia); vm_compute; repeat constructor; discriminate.
Qed.

Lemma header_end_lines ls rest :
  Forall (Forall (λ b, b <> 13)) ls -> Forall (λ l, l <> []) ls -> ls <> [] ->
  header_end (join_lines ls ++ CRLF2 ++ rest) = Some (length (join_lines ls)).
Proof.
  intros Hp Hn Hne. destruct ls as [|l ls]; [done|]. apply Forall_cons in Hp as [Hl Hp]. apply Forall_cons in Hn as [_ Hn].
  clear Hne. unfold join_lines. revert l Hl; induction ls as [|k ls IH]; intros l Hl.
  - rewrite app_nil_r, header_end_skip, header_end_here by done. cbn. f_equal. lia.
  - apply Forall_cons in Hp as [Hk Hp]. apply Forall_cons in Hn as [Hne Hn]. specialize (IH Hp Hn k Hk).
    rewrite bind_cons, <- !app_assoc, header_end_skip by done. destruct k as [|c k]; [done|].
    apply Forall_cons in Hk as [Hc _]. rewrite <- !app_assoc in IH. cbn [app] in *.
    rewrite header_end_line by done. rewrite IH. cbn [fmap option_fmap option_map]. f_equal.
    cbn [length app]. rewrite !length_app. cbn [length]. rewrite !length_app. lia.
Qed.

Lemma split_http_response code status_text body :
  0 <= code -> Forall (λ b, b <> 13) (bytes_of_string status_text) ->
  split_head (http_response code status_text body)
  = Some (join_lines (head_lines code status_text body), bytes_of_string body).
Proof.
  intros Hcode Htext. rewrite http_response_lines. unfold split_head.
  rewrite header_end_lines; [|by apply head_lines_plain| |done].
  2: { unfold head_lines. rewrite Forall_fmap, !Forall_cons. split_and!; [discriminate..|constructor]. }
  cbn [fmap option_fmap option_map]. by rewrite take_app_length, drop_app_add.
Qed.

Lemma response_status code status_text body :
  code ∈ [200; 400; 403; 404; 500; 502; 503] ->
  starts_with (join_lines (head_lines code status_text body)) (bytes_of_string "HTTP/1.1 200") = (code =? 200).
Proof.
  intros Hcode. unfold head_lines. cbn [fmap list_fmap join_lines]. rewrite !bytes_of_string_app, <- !app_assoc.
  repeat (apply elem_of_cons in Hcode as [->|Hcode]; [reflexivity|]). by apply not_elem_of_nil in Hcode.
Qed.

Lemma status_nonneg code : code ∈ [200; 400; 403; 404; 500; 502; 503] -> 0 <= code.
Proof. set_solver by lia. Qed.

(** A response of a server is read back by the indexer's client: the body if the status is 200, an error
    for the other statuses the servers use. *)
Theorem response_read_back path code status_text body :
  code ∈ [200; 400; 403; 404; 500; 502; 503] -> Forall (λ b, b <> 13) (bytes_of_string status_text) ->
  read_response path (http_response code status_text body)
  = if code =? 200 then Ok body else Err ("RPC error (" +:+ path +:+ ")").
Proof.
  intros Hcode Htext. unfold read_response.
  rewrite split_http_response by (by try apply status_nonneg). cbn [ok_or mbind result_bind].
  rewrite response_status, string_of_bytes_of_string by done. done.
Qed.

(** Witness. *)
Lemma response_read_back_witness :
  read_response "/getblockcount" (http_response 200 "OK" "{}") = Ok "{}"%string.
Proof. exact (response_read_back "/getblockcount" 200 "OK" "{}" ltac:(by_compute) ltac:(by_compute)). Defined.

(** ** The ledger of [Ledger], asked about bob *)
Module Asked.
Export Tree.
#[local] Existing Instance trie_order.

Definition printed : value :=
  Obj [("address", Text "bob");
       ("fungible", Arr [Obj [("asset_id", Text (hex_lower Ledger.gold)); ("amount", Number 300)]]);
       ("nfts", Arr [Text (hex_lower Ledger.art)])]%string.
Definition J : Json := tree_json {[ "answer"%string := printed ]}.
Definition idx : Indexer := with_state Ledger.ledger empty_indexer.
Definition fetch (from : string) : result string string := Ok "answer"%string.

Lemma asked_ids a : is_Some (assets (ix_state idx) !! a) -> hash_ok (mkHash a).
Proof.
  assert (map_Forall (λ a _, hash_ok (mkHash a)) (assets (ix_state idx))) as Hall by by_compute.
  intros [info Hi]. exact (Hall a info Hi).
Qed.
Lemma bob_routed :
  route (H := toy_crypto) idx "GET" "/balance/bob" = (200, ApiBalance "bob" [(hex_lower Ledger.gold, 300)] [hex_lower Ledger.art]).
Proof. vm_compute. reflexivity. Qed.
Lemma balance_unique (x : Z * ApiReply) c a f n c' a' f' n' :
  x = (c, ApiBalance a f n) -> x = (c', ApiBalance a' f' n') -> f = f' /\ n = n'.
Proof. intros -> [= _ _ -> ->]. done. Qed.
Lemma bob_viewed : balance_view (H0 := J) printed [(hex_lower Ledger.gold, 300)] [hex_lower Ledger.art].
Proof.
  split; eexists; (split; [vm_compute; reflexivity|]); repeat constructor; vm_compute; reflexivity.
Qed.
End Asked.

Lemma transfer_check_is_ledger_witness :
  exists allowed, indexer_check_transfer (H := Asked.J) Asked.fetch "bob" (to_hex (H := toy_crypto) (mkHash Ledger.gold)) 300 = Ok allowed
    /\ (allowed = true
        <-> (apply_transfer (ix_state Asked.idx) "bob" (Some "dave"%string)
               {| asset_id := Ledger.gold; amount := 300; dest_output_index := 0 |}).2 = Applied).
Proof.
  refine (@transfer_check_is_ledger toy_crypto toy_laws Asked.J (trie_order _ _) (trie_order _ _) (trie_order _ _)
    Asked.idx Asked.fetch "bob" Ledger.gold 300 "dave" 0 Ledger.ledger_is_ok Asked.asked_ids _ _ _ _ _).
  - by_compute.
  - discriminate.
  - by_compute.
  - reflexivity.
  - intros fts nfts Hr. destruct (Asked.balance_unique _ _ _ _ _ _ _ _ _ Hr Asked.bob_routed) as [-> ->].
    exists "answer"%string, Asked.printed. split; [reflexivity|]. split; [vm_compute; reflexivity|exact Asked.bob_viewed].
Defined.
