(* ===== verification/PoolHttp.v ===== *)
(** * The pool's HTTP server ([tensorium-pool/src/main.rs])

    The shared state of the HTTP server, the template proxy that remembers which
    miner asked last for a height, and the block proxy that books the reward of an
    accepted block. The node is an argument: its answers are results of HTTP
    requests; parsing a block is [serde]'s. Each handler's locked sections run at
    once. The connections around the handlers and the ledger file come after them. *)

From S2P Require Import Prelude Crypto Hash Block Json PoolAccounting.

Local Open Scope Z_scope.

(** Addresses and paths of the configuration are left out. *)
Record PoolState := {
  pool_ledger : PayoutLedger;
  last_miner_for_height : gmap Z string;
}.

Definition new_pool (l : PayoutLedger) : PoolState := {| pool_ledger := l; last_miner_for_height := ∅ |}.

Definition register_miner_for_height (height : Z) (miner : string) (self : PoolState) : PoolState :=
  {| pool_ledger := pool_ledger self; last_miner_for_height := <[height := miner]> (last_miner_for_height self) |}.

Definition miner_for_height (height : Z) (self : PoolState) : option string := last_miner_for_height self !! height.

Definition record_block (height : Z) (hash miner : string) (gross : Z) (self : PoolState) : PoolState :=
  {| pool_ledger := push (new_entry height hash miner gross) (pool_ledger self);
     last_miner_for_height := last_miner_for_height self |}.

(** Status and body of an answer; an error is given by the beginning of its text. *)
Record HttpAnswer := { status : Z; answer_body : string }.

Section Server.
Context `{Crypto} `{Json}.

(** [fetched] is the node's answer for the treasury's address. *)
Definition handle_get_block_template (miner_address : string) (fetched : result string string) (self : PoolState) :
    PoolState * HttpAnswer :=
  if bool_decide (miner_address = EmptyString) then (self, {| status := 400; answer_body := "missing miner address" |})
  else
    match fetched with
    | Err e => (self, {| status := 502; answer_body := "node unavailable: " +:+ e |})
    | Ok raw =>
        let self :=
          match (v ← json_parse raw; as_u64 (v.["template"].["header"].["height"])) with
          | Some height => register_miner_for_height height miner_address self
          | None => self
          end in
        (self, {| status := 200; answer_body := raw |})
    end.

(** The first output of the first transaction. *)
Definition coinbase_value_of (b : Block) : Z :=
  match head (transactions b) ≫= (λ tx, head (outputs tx)) with
  | Some o => value_atoms o
  | None => 0
  end.

(** [v["accepted"].as_bool().unwrap_or(false)] *)
Definition node_accepted (resp : string) : bool := default false (v ← json_parse resp; as_bool (v.["accepted"])).

(** [block] is the parsed body, [post] the node's answer to it. *)
Definition handle_submit_block (block : option Block) (post : result string string) (self : PoolState) :
    PoolState * HttpAnswer :=
  match block with
  | None => (self, {| status := 400; answer_body := "invalid block" |})
  | Some b =>
      match post with
      | Err e => (self, {| status := 502; answer_body := "node unavailable: " +:+ e |})
      | Ok resp =>
          let self :=
            if node_accepted resp then
              record_block (height (header b)) (to_hex (block_hash b))
                (default "unknown"%string (miner_for_height (height (header b)) self)) (coinbase_value_of b) self
            else self in
          (self, {| status := 200; answer_body := resp |})
      end
  end.
End Server.

(** * The pool's HTTP connections, its client of the node and its ledger commands ([tensorium-pool/src/main.rs])

    One connection from its reads to its answer ([handle_connection] with all its routes),
    the requests the pool sends to the node and the reading of the responses, and the
    commands that work on the ledger file. An answer is a status with a value of [PoolReply].
    The locks are taken at once; a poisoned lock is not modelled. [serde]'s parser
    of a block is an argument, and so is the exchange with the node: what came back for a request. *)

From S2P Require Import Numeral AssetCodec Stratum NodeHttp IndexerApi.

(** What [/pool/custody] shows of the configuration. *)
Record Custody := {
  treasury_address : string;
  payout_hot_wallet : option string;
  payout_hot_wallet_max_atoms : option Z;
  ledger_path : string;
}.

(** [WindowStats], without the percentages *)
Record WindowStats := {
  stats_window_n : nat;
  shares_in_window : nat;
  stats_total_weight : Z;
  miners : list MinerWindowEntry;
}.

(** [StratumState::stats_json]: the counters and, per worker, its connection and difficulty. *)
Record StratumStats := {
  stratum_workers : nat;
  authorized_workers : nat;
  initial_share_diff_bits : Z;
  stats_accepted : Z;
  stats_rejected : Z;
  stats_blocks_found : Z;
  active_workers : list (string * WorkerSession * Z);
  vardiff : list Z;
}.

Section Stats.
Context `{!IterOrder string Z} `{!IterOrder string WorkerSession}.

Definition window_stats (l : PayoutLedger) : WindowStats := {|
  stats_window_n := window_n (share_window l);
  shares_in_window := length (shares (share_window l));
  stats_total_weight := total_weight (share_window l);
  miners := window_miners l |}.

Definition stats_json (s : StratumState) : StratumStats := {|
  stratum_workers := size (job_senders s);
  authorized_workers := size (workers s);
  initial_share_diff_bits := initial_bits s;
  stats_accepted := shares_accepted s;
  stats_rejected := shares_rejected s;
  stats_blocks_found := stratum_blocks_found s;
  active_workers := (λ p : string * WorkerSession, (p.1, p.2, bits_to_diff (worker_bits p.2))) <$> iter (workers s);
  vardiff := [VARDIFF_WINDOW_SECS; VARDIFF_TARGET_MIN; VARDIFF_TARGET_MAX; VARDIFF_MIN_BITS; VARDIFF_MAX_BITS] |}.
End Stats.

Inductive PoolReply :=
| ReplyHealth
| ReplyStats (s : LedgerStats)
| ReplyStratum (s : StratumStats)
| ReplyAccounting (es : list PayoutEntry)
| ReplyCustody (c : Custody)
| ReplyMiners (s : WindowStats)
| ReplyPending (miner : string) (atoms : Z)
| ReplyText (text : string)
| ReplyError (text : string).

(** ** The client of the node *)

Definition crlf : string := string_of_bytes [13; 10].

(** [http_get] and [http_post]: the text of the request. *)
Definition get_request (rpc path : string) : string :=
  "GET " +:+ path +:+ " HTTP/1.1" +:+ crlf +:+ "host: " +:+ rpc +:+ crlf +:+ "connection: close" +:+ crlf +:+ crlf.
Definition post_request (rpc path body : string) : string :=
  "POST " +:+ path +:+ " HTTP/1.1" +:+ crlf +:+ "host: " +:+ rpc +:+ crlf
    +:+ "content-type: application/json" +:+ crlf
    +:+ "content-length: " +:+ dec_string (Z.of_nat (String.length body)) +:+ crlf
    +:+ "connection: close" +:+ crlf +:+ crlf +:+ body.

(** The end of [send_http], on the bytes received. *)
Definition read_pool_response (response : bytes) : result string string :=
  text ← ok_or (from_utf8 response) "read"%string;
  '(head, body) ← ok_or (split_head (bytes_of_string text)) "invalid HTTP response"%string;
  if starts_with head (bytes_of_string "HTTP/1.1 200") then Ok (string_of_bytes body)
  else Err ("RPC error: " +:+ string_of_bytes body).

(** [write_response] *)
Definition status_text (code : Z) : string :=
  if code =? 200 then "OK" else if code =? 400 then "Bad Request" else if code =? 404 then "Not Found"
  else if code =? 502 then "Bad Gateway" else "Error".
Definition write_response (code : Z) (body : string) : bytes := http_response code (status_text code) body.

(** ** A connection *)

(** [request.lines().next().unwrap_or("").splitn(3, ' ')]: the first two parts. *)
Definition first_two_words (request : bytes) : option (bytes * bytes) :=
  '(m, rest) ← split_byte 32 (default [] (head (lines request)));
  Some (m, match split_byte 32 rest with Some (p, _) => p | None => rest end).

(** [extract_body] *)
Definition extract_body (request : bytes) : string :=
  match split_head request with Some (_, b) => string_of_bytes b | None => EmptyString end.

Section Server.
Context `{Crypto} `{Json} `{!IterOrder string Z} `{!IterOrder string WorkerSession}.
Context (node_rpc : string) (custody : Custody).
Context (exchange : string -> result string bytes) (serde_block : string -> option Block).

Definition send_http (request : string) : result string string := response ← exchange request; read_pool_response response.
Definition http_get (path : string) : result string string := send_http (get_request node_rpc path).
Definition http_post (path body : string) : result string string := send_http (post_request node_rpc path body).

Definition proxied (r : PoolState * HttpAnswer) : PoolState * (Z * PoolReply) :=
  (r.1, (status r.2, if status r.2 =? 200 then ReplyText (answer_body r.2) else ReplyError (answer_body r.2))).
Definition shown (s : PoolState) (r : PoolReply) : PoolState * (Z * PoolReply) := (s, (200, r)).
Definition not_found (s : PoolState) : PoolState * (Z * PoolReply) := (s, (404, ReplyError "not found")).

(** The handlers of the pool's own pages. *)
Definition handle_pool_stats (s : PoolState) := shown s (ReplyStats (stats (pool_ledger s))).
Definition handle_pool_stratum (stratum : StratumState) (s : PoolState) := shown s (ReplyStratum (stats_json stratum)).
Definition handle_pool_accounting (s : PoolState) := shown s (ReplyAccounting (entries (pool_ledger s))).
Definition handle_pool_custody (s : PoolState) := shown s (ReplyCustody custody).
Definition handle_pool_miners (s : PoolState) := shown s (ReplyMiners (window_stats (pool_ledger s))).
Definition handle_pool_pending (addr : string) (s : PoolState) :=
  shown s (ReplyPending addr (pending_atoms (pool_ledger s) addr)).

Definition pool_get (path : string) (stratum : StratumState) (s : PoolState) : PoolState * (Z * PoolReply) :=
  if bool_decide (path = "/health"%string) then shown s ReplyHealth
  else if bool_decide (path = "/pool/stats"%string) then handle_pool_stats s
  else if bool_decide (path = "/pool/stratum"%string) then handle_pool_stratum stratum s
  else if bool_decide (path = "/pool/accounting"%string) then handle_pool_accounting s
  else if bool_decide (path = "/pool/custody"%string) then handle_pool_custody s
  else if bool_decide (path = "/pool/miners"%string) then handle_pool_miners s
  else if has_prefix path "/pool/pending/" then handle_pool_pending (trim_start_matches "/pool/pending/" path) s
  else if has_prefix path "/getblocktemplate/" then
    proxied (handle_get_block_template (trim_start_matches "/getblocktemplate/" path)
      (http_get ("/getblocktemplate/" +:+ treasury_address custody)) s)
  else not_found s.

Definition pool_post (path body : string) (s : PoolState) : PoolState * (Z * PoolReply) :=
  if bool_decide (path = "/submitblock"%string) then
    proxied (handle_submit_block (serde_block body) (http_post "/submitblock" body) s)
  else not_found s.

(** The pool's [read_http_request]: the node's loop with the pool's texts. *)
Definition pool_read_http_request (reads : list (result string bytes)) : result string string :=
  buffer ← map_err (read_loop reads [] None)
    (λ e, if bool_decide (e = "request too large"%string) then e else "read"%string);
  ok_or (from_utf8 buffer) "utf8"%string.

(** [Err]: the connection is closed without an answer. *)
Definition pool_connection (reads : list (result string bytes)) (stratum : StratumState) (s : PoolState) :
    PoolState * result string (Z * PoolReply) :=
  match pool_read_http_request reads with
  | Err e => (s, Err e)
  | Ok request =>
      let bs := bytes_of_string request in
      let '(s, a) :=
        match first_two_words bs with
        | None => (s, (400, ReplyError "bad request"))
        | Some (m, p) =>
            if bool_decide (m = bytes_of_string "GET") then pool_get (string_of_bytes p) stratum s
            else if bool_decide (m = bytes_of_string "POST") then pool_post (string_of_bytes p) (extract_body bs) s
            else not_found s
        end in
      (s, Ok a)
  end.
End Server.

(** ** The ledger file *)

(** The file holds a ledger, or is missing or unreadable. [PayoutLedger::load] *)
Definition LedgerFile : Type := option PayoutLedger.
Definition load_ledger (f : LedgerFile) : PayoutLedger := default empty_ledger f.

(** [cmd_mark_paid], [cmd_pending], [cmd_stats]: they read the file, not the running server. *)
Definition cmd_mark_paid (miner : string) (f : LedgerFile) : LedgerFile := Some (mark_paid miner (load_ledger f)).
Definition cmd_pending (miner : string) (f : LedgerFile) : Z := pending_atoms (load_ledger f) miner.
Definition cmd_stats (f : LedgerFile) : LedgerStats := stats (load_ledger f).
Definition cmd_accounting (f : LedgerFile) : list PayoutEntry := entries (load_ledger f).

(** [PoolState::record_block] with its save: [writable] says whether writing the file
    succeeds. The ledger in memory keeps the entry either way. *)
Definition record_and_save (writable : bool) (height : Z) (hash miner : string) (gross : Z) (s : PoolState) (f : LedgerFile) :
    PoolState * LedgerFile :=
  let s := record_block height hash miner gross s in
  (s, if writable then Some (pool_ledger s) else f).

(** ** The command line and the start of the server ([run] and [serve])

    The configuration read from the environment, the states and the threads it starts, and the
    commands on the ledger file. *)

(** [env::var(name).ok()] *)
Definition Environment : Type := string -> option string.

Definition DEFAULT_POOL_BIND : string := "0.0.0.0:23336".
Definition DEFAULT_NODE_RPC : string := "127.0.0.1:33332".
Definition DEFAULT_LEDGER_PATH : string := "pool-ledger.json".

(** [payout::PayoutConfig], the fields that are not shared with the server. *)
Record PayoutSetup := {
  payout_wallet_path : string; payout_passphrase : string; threshold_atoms : Z; interval_secs : Z }.

Record PoolSetup := {
  pool_bind : string;
  pool_node_rpc : string;
  pool_treasury : string;
  hot_wallet : option string;
  hot_wallet_max_atoms : option Z;
  pool_ledger_path : string;
  stratum_bind : string;
  stratum_bind_alt : string;
  share_diff : Z;
  auto_payout : option PayoutSetup;
}.

(** [env::var(name).ok().and_then(|s| s.parse().ok())] *)
Definition env_u64 (env : Environment) (name : string) : option Z := env name ≫= parse_u64.

Definition payout_setup (env : Environment) : option PayoutSetup :=
  match env "TENSORIUM_POOL_TREASURY_WALLET"%string, env "TENSORIUM_POOL_TREASURY_PASSPHRASE"%string with
  | Some wp, Some pp =>
      if decide (pp = EmptyString) then None
      else Some {|
        payout_wallet_path := wp; payout_passphrase := pp;
        threshold_atoms := default 500000000 (env_u64 env "TENSORIUM_POOL_PAYOUT_THRESHOLD_ATOMS");
        interval_secs := default 300 (env_u64 env "TENSORIUM_POOL_PAYOUT_INTERVAL_SECS") |}
  | _, _ => None
  end.

Definition serve_setup (env : Environment) : result string PoolSetup :=
  treasury ← ok_or (env "TENSORIUM_POOL_TREASURY"%string)
    "TENSORIUM_POOL_TREASURY env var required (pool treasury wallet address)"%string;
  Ok {|
    pool_bind := default DEFAULT_POOL_BIND (env "TENSORIUM_POOL_BIND"%string);
    pool_node_rpc := default DEFAULT_NODE_RPC (env "TENSORIUM_NODE_RPC"%string);
    pool_treasury := treasury;
    hot_wallet := env "TENSORIUM_POOL_PAYOUT_HOT_WALLET"%string;
    hot_wallet_max_atoms := env_u64 env "TENSORIUM_POOL_PAYOUT_HOT_MAX_ATOMS";
    pool_ledger_path := default DEFAULT_LEDGER_PATH (env "TENSORIUM_POOL_LEDGER"%string);
    stratum_bind := default "0.0.0.0:3333"%string (env "TENSORIUM_STRATUM_BIND"%string);
    stratum_bind_alt := default "0.0.0.0:443"%string (env "TENSORIUM_STRATUM_BIND_ALT"%string);
    share_diff := default 268435456 (env_u64 env "TENSORIUM_POOL_SHARE_DIFF");
    auto_payout := payout_setup env |}.

(** The Stratum listeners, one thread and one job poller each. *)
Definition listeners (c : PoolSetup) : list string :=
  stratum_bind c :: (if decide (stratum_bind_alt c = EmptyString) then [] else [stratum_bind_alt c]).

(** The states the server starts with; the ledger in both is one shared object. *)
Definition start_states `{Json} (c : PoolSetup) (f : LedgerFile) : PoolState * StratumState :=
  let l := load_ledger f in (new_pool l, new_stratum (share_diff c) l).

(** [cmd_custody]: the variables as text. *)
Definition cmd_custody (env : Environment) : list (string * string) :=
  let shown name d := default d (env name) in
  [("treasury_address", shown "TENSORIUM_POOL_TREASURY" "<not configured>");
   ("payout_hot_wallet", shown "TENSORIUM_POOL_PAYOUT_HOT_WALLET" "<not configured>");
   ("payout_hot_wallet_max_atoms", shown "TENSORIUM_POOL_PAYOUT_HOT_MAX_ATOMS" "<not configured>");
   ("ledger_path", shown "TENSORIUM_POOL_LEDGER" DEFAULT_LEDGER_PATH)]%string.

Inductive PoolOutput :=
| Serving (c : PoolSetup)
| PrintedStats (s : LedgerStats)
| PrintedEntries (l : list PayoutEntry)
| PrintedCustody (l : list (string * string))
| PrintedPending (miner : string) (atoms : Z)
| MarkedPaid (miner : string)
| PoolHelp.

(** [run]: what is printed or started, and the ledger file after it; [writable] says whether
    writing the file succeeds. *)
Definition pool_run (args : list string) (env : Environment) (writable : bool) (f : LedgerFile) :
    LedgerFile * result string PoolOutput :=
  match args !! 1%nat with
  | None => (f, c ← serve_setup env; Ok (Serving c))
  | Some cmd =>
      if decide (cmd = "serve")%string then (f, c ← serve_setup env; Ok (Serving c))
      else if decide (cmd = "stats")%string then (f, Ok (PrintedStats (cmd_stats f)))
      else if decide (cmd = "accounting")%string then (f, Ok (PrintedEntries (cmd_accounting f)))
      else if decide (cmd = "custody")%string then (f, Ok (PrintedCustody (cmd_custody env)))
      else if decide (cmd = "pending")%string then
        (f, addr ← ok_or (args !! 2%nat) "usage: tensorium-pool pending <miner_address>"%string;
            Ok (PrintedPending addr (cmd_pending addr f)))
      else if decide (cmd = "mark-paid")%string then
        match args !! 2%nat with
        | None => (f, Err "usage: tensorium-pool mark-paid <miner_address>"%string)
        | Some addr => if writable then (cmd_mark_paid addr f, Ok (MarkedPaid addr)) else (f, Err "write ledger"%string)
        end
      else if decide (cmd ∈ ["help"; "--help"; "-h"]%string) then (f, Ok PoolHelp)
      else (f, Err ("unknown command: " +:+ cmd)%string)
  end.
