(* ===== verification/PoolHttpFacts.v ===== *)
(** * The pool's HTTP server: with the node, and what a connection can do

    What the pool's block proxy books on the strength of the node's answer. *)

From S2P Require Import Prelude Crypto Hash Chain Block Utxo Mempool Storage State StateSubmit Fixture StateWitness Json PoolAccounting.
From S2P Require Import PoolHttp Node NodeRpc NodeFacts NodeWitness.

Local Open Scope Z_scope.

Section Together.
Context `{Crypto} `{Json} `{!IterOrder OutPoint UtxoEntry} `{!IterOrder string MempoolEntry}.

(** The node's answers as texts: [serde_json] prints the flag that the pool parses. *)
Context (print : Submitted -> string) (Hprint : forall r, node_accepted (print r) = accepted r).

Definition node_answer (r : result RpcFailure Submitted) : result string string :=
  match r with Ok s => Ok (print s) | Err (Fail _ text) => Err text end.

(** A request to the pool's [/submitblock] with a node behind it. *)
Definition pool_submit (params : ConsensusParams) (now : Z) (b : Block) (sys : PoolState * Node) :
    (PoolState * Node) * HttpAnswer :=
  let '(n, r) := rpc_submitblock None params b now (snd sys) in
  let '(pool, a) := handle_submit_block (Some b) (node_answer r) (fst sys) in
  ((pool, n), a).

(** A known header with a transaction of one's own: one output of [g] atoms. *)
Definition forged (c : Block) (g : Z) : Block :=
  {| header := header c; transactions := [coinbase 0 g EmptyString] |}.

Lemma known_accepted params now b n :
  is_Some (cf_blocks (node_db n) !! block_hash b) ->
  rpc_submitblock None params b now n
  = (with_chain (open_db (node_db n)) (node_mempool n) n,
     Ok {| accepted := true; sub_height := height (header b); sub_hash := block_hash b; canonical := None |}).
Proof.
  intros Hk. unfold rpc_submitblock. rewrite submit_known_spec; [done|]. by rewrite open_db_db.
Qed.

(** The pool books rewards nobody earned. For every block the node knows,
    whoever mined it, and every amount: a request with that block's header and a
    made-up coinbase transaction is answered as accepted, because the node
    recognises the header and looks no further, and the pool books the made-up
    amount for the miner who asked last for a template at that height. The
    node's chain is untouched, and the request can be repeated. *)
Theorem forged_reward_booked params now c g miner pool n :
  is_Some (cf_blocks (node_db n) !! block_hash c) -> 0 < g ->
  miner_for_height (height (header c)) pool = Some miner ->
  let '((pool', n'), a) := pool_submit params now (forged c g) (pool, n) in
  status a = 200 /\ node_db n' = node_db n /\ node_mempool n' = node_mempool n
  /\ last_miner_for_height pool' = last_miner_for_height pool
  /\ entries (pool_ledger pool')
     = entries (pool_ledger pool) ++ [new_entry (height (header c)) (to_hex (block_hash c)) miner g].
Proof.
  intros Hk Hg Hm. unfold pool_submit. cbn [fst snd]. rewrite known_accepted by exact Hk.
  cbn [node_answer handle_submit_block]. rewrite Hprint. cbn [accepted].
  change (header (forged c g)) with (header c). change (block_hash (forged c g)) with (block_hash c). rewrite Hm.
  split_and!; [done|by apply open_db_db|done|done|].
  cbn [record_block pool_ledger push with_entries entries default]. do 3 f_equal.
  unfold coinbase_value_of, forged, coinbase, make_tx. cbn [transactions head mbind option_bind outputs].
  by rewrite (proj2 (Z.eqb_neq g 0)) by lia.
Qed.
End Together.

(** ** On concrete inputs *)
#[local] Existing Instance toy_crypto.
#[local] Existing Instance trie_order.

Module ForgeWitness.
Definition texts : gmap string Tree.value :=
  {[ "yes"%string := Tree.Obj [("accepted"%string, Tree.Bool true)];
     "no"%string := Tree.Obj [("accepted"%string, Tree.Bool false)] ]}.
Definition print (r : Submitted) : string := if accepted r then "yes" else "no".
Lemma print_flag r : @node_accepted (Tree.tree_json texts) (print r) = accepted r.
Proof. unfold print. by destruct (accepted r). Qed.
Definition pool : PoolState := register_miner_for_height 1 "mallory" (new_pool empty_ledger).
Lemma b1_known : is_Some (cf_blocks (node_db MinerWitness.n0) !! @block_hash toy_crypto History.b1).
Proof. apply (bool_decide_unpack _). vm_compute. exact I. Qed.
Lemma registered : miner_for_height (height (header History.b1)) pool = Some "mallory"%string.
Proof. vm_compute. reflexivity. Qed.
End ForgeWitness.

Lemma forged_reward_booked_witness :
  let '((pool', n'), a) := @pool_submit toy_crypto (Tree.tree_json ForgeWitness.texts) (trie_order _ _) (trie_order _ _)
     ForgeWitness.print History.params 2000 (@forged toy_crypto History.b1 1000000000) (ForgeWitness.pool, MinerWitness.n0) in
  status a = 200 /\ node_db n' = node_db MinerWitness.n0 /\ node_mempool n' = node_mempool MinerWitness.n0
  /\ last_miner_for_height pool' = last_miner_for_height ForgeWitness.pool
  /\ entries (pool_ledger pool')
     = entries (pool_ledger ForgeWitness.pool)
       ++ [new_entry (height (header History.b1)) (to_hex (@block_hash toy_crypto History.b1)) "mallory" 1000000000].
Proof.
  exact (@forged_reward_booked toy_crypto (Tree.tree_json ForgeWitness.texts) (trie_order _ _) (trie_order _ _)
    ForgeWitness.print ForgeWitness.print_flag History.params 2000 History.b1 1000000000 "mallory" ForgeWitness.pool
    MinerWitness.n0 ForgeWitness.b1_known eq_refl ForgeWitness.registered).
Defined.

(** * What a connection can do to the pool's ledger, and what the ledger file forgets

    Every connection leaves the entries that are there as they are; only a block the node
    accepted adds one. The command [mark-paid] works on the file alone, and the running
    server writes its own ledger over it. *)

From S2P Require Import Stratum NodeHttp.

Section Server.
Context `{Crypto} `{Json} `{!IterOrder string Z} `{!IterOrder string WorkerSession}.
Context (node_rpc : string) (custody : Custody).
Context (exchange : string -> result string bytes) (serde_block : string -> option Block).

(** The entry of an accepted block. *)
Definition booked (s : PoolState) (b : Block) : PayoutEntry :=
  new_entry (height (header b)) (to_hex (block_hash b))
    (default "unknown"%string (miner_for_height (height (header b)) s)) (coinbase_value_of b).

(** The ledger is the same, or has one more entry: that of a block whose submission the node accepted. *)
Definition ledger_step (s s' : PoolState) : Prop :=
  pool_ledger s' = pool_ledger s
  \/ exists body b resp, serde_block body = Some b /\ http_post node_rpc exchange "/submitblock" body = Ok resp
       /\ node_accepted resp = true /\ pool_ledger s' = push (booked s b) (pool_ledger s).

Lemma template_keeps_ledger miner fetched s : pool_ledger (handle_get_block_template miner fetched s).1 = pool_ledger s.
Proof.
  unfold handle_get_block_template. case_bool_decide; [done|]. destruct fetched as [raw|e]; [|done].
  cbn [fst]. by destruct (_ ≫= _).
Qed.

Lemma pool_get_ledger path stratum s :
  pool_ledger (pool_get node_rpc custody exchange path stratum s).1 = pool_ledger s.
Proof.
  unfold pool_get, shown, not_found, proxied. repeat case_bool_decide; try done.
  destruct (has_prefix path "/pool/pending/"); [done|].
  destruct (has_prefix path "/getblocktemplate/"); [|done]. cbn [fst]. apply template_keeps_ledger.
Qed.

Lemma pool_post_ledger path body s :
  ledger_step s (pool_post node_rpc exchange serde_block path body s).1.
Proof.
  unfold pool_post, not_found, proxied. case_bool_decide; [|by left]. cbn [fst]. unfold handle_submit_block.
  destruct (serde_block body) as [b|] eqn:Hb; [|by left].
  destruct (http_post node_rpc exchange "/submitblock" body) as [resp|e] eqn:Hp; [|by left]. cbn [fst].
  destruct (node_accepted resp) eqn:Ha; [|by left]. right. by exists body, b, resp.
Qed.

(** Whatever comes in on a connection, the pool's ledger keeps every entry and the share window as they
    are. At most one entry is added, unpaid, and only for a block that the node accepted when the pool
    passed its body on; a request that is not read whole is dropped. *)
Theorem pool_connection_ledger reads stratum s :
  let s' := (pool_connection node_rpc custody exchange serde_block reads stratum s).1 in
  ledger_step s s' /\ share_window (pool_ledger s') = share_window (pool_ledger s)
  /\ exists added, entries (pool_ledger s') = entries (pool_ledger s) ++ added
      /\ (length added <= 1)%nat /\ Forall (λ e, paid_out e = false) added.
Proof.
  intros s'. assert (ledger_step s s') as Hs.
  { subst s'. unfold pool_connection. destruct (pool_read_http_request reads) as [request|e]; [|by left].
    destruct (first_two_words (bytes_of_string request)) as [[m p]|]; [|by left].
    destruct (bool_decide (m = bytes_of_string "GET")).
    - left. pose proof (pool_get_ledger (string_of_bytes p) stratum s) as Hg. by destruct (pool_get _ _ _ _ _ _).
    - destruct (bool_decide (m = bytes_of_string "POST")); [|by left].
      pose proof (pool_post_ledger (string_of_bytes p) (extract_body (bytes_of_string request)) s) as Hg.
      by destruct (pool_post _ _ _ _ _ _). }
  split; [done|]. destruct Hs as [->|(body & b & resp & _ & _ & _ & ->)].
  - split; [done|]. exists []. split_and!; [by rewrite app_nil_r|cbn; lia|by constructor].
  - split; [done|]. exists [booked s b]. split_and!; [done|cbn; lia|by repeat constructor].
Qed.
End Server.

(** ** The ledger file *)

Lemma mark_paid_settles miner l : pending_atoms (mark_paid miner l) miner = 0.
Proof.
  unfold pending_atoms, mark_paid. cbn [with_entries entries].
  assert (filter (λ e, owed_to miner e)
    ((λ e, if bool_decide (miner_address e = miner) then set_paid e else e) <$> entries l) = []) as ->; [|done].
  induction (entries l) as [|e es IH]; [done|]. cbn [fmap list_fmap]. rewrite filter_cons_False; [exact IH|].
  unfold owed_to. case_bool_decide as Hm; cbn [set_paid paid_out negb andb]; [by intros []|].
  rewrite (bool_decide_false (_ = _)) by done. rewrite andb_false_r. by intros [].
Qed.

Lemma pending_push_other e miner l : miner_address e <> miner -> pending_atoms (push e l) miner = pending_atoms l miner.
Proof.
  intros He. unfold pending_atoms, push. cbn [with_entries entries]. rewrite filter_app.
  rewrite (filter_singleton_False _ e []), app_nil_r; [done|]. unfold owed_to.
  rewrite (bool_decide_false (_ = _)) by done. rewrite andb_false_r. by intros [].
Qed.

(** A payout recorded with [mark-paid] while the pool runs is forgotten. The command settles what the file
    says the miner is owed, but the server keeps its own ledger: the next block it books, whoever mined it,
    writes the miner's old balance back to the file, and to the payout scheduler it was never gone. *)
Theorem offline_mark_lost s miner other height hash gross :
  other <> miner ->
  let file := cmd_mark_paid miner (Some (pool_ledger s)) in
  let '(s', file') := record_and_save true height hash other gross s file in
  cmd_pending miner file = 0 /\ cmd_pending miner file' = pending_atoms (pool_ledger s) miner
  /\ pending_atoms (pool_ledger s') miner = pending_atoms (pool_ledger s) miner.
Proof.
  intros Hne file. cbn [record_and_save]. unfold cmd_pending, file. cbn [cmd_mark_paid load_ledger default].
  assert (pending_atoms (pool_ledger (record_block height hash other gross s)) miner = pending_atoms (pool_ledger s) miner) as Hp.
  { cbn [record_block pool_ledger]. apply pending_push_other. unfold new_entry. by destruct (split_fee _ _). }
  split_and!; [apply mark_paid_settles|exact Hp|exact Hp].
Qed.

(** Witness: alice is owed 950, is paid by hand, and is owed 950 again after bob's block. *)
Module Offline.
Definition s : PoolState := record_block 1 "aa" "alice" 1000 (new_pool empty_ledger).
Example owed_before : pending_atoms (pool_ledger s) "alice" = 950.
Proof. reflexivity. Qed.
End Offline.

Lemma offline_mark_lost_witness :
  let file := cmd_mark_paid "alice" (Some (pool_ledger Offline.s)) in
  let '(s', file') := record_and_save true 2 "bb" "bob" 500 Offline.s file in
  cmd_pending "alice" file = 0 /\ cmd_pending "alice" file' = pending_atoms (pool_ledger Offline.s) "alice"
  /\ pending_atoms (pool_ledger s') "alice" = pending_atoms (pool_ledger Offline.s) "alice".
Proof. apply (offline_mark_lost Offline.s "alice" "bob" 2 "bb" 500). discriminate. Defined.

(** ** Two pollers on one state *)

(** The commands that only read leave the ledger file as it is. *)
Lemma reading_commands env writable f args :
  args !! 1%nat <> Some "mark-paid"%string -> (pool_run args env writable f).1 = f.
Proof. intros Hm. unfold pool_run. repeat case_match; simplify_eq; done. Qed.

(** Two listeners are two pollers, each with a last height of its own: when both fetch a job new
    to them, the job of the first is replaced, and every miner still connected is sent both. *)
Lemma second_poller_replaces `{Json} c alive (a b : StratumJob) ra rb la lb s s1 s2 la' lb' id q :
  stratum_bind_alt c <> EmptyString -> job_height a <> la -> job_height b <> lb ->
  poll alive (Some (a, ra)) la s = (la', s1) -> poll alive (Some (b, rb)) lb s1 = (lb', s2) ->
  job_senders s !! id = Some q -> alive id = true ->
  length (listeners c) = 2%nat /\ current_job s2 = Some b /\ job_senders s2 !! id = Some (q ++ [a; b]).
Proof.
  intros Halt Ha Hb H1 H2 Hq Hid. split; [unfold listeners; by rewrite decide_False|].
  unfold poll in H1, H2. rewrite (proj2 (Z.eqb_neq _ _) Ha) in H1. rewrite (proj2 (Z.eqb_neq _ _) Hb) in H2. simplify_eq. split; [done|].
  cbn [new_job broadcast with_senders with_job job_senders]. rewrite lookup_fmap.
  cbn. erewrite map_lookup_filter_Some_2; [|rewrite lookup_fmap; erewrite map_lookup_filter_Some_2; [reflexivity|exact Hq|exact Hid]|exact Hid].
  cbn. by rewrite <- (assoc_L app).
Qed.
