(* ===== verification/NodeCommands.v ===== *)
(** * The node's files and commands ([run] and [load_state] of [tensorium-node/src/main.rs], [storage/migration.rs])

    What lies under the state path: the JSON file of an older version, the database that replaces
    it and the backup a migration leaves; how they are opened, and the commands of the node's
    command line. The servers the commands start are [NodeHttp], [Relay] and [Sync]. Parsing the
    JSON file is serde's, and a parameter. *)

From S2P Require Import Prelude Numeral Crypto Hash Chain Validation Block Utxo UtxoSupply Storage State.
From S2P Require Import StateDb StateChain StateInv StateProps StateSubmit Node NodeHttp NodeRpc Genesis CliWallet.

Local Open Scope Z_scope.

(** ** Files *)

(** At the state path: the file (its text, or why it cannot be read), the database directory and
    the file [with_extension("json.migrated")]. *)
Record Files := {
  state_file : option (result string string);
  database : option Db;
  migrated_file : option (result string string);
}.
Definition with_database (d : Db) (f : Files) : Files :=
  {| state_file := state_file f; database := Some d; migrated_file := migrated_file f |}.
Definition renamed (f : Files) : Files :=
  {| state_file := None; database := database f; migrated_file := state_file f |}.

(** Why the database does not open, why a batch is not written, whether the rename succeeds, and
    whether the state path ends in [.json]; else the database is at the path itself. *)
Record DiskEnv := { cannot_open : option string; cannot_write : option string; renames : bool; is_json_path : bool }.

(** A command that works on the files, may fail and may panic. *)
Definition filed (A : Type) : Type := Files -> Files * command A.
#[export] Instance filed_ret : MRet filed := λ A a f, (f, Done (Ok a)).
#[export] Instance filed_bind : MBind filed := λ A B k m f,
  match m f with
  | (f', Done (Ok a)) => k a f'
  | (f', Done (Err e)) => (f', Done (Err e))
  | (f', Panic) => (f', Panic)
  end.
Definition lift_files {A} (r : result string A) : filed A := λ f, (f, Done r).

(** [try_open_db]: the database is created if it is missing. *)
Definition try_open_db (env : DiskEnv) : filed ChainState := λ f,
  match cannot_open env with
  | Some e => (f, Done (Err e))
  | None => let d := default empty_db (database f) in (with_database d f, Done (Ok (open_db d)))
  end.

(** [open_db]: panics where [try_open_db] fails. *)
Definition open_db_at (env : DiskEnv) : filed ChainState := λ f,
  match try_open_db env f with
  | (f, Done (Err _)) => (f, Panic)
  | r => r
  end.

(** The database after a mutation of the opened state. *)
Definition stored_in (s : ChainState) : filed () := λ f, (with_database (db s) f, Done (Ok ())).

(** [db.write(batch)]: the state and its database, or nothing. *)
Definition commit_state (env : DiskEnv) (s : ChainState) : filed () :=
  match cannot_write env with
  | Some e => lift_files (Err ("RocksDB write: " +:+ e)%string)
  | None => stored_in s
  end.

Section Files.
Context `{Crypto} `{!IterOrder OutPoint UtxoEntry}.

(** [serde_json::from_str::<OldState>]: the blocks, or the text of the error. *)
Context (parse_old_state : string -> result string (list Block)).

Definition read_state (path : string) : filed string := λ f,
  (f, Done (map_err (default (Err "No such file or directory (os error 2)"%string) (state_file f))
              (λ e, "cannot read " +:+ path +:+ ": " +:+ e)%string)).

Definition migrate_json_to_rocksdb (env : DiskEnv) (path : string) : filed () :=
  raw ← read_state path;
  blocks ← lift_files (map_err (parse_old_state raw) (λ e, "JSON parse error: " +:+ e)%string);
  lift_files (reject_if (bool_decide (blocks = [])) "source JSON has no blocks"%string);;
  s ← open_db_at env;
  match migrate_blocks blocks s with
  | None => mret ()
  | Some s => commit_state env s
  end.

(** [fs::rename(path, backup)], its result ignored. *)
Definition rename_state (env : DiskEnv) : filed () := λ f,
  (if renames env then renamed f else f, Done (Ok ())).

(** [!db_path.exists() && path.exists()]: with any other extension both are one path. *)
Definition must_migrate (env : DiskEnv) (f : Files) : bool :=
  is_json_path env && bool_decide (database f = None) && bool_decide (is_Some (state_file f)).

Definition migrate_if_needed (env : DiskEnv) (path : string) : filed () := λ f,
  if must_migrate env f then (migrate_json_to_rocksdb env path;; rename_state env) f else (f, Done (Ok ())).

Definition load_state (env : DiskEnv) (path : string) : filed ChainState :=
  migrate_if_needed env path;; try_open_db env.

(** The wallet's [load_state] ends with the [open_db] that panics. *)
Definition wallet_load_state (env : DiskEnv) (path : string) : filed ChainState :=
  migrate_if_needed env path;; open_db_at env.

(** ** Commands *)

(** A state-passing step on an opened state, its error as text. *)
Definition on_state {A} (m : stateful ChainState StateError A) (s : ChainState) : filed ChainState := λ f,
  match m s with
  | (s', Ok _) => (with_database (db s') f, Done (Ok s'))
  | (s', Err e) => (with_database (db s') f, Done (Err (state_error_text e)))
  end.

Definition init_mainnet (env : DiskEnv) (nonce : Z) : filed ChainState :=
  s ← open_db_at env; on_state (init_mainnet_state nonce) s.

Definition DEFAULT_NONCE_LIMIT : Z := U64_MAX.

Definition mine_once (env : DiskEnv) (path : string) (now : Z) (miner : string) : filed ChainState :=
  s ← load_state env path; on_state (mine_next_block MAINNET now miner DEFAULT_NONCE_LIMIT) s.

Definition devnet_init (env : DiskEnv) (now : Z) : filed ChainState :=
  s ← open_db_at env; on_state (init_genesis TESTNET now U64_MAX) s.

(** [print_status] *)
Inductive StatusLine :=
| EmptyChain (chain : string)
| TipLine (chain : string) (height : Z) (tip : Hash256) (difficulty_bits blocks : Z).
Definition print_status (s : ChainState) (params : ConsensusParams) : StatusLine :=
  match tip_cache s with
  | None => EmptyChain (p_chain_id params)
  | Some t => TipLine (chain_id (header t)) (height (header t)) (block_hash t) (leading_zero_bits_field (header t))
                (chain_block_count s)
  end.

(** [verify-genesis]: the proof-of-work hash that is printed, or the error. *)
Definition verify_genesis (timestamp nonce : Z) : result string Hash256 :=
  let header := with_nonce nonce (genesis_header_template timestamp) in
  if header_meets_work header ZERO then Ok (pow_hash header ZERO)
  else Err ("genesis nonce " +:+ dec_string nonce +:+ " does not satisfy "
              +:+ dec_string (leading_zero_bits_field header) +:+ " leading zero bits")%string.

(** ** The command line *)

(** [print_banlist]: an entry's address, what is said of it, and its score. *)
Inductive BanStatus := BannedFor (seconds : Z) | BanExpired | NotBannedYet.
Definition ban_status (now : Z) (e : BanEntry) : BanStatus :=
  match banned_until e with
  | Some until => if now <? until then BannedFor (until - now) else BanExpired
  | None => NotBannedYet
  end.
Definition print_banlist `{!IterOrder string BanEntry} (now : Z) (bans : BanList) : list (string * BanStatus * Z) :=
  (λ p, (p.1, ban_status now p.2, score p.2)) <$> iter bans.

(** What a command starts and does not return from at once. *)
Inductive Server :=
| RpcServer (bind : string) (devnet : bool)
| P2pServer (bind : string)
| Daemon (rpc_bind p2p_bind : string)
| PeerConnection (peer : string)
| PeerSync (peer : string).

Inductive Printed :=
| Status (l : StatusLine)
| GenesisMined (nonce : Z) (l : StatusLine)
| PeerList (peers : list string)
| BanTable (l : list (string * BanStatus * Z))
| Unbanned (ip : string)
| WasNotBanned (ip : string)
| GenesisPrefix (chain : string) (timestamp bits : Z) (merkle : Hash256) (prefix_hex : string)
| ValidGenesis (pow : Hash256) (timestamp nonce : Z)
| DevnetReady (bits : Z) (l : StatusLine)
| Help
| DevnetHelp
| Starts (s : Server).

Record Machine := { mainnet_files : Files; devnet_files : Files; ban_file : BanList }.

(** The environment variables, the clock, the number of cores, and what the search of the genesis
    tool finds with a number of threads. *)
Record CommandEnv := {
  mainnet_disk : DiskEnv; mainnet_path : string;
  devnet_disk : DiskEnv; devnet_path : string;
  peers_var : option string; no_seeds_var : option string; default_seeds : list string;
  now_seconds : Z; parallelism : Z; genesis_search : Z -> option Z;
}.

Definition on_mainnet {A} (m : filed A) (w : Machine) : Machine * command A :=
  let '(f, r) := m (mainnet_files w) in
  ({| mainnet_files := f; devnet_files := devnet_files w; ban_file := ban_file w |}, r).
Definition on_devnet {A} (m : filed A) (w : Machine) : Machine * command A :=
  let '(f, r) := m (devnet_files w) in
  ({| mainnet_files := mainnet_files w; devnet_files := f; ban_file := ban_file w |}, r).

Definition DEFAULT_RPC_BIND : string := "127.0.0.1:33332".
Definition DEFAULT_P2P_BIND : string := "0.0.0.0:33333".

(** [print_status] after a command on the files. *)
Definition with_status (params : ConsensusParams) (m : filed ChainState) : filed Printed :=
  s ← m; mret (Status (print_status s params)).

Definition mine_genesis (env : CommandEnv) (threads : Z) : filed Printed :=
  nonce ← lift_files (ok_or (genesis_search env threads)
            "nonce space exhausted without finding genesis — impossible at diff < 64"%string);
  s ← init_mainnet (mainnet_disk env) nonce;
  mret (GenesisMined nonce (print_status s MAINNET)).

Definition unban_ip (ip : string) (w : Machine) : Machine * Printed :=
  if bool_decide (is_Some (ban_file w !! ip)) then
    ({| mainnet_files := mainnet_files w; devnet_files := devnet_files w; ban_file := unban ip (ban_file w) |}, Unbanned ip)
  else (w, WasNotBanned ip).

Definition print_genesis_prefix (timestamp : option string) : result string Printed :=
  timestamp ← match timestamp with
              | Some s => ok_or (parse_u64 s) ("invalid timestamp: " +:+ s)%string
              | None => Ok MAINNET_GENESIS_TIMESTAMP
              end;
  let header := genesis_header_template timestamp in
  Ok (GenesisPrefix (p_chain_id MAINNET) timestamp (leading_zero_bits_field header) (merkle_root_field header)
        (hex_encode (pow_prefix_bytes header))).

Definition cmd_verify_genesis (args : list string) : result string Printed :=
  let usage := "usage: tensorium-node verify-genesis <timestamp> <nonce>"%string in
  timestamp ← ok_or (args !! 2%nat ≫= parse_u64) usage;
  nonce ← ok_or (args !! 3%nat ≫= parse_u64) usage;
  pow ← verify_genesis timestamp nonce;
  Ok (ValidGenesis pow timestamp nonce).

Definition sync_peer (args : list string) (env : CommandEnv) : result string string :=
  let peers := configured_peers (peers_var env) (no_seeds_var env) (default_seeds env) in
  ok_or (match args !! 2%nat with Some peer => Some peer | None => head peers end)
    "usage: tensorium-node sync <peer>  (or set TENSORIUM_PEERS; disable built-in seeds with TENSORIUM_NO_DEFAULT_SEEDS=1)"%string.

Definition devnet (args : list string) (env : CommandEnv) (w : Machine) : Machine * command Printed :=
  let subcmd := default "help"%string (args !! 2%nat) in
  if decide (subcmd = "init")%string then
    on_devnet (s ← devnet_init (devnet_disk env) (now_seconds env);
               mret (DevnetReady (initial_leading_zero_bits TESTNET) (print_status s TESTNET))) w
  else if decide (subcmd = "rpc")%string then
    (w, Done (Ok (Starts (RpcServer (default "127.0.0.1:43332"%string (args !! 3%nat)) true))))
  else if decide (subcmd = "status")%string then
    on_devnet (with_status TESTNET (load_state (devnet_disk env) (devnet_path env))) w
  else (w, Done (Ok DevnetHelp)).

(** [run]: the servers it starts are values; all else is run. *)
Definition node_run `{!IterOrder string BanEntry} (args : list string) (env : CommandEnv) (w : Machine) :
    Machine * command Printed :=
  let command := default "help"%string (args !! 1%nat) in
  let arg2 d := default d (args !! 2%nat) in
  let pure r := (w, Done r) in
  if decide (command = "init")%string then
    on_mainnet (with_status MAINNET (init_mainnet (mainnet_disk env) MAINNET_GENESIS_NONCE)) w
  else if decide (command = "status")%string then
    on_mainnet (with_status MAINNET (load_state (mainnet_disk env) (mainnet_path env))) w
  else if decide (command = "mine-once")%string then
    on_mainnet (with_status MAINNET
      (mine_once (mainnet_disk env) (mainnet_path env) (now_seconds env) (arg2 "local-dev-miner"%string))) w
  else if decide (command = "rpc")%string then pure (Ok (Starts (RpcServer (arg2 DEFAULT_RPC_BIND) false)))
  else if decide (command = "p2p-listen")%string then pure (Ok (Starts (P2pServer (arg2 DEFAULT_P2P_BIND))))
  else if decide (command = "p2p-connect")%string then
    pure (peer ← ok_or (args !! 2%nat) "usage: tensorium-node p2p-connect <host:port>"%string;
          Ok (Starts (PeerConnection peer)))
  else if decide (command = "sync")%string then pure (peer ← sync_peer args env; Ok (Starts (PeerSync peer)))
  else if decide (command = "daemon")%string then
    pure (Ok (Starts (Daemon (arg2 DEFAULT_RPC_BIND) (default DEFAULT_P2P_BIND (args !! 3%nat)))))
  else if decide (command = "mine-genesis")%string then
    on_mainnet (mine_genesis env (default (parallelism env) (args !! 2%nat ≫= parse_u64))) w
  else if decide (command = "peers")%string then
    pure (Ok (PeerList (configured_peers (peers_var env) (no_seeds_var env) (default_seeds env))))
  else if decide (command = "banlist")%string then pure (Ok (BanTable (print_banlist (now_seconds env) (ban_file w))))
  else if decide (command = "unban")%string then
    match args !! 2%nat with
    | Some ip => let '(w, p) := unban_ip ip w in (w, Done (Ok p))
    | None => pure (Err "usage: tensorium-node unban <ip>"%string)
    end
  else if decide (command = "print-genesis-prefix")%string then pure (print_genesis_prefix (args !! 2%nat))
  else if decide (command = "verify-genesis")%string then pure (cmd_verify_genesis args)
  else if decide (command = "devnet")%string then devnet args env w
  else pure (Ok Help).
End Files.

(** * A migrated chain is the chain *)

Section Migration.
Context `{Crypto} `{!IterOrder OutPoint UtxoEntry}.

(** The blocks of a chain under their hashes, and the database a migration writes. *)
Definition blocks_of (l : list Block) : gmap Hash256 Block := list_to_map ((λ b, (block_hash b, b)) <$> l).
Definition migrated_db (t : Block) (l : list Block) : Db := {|
  cf_blocks := blocks_of l; cf_canonical := index_of l; meta_tip := Some (block_hash t);
  meta_height := Some (height (header t)); meta_chain_id := None; meta_utxo_tip := None; cf_utxo := ∅ |}.
Definition migrated_state (t : Block) (l : list Block) : ChainState :=
  {| db := migrated_db t l; tip_cache := Some t; height_cache := Some (height (header t)); last_disconnected := [] |}.

Lemma write_chain l :
  write_batch (reverse l ≫= λ b, [PutBlock (block_hash b) b; PutCanonical (height (header b)) (block_hash b)]) empty_db
  = {| cf_blocks := blocks_of l; cf_canonical := index_of l; meta_tip := None; meta_height := None;
       meta_chain_id := None; meta_utxo_tip := None; cf_utxo := ∅ |}.
Proof.
  induction l as [|b l IH]; [done|]. rewrite reverse_cons, bind_app. unfold write_batch in *.
  rewrite foldl_app, IH. reflexivity.
Qed.

Lemma migrate_chain t l :
  blocks_of (t :: l) !! block_hash t = Some t ->
  migrate_blocks (reverse (t :: l)) (open_db empty_db) = Some (migrated_state t (t :: l)).
Proof.
  intros Ht. unfold migrate_blocks. rewrite reverse_cons at 1. rewrite last_snoc. cbn [mbind option_bind].
  change (db (open_db empty_db)) with empty_db. unfold write_batch. rewrite foldl_app.
  pose proof (write_chain (t :: l)) as Hw. unfold write_batch in Hw. rewrite Hw.
  unfold reload_caches. cbn [foldl apply_op db with_db meta_tip set_meta cf_blocks]. rewrite Ht. reflexivity.
Qed.

(** A chain needs no blocks but its own. *)
Lemma ancestry_restrict bs m h l :
  keyed bs -> ancestry bs h l -> (forall b, b ∈ l -> m !! block_hash b = Some b) -> ancestry m h l.
Proof.
  intros Hk. induction 1 as [h b Hb Hz Hh|h b p l Hb Hnz Hp IH Hh]; intros Hm.
  - apply ancestry_genesis; [|done..]. rewrite (Hk _ _ Hb). apply Hm, list_elem_of_here.
  - eapply ancestry_step; [|done| |done].
    + rewrite (Hk _ _ Hb). apply Hm, list_elem_of_here.
    + apply IH. intros c Hc. by apply Hm, list_elem_of_further.
Qed.

Lemma ancestry_of_member m h l b : keyed m -> ancestry m h l -> b ∈ l -> exists l', ancestry m (block_hash b) l'.
Proof.
  intros Hk. induction 1 as [h c Hc Hz Hh|h c p l Hc Hnz Hp IH Hh]; intros Hin.
  - apply list_elem_of_singleton in Hin as ->. rewrite <- (Hk _ _ Hc). eexists. by apply ancestry_genesis.
  - apply elem_of_cons in Hin as [->|Hin]; [|by apply IH]. rewrite <- (Hk _ _ Hc). eexists. by eapply ancestry_step.
Qed.

Section Chain.
Context (params : ConsensusParams) (s : ChainState) (t : Block) (l : list Block).
Context (Hok : state_ok params s) (Htip : tip_ok params s t (t :: l)).

Lemma migrated_lookup b : b ∈ t :: l -> blocks_of (t :: l) !! block_hash b = Some b.
Proof using Hok Htip.
  intros Hb. apply elem_of_list_to_map_1; [|apply list_elem_of_fmap; by eexists].
  rewrite <- list_fmap_compose. apply (ancestry_hashes_nodup (cf_blocks (db s)) (block_hash t)); [apply Hok|apply Htip].
Qed.

Lemma migrated_member h b : blocks_of (t :: l) !! h = Some b -> h = block_hash b /\ b ∈ t :: l.
Proof using. intros Hb. apply elem_of_list_to_map_2, list_elem_of_fmap in Hb as (c & [= -> ->] & Hc). done. Qed.

Lemma migrated_ancestry : ancestry (blocks_of (t :: l)) (block_hash t) (t :: l).
Proof using Hok Htip. eapply ancestry_restrict; [apply Hok|apply Htip|apply migrated_lookup]. Qed.

Lemma migrated_keyed : keyed (blocks_of (t :: l)).
Proof using. intros h b [-> _]%migrated_member. done. Qed.

Lemma migrated_tip_ok : tip_ok params (migrated_state t (t :: l)) t (t :: l).
Proof using Hok Htip. split; try done. apply migrated_ancestry. Qed.

Lemma migrated_ok : state_ok params (migrated_state t (t :: l)).
Proof using Hok Htip.
  split; [|right; exists t, (t :: l); apply migrated_tip_ok]. split.
  - apply migrated_keyed.
  - intros h b [-> Hb]%migrated_member. eapply ancestry_of_member; [apply migrated_keyed|apply migrated_ancestry|done].
  - apply eq_None_not_Some. intros [b [Hz Hb]%migrated_member].
    destruct Hok as [[Hk _ Hnz] _]. pose proof (ancestry_stored _ _ _ _ Hk (tip_ancestry _ _ _ _ Htip) Hb) as Hs.
    rewrite <- Hz in Hs. cbn [cf_blocks] in *. congruence.
Qed.

Lemma migrated_canonical : canonical_blocks (migrated_db t (t :: l)) = canonical_blocks (db s).
Proof using Hok Htip.
  rewrite (state_ok_canonical _ _ _ _ Hok Htip).
  eapply canonical_blocks_spec; [apply migrated_keyed|apply migrated_ancestry|done].
Qed.

(** The UTXO set is rebuilt as it was. *)
Lemma migrated_sync :
  synced s -> exists s2, ensure_utxo_synced params (migrated_state t (t :: l)) = (s2, Ok ()) /\ cf_utxo (db s2) = cf_utxo (db s).
Proof using Hok Htip.
  intros Hs. pose proof (tip_utxo _ _ _ _ Htip (Hs _ (tip_cached _ _ _ _ Htip))) as Hrep.
  unfold ensure_utxo_synced, get_state, modify, lift_result, mbind, stateful_bind.
  cbn [migrated_state tip_cache db meta_utxo_tip migrated_db]. rewrite bool_decide_false by done.
  change (canonical_blocks _) with (canonical_blocks (migrated_db t (t :: l))).
  rewrite migrated_canonical, (state_ok_canonical _ _ _ _ Hok Htip), Hrep. cbn [map_err].
  eexists. split; [reflexivity|]. rewrite write_rewrite_utxo. done.
Qed.

Lemma reopen_migrated : open_db (migrated_db t (t :: l)) = migrated_state t (t :: l).
Proof using Hok Htip.
  unfold open_db, reload_caches. cbn [db meta_tip migrated_db cf_blocks]. rewrite migrated_lookup by apply list_elem_of_here. done.
Qed.
End Chain.
End Migration.

Section Loading.
Context `{Crypto} `{!IterOrder OutPoint UtxoEntry}.
Context (parse_old_state : string -> result string (list Block)).

(** The files of a node that has only the JSON file of an older version. *)
Record legacy (env : DiskEnv) (f : Files) (raw : string) : Prop := {
  legacy_path : is_json_path env = true;
  legacy_file : state_file f = Some (Ok raw);
  legacy_fresh : database f = None;
}.

Lemma legacy_migrates env f raw : legacy env f raw -> must_migrate env f = true.
Proof. intros [Hp Hf Hd]. unfold must_migrate. rewrite Hp, Hf, Hd, !bool_decide_true by done. done. Qed.

(** With a database there is no migration. *)
Lemma load_existing env path f d :
  cannot_open env = None -> database f = Some d -> load_state parse_old_state env path f = (f, Done (Ok (open_db d))).
Proof.
  intros Ho Hd. unfold load_state, migrate_if_needed, must_migrate, mbind, filed_bind.
  rewrite Hd, (bool_decide_false (Some d = None)), andb_false_r by done. cbn [andb].
  unfold try_open_db. rewrite Ho, Hd. destruct f as [sf dd mf]. cbn in *. by rewrite Hd.
Qed.

(** The migration of a file that parses, up to the batch. *)
Lemma migration_writes env path f raw blocks s' :
  legacy env f raw -> cannot_open env = None -> parse_old_state raw = Ok blocks -> blocks <> [] ->
  migrate_blocks blocks (open_db empty_db) = Some s' ->
  migrate_json_to_rocksdb parse_old_state env path f = commit_state env s' (with_database empty_db f).
Proof.
  intros [Hp Hf Hd] Ho Hparse Hne Hm. unfold migrate_json_to_rocksdb, mbind, filed_bind, read_state, lift_files.
  rewrite Hf. cbn [from_option id map_err]. rewrite Hparse. cbn [map_err]. rewrite bool_decide_false by done.
  cbn [reject_if]. unfold open_db_at, try_open_db. rewrite Ho, Hd. cbn [from_option id]. by rewrite Hm.
Qed.

(** C38: Migrating keeps the chain. A node that finds the JSON file of a good chain and no
    database opens a good state with the same tip and the same blocks in the same order, from
    which the UTXO set is rebuilt as it was; the file becomes the backup, if it can be renamed,
    and loading again changes nothing, whether or not it could. *)
Theorem migration_keeps_chain params s t env path f raw :
  state_ok params s -> tip_cache s = Some t ->
  legacy env f raw -> cannot_open env = None -> cannot_write env = None ->
  parse_old_state raw = Ok (canonical_blocks (db s)) ->
  exists f' s', load_state parse_old_state env path f = (f', Done (Ok s'))
    /\ state_ok params s' /\ tip_cache s' = Some t /\ height_cache s' = height_cache s
    /\ canonical_blocks (db s') = canonical_blocks (db s)
    /\ (synced s -> exists s2, ensure_utxo_synced params s' = (s2, Ok ()) /\ cf_utxo (db s2) = cf_utxo (db s))
    /\ (if renames env then state_file f' = None /\ migrated_file f' = state_file f else state_file f' = state_file f)
    /\ load_state parse_old_state env path f' = (f', Done (Ok s')).
Proof.
  intros Hok Ht Hl Ho Hw Hparse. destruct (state_ok_tip _ _ _ Hok Ht) as (l & Htip & _).
  pose proof (state_ok_canonical _ _ _ _ Hok Htip) as Hc.
  pose proof (reopen_migrated params s t l Hok Htip) as Hre.
  set (f1 := with_database (migrated_db t (t :: l)) (with_database empty_db f)).
  set (f' := if renames env then renamed f1 else f1).
  assert (database f' = Some (migrated_db t (t :: l))) as Hd by by (unfold f'; destruct (renames env)).
  assert (load_state parse_old_state env path f' = (f', Done (Ok (migrated_state t (t :: l))))) as Hagain.
  { rewrite (load_existing _ _ _ _ Ho Hd). by rewrite Hre. }
  exists f', (migrated_state t (t :: l)). split_and!.
  - unfold load_state, migrate_if_needed, mbind, filed_bind. rewrite (legacy_migrates _ _ _ Hl).
    rewrite (migration_writes env path f raw (reverse (t :: l)) (migrated_state t (t :: l))); try done.
    + unfold commit_state, stored_in, rename_state. rewrite Hw. cbn [db migrated_state]. fold f1. fold f'.
      unfold try_open_db. rewrite Ho, Hd. cbn [from_option id]. rewrite Hre. f_equal.
      unfold f', with_database, renamed, f1. by destruct (renames env).
    + by rewrite Hparse, Hc.
    + rewrite reverse_cons. by destruct (reverse l).
    + apply migrate_chain. eapply migrated_lookup; [done|done|apply list_elem_of_here].
  - by eapply migrated_ok.
  - done.
  - cbn. symmetry. apply Htip.
  - by eapply migrated_canonical.
  - by eapply migrated_sync.
  - unfold f'. by destruct (renames env).
  - done.
Qed.

(** A database that exists shadows the JSON file for good. Let a node have only the file of
    an older chain. If the database is opened before the chain is loaded (by [init], by an answer
    of the RPC server, by the compaction of the daemon), or if the migration fails at its write,
    an empty database is left, and loading then answers the empty chain and never reads the file. *)
Theorem legacy_chain_shadowed env env' path f raw blocks t e :
  legacy env f raw -> cannot_open env = None -> cannot_open env' = None ->
  parse_old_state raw = Ok blocks -> last blocks = Some t ->
  (exists f1 s1, try_open_db env f = (f1, Done (Ok s1)) /\ state_file f1 = Some (Ok raw)
     /\ load_state parse_old_state env' path f1 = (f1, Done (Ok new_state)))
  /\ (cannot_write env = Some e ->
      exists f1, load_state parse_old_state env path f = (f1, Done (Err ("RocksDB write: " +:+ e)%string))
        /\ state_file f1 = Some (Ok raw)
        /\ load_state parse_old_state env' path f1 = (f1, Done (Ok new_state))).
Proof.
  intros Hl Ho Ho' Hparse Ht. pose proof (legacy_file _ _ _ Hl) as Hf. pose proof (legacy_fresh _ _ _ Hl) as Hd.
  assert (load_state parse_old_state env' path (with_database empty_db f) = (with_database empty_db f, Done (Ok new_state))) as Hlater.
  { by rewrite (load_existing _ _ _ empty_db Ho'). }
  split.
  - exists (with_database empty_db f), new_state. unfold try_open_db. by rewrite Ho, Hd.
  - intros Hw. exists (with_database empty_db f). split_and!; [|done|done].
    unfold load_state, migrate_if_needed, mbind, filed_bind. rewrite (legacy_migrates _ _ _ Hl).
    assert (exists s', migrate_blocks blocks (open_db empty_db) = Some s') as [s' Hs'].
    { unfold migrate_blocks. rewrite Ht. by eexists. }
    rewrite (migration_writes env path f raw blocks s'); [|done..|by intros ->|done].
    unfold commit_state, lift_files. by rewrite Hw.
Qed.

(** What [verify-genesis] accepts, [init] builds the chain on, and nothing else. *)
Lemma verified_genesis_starts env nonce f :
  cannot_open env = None -> database f = None ->
  (exists p, verify_genesis MAINNET_GENESIS_TIMESTAMP nonce = Ok p)
  <-> exists f' s, init_mainnet env nonce f = (f', Done (Ok s)).
Proof.
  intros Ho Hd. unfold verify_genesis, init_mainnet, mbind, filed_bind, open_db_at, try_open_db, on_state.
  rewrite Ho, Hd. cbn [from_option id]. change (open_db empty_db) with new_state.
  destruct (header_meets_work _ ZERO) eqn:Hm.
  - rewrite genesis_accepted by done. split; intros; by eauto.
  - split; [by intros [? ?]|]. intros (f' & s & Hi). exfalso. revert Hi.
    unfold init_mainnet_state, init_genesis_nonce, get_state, lift_result, mbind, stateful_bind. cbv beta zeta.
    rewrite genesis_candidate_header, bool_decide_false by by intros []. cbn [reject_if header].
    change (epoch_seed_for_height (db new_state) 0) with ZERO. by rewrite Hm.
Qed.
End Loading.

(** ** A node with a chain of two blocks in its JSON file *)
From S2P Require Import Fixture StateWitness.

#[local] Existing Instance toy_crypto.
#[local] Existing Instance trie_order.

Module LegacyNode.
Definition parse (raw : string) : result string (list Block) :=
  if decide (raw = "{}")%string then Err "missing field blocks"%string else Ok (canonical_blocks (db History.s1)).
Definition disk (write_error : option string) : DiskEnv :=
  {| cannot_open := None; cannot_write := write_error; renames := true; is_json_path := true |}.
Definition files : Files := {| state_file := Some (Ok "{blocks}"%string); database := None; migrated_file := None |}.

Lemma files_legacy w : legacy (disk w) files "{blocks}".
Proof. by split. Qed.
Lemma legacy_tip1 : tip_cache History.s1 = Some History.b1.
Proof. vm_compute. reflexivity. Qed.
Lemma parsed_last : last (canonical_blocks (db History.s1)) = Some History.b1.
Proof. vm_compute. reflexivity. Qed.
End LegacyNode.

Lemma migration_keeps_chain_witness :
  exists f' s', load_state LegacyNode.parse (LegacyNode.disk None) "state.json" LegacyNode.files = (f', Done (Ok s'))
    /\ tip_cache s' = Some History.b1 /\ state_file f' = None.
Proof.
  destruct (@migration_keeps_chain toy_crypto _ LegacyNode.parse History.params History.s1 History.b1
    (LegacyNode.disk None) "state.json" LegacyNode.files "{blocks}" History.ok1 LegacyNode.legacy_tip1
    (LegacyNode.files_legacy None) eq_refl eq_refl eq_refl) as (f' & s' & Hl & _ & Ht & _ & _ & _ & Hr & _).
  exists f', s'. exact (conj Hl (conj Ht (proj1 Hr))).
Defined.

Lemma legacy_chain_shadowed_witness :
  exists f1, load_state LegacyNode.parse (LegacyNode.disk (Some "disk full"%string)) "state.json" LegacyNode.files
             = (f1, Done (Err "RocksDB write: disk full"%string))
    /\ load_state LegacyNode.parse (LegacyNode.disk None) "state.json" f1 = (f1, Done (Ok new_state)).
Proof.
  destruct (@legacy_chain_shadowed toy_crypto LegacyNode.parse (LegacyNode.disk (Some "disk full"%string)) (LegacyNode.disk None)
    "state.json" LegacyNode.files "{blocks}" _ History.b1 "disk full"
    (LegacyNode.files_legacy _) eq_refl eq_refl eq_refl LegacyNode.parsed_last) as (_ & Hw).
  destruct (Hw eq_refl) as (f1 & Hl & _ & Ha). exists f1. exact (conj Hl Ha).
Defined.
