(* ===== verification/HttpClients.v ===== *)
(** * The HTTP clients (node, pool, Stratum server, payout scheduler, wallet)

    Each program reads an HTTP answer in its own way: the node line by line ([http_get] of
    [tensorium-node/src/main.rs]), the Stratum server at the first blank line and whatever the
    status ([http_get_body] of [stratum.rs]), the payout scheduler like the pool ([rpc_get] of
    [payout.rs]), the wallet through [ureq]. The network is a parameter: it gives the bytes
    received until the connection is closed. *)

From S2P Require Import Prelude Numeral Crypto AssetCodec AssetCodecFacts Node NodeHttp Json Store PoolAccounting PoolPayout.
From S2P Require Import Stratum CliWallet IndexerApi PoolHttp.

Local Open Scope Z_scope.

(** ** The network *)

(** A connection to an address on which a request is sent: what is received, or the error. *)
Definition Network : Type := string -> string -> result string bytes.

(** [s.contains(pat)] on bytes. *)
Fixpoint has_infix (pat bs : bytes) : bool :=
  starts_with bs pat || match bs with [] => false | _ :: bs => has_infix pat bs end.

(** ** The node's client of the indexer *)

(** [read_until(b'\n')]: a line with its newline, and the rest. *)
Fixpoint take_line (bs : bytes) : bytes * bytes :=
  match bs with
  | [] => ([], [])
  | b :: bs => if b =? 10 then ([b], bs) else let '(l, rest) := take_line bs in (b :: l, rest)
  end.
Definition not_utf8 : string := "stream did not contain valid UTF-8".
Definition read_line (bs : bytes) : result string (bytes * bytes) :=
  let '(l, rest) := take_line bs in
  ok_or (from_utf8 l) not_utf8;; Ok (l, rest).

(** The header lines up to the empty one; every round takes a byte. *)
Fixpoint skip_headers (fuel : nat) (bs : bytes) : result string bytes :=
  match fuel with
  | O => Ok bs
  | S fuel =>
      '(line, rest) ← read_line bs;
      if bool_decide (line = []) || bool_decide (line = [13; 10]) then Ok rest else skip_headers fuel rest
  end.

Definition read_lines (response : bytes) : result string string :=
  '(status_line, rest) ← read_line response;
  if has_infix (bytes_of_string "200") status_line then
    body ← skip_headers (S (length rest)) rest;
    ok_or (from_utf8 body) not_utf8
  else Err ("indexer returned: " +:+ string_of_bytes (trim_bytes status_line)).

Definition node_get_request (host_port path : string) : string :=
  "GET " +:+ path +:+ " HTTP/1.1" +:+ crlf +:+ "Host: " +:+ host_port +:+ crlf +:+ "Connection: close" +:+ crlf +:+ crlf.
Definition node_http_get (net : Network) (host_port path : string) : result string string :=
  response ← net host_port (node_get_request host_port path); read_lines response.

(** ** The Stratum server's client of the node *)

(** [resp.split("\r\n\r\n").nth(1)] *)
Definition second_part (resp : bytes) : option bytes :=
  p ← split_head resp;
  Some (match split_head p.2 with Some (b, _) => b | None => p.2 end).

Definition colon : Ascii.ascii := ascii_of_byte 58.
Definition http_get_body (net : Network) (url : string) : option string :=
  let url := bytes_of_string url in
  without_scheme ← (if starts_with url (bytes_of_string "http://") then Some (drop 7 url) else None);
  p ← split_byte 47 without_scheme;
  let path := string_of_bytes (47 :: p.2) in
  '(host, port) ← rsplit_once colon (string_of_bytes p.1);
  let address := (host +:+ ":" +:+ port)%string in
  match net address (node_get_request address path) with
  | Err _ => None
  | Ok resp => from_utf8 resp;; string_of_bytes <$> second_part resp
  end.

Section Clients.
Context `{Json}.

(** [fetch_job] *)
Definition fetch_job (net : Network) (ms : Z) (node_rpc treasury : string) : outcome (option (StratumJob * string)) :=
  match http_get_body net ("http://" +:+ node_rpc +:+ "/getblocktemplate/" +:+ treasury) with
  | Some resp => parse_job_response ms resp
  | None => Done None
  end.

(** The text of a submission is serde's. *)
Context (print_submission : Submission -> string).

Definition submit_request (address body : string) : string :=
  "POST /submitblock HTTP/1.1" +:+ crlf +:+ "Host: " +:+ address +:+ crlf
    +:+ "Content-Type: application/json" +:+ crlf
    +:+ "Content-Length: " +:+ dec_string (Z.of_nat (String.length body)) +:+ crlf
    +:+ "Connection: close" +:+ crlf +:+ crlf +:+ body.

(** Text that is not UTF-8 is read as nothing. *)
Definition stratum_node (net : Network) (node_rpc : string) : option (Submission -> bool) :=
  match rsplit_once colon node_rpc with
  | None => None
  | Some (host, port) => Some (λ body,
      let address := (host +:+ ":" +:+ port)%string in
      match net address (submit_request address (print_submission body)) with
      | Err _ => false
      | Ok resp =>
          let resp := match from_utf8 resp with Some _ => resp | None => [] end in
          node_accepted (string_of_bytes (default resp (second_part resp)))
      end)
  end.
Definition stratum_submit_block (net : Network) (node_rpc : string) (job : StratumJob) (n : Z) (raw_template : option string) :
    outcome bool :=
  stratum_submit (stratum_node net node_rpc) job n raw_template.
End Clients.

(** ** The payout scheduler's client of the node and of the wallet *)

Definition payout_rpc_get (net : Network) (rpc path : string) : result string string :=
  response ← net rpc (get_request rpc path); read_pool_response response.

(** [parse_utxos] is serde's reading of the values and maturities. *)
Definition mature_wallet_atoms (net : Network) (parse_utxos : string -> option (list (Z * bool))) (rpc wallet_addr : string) :
    result string Z :=
  body ← payout_rpc_get net rpc ("/getutxos/" +:+ wallet_addr);
  utxos ← ok_or (parse_utxos body) "UTXO parse error"%string;
  Ok (mature_atoms utxos).

(** [wallet_address], from the output of [txmwallet getnewaddress]. *)
Definition wallet_address (output : option CommandOutput) : result string string :=
  match output with
  | None => Err "run txmwallet getnewaddress"%string
  | Some o =>
      if success o then
        let addr := trim (stdout o) in
        reject_if (bool_decide (addr = EmptyString)) "txmwallet getnewaddress returned empty address"%string;; Ok addr
      else Err ("txmwallet getnewaddress failed: " +:+ trim (error_text o))%string
  end.

(** ** The wallet's client of the node *)

(** [t.trim_end_matches('/')] *)
Fixpoint drop_slashes (bs : bytes) : bytes := match bs with 47 :: bs => drop_slashes bs | _ => bs end.
Definition normalize_rpc_url (rpc : string) : string :=
  let t := reverse (drop_slashes (reverse (trim_bytes (bytes_of_string rpc)))) in
  if starts_with t (bytes_of_string "http://") || starts_with t (bytes_of_string "https://") then string_of_bytes t
  else "http://" +:+ string_of_bytes t.

(** What [ureq] answers: a body (or why it cannot be read), a status that is an error, or no connection. *)
Inductive UreqAnswer := Response (body : result string string) | ErrorStatus (code : Z) (detail : string) | NoAnswer (e : string).

Definition wallet_rpc_get (ureq : string -> UreqAnswer) (rpc path : string) : result string string :=
  let url := (normalize_rpc_url rpc +:+ path)%string in
  match ureq url with
  | Response body => map_err body (λ e, "RPC read: " +:+ e)%string
  | ErrorStatus code detail => Err ("RPC error " +:+ dec_string code +:+ ": " +:+ detail)%string
  | NoAnswer e => Err ("RPC connect " +:+ url +:+ ": " +:+ e)%string
  end.
Definition wallet_rpc_post (ureq : string -> string -> UreqAnswer) (rpc path body : string) : result string string :=
  let url := (normalize_rpc_url rpc +:+ path)%string in
  match ureq url body with
  | Response body => map_err body (λ e, "failed to read response: " +:+ e)%string
  | ErrorStatus code detail => Err ("RPC error " +:+ dec_string code +:+ ": " +:+ detail)%string
  | NoAnswer e => Err ("failed to connect to " +:+ url +:+ ": " +:+ e)%string
  end.

(** [format!("{whole}.{frac:08}")] *)
Definition format_atoms (atoms : Z) : string :=
  dec_string (atoms / 100000000) +:+ "." +:+ zero_padded 8 (atoms mod 100000000).

(** * Every client reads what a server answers *)

(** The status texts of the servers: printable, without digits. *)
Definition status_words (text : string) : Prop := Forall (λ b, 32 <= b < 128 /\ is_digit b = false) (bytes_of_string text).

Lemma printable_dec n : 0 <= n -> Forall (λ b, 32 <= b < 128) (bytes_of_string (dec_string n)).
Proof.
  intros Hn. destruct (dec_string_digits n Hn) as [Hd _]. eapply Forall_impl; [exact Hd|]. intros b Hb.
  apply is_digit_spec in Hb. lia.
Qed.

Lemma head_lines_printable code text body :
  0 <= code -> status_words text -> Forall (Forall (λ b, 32 <= b < 128)) (head_lines code text body).
Proof.
  intros Hcode Htext. assert (Forall (λ b, 32 <= b < 128) (bytes_of_string text)) as Hw.
  { eapply Forall_impl; [exact Htext|]. by intros b [? _]. }
  unfold head_lines. rewrite Forall_fmap, !Forall_cons. unfold compose. rewrite !bytes_of_string_app, !Forall_app.
  split_and!; try done; try (apply printable_dec; lia); vm_compute; repeat constructor; discriminate.
Qed.

(** ASCII before any text leaves it as valid as it is. *)
Lemma utf8_valid_after l bs :
  Forall (λ b, 0 <= b < 128) l -> utf8_valid (length (l ++ bs)) (l ++ bs) = utf8_valid (length bs) bs.
Proof.
  induction 1 as [|b l Hb _ IH]; [done|]. cbn [app length utf8_valid]. rewrite utf8_char_ascii by done. exact IH.
Qed.

Lemma from_utf8_after l bs s :
  Forall (λ b, 0 <= b < 128) l -> from_utf8 bs = Some s -> from_utf8 (l ++ bs) = Some (string_of_bytes (l ++ bs)).
Proof. intros Hl. unfold from_utf8. rewrite utf8_valid_after by done. by destruct (utf8_valid _ bs). Qed.

Lemma printable_ascii l : Forall (λ b, 32 <= b < 128) l -> Forall (λ b, 0 <= b < 128) l.
Proof. intros Hl. eapply Forall_impl; [exact Hl|]. cbn. lia. Qed.

Lemma take_line_at l rest : Forall (λ b, b <> 10) l -> take_line (l ++ 10 :: rest) = (l ++ [10], rest).
Proof.
  induction 1 as [|b l Hb _ IH]; [done|]. cbn [app take_line]. rewrite IH. by rewrite (proj2 (Z.eqb_neq b 10)).
Qed.

Lemma read_line_at l rest : Forall (λ b, 32 <= b < 128) l -> read_line (l ++ [13; 10] ++ rest) = Ok (l ++ [13; 10], rest).
Proof.
  intros Hl. assert (Forall (λ b, 0 <= b < 128) ((l ++ [13]) ++ [10])) as Ha.
  { rewrite !Forall_app. split_and!; [by apply printable_ascii|by repeat constructor|by repeat constructor]. }
  unfold read_line. change (l ++ [13; 10] ++ rest) with (l ++ [13] ++ 10 :: rest). rewrite (assoc_L app).
  rewrite take_line_at.
  - unfold from_utf8. rewrite utf8_valid_ascii by done. by rewrite <- (assoc_L app l [13]).
  - rewrite Forall_app. split; [|by repeat constructor]. eapply Forall_impl; [exact Hl|]. cbn. lia.
Qed.

(** The header lines are skipped, the empty line ends them. *)
Lemma skip_headers_lines ls body fuel :
  Forall (Forall (λ b, 32 <= b < 128)) ls -> Forall (λ l, l <> []) ls -> (length ls < fuel)%nat ->
  skip_headers fuel ((ls ≫= λ l, l ++ [13; 10]) ++ [13; 10] ++ body) = Ok body.
Proof.
  intros Hp Hn; revert fuel; induction Hp as [|l ls Hl _ IH]; intros [|fuel] Hf; cbn [length] in Hf; try lia.
  - cbn [mbind list_bind app skip_headers]. change (13 :: 10 :: body) with ([] ++ [13; 10] ++ body).
    rewrite read_line_at by constructor. reflexivity.
  - apply Forall_cons in Hn as [Hne Hn]. rewrite bind_cons, <- !app_assoc. cbn [skip_headers].
    rewrite read_line_at by done. cbn [mbind result_bind].
    rewrite bool_decide_false by by destruct l. rewrite bool_decide_false; [apply IH; [done|lia]|].
    destruct l as [|b l]; [done|]. apply Forall_cons in Hl as [Hb _]. cbn. intros [= -> _]. lia.
Qed.

(** The other lines of the head, each with its end. *)
Lemma join_lines_ends l ls : join_lines (l :: ls) ++ [13; 10] = l ++ [13; 10] ++ (ls ≫= λ l, l ++ [13; 10]).
Proof.
  unfold join_lines. rewrite <- (assoc_L app). f_equal. induction ls as [|k ls IH]; [done|].
  rewrite !bind_cons, <- !(assoc_L app), IH. done.
Qed.

Lemma no_digits_no_200 l : Forall (λ b, is_digit b = false) l -> has_infix [50; 48; 48] l = false.
Proof.
  induction 1 as [|b l Hb _ IH]; [done|]. cbn [has_infix]. rewrite IH, orb_false_r.
  apply bool_decide_eq_false. cbn [length take]. intros [= -> _]. done.
Qed.

Lemma status_line_200 code text :
  code ∈ [200; 400; 403; 404; 500; 502; 503] -> status_words text ->
  has_infix [50; 48; 48] (bytes_of_string ("HTTP/1.1 " +:+ dec_string code +:+ " " +:+ text) ++ [13; 10]) = (code =? 200).
Proof.
  intros Hcode Htext. rewrite !bytes_of_string_app, <- !(assoc_L app).
  assert (has_infix [50; 48; 48] (bytes_of_string text ++ [13; 10]) = false) as Ht.
  { apply no_digits_no_200. rewrite Forall_app. split; [|by repeat constructor].
    eapply Forall_impl; [exact Htext|]. by intros b [_ ?]. }
  remember (bytes_of_string text ++ [13; 10]) as tl eqn:E. clear E.
  repeat (apply elem_of_cons in Hcode as [->|Hcode]; [first [reflexivity|transitivity (has_infix [50; 48; 48] tl); [reflexivity|exact Ht]]|]).
  by apply not_elem_of_nil in Hcode.
Qed.

Lemma read_lines_response code text body :
  code ∈ [200; 400; 403; 404; 500; 502; 503] -> status_words text -> from_utf8 (bytes_of_string body) = Some body ->
  match read_lines (http_response code text body) with Ok b => code = 200 /\ b = body | Err _ => code <> 200 end.
Proof.
  intros Hcode Htext Hbody. pose proof (status_nonneg _ Hcode) as Hnn.
  pose proof (head_lines_printable code text body Hnn Htext) as Hp.
  rewrite http_response_lines. unfold head_lines in *. cbn [fmap list_fmap] in *. apply Forall_cons in Hp as [Hl Hls].
  change CRLF2 with ([13; 10] ++ [13; 10]). rewrite <- (assoc_L app [13; 10]), (assoc_L app), join_lines_ends.
  rewrite <- !(assoc_L app). unfold read_lines. rewrite read_line_at by done. cbn [mbind result_bind].
  change (bytes_of_string "200") with [50; 48; 48]. rewrite status_line_200 by done.
  destruct (Z.eqb_spec code 200) as [->|Hne]; [|done].
  rewrite skip_headers_lines; [|done|rewrite !Forall_cons; split_and!; try done; rewrite bytes_of_string_app; discriminate|].
  - cbn [mbind result_bind]. by rewrite Hbody.
  - rewrite length_app. cbn [length mbind list_bind]. rewrite !length_app. cbn [length]. lia.
Qed.

Lemma plain_status text : status_words text -> Forall (λ b, b <> 13) (bytes_of_string text).
Proof. intros Ht. eapply Forall_impl; [exact Ht|]. cbn. lia. Qed.

(** An answer is text if its body is. *)
Lemma response_utf8 code text body :
  0 <= code -> status_words text -> from_utf8 (bytes_of_string body) = Some body ->
  from_utf8 (http_response code text body) = Some (string_of_bytes (http_response code text body)).
Proof.
  intros Hnn Htext Hbody. rewrite http_response_lines, (assoc_L app).
  eapply from_utf8_after; [|exact Hbody]. rewrite Forall_app. split; [|by repeat constructor].
  pose proof (head_lines_printable code text body Hnn Htext) as Hp. destruct (head_lines code text body) as [|l ls]; [done|].
  apply Forall_cons in Hp as [Hl Hls]. unfold join_lines. rewrite Forall_app. split; [by apply printable_ascii|].
  apply Forall_bind. eapply Forall_impl; [exact Hls|]. intros k Hk. cbn [app].
  apply Forall_cons; split; [lia|]. apply Forall_cons; split; [lia|]. by apply printable_ascii.
Qed.

(** Whatever a server answers is read by every client: the node, which reads line by line, and
    the payout scheduler, which splits at the empty line, give the body exactly when the status is
    200; the Stratum server gives the body whatever the status. *)
Theorem clients_read_answer (net : Network) rpc path code text body :
  net rpc (node_get_request rpc path) = Ok (http_response code text body) ->
  net rpc (get_request rpc path) = Ok (http_response code text body) ->
  code ∈ [200; 400; 403; 404; 500; 502; 503] -> status_words text ->
  from_utf8 (bytes_of_string body) = Some body -> Forall (λ b, b <> 13) (bytes_of_string body) ->
  match node_http_get net rpc path with Ok b => code = 200 /\ b = body | Err _ => code <> 200 end
  /\ payout_rpc_get net rpc path = (if code =? 200 then Ok body else Err ("RPC error: " +:+ body)%string)
  /\ second_part (http_response code text body) = Some (bytes_of_string body).
Proof.
  intros Hn Hp Hcode Htext Hbody Hplain. pose proof (status_nonneg _ Hcode) as Hnn.
  pose proof (split_http_response code text body Hnn (plain_status _ Htext)) as Hs. split_and!.
  - unfold node_http_get. rewrite Hn. by apply read_lines_response.
  - unfold payout_rpc_get, read_pool_response. rewrite Hp. cbn [mbind result_bind].
    rewrite response_utf8 by done. cbn [ok_or mbind result_bind]. rewrite bytes_of_string_of_bytes.
    + rewrite Hs. cbn [ok_or mbind result_bind]. by rewrite response_status, string_of_bytes_of_string.
    + unfold http_response. repeat (apply Forall_app; split); try apply bytes_of_string_ok; by repeat constructor.
  - unfold second_part. rewrite Hs. cbn [mbind option_bind snd].
    assert (split_head (bytes_of_string body) = None) as ->; [|done]. unfold split_head.
    rewrite <- (app_nil_r (bytes_of_string body)), header_end_skip by done. done.
Qed.
